(* ===== verification/_CoqProject ===== *)
-Q . S2P
Prelude.v
Heap.v
GoStrings.v
Regexp.v
GoTime.v
Glob.v
Sha256.v
Meta.v
Api.v
DeepCopy.v
Kube.v
Indexes.v
Fake.v
Scheme.v
Capacity.v
Naming.v
Filters.v
Signals.v
PolicyOwn.v
Workload.v
Bindings.v
Fields.v
Validate.v
Evictgate.v
Webhook.v
WindowPhase.v
ScaleActions.v
Spare.v
Plan.v
PlanSpec.v
Frame.v
Observe.v
WindowController.v
WindowSpec.v
PolicyController.v
PolicySpec.v
Collect.v
Enqueue.v
Lifecycle.v
Metrics.v
Startup.v
System.v
Writes.v
Marks.v
History.v
Relief.v
Ledger.v
Cooldown.v
Teardown.v
Interleave.v
Threads.v
