(* ===== verification/Prelude.v ===== *)
(** * Eviction Guard: a verification development

    Eviction Guard is a Kubernetes operator.  It watches nodes that are about to
    be drained, raises the capacity of the workloads that run there before their
    pods go, holds voluntary evictions back until the extra pods are Ready, lets
    the pods go one at a time, and gives the capacity back afterwards.  This
    development translates its Go code into Rocq definitions, operation by
    operation, and proves what they do.

    ** The program and where it is modelled

    Data.  Meta.v holds the Kubernetes objects the code reads, Api.v the custom
    resources EvictionGuardPolicy and EvictionGuardWindow (api/v1alpha1), as
    values.  DeepCopy.v has the same structs as they lie in memory, and the
    generated copiers, on the memory of Heap.v (blocks, pointers, slices, maps);
    Scheme.v the registration of the types.

    Language and standard library.  GoStrings.v (strings, strconv), Regexp.v
    (the two anchored patterns, by derivatives), GoTime.v (instants, durations,
    ParseDuration, RFC 3339), Glob.v (filepath.Match), Sha256.v.

    The outside world.  Kube.v has the pure library functions ([KubeLib]) and
    the client over an abstract cluster state ([Client]) as type classes, the
    program monad [M W A := W → result A * W * list effect] (state, errors and a
    trace of API writes, metric updates and events), and the laws of both.
    Fake.v is an executable cluster that satisfies the laws; every witness runs
    on it.

    Packages under pkg/, one file each: Capacity.v (replica target), Naming.v
    (window names), Filters.v (node filters), Signals.v (disruption signals),
    PolicyOwn.v (which policy owns a Deployment), Workload.v (pod to
    Deployment), Bindings.v (the scale-backend annotation and the catalog),
    Fields.v (the patchers of integer fields and of stamps), Validate.v
    (admission checks), Evictgate.v (the eviction gate), Metrics.v (the
    instruments).  internal/webhook is Webhook.v.

    internal/controller: Indexes.v (cache indexes), WindowPhase.v (the phase
    machine, maxWindow, requeues), ScaleActions.v (recorded actions, error
    classes, CapacityApplied), Spare.v (pods at risk, spare pods, SpareReady),
    Plan.v (planning, applying with compensation, restoring), Observe.v (events
    and gauges), WindowController.v ([window_Reconcile]), PolicyController.v
    ([policy_Reconcile]), Enqueue.v (which events wake which policy).
    cmd/main.go and the registrations it makes are Startup.v.

    The policy reconciler calls Signals, Filters, PolicyOwn, Workload, Plan and
    writes windows; the window reconciler reads them, counts with Spare,
    decides with WindowPhase, restores with Plan; the gate reads windows and
    nodes.  They meet in the stored windows only.  Writes.v says what both
    reconcilers respect, Marks.v follows the flags the gate reads through them;
    System.v, History.v, Relief.v, Ledger.v, Cooldown.v and Teardown.v put whole
    reconciles together, Interleave.v and Threads.v let them interrupt each
    other.

    ** Correspondence

    A definition has the name of the Go function; where a function is split, the
    parts are named in its comment.  [(T, error)] is [result T].  An [int32] is
    an integer in Z, wrapped by [i32] where the code computes.  A pointer is an
    option; a Go map is a [gmap] ([nil] and empty are identified, all uses treat
    them alike), and where its iteration order is visible it is an argument.  A
    [metav1.Time] is an instant in nanoseconds while the code holds it; the API
    keeps whole seconds, so a patch stores and answers [whole_second] of the
    cooldown it sends.  [time.Now] is the [clock] of the client's state.  An
    object that the code mutates and passes on is threaded through.  A call that
    writes returns the server's answer and leaves an effect that says whether it
    succeeded.  Log lines and contexts have no counterpart.  In a model of values
    a deep copy is the value; DeepCopy.v proves the generated copiers entitled
    to that reading.

    ** What is proved

    - One window reconcile (WindowSpec.v): capacity goes down only when the
      window is torn down, forced, or has nothing at risk and enough spare; the
      cooldown is armed only after a successful restore; a window is released
      only restored; ForcedCool comes first.  An orphaned window never closes (a
      defect).
    - The window's life cycle (Lifecycle.v): an abstract machine of four fields;
      every write of a reconcile is one of its steps (refinement), a successful
      reconcile takes the step the machine says, and two reconciles close a
      window past maxWindow.
    - Cooldowns (Cooldown.v): in every history of whole reconciles, a window is
      closed only after a cooldown ran out that an earlier reconcile of it had
      armed, after restoring what it listed.
    - Capacity (PlanSpec.v, Fields.v): applying raises each field to the maximum
      of its value and the target, restoring lowers it to the minimum of its
      value and the baseline (but for up-only fields, and objects that are gone
      when their turn comes), one undoes the other, baselines survive
      re-planning as long as the plan has steps.  A reconcile of plan.go touches nothing but unstructured
      objects (Frame.v).
    - One policy reconcile (PolicySpec.v, Collect.v): capacity moves only under
      a window that records how to give it back; what a success means; the cap
      on windows; which windows are cleared; when a policy is let go of; the
      caches of the collection loop are invisible and its counts exact.
    - Events (Enqueue.v): what the predicates drop changes nothing, what they
      pass wakes the policies concerned, and the one blind spot they have
      (labels and annotations with an empty value).
    - The gate (Evictgate.v, Webhook.v): exactly which evictions pass, one at a
      time; no error is turned into an admission.
    - The whole (System.v, History.v, Relief.v): what the gate denies the policy
      reconciler counts; in every interleaving of reconciles of both
      controllers, each taken whole, and the rest of the world, an eviction the
      gate lets through was paid for by spare pods or by maxWindow; and conversely a successful
      reconcile that found either opens the gate, so no drain is stuck behind a
      window whose spare is Ready or whose time is up.
    - Deletion (Teardown.v): after a policy is deleted, one successful reconcile of
      each of its windows, whatever whole reconciles come in between, restores
      every workload and removes every window, and the policy is let go of.
    - Interruptions (Threads.v): what the gate lets through was paid for, too,
      when any number of reconciles interleave write by write, read caches that
      lag and stop midway, and the gate lags as well: one of those reconciles
      reported the window SpareReady with the pods it counted when it did, or
      stamped it ForcedCool, having read it open longer than maxWindow.
    - The books (Ledger.v): in every interleaving of whole reconciles, once an
      object's capacity was raised a window owes it, until it is restored, with two
      exceptions that the theorem names and the examples show to be real; and a
      window pays what it owes in its first successful reconcile after it falls
      due.  Write by write this fails: Interleave.v has the counterexample.
    - Interference (Interleave.v): a client whose cluster moves before each write
      satisfies the laws of answers, so what needs no others ([scale_up_recorded],
      [cap_respected], [window_release_safe], [force_cool_first],
      [policy_release_safe], the metrics) holds although reconciles interrupt one
      another; restoring and arming the cooldown can be torn apart, and capacity
      that was raised is then lost track of (a defect).
    - The deep copies (DeepCopy.v): never a panic, the same meaning, no shared
      memory.  After [init] the scheme knows every type (Scheme.v).
    - Every handler's metric updates fit their instruments (Metrics.v); what a
      start registers, in which order (Startup.v).
    - Parsing, naming, filters, ownership, admission: exact characterisations,
      round trips, bounds, and the agreement of routines that must agree.

    ** Assumptions

    Theorems about the parameters assume laws, each a class with an instance for
    the cluster of Fake.v: [KubeLibLaws] (conditions, finalizers, error
    predicates), [FieldLaws] (merge patches, RFC 7386, of integer fields and
    annotations), [AnswerLaws] (what window writes answer), [WindowLaws] (they
    move nothing else), [WindowStoreLaws] (what they store), [StatusLaws] (the status is written by status updates only),
    [PodLaws] (writing windows or workloads is not writing pods), [KeyLaws] and
    [CacheLaws] (objects are read under their names, reads and lists agree),
    [WindowIndexLaws], [LedgerLaws] (JSON merge patches of windows, and finalizers
    that outlive a deletion), [CooldownLaws] (what a write stores of a cooldown), [TeardownLaws] (deletions stand, the last finalizer
    holds an object, lists by index are complete), [ApiCopyLaws] (the copiers of apimachinery),
    [SchemeLaws].  In histories a reconcile is atomic, and a conflict is an error
    answer of the client; Interleave.v and Threads.v drop that.  Reads see the
    state as it is; in Threads.v each kind of object as it was at some moment,
    the same one between two writes of a reconcile.  The clock stands still
    between two writes of a reconcile, though the code may read it more than
    once there.

    ** Fuel and bounds

    Recursion is structural except in three standard library routines, which
    carry fuel: the loops of Glob.v (the pattern's length), the unit loop of
    ParseDuration in GoTime.v (the string's length) and the block loop of
    Sha256.v.  Each round consumes input, and more fuel than that changes no
    answer ([match_loop_fuel], [matchChunk_fuel], [bracket_fuel],
    [parse_groups_fuel], [blocks_fuel]).  Quantities that the code keeps in [int32] wrap; the
    theorems that need it bound them (at most [2^31 - 1] pods or windows).

    ** Not modelled

    Flag parsing and logging; JSON decoding of admission requests, which is an
    argument of the handlers; the HTTP server; event delivery and work queues
    beyond the mappings, which belong to controller-runtime; the Helm charts,
    manifests and tests. *)
From stdpp Require Export base tactics list strings gmap option sorting.
From Stdlib Require Export ZArith Lia.
From stdpp Require Export ssreflect.

#[export] Set Default Goal Selector "!".

Create HintDb evg.

(** ** Tactics shared by every file *)

(** Split every [match], [if] and [decide] of the goal, keeping equations, and
    discharge the branches that are contradictory. *)
Ltac case_all :=
  repeat first
    [ progress simplify_eq/=
    | progress case_decide
    | case_match; try discriminate ].

(** The same for one hypothesis. *)
Ltac case_in H :=
  repeat (progress simplify_eq/= || (case_match; simplify_eq/=)) .

(** Turn boolean tests of the code into arithmetic facts. *)
Ltac zify_bool :=
  repeat match goal with
  | H : (_ <? _)%Z = true |- _ => apply Z.ltb_lt in H
  | H : (_ <? _)%Z = false |- _ => apply Z.ltb_ge in H
  | H : (_ <=? _)%Z = true |- _ => apply Z.leb_le in H
  | H : (_ <=? _)%Z = false |- _ => apply Z.leb_gt in H
  | H : (_ =? _)%Z = true |- _ => apply Z.eqb_eq in H
  | H : (_ =? _)%Z = false |- _ => apply Z.eqb_neq in H
  | H : (_ && _) = true |- _ => apply andb_true_iff in H; destruct H
  | H : (_ || _) = false |- _ => apply orb_false_iff in H; destruct H
  | H : negb _ = true |- _ => apply negb_true_iff in H
  | H : negb _ = false |- _ => apply negb_false_iff in H
  end.

(** ** Machine integers: Go's [int32] as [Z] with wrap-around *)

Definition max_i32 : Z := 2147483647.
Definition min_i32 : Z := -2147483648.
Definition in_i32 (z : Z) : Prop := (min_i32 <= z <= max_i32)%Z.
Definition i32 (z : Z) : Z := ((z + 2147483648) mod 4294967296 - 2147483648)%Z.

#[global] Instance in_i32_dec z : Decision (in_i32 z).
Proof. unfold in_i32. apply _. Defined.

Lemma i32_range z : in_i32 (i32 z).
Proof.
  unfold in_i32, i32, min_i32, max_i32.
  pose proof (Z.mod_pos_bound (z + 2147483648) 4294967296 ltac:(lia)). lia.
Qed.

Lemma i32_id z : in_i32 z → i32 z = z.
Proof.
  unfold in_i32, i32, min_i32, max_i32. intros H.
  rw Z.mod_small; lia.
Qed.

Lemma i32_add_wrap z : i32 (z + 4294967296) = i32 z.
Proof.
  unfold i32. replace (z + 4294967296 + 2147483648)%Z
    with (z + 2147483648 + 1 * 4294967296)%Z by lia.
  rw Z.mod_add; [lia | done].
Qed.

#[export] Hint Resolve i32_range : evg.

(** [max_i64] and saturation, for Go's [time.Duration]. *)
Definition max_i64 : Z := 9223372036854775807.
Definition min_i64 : Z := -9223372036854775808.

(** ** Keep-first deduplication

    The loops of the source that carry a [seen] map and skip an element whose
    key was already seen all compute this function. *)
Section dedup.
Context {A : Type} (key : A → string).

Fixpoint dedup_by (seen : gset string) (l : list A) : list A :=
match l with
| [] => []
| x :: l =>
if decide (key x ∈ seen) then dedup_by seen l
else x :: dedup_by ({[key x]} ∪ seen) l
end.

Lemma elem_of_dedup_by seen l x :
x ∈ dedup_by seen l → x ∈ l ∧ key x ∉ seen.
Proof.
revert seen. induction l as [|y l IH]; intros seen; simpl; [by intros ?%not_elem_of_nil|].
case_decide.
- intros [??]%IH. split; [by constructor | done].
- rw !elem_of_cons. intros [-> | [? ?]%IH]; set_solver.
Qed.

Lemma dedup_by_keys seen l k :
k ∈ key <$> dedup_by seen l ↔ k ∈ key <$> l ∧ k ∉ seen.
Proof.
revert seen. induction l as [|y l IH]; intros seen; simpl; [set_solver|].
case_decide; simpl; rw ?elem_of_cons IH; [set_solver|].
rw elem_of_union elem_of_singleton.
destruct (decide (k = key y)); set_solver.
Qed.

Lemma dedup_by_NoDup seen l : NoDup (key <$> dedup_by seen l).
Proof.
revert seen. induction l as [|y l IH]; intros seen; simpl; [constructor|].
case_decide; [done|]. simpl. constructor; [|done].
rw dedup_by_keys. set_solver.
Qed.

Lemma dedup_by_sublist seen l : dedup_by seen l `sublist_of` l.
Proof.
revert seen. induction l as [|y l IH]; intros seen; simpl; [constructor|].
case_decide; by constructor.
Qed.

(** Nothing is dropped when the keys are already distinct. *)
Lemma dedup_by_id seen l :
NoDup (key <$> l) → (∀ x, x ∈ l → key x ∉ seen) → dedup_by seen l = l.
Proof.
revert seen. induction l as [|y l IH]; intros seen Hnd Hseen; simpl; [done|].
simpl in Hnd. apply NoDup_cons in Hnd as [Hy Hnd].
rw decide_False; [|apply Hseen; left].
f_equal. apply IH; [done|]. intros x Hx.
rw elem_of_union elem_of_singleton. intros [Heq | Hin].
- apply Hy. rw -Heq. apply list_elem_of_fmap. eauto.
- revert Hin. apply Hseen. by right.
Qed.
End dedup.

(** ** Sorted string lists: Go's [sort.Strings] *)

Definition sort_strings (l : list string) : list string := merge_sort String.le l.

Lemma sort_strings_perm l : sort_strings l ≡ₚ l.
Proof. apply merge_sort_Permutation. Qed.

Lemma sort_strings_sorted l : StronglySorted String.le (sort_strings l).
Proof. apply StronglySorted_merge_sort; apply _. Qed.

Lemma elem_of_sort_strings l x : x ∈ sort_strings l ↔ x ∈ l.
Proof. by rw sort_strings_perm. Qed.

Lemma sort_strings_NoDup l : NoDup l → NoDup (sort_strings l).
Proof. by rw sort_strings_perm. Qed.

(** The result depends only on the elements: map iteration order is invisible. *)
Lemma sort_strings_unique l1 l2 : l1 ≡ₚ l2 → sort_strings l1 = sort_strings l2.
Proof.
  intros Hp. apply (StronglySorted_unique String.le).
  - apply sort_strings_sorted.
  - apply sort_strings_sorted.
  - by rw !sort_strings_perm.
Qed.

(** The head of a sorted list is its minimum. *)
Lemma sort_strings_head l x l' :
  sort_strings l = x :: l' → x ∈ l ∧ ∀ y, y ∈ l → String.le x y.
Proof.
  intros Heq. split.
  - apply elem_of_sort_strings. rw Heq. left.
  - intros y Hy%elem_of_sort_strings. rw Heq in Hy.
    pose proof (sort_strings_sorted l) as Hs. rw Heq in Hs.
    apply StronglySorted_inv in Hs as [_ Hall].
    apply elem_of_cons in Hy as [-> | Hy]; [done|].
    by eapply (proj1 (Forall_forall _ _) Hall).
Qed.

(** Go's [p < q] on strings. *)
Definition string_ltb (a b : string) : bool := String.ltb a b.

Lemma string_ltb_le a b : string_ltb a b = negb (String.leb b a).
Proof.
  unfold string_ltb, String.ltb, String.leb.
  rw (String.compare_antisym a b).
  by destruct (String.compare b a).
Qed.

Lemma string_ltb_true a b : string_ltb a b = true ↔ String.le a b ∧ a ≠ b.
Proof.
  rw string_ltb_le negb_true_iff. unfold String.le. split.
  - intros Hba. destruct (String.leb_total a b) as [Hab | Hab]; [|congruence].
    rw Hab. split; [done|]. intros ->. congruence.
  - intros [Hab%Is_true_true Hne].
    destruct (String.leb b a) eqn:Hba; [|done].
    exfalso. apply Hne. by apply String.leb_antisym.
Qed.

Lemma string_ltb_false a b : string_ltb a b = false ↔ String.le b a.
Proof. rw string_ltb_le negb_false_iff. unfold String.le. by rw Is_true_true. Qed.

Lemma or_iff (A A' B B' : Prop) : (A ↔ A') → (B ↔ B') → (A ∨ B ↔ A' ∨ B').
Proof. tauto. Qed.

(** ** Boolean predicates over lists *)

Lemma existsb_elem {A} (f : A → bool) (l : list A) :
  existsb f l = true ↔ ∃ x, x ∈ l ∧ f x = true.
Proof.
  rw existsb_exists. by setoid_rewrite list_elem_of_In.
Qed.

Lemma existsb_elem_false {A} (f : A → bool) (l : list A) :
  existsb f l = false ↔ ∀ x, x ∈ l → f x = false.
Proof.
  rw -not_true_iff_false existsb_elem. split.
  - intros H x Hx. destruct (f x) eqn:E; [|done]. destruct H. eauto.
  - intros H (x & Hx & Hf). rw (H x Hx) in Hf. done.
Qed.

Lemma forallb_elem {A} (f : A → bool) (l : list A) :
  forallb f l = true ↔ ∀ x, x ∈ l → f x = true.
Proof. rw forallb_forall. by setoid_rewrite <- list_elem_of_In. Qed.

Lemma elem_of_concat {A} (x : A) (ls : list (list A)) : x ∈ concat ls ↔ ∃ l, x ∈ l ∧ l ∈ ls.
Proof.
  rw list_elem_of_In in_concat. split; intros (l & H1 & H2); exists l;
    revert H1 H2; rewrite -!list_elem_of_In; tauto.
Qed.

(** A search loop meets the head or goes on. *)
Lemma exists_elem_cons {A} (P : A → Prop) x l :
  (∃ y, y ∈ x :: l ∧ P y) ↔ P x ∨ ∃ y, y ∈ l ∧ P y.
Proof.
  split.
  - intros (y & [-> | Hy]%elem_of_cons & HP); eauto.
  - intros [HP | (y & Hy & HP)]; [exists x | exists y]; rewrite elem_of_cons; eauto.
Qed.

Lemma exists_elem_nil {A} (P : A → Prop) : ¬ ∃ y, y ∈ [] ∧ P y.
Proof. intros (y & []%not_elem_of_nil & _). Qed.

(** [m[k]] of a Go [map[string]string]: the zero value when the key is absent. *)
Definition mget (m : gmap string string) (k : string) : string := default "" (m !! k).

Definition str_eqb (a b : string) : bool := bool_decide (a = b).

(** ** Transition systems *)
Section closure.
Context {S : Type} (step : S → S → Prop).

Inductive reach : S → S → Prop :=
| reach_refl s : reach s s
| reach_step s1 s2 s3 : reach s1 s2 → step s2 s3 → reach s1 s3.

Lemma reach_invariant (I : S → Prop) :
(∀ s s', I s → step s s' → I s') → ∀ s s', I s → reach s s' → I s'.
Proof. intros Hstep s s' Hs. induction 1; eauto. Qed.

Lemma reach_trans s1 s2 s3 : reach s1 s2 → reach s2 s3 → reach s1 s3.
Proof. intros H1 H2. revert H1. induction H2; eauto using reach_step. Qed.
End closure.

#[export] Hint Constructors reach : evg.

(** A function that comes back to where it was stays on its cycle. *)
Lemma iter_cycle {A} (f : A → A) (x : A) (a p n : nat) :
  (0 < p)%nat → Nat.iter (a + p) f x = Nat.iter a f x →
  ∃ k, (k < a + p)%nat ∧ Nat.iter n f x = Nat.iter k f x.
Proof.
  intros Hp Hc. induction n as [|n (k & Hk & IH)]; [by exists O; split; [lia|]|].
  destruct (decide (S k = a + p)%nat) as [He|He].
  - exists a. split; [lia|]. by rewrite -Hc -He /= IH.
  - exists (S k). split; [lia|]. by rewrite /= IH.
Qed.
