(* ===== verification/Heap.v ===== *)
(** * Memory: pointers, slices and maps of Go

    The rest of the development handles Go values; the generated deep copies are
    about where these values are stored.  A memory is a finite map of blocks: an
    array per allocation of a type, or a map.  A program on it is a state
    transformer that panics on a nil or dangling access.  What a pointer-level
    value stands for is the relation [means]; a copier is right when the copy
    means the same in memory that it allocated itself. *)
From S2P Require Import Prelude.

Abbreviation loc := positive.
Abbreviation heap B := (gmap loc B).

(** Programs on the memory; [None] is a panic. *)
Definition C (B A : Type) : Type := heap B → option (A * heap B).

#[export] Instance C_ret {B} : MRet (C B) := λ A a h, Some (a, h).
#[export] Instance C_bind {B} : MBind (C B) := λ A A' f m h, match m h with Some (a, h') => f a h' | None => None end.

(** ** Pointers, slices, maps *)

Inductive ptr (T : Type) := nilp | Ptr (l : loc) (i : nat).
Inductive slice (T : Type) := nils | Slice (l : loc) (off len : nat).
Inductive gomap (T : Type) := nilm | Map (l : loc).
Arguments nilp {T}.
Arguments Ptr {T} _ _.
Arguments nils {T}.
Arguments Slice {T} _ _ _.
Arguments nilm {T}.
Arguments Map {T} _.

(** Which blocks hold values of which type. *)
Class Block (B T : Type) := {
  to_block : list T → B;
  of_block : B → option (list T);
  of_to_block l : of_block (to_block l) = Some l
}.
Class MapBlock (B T : Type) := {
  to_map : gmap string T → B;
  of_map : B → option (gmap string T);
  of_to_map m : of_map (to_map m) = Some m
}.
Class Zero (T : Type) := zero : T.

Section memory.
Context {B : Type}.

Definition array_at {T} `{Block B T} (h : heap B) (l : loc) : option (list T) := h !! l ≫= of_block.

Definition alloc (b : B) : C B loc := λ h, let l := fresh (dom h) in Some (l, <[l := b]> h).

(** [*p] *)
Definition load {T} `{Block B T} (p : ptr T) : C B T := λ h,
  match p with
  | nilp => None
  | Ptr l i => v ← array_at h l ≫= (.!! i); Some (v, h)
  end.

(** [*p = v] *)
Definition store {T} `{Block B T} (p : ptr T) (v : T) : C B unit := λ h,
  match p with
  | nilp => None
  | Ptr l i =>
      match array_at (T := T) h l with
      | Some xs => if decide (i < length xs)%nat then Some ((), <[l := to_block (<[i := v]> xs)]> h) else None
      | None => None
      end
  end.

(** [new(T)] *)
Definition new {T} `{Block B T, Zero T} : C B (ptr T) := l ← alloc (to_block [zero : T]); mret (Ptr l 0).

(** [make([]T, n)] *)
Definition make {T} `{Block B T, Zero T} (n : nat) : C B (slice T) := l ← alloc (to_block (replicate n (zero : T))); mret (Slice l 0 n).

(** [&s[i]] *)
Definition elem {T} (s : slice T) (i : nat) : C B (ptr T) := λ h,
  match s with
  | nils => None
  | Slice l off len => if decide (i < len)%nat then Some (Ptr l (off + i), h) else None
  end.

Definition slice_len {T} (s : slice T) : nat := match s with nils => O | Slice _ _ n => n end.

(** The elements of a slice: a part of its array. *)
Definition elems_at {T} `{Block B T} (h : heap B) (s : slice T) : option (list T) :=
  match s with
  | nils => Some []
  | Slice l off len =>
      match array_at h l with
      | Some xs => if decide (off + len <= length xs)%nat then Some (take len (drop off xs)) else None
      | None => None
      end
  end.

(** [copy(dst, src)] *)
Definition copy_builtin {T} `{Block B T} (dst src : slice T) : C B unit := λ h,
  match dst, elems_at h src with
  | nils, Some _ => Some ((), h)
  | Slice l off len, Some ys =>
      match array_at (T := T) h l with
      | Some xs =>
          let ys := take len ys in
          Some ((), <[l := to_block (take off xs ++ ys ++ drop (off + length ys) xs)]> h)
      | None => None
      end
  | _, None => None
  end.

(** [make(map[string]T)], [m[k] = v] *)
Definition make_map {T} `{MapBlock B T} : C B (gomap T) := l ← alloc (to_map (∅ : gmap string T)); mret (Map l).
Definition map_at {T} `{MapBlock B T} (h : heap B) (m : gomap T) : option (gmap string T) :=
  match m with nilm => Some ∅ | Map l => h !! l ≫= of_map end.
Definition put {T} `{MapBlock B T} (m : gomap T) (k : string) (v : T) : C B unit := λ h,
  match m with
  | nilm => None
  | Map l => e ← h !! l ≫= of_map; Some ((), <[l := to_map (<[k := v]> e)]> h)
  end.

(** ** The shapes of a generated copier *)

(** A non-nil pointer gets a new cell, filled from what it points to: the body
    of every [DeepCopy]. *)
Definition copy_ptr {T} `{Block B T, Zero T} (f : T → C B T) (p : ptr T) : C B (ptr T) :=
  match p with
  | nilp => mret nilp
  | _ => q ← new; v ← load p; v' ← f v; _ ← store q v'; mret q
  end.

(** A loop over the indices of the source that copies element by element. *)
Fixpoint copy_elems {T} `{Block B T} (f : T → C B T) (src dst : slice T) (i n : nat) : C B unit :=
  match n with
  | O => mret ()
  | S n => p ← elem src i; v ← load p; v' ← f v; q ← elem dst i; _ ← store q v'; copy_elems f src dst (S i) n
  end.

Definition copy_slice {T} `{Block B T, Zero T} (f : T → C B T) (s : slice T) : C B (slice T) :=
  match s with
  | nils => mret nils
  | Slice _ _ n => t ← make n; _ ← copy_elems f s t 0 n; mret t
  end.

(** [make], then the builtin [copy]. *)
Definition clone_slice {T} `{Block B T, Zero T} (s : slice T) : C B (slice T) :=
  match s with
  | nils => mret nils
  | Slice _ _ n => t ← make n; _ ← copy_builtin t s; mret t
  end.

(** A loop over the entries that stores what [val.DeepCopy()] points to; the order of
    the iteration is an argument of the loop. *)
Fixpoint copy_entries {T} `{Block B T, Zero T, MapBlock B T} (f : T → C B T) (entries : list (string * T)) (out : gomap T) : C B unit :=
  match entries with
  | [] => mret ()
  | (key, val) :: rest => q ← new; v ← f val; _ ← store q v; v' ← load q; _ ← put out key v'; copy_entries f rest out
  end.

Definition copy_map {T} `{Block B T, Zero T, MapBlock B T} (order : gmap string T → list (string * T))
  (f : T → C B T) (m : gomap T) : C B (gomap T) :=
  match m with
  | nilm => mret nilm
  | _ => λ h, e ← map_at h m; (out ← make_map; _ ← copy_entries f (order e) out; mret out) h
  end.
End memory.

(** ** What a pointer-level value stands for *)

Class Means (B T A : Type) := {
  means : heap B → T → A → Prop;
  means_mono h h' x a : h ⊆ h' → means h x a → means h' x a
}.

(** Values without pointers. *)
Class Flat (B T A : Type) {M : Means B T A} : Prop := flat : ∀ h h' x a, means h x a → means h' x a.

(** A copier leaves the memory as it was, and the copy means the same in the
    memory it added. *)
Definition copies {B T A} {M : Means B T A} (f : T → C B T) : Prop :=
  ∀ h x a, means h x a → ∃ x' h', f x h = Some (x', h ∪ h') ∧ h ##ₘ h' ∧ means h' x' a.

Section copying.
Context {B : Type}.

Lemma array_at_mono {T} `{!Block B T} (h h' : heap B) l (xs : list T) :
  h ⊆ h' → array_at h l = Some xs → array_at h' l = Some xs.
Proof.
  unfold array_at. intros Hs. destruct (h !! l) as [b|] eqn:E; [|done]. by rewrite (lookup_weaken _ _ _ _ E Hs).
Qed.

Lemma elems_at_mono {T} `{!Block B T} (h h' : heap B) (s : slice T) xs :
  h ⊆ h' → elems_at h s = Some xs → elems_at h' s = Some xs.
Proof.
  intros Hs. destruct s as [|l off n]; [done|]. unfold elems_at.
  destruct (array_at h l) as [ys|] eqn:E; [|done]. by rewrite (array_at_mono _ _ _ _ Hs E).
Qed.

Definition ptr_means {T A} `{!Block B T} `{!Means B T A} (h : heap B) (p : ptr T) (o : option A) : Prop :=
  match p, o with
  | nilp, None => True
  | Ptr l i, Some a => ∃ xs x, array_at h l = Some xs ∧ xs !! i = Some x ∧ means h x a
  | _, _ => False
  end.

#[export] Program Instance means_ptr {T A} `{!Block B T} `{!Means B T A} : Means B (ptr T) (option A) := {
  means := ptr_means
}.
Next Obligation.
  intros T A ?? h h' [|l i] [a|] Hs; try done. cbn. intros (xs & x & Hl & Hx & Ha).
  exists xs, x. split; [by eapply array_at_mono|]. split; [done | by eapply means_mono].
Qed.

#[export] Program Instance means_slice {T A} `{!Block B T} `{!Means B T A} : Means B (slice T) (list A) := {
  means h s l := ∃ xs, elems_at h s = Some xs ∧ Forall2 (means h) xs l
}.
Next Obligation.
  intros T A ?? h h' s l Hs (xs & He & Hf). exists xs. split; [by eapply elems_at_mono|].
  eapply Forall2_impl; [exact Hf|]. intros x a. by apply means_mono.
Qed.

#[export] Program Instance means_map {T A} `{!MapBlock B T} `{!Means B T A} : Means B (gomap T) (gmap string A) := {
  means h m am := ∃ xm, map_at h m = Some xm ∧ map_Forall2 (λ _, means h) xm am
}.
Next Obligation.
  intros T A ?? h h' m am Hs (xm & He & Hf). exists xm. split.
  - destruct m as [|l]; [done|]. cbn in He |- *. destruct (h !! l) as [b|] eqn:E; [|done]. by rewrite (lookup_weaken _ _ _ _ E Hs).
  - intros k. specialize (Hf k). inversion Hf; constructor. by eapply means_mono.
Qed.

(** ** Fresh memory *)

Lemma bind_run {A A'} (m : C B A) (k : A → C B A') h a h' : m h = Some (a, h') → (m ≫= k) h = k a h'.
Proof. unfold mbind, C_bind. by intros ->. Qed.

Lemma load_run {T} `{!Block B T} (h : heap B) l i (xs : list T) x :
  array_at h l = Some xs → xs !! i = Some x → load (Ptr l i) h = Some (x, h).
Proof. unfold load. intros ->. cbn. by intros ->. Qed.

Lemma alloc_run (b : B) (h : heap B) : ∃ l, alloc b h = Some (l, h ∪ {[ l := b ]}) ∧ h !! l = None.
Proof.
  unfold alloc. exists (fresh (dom h)). assert (h !! fresh (dom h) = None) as Hl by (apply not_elem_of_dom, is_fresh).
  split; [|done]. by rewrite -insert_union_r // right_id_L.
Qed.

Lemma new_run {T} `{!Block B T, !Zero T} (h : heap B) :
  ∃ l, new h = Some (Ptr l 0, h ∪ {[ l := to_block [zero : T] ]}) ∧ h !! l = None.
Proof. destruct (alloc_run (to_block [zero : T]) h) as (l & H & Hl). exists l. unfold new. by rewrite (bind_run _ _ _ _ _ H). Qed.

Lemma make_run {T} `{!Block B T, !Zero T} n (h : heap B) :
  ∃ l, make n h = Some (Slice l 0 n, h ∪ {[ l := to_block (replicate n (zero : T)) ]}) ∧ h !! l = None.
Proof.
  destruct (alloc_run (to_block (replicate n (zero : T))) h) as (l & H & Hl). exists l. unfold make. by rewrite (bind_run _ _ _ _ _ H).
Qed.

Lemma array_at_fresh {T} `{!Block B T} (h h' : heap B) l (xs : list T) :
  h !! l = None → array_at (h ∪ ({[ l := to_block xs ]} ∪ h')) l = Some xs.
Proof. intros Hl. unfold array_at. rewrite lookup_union_r // (lookup_union_Some_l _ _ _ (to_block xs)) ?lookup_singleton_eq //. apply of_to_block. Qed.

Lemma store_run {T} `{!Block B T} (h h' : heap B) l i (xs : list T) v :
  h !! l = None → (i < length xs)%nat →
  store (Ptr l i) v (h ∪ ({[ l := to_block xs ]} ∪ h')) = Some ((), h ∪ ({[ l := to_block (<[i := v]> xs) ]} ∪ h')).
Proof.
  intros Hl Hi. unfold store. rewrite array_at_fresh // decide_True //. do 2 f_equal.
  rewrite insert_union_r //. f_equal. by rewrite insert_union_l insert_singleton_eq.
Qed.

(** A copier run while a block [l] is being filled. *)
Lemma copies_run {T A} {M : Means B T A} (f : T → C B T) (h h' : heap B) b l x a :
  copies f → means h x a → h !! l = None → h ##ₘ h' → h' !! l = None →
  ∃ x' h'', f x (h ∪ ({[ l := b ]} ∪ h')) = Some (x', h ∪ ({[ l := b ]} ∪ (h' ∪ h'')))
    ∧ h ##ₘ (h' ∪ h'') ∧ (h' ∪ h'') !! l = None ∧ h' ⊆ h' ∪ h'' ∧ means (h' ∪ h'') x' a.
Proof.
  intros Hf Hx Hl Hd Hl'.
  destruct (Hf (h ∪ ({[ l := b ]} ∪ h')) x a) as (x' & h'' & Hrun & Hd' & Hx').
  { eapply means_mono; [|exact Hx]. apply map_union_subseteq_l. }
  apply map_disjoint_union_l in Hd' as [Hd1 Hd2]. apply map_disjoint_union_l in Hd2 as [Hd2 Hd3].
  apply map_disjoint_singleton_l in Hd2. exists x', h''. split; [by rewrite Hrun -!assoc_L|].
  split; [by apply map_disjoint_union_r|]. split; [by apply lookup_union_None|]. split; [apply map_union_subseteq_l|].
  eapply means_mono; [|exact Hx']. by apply map_union_subseteq_r.
Qed.

Lemma fresh_disjoint (h h' : heap B) l b : h !! l = None → h ##ₘ h' → h ##ₘ ({[ l := b ]} ∪ h').
Proof. intros ??. apply map_disjoint_union_r. split; [by apply map_disjoint_singleton_r | done]. Qed.

Lemma copies_ptr {T A} `{!Block B T, !Zero T} {M : Means B T A} (f : T → C B T) : copies f → copies (copy_ptr f).
Proof.
  intros Hf h [|l0 i] [a|]; cbn; try done.
  { intros _. exists nilp, ∅. rewrite right_id_L. split; [done|]. split; [solve_map_disjoint | done]. }
  intros (xs & x & Hl0 & Hx & Ha). unfold copy_ptr.
  destruct (new_run h) as (l & Hnew & Hl). rewrite (bind_run _ _ _ _ _ Hnew).
  rewrite (bind_run _ _ _ _ _ (load_run _ _ _ _ _ (array_at_mono h _ _ _ (map_union_subseteq_l _ _) Hl0) Hx)).
  destruct (copies_run f h ∅ (to_block [zero : T]) l x a Hf Ha Hl) as (x' & h1 & Hr & Hd & Hl1 & _ & Hx');
    [solve_map_disjoint | done|]. rewrite right_id_L in Hr. rewrite (bind_run _ _ _ _ _ Hr).
  rewrite (bind_run _ _ _ _ _ (store_run h _ l 0 [zero : T] x' Hl ltac:(cbn; lia))). rewrite left_id_L in Hd, Hl1, Hx' |- *.
  eexists (Ptr l 0), _. split; [done|]. split; [by apply fresh_disjoint|]. exists [x'], x'. split; [|split; [done|]].
  - pose proof (array_at_fresh ∅ h1 l [x'] eq_refl) as Hat. by rewrite left_id_L in Hat.
  - eapply means_mono; [|exact Hx']. apply map_union_subseteq_r. by apply map_disjoint_singleton_l.
Qed.

(** *** Slices *)

Lemma elems_load {T} `{!Block B T} (h h' : heap B) (s : slice T) xs i x :
  elems_at h s = Some xs → xs !! i = Some x → h ⊆ h' →
  ∃ p, elem s i h' = Some (p, h') ∧ load p h' = Some (x, h').
Proof.
  destruct s as [|l off n]; cbn; [by intros [= <-]|].
  destruct (array_at h l) as [ys|] eqn:E; [|done]. case_decide as Hle; [|done]. intros [= <-] Hx Hs.
  apply lookup_take_Some in Hx as [Hx Hi]. rewrite lookup_drop in Hx. exists (Ptr l (off + i)). split; [by case_decide|].
  eapply load_run; [by eapply array_at_mono | done].
Qed.

Lemma elems_len {T} `{!Block B T} (h : heap B) (s : slice T) xs : elems_at h s = Some xs → length xs = slice_len s.
Proof.
  destruct s as [|l off n]; cbn; [by intros [= <-]|]. destruct (array_at h l) as [ys|]; [|done]. case_decide; [|done].
  intros [= <-]. rewrite length_take length_drop. lia.
Qed.

(** The loop, with the first [i] elements done. *)
Lemma copy_elems_run {T A} `{!Block B T} {M : Means B T A} (f : T → C B T) (h : heap B) src xs vals l n i cs acc :
  copies f → elems_at h src = Some xs → Forall2 (means h) xs vals → h !! l = None →
  h ##ₘ acc → acc !! l = None → length cs = length xs → (i + n = length xs)%nat →
  (∀ j c a, (j < i)%nat → cs !! j = Some c → vals !! j = Some a → means acc c a) →
  ∃ cs' acc', copy_elems f src (Slice l 0 (length xs)) i n (h ∪ ({[ l := to_block cs ]} ∪ acc))
                = Some ((), h ∪ ({[ l := to_block cs' ]} ∪ acc'))
    ∧ h ##ₘ acc' ∧ acc' !! l = None ∧ Forall2 (means acc') cs' vals.
Proof.
  intros Hf Hsrc Hall Hl. revert i cs acc. induction n as [|n IH]; intros i cs acc Hd Hl1 Hlen Hi Hdone; cbn [copy_elems].
  { exists cs, acc. split; [done|]. split; [done|]. split; [done|]. apply Forall2_same_length_lookup. split.
    - rewrite Hlen. by eapply Forall2_length.
    - intros j c a Hc Ha. eapply Hdone; try done. apply lookup_lt_Some in Hc. lia. }
  destruct (lookup_lt_is_Some_2 xs i) as [x Hx]; [lia|]. destruct (Forall2_lookup_l _ _ _ _ _ Hall Hx) as (a & Ha & Hxa).
  destruct (elems_load h (h ∪ ({[ l := to_block cs ]} ∪ acc)) _ _ _ _ Hsrc Hx (map_union_subseteq_l _ _)) as (p & Hp & Hload).
  rewrite (bind_run _ _ _ _ _ Hp) (bind_run _ _ _ _ _ Hload).
  destruct (copies_run f h acc (to_block cs) l x a Hf Hxa Hl Hd Hl1) as (x' & h1 & Hr & Hd' & Hl' & Hsub & Hx').
  rewrite (bind_run _ _ _ _ _ Hr).
  assert (∀ h' : heap B, elem (Slice l 0 (length xs) : slice T) i h' = Some (Ptr l i, h')) as Hq by (intros h'; cbn; rewrite decide_True //; lia).
  rewrite (bind_run _ _ _ _ _ (Hq _)) (bind_run _ _ _ _ _ (store_run h _ l i cs x' Hl ltac:(lia))).
  apply IH; [done | done | by rewrite length_insert | lia |]. intros j c b Hj Hc Hb. destruct (decide (j = i)) as [->|Hne].
  - rewrite list_lookup_insert_eq in Hc; [|lia]. by simplify_eq.
  - rewrite list_lookup_insert_ne // in Hc. eapply means_mono; [exact Hsub|]. apply (Hdone j); [lia | done..].
Qed.

Lemma means_fresh_slice {T A} `{!Block B T} {M : Means B T A} (h : heap B) l (cs : list T) acc vals :
  h !! l = None → acc !! l = None → Forall2 (means acc) cs vals →
  means ({[ l := to_block cs ]} ∪ acc) (Slice l 0 (length cs)) vals.
Proof.
  intros Hl Hl' Hf. exists cs. split.
  - cbn. pose proof (array_at_fresh ∅ acc l cs eq_refl) as Hat. rewrite left_id_L in Hat. rewrite Hat.
    rewrite decide_True; [|lia]. by rewrite drop_0 firstn_all.
  - eapply Forall2_impl; [exact Hf|]. intros x a. apply means_mono, map_union_subseteq_r. by apply map_disjoint_singleton_l.
Qed.

Lemma copies_slice {T A} `{!Block B T, !Zero T} {M : Means B T A} (f : T → C B T) : copies f → copies (copy_slice f).
Proof.
  intros Hf h [|l0 off n] vals; cbn [means means_slice].
  { intros (xs & [= <-] & ->%Forall2_nil_inv_l). exists nils, ∅. rewrite right_id_L. split; [done|].
    split; [solve_map_disjoint | by exists []]. }
  intros (xs & Hxs & Hall). pose proof (elems_len _ _ _ Hxs) as Hn. cbn in Hn. unfold copy_slice.
  destruct (make_run n h) as (l & Hmk & Hl). rewrite (bind_run _ _ _ _ _ Hmk).
  destruct (copy_elems_run f h (Slice l0 off n) xs vals l n 0 (replicate n zero) ∅ Hf Hxs Hall Hl) as (cs & acc & Hr & Hd & Hl' & Hcs);
    [solve_map_disjoint | done | by rewrite length_replicate | by rewrite Hn | by intros; lia|].
  rewrite right_id_L Hn in Hr. rewrite (bind_run _ _ _ _ _ Hr). eexists (Slice l 0 n), _. split; [done|].
  split; [by apply fresh_disjoint|]. assert (n = length cs) as ->; [|by eapply means_fresh_slice].
  rewrite -Hn. apply Forall2_length in Hcs, Hall. congruence.
Qed.

Lemma copies_clone {T A} `{!Block B T, !Zero T} {M : Means B T A} {F : Flat B T A} : copies (clone_slice : slice T → C B (slice T)).
Proof.
  intros h [|l0 off n] vals; cbn [means means_slice].
  { intros (xs & [= <-] & ->%Forall2_nil_inv_l). exists nils, ∅. rewrite right_id_L. split; [done|].
    split; [solve_map_disjoint | by exists []]. }
  intros (xs & Hxs & Hall). pose proof (elems_len _ _ _ Hxs) as Hn. cbn in Hn. unfold clone_slice.
  destruct (make_run n h) as (l & Hmk & Hl). rewrite (bind_run _ _ _ _ _ Hmk).
  assert (copy_builtin (Slice l 0 n) (Slice l0 off n) (h ∪ {[ l := to_block (replicate n (zero : T)) ]})
          = Some ((), h ∪ ({[ l := to_block xs ]} ∪ ∅))) as Hr.
  { unfold copy_builtin. rewrite (elems_at_mono h _ _ _ (map_union_subseteq_l _ _) Hxs).
    rewrite -(right_id_L ∅ (∪) {[ l := to_block (replicate n (zero : T)) ]}) array_at_fresh //.
    rewrite (take_ge xs n); [|lia]. rewrite /= drop_ge ?length_replicate; [|lia]. rewrite app_nil_r.
    do 2 f_equal. rewrite insert_union_r // !right_id_L. by rewrite insert_singleton_eq. }
  rewrite (bind_run _ _ _ _ _ Hr). eexists (Slice l 0 n), _. split; [done|].
  split; [apply fresh_disjoint; [done | solve_map_disjoint]|]. rewrite -Hn. eapply means_fresh_slice; [done..|].
  eapply Forall2_impl; [exact Hall|]. intros x a. apply flat.
Qed.

(** *** Maps *)

Lemma map_at_fresh {T} `{!MapBlock B T} (h h' : heap B) l (m : gmap string T) :
  h !! l = None → (h ∪ ({[ l := to_map m ]} ∪ h')) !! l = Some (to_map m).
Proof. intros Hl. rewrite lookup_union_r // (lookup_union_Some_l _ _ _ (to_map m)) ?lookup_singleton_eq //. Qed.

Lemma put_run {T} `{!MapBlock B T} (h h' : heap B) l (m : gmap string T) k v :
  h !! l = None →
  put (Map l) k v (h ∪ ({[ l := to_map m ]} ∪ h')) = Some ((), h ∪ ({[ l := to_map (<[k := v]> m) ]} ∪ h')).
Proof.
  intros Hl. unfold put. rewrite map_at_fresh //= of_to_map /=. do 2 f_equal.
  rewrite insert_union_r //. f_equal. by rewrite insert_union_l insert_singleton_eq.
Qed.

(** One entry: a cell for the copy, which is then read back. *)
Lemma copy_entry_run {T A} `{!Block B T, !Zero T} {M : Means B T A} (f : T → C B T) (H : heap B) x a {X} (k : T → C B X) :
  copies f → means H x a →
  ∃ x' h', (q ← new; v ← f x; _ ← store q v; v' ← load q; k v') H = k x' (H ∪ h') ∧ H ##ₘ h' ∧ means h' x' a.
Proof.
  intros Hf Hx. destruct (new_run H) as (q & Hnew & Hq). rewrite (bind_run _ _ _ _ _ Hnew).
  destruct (copies_run f H ∅ (to_block [zero : T]) q x a Hf Hx Hq) as (x' & h1 & Hr & Hd & Hl1 & _ & Hx');
    [solve_map_disjoint | done|]. rewrite right_id_L in Hr. rewrite (bind_run _ _ _ _ _ Hr).
  rewrite (bind_run _ _ _ _ _ (store_run H _ q 0 [zero : T] x' Hq ltac:(cbn; lia))).
  rewrite left_id_L in Hd, Hl1, Hx' |- *.
  rewrite (bind_run _ _ _ _ _ (load_run _ q 0 [x'] x' (array_at_fresh H h1 q [x'] Hq) eq_refl)).
  eexists x', _. split; [done|]. split; [by apply fresh_disjoint|].
  eapply means_mono; [|exact Hx']. apply map_union_subseteq_r. by apply map_disjoint_singleton_l.
Qed.

Lemma copy_entries_run {T A} `{!Block B T, !Zero T, !MapBlock B T} {M : Means B T A} (f : T → C B T) (h : heap B) l (vals : gmap string A) es m acc :
  copies f → h !! l = None → h ##ₘ acc → acc !! l = None →
  (∀ k x, (k, x) ∈ es → ∃ a, vals !! k = Some a ∧ means h x a) →
  (∀ k x, m !! k = Some x → is_Some (vals !! k)) →
  (∀ k a, vals !! k = Some a → k ∈ es.*1 ∨ ∃ x, m !! k = Some x ∧ means acc x a) →
  ∃ m' acc', copy_entries f es (Map l) (h ∪ ({[ l := to_map m ]} ∪ acc)) = Some ((), h ∪ ({[ l := to_map m' ]} ∪ acc'))
    ∧ h ##ₘ acc' ∧ acc' !! l = None ∧ map_Forall2 (λ _, means acc') m' vals.
Proof.
  intros Hf Hl. revert m acc. induction es as [|[k x] es IH]; intros m acc Hd Hl1 Hes Hm Hall; cbn [copy_entries].
  { exists m, acc. split; [done|]. split; [done|]. split; [done|]. intros k. destruct (vals !! k) as [a|] eqn:E.
    - destruct (Hall k a E) as [[]%not_elem_of_nil|(x & -> & Hx)]. by constructor.
    - destruct (m !! k) as [x|] eqn:Ex; [|constructor]. apply Hm in Ex as [? Ex]. congruence. }
  destruct (Hes k x) as (a & Ha & Hx); [left|].
  destruct (copy_entry_run f (h ∪ ({[ l := to_map m ]} ∪ acc)) x a (λ v', put (Map l) k v' ≫= λ _, copy_entries f es (Map l)) Hf)
    as (x' & h1 & -> & Hd1 & Hx'); [eapply means_mono; [apply map_union_subseteq_l | done]|].
  apply map_disjoint_union_l in Hd1 as [Hd1 Hd2]. apply map_disjoint_union_l in Hd2 as [Hd2 Hd3]. apply map_disjoint_singleton_l in Hd2.
  rewrite -!assoc_L (bind_run _ _ _ _ _ (put_run h _ l m k x' Hl)).
  assert (acc ⊆ acc ∪ h1) as Hsub by apply map_union_subseteq_l.
  apply IH; [by apply map_disjoint_union_r | by apply lookup_union_None| intros; apply Hes; by right | |].
  - intros k' y. destruct (decide (k = k')) as [<-|Hne]; [by rewrite Ha|]. rewrite lookup_insert_ne //. apply Hm.
  - intros k' b Hb. destruct (decide (k = k')) as [<-|Hne].
    + right. exists x'. rewrite lookup_insert_eq. split; [done|]. simplify_eq. eapply means_mono; [|done].
      by apply map_union_subseteq_r.
    + destruct (Hall k' b Hb) as [[->|Hin]%elem_of_cons|(y & Hy & Hyb)]; [done | by left | right].
      exists y. rewrite lookup_insert_ne //. split; [done | by eapply means_mono].
Qed.

Lemma copies_map {T A} `{!Block B T, !Zero T, !MapBlock B T} {M : Means B T A} order (f : T → C B T) :
  (∀ m k x, (k, x) ∈ order m ↔ m !! k = Some x) → copies f → copies (copy_map order f).
Proof.
  intros Hord Hf h [|l0] vals; cbn [means means_map].
  { intros (m & [= <-] & Hall). exists nilm, ∅. rewrite right_id_L. split; [done|]. split; [solve_map_disjoint|].
    exists ∅. split; [done|]. intros k. specialize (Hall k). rewrite lookup_empty in Hall |- *. inversion Hall. constructor. }
  intros (m & Hm & Hall). unfold copy_map. rewrite Hm. cbn.
  destruct (alloc_run (to_map (∅ : gmap string T)) h) as (l & Hmk & Hl).
  unfold make_map. rewrite (bind_run _ _ h (Map l) (h ∪ {[ l := to_map (∅ : gmap string T) ]})); [|by rewrite (bind_run _ _ _ _ _ Hmk)].
  destruct (copy_entries_run f h l vals (order m) ∅ ∅ Hf Hl) as (m' & acc & Hr & Hd & Hl' & Hcs).
  - solve_map_disjoint.
  - done.
  - intros k x Hx%Hord. specialize (Hall k). rewrite Hx in Hall. inversion Hall as [? a Ha Hx2 Hv|]. by exists a.
  - intros k x. by rewrite lookup_empty.
  - intros k a Ha. left. specialize (Hall k). rewrite Ha in Hall. inversion Hall as [x ? Hx Hx2 Hv|].
    apply list_elem_of_fmap. exists (k, x). split; [done|]. by apply Hord.
  - rewrite right_id_L in Hr. rewrite (bind_run _ _ _ _ _ Hr). eexists (Map l), _. split; [done|].
    split; [by apply fresh_disjoint|]. exists m'. split.
    + pose proof (map_at_fresh ∅ acc l m' eq_refl) as Hat. rewrite left_id_L in Hat. cbn. by rewrite Hat /= of_to_map.
    + intros k. specialize (Hcs k). inversion Hcs; constructor. eapply means_mono; [|done].
      apply map_union_subseteq_r. by apply map_disjoint_singleton_l.
Qed.

(** *** Records: field after field

    [fills h acc m Q]: run on memory [h] with [acc] already added, [m] only adds,
    and [Q] holds of its result in all that was added. *)
Definition fills {X} (h acc : heap B) (m : C B X) (Q : X → heap B → Prop) : Prop :=
  ∃ x acc', m (h ∪ acc) = Some (x, h ∪ acc') ∧ h ##ₘ acc' ∧ Q x acc'.

Lemma fills_ret {X} (h acc : heap B) (x : X) Q : h ##ₘ acc → Q x acc → fills h acc (mret x) Q.
Proof. intros ??. by exists x, acc. Qed.

Lemma fills_copy {T A X} {M : Means B T A} (f : T → C B T) h acc x a (k : T → C B X) Q :
  copies f → means h x a → h ##ₘ acc →
  (∀ x' acc', h ##ₘ acc' → acc ⊆ acc' → means acc' x' a → fills h acc' (k x') Q) → fills h acc (f x ≫= k) Q.
Proof.
  intros Hf Hx Hd Hk. destruct (Hf (h ∪ acc) x a) as (x' & h' & Hr & Hd' & Hx').
  { eapply means_mono; [|exact Hx]. apply map_union_subseteq_l. }
  apply map_disjoint_union_l in Hd' as [Hd1 Hd2].
  destruct (Hk x' (acc ∪ h')) as (y & acc' & Hr' & Hd'' & HQ).
  { by apply map_disjoint_union_r. }
  { apply map_union_subseteq_l. }
  { eapply means_mono; [|exact Hx']. by apply map_union_subseteq_r. }
  exists y, acc'. by rewrite (bind_run _ _ _ _ _ Hr) -assoc_L Hr'.
Qed.

Lemma fills_copies {T A} {M : Means B T A} (f : T → C B T) :
  (∀ h x a, means h x a → fills h ∅ (f x) (λ x' acc, means acc x' a)) → copies f.
Proof. intros Hf h x a Hx. destruct (Hf h x a Hx) as (x' & h' & Hr & ? & ?). rewrite right_id_L in Hr. eauto. Qed.

Lemma copies_flat {T A} {M : Means B T A} {F : Flat B T A} : copies (mret : T → C B T).
Proof. intros h x a Hx. exists x, ∅. rewrite right_id_L. split; [done|]. split; [solve_map_disjoint | by eapply flat]. Qed.

(** What a copy is for: neither side sees what happens to the memory of the other. *)
Lemma copies_isolated {T A} {M : Means B T A} (f : T → C B T) h x a :
  copies f → means h x a →
  ∃ x' h', f x h = Some (x', h') ∧ means h' x' a ∧ means h' x a
    ∧ (∀ h'', (∀ l, h !! l = None → h'' !! l = h' !! l) → means h'' x' a)
    ∧ (∀ h'', (∀ l b, h !! l = Some b → h'' !! l = Some b) → means h'' x a).
Proof.
  intros Hf Hx. destruct (Hf h x a Hx) as (x' & h1 & Hr & Hd & Hx'). exists x', (h ∪ h1). split; [done|]. split; [|split; [|split]].
  - eapply means_mono; [|done]. by apply map_union_subseteq_r.
  - eapply means_mono; [|done]. apply map_union_subseteq_l.
  - intros h'' Heq. eapply means_mono; [|done]. apply map_subseteq_spec. intros l b Hb.
    assert (h !! l = None) as Hl by (by eapply map_disjoint_Some_r). rewrite Heq // lookup_union_r //.
  - intros h'' Heq. eapply means_mono; [|done]. by apply map_subseteq_spec.
Qed.
End copying.

(** Step through the fields of a record, then put the copy together. *)
Ltac copy_field c := eapply fills_copy; [exact c | eassumption | assumption | intros ? ? ? ? ?].
Ltac copied_later :=
  match goal with
  | H : means ?acc ?x ?a |- means _ ?x ?a => eapply means_mono; [|exact H]; repeat first [reflexivity | etrans; [eassumption|]]
  end.
