(* ===== verification/GoStrings.v ===== *)
(** * Go's string library, as far as the program uses it

    Package [strings] ([TrimSpace], [Trim], [Split], [Cut], [ToLower], ...),
    [strconv] ([FormatInt], [Quote]) and [regexp] (anchored matching), on byte
    strings.  Object names, annotation keys and label values of the Kubernetes
    API are ASCII; [TrimSpace] and [ToLower] treat the ASCII range and leave
    bytes from 128 on untouched. *)
From S2P Require Import Prelude.
From stdpp Require Export pretty.
From Stdlib Require Ascii.
Export Stdlib.Strings.Ascii (ascii(..), ascii_of_N, N_of_ascii, ascii_N_embedding, N_ascii_embedding).
Export (notations) Stdlib.Strings.Ascii.

Abbreviation chars := String.list_ascii_of_string.
Abbreviation of_chars := String.string_of_list_ascii.

Lemma of_chars_chars s : of_chars (chars s) = s.
Proof. apply String.string_of_list_ascii_of_string. Qed.

Lemma chars_of_chars l : chars (of_chars l) = l.
Proof. apply String.list_ascii_of_string_of_list_ascii. Qed.

#[global] Instance chars_inj : Inj (=) (=) (String.list_ascii_of_string).
Proof. intros s1 s2 Heq. by rw -(of_chars_chars s1) Heq of_chars_chars. Qed.

Lemma chars_app s1 s2 : chars (s1 +:+ s2) = chars s1 ++ chars s2.
Proof. induction s1 as [|c s1 IH]; [done|]. simpl. unfold String.append in *. by rw -IH. Qed.

#[export] Hint Rewrite of_chars_chars chars_of_chars chars_app : evg.

(** ** Character classes *)

Definition code (c : ascii) : Z := Z.of_N (N_of_ascii c).

Definition in_range (lo hi : ascii) (c : ascii) : bool :=
  ((code lo <=? code c) && (code c <=? code hi))%Z.

Definition is_lower (c : ascii) : bool := in_range "a"%char "z"%char c.
Definition is_upper (c : ascii) : bool := in_range "A"%char "Z"%char c.
Definition is_digit (c : ascii) : bool := in_range "0"%char "9"%char c.
Definition is_dash (c : ascii) : bool := bool_decide (c = "-"%char).

(** Go's ASCII white space: tab, newline, vertical tab, form feed, carriage
    return and blank. *)
Definition is_space (c : ascii) : bool :=
  in_range "009"%char "013"%char c || bool_decide (c = " "%char).

(** ** strings *)

Section trim.
Context (p : ascii → bool).

Fixpoint drop_while (l : list ascii) : list ascii :=
  match l with
  | [] => []
  | c :: l' => if p c then drop_while l' else l
  end.

Definition trim_chars (l : list ascii) : list ascii :=
  reverse (drop_while (reverse (drop_while l))).

Lemma drop_while_suffix l : ∃ k, l = k ++ drop_while l ∧ Forall (λ c, p c = true) k.
Proof.
  induction l as [|c l (k & Hl & Hk)]; [by exists []|]. simpl.
  destruct (p c) eqn:E.
  - exists (c :: k). split; [by rw {1}Hl | by constructor].
  - by exists [].
Qed.

Lemma drop_while_head l c l' : drop_while l = c :: l' → p c = false.
Proof. induction l as [|d l IH]; simpl; [done|]. destruct (p d) eqn:E; naive_solver. Qed.

Lemma drop_while_id l :
  (∀ c l', l = c :: l' → p c = false) → drop_while l = l.
Proof. destruct l as [|c l]; [done|]. intros H. simpl. by rw (H c l). Qed.

Lemma trim_chars_split l :
  ∃ k1 k2, l = k1 ++ trim_chars l ++ k2
           ∧ Forall (λ c, p c = true) k1 ∧ Forall (λ c, p c = true) k2.
Proof.
  destruct (drop_while_suffix l) as (k1 & Hl & Hk1).
  destruct (drop_while_suffix (reverse (drop_while l))) as (k2 & Hl2 & Hk2).
  exists k1, (reverse k2). unfold trim_chars.
  rw -reverse_app -Hl2 reverse_involutive. split; [done|]. split; [done|].
  by apply Forall_reverse.
Qed.

(** The first and the last remaining character are outside the cut set. *)
Lemma trim_chars_head l c l' : trim_chars l = c :: l' → p c = false.
Proof.
  unfold trim_chars. intros Heq.
  destruct (drop_while_suffix (reverse (drop_while l))) as (k & Hk & _).
  apply (f_equal reverse) in Hk.
  rw reverse_involutive reverse_app Heq /= in Hk.
  by eapply drop_while_head.
Qed.

Lemma trim_chars_last l c l' : trim_chars l = l' ++ [c] → p c = false.
Proof.
  unfold trim_chars. intros Heq. apply (f_equal reverse) in Heq.
  rw reverse_involutive reverse_app /= in Heq. by eapply drop_while_head.
Qed.

Lemma trim_chars_id l :
  (∀ c l', l = c :: l' → p c = false) →
  (∀ c l', l = l' ++ [c] → p c = false) → trim_chars l = l.
Proof.
  intros Hh Hl. unfold trim_chars. rw (drop_while_id l Hh).
  rw drop_while_id; [apply reverse_involutive|].
  intros c l' Heq. apply (f_equal reverse) in Heq.
  rw reverse_involutive reverse_cons in Heq. by eapply Hl.
Qed.

Lemma trim_chars_idemp l : trim_chars (trim_chars l) = trim_chars l.
Proof.
  apply trim_chars_id; intros; [by eapply trim_chars_head | by eapply trim_chars_last].
Qed.

(** What is trimmed away comes back: nothing is left exactly when every
    character is in the cut set. *)
Lemma trim_chars_nil l : trim_chars l = [] ↔ Forall (λ c, p c = true) l.
Proof.
  split.
  - intros Hnil. destruct (trim_chars_split l) as (k1 & k2 & Hl & ? & ?).
    rw Hl Hnil. by apply Forall_app.
  - intros Hall. destruct (trim_chars l) as [|c l'] eqn:E; [done|].
    pose proof (trim_chars_head _ _ _ E) as Hc.
    destruct (trim_chars_split l) as (k1 & k2 & Hl & _ & _).
    rw Hl E !Forall_app Forall_cons in Hall. naive_solver congruence.
Qed.

Lemma elem_of_trim_chars l c : c ∈ trim_chars l → c ∈ l.
Proof.
  destruct (trim_chars_split l) as (k1 & k2 & Hl & _ & _).
  rw {2}Hl !elem_of_app. tauto.
Qed.
End trim.

(** [strings.TrimSpace] *)
Definition TrimSpace (s : string) : string := of_chars (trim_chars is_space (chars s)).

(** [strings.Trim(s, "-")] *)
Definition TrimDash (s : string) : string := of_chars (trim_chars is_dash (chars s)).

Lemma chars_TrimSpace s : chars (TrimSpace s) = trim_chars is_space (chars s).
Proof. apply chars_of_chars. Qed.

Lemma chars_TrimDash s : chars (TrimDash s) = trim_chars is_dash (chars s).
Proof. apply chars_of_chars. Qed.

Lemma TrimSpace_idemp s : TrimSpace (TrimSpace s) = TrimSpace s.
Proof. apply (inj String.list_ascii_of_string). by rw !chars_TrimSpace trim_chars_idemp. Qed.

Definition split_cons (c : ascii) (ws : list (list ascii)) : list (list ascii) :=
  match ws with [] => [[c]] | w :: ws => (c :: w) :: ws end.

(** [strings.Split(s, sep)] for a one-character separator. *)
Fixpoint split_chars (sep : ascii) (l : list ascii) : list (list ascii) :=
  match l with
  | [] => [[]]
  | c :: l => if decide (c = sep) then [] :: split_chars sep l
              else split_cons c (split_chars sep l)
  end.

Definition Split (sep : ascii) (s : string) : list string :=
  of_chars <$> split_chars sep (chars s).

(** [strings.Join(parts, sep)] *)
Fixpoint Join (parts : list string) (sep : string) : string :=
  match parts with
  | [] => ""
  | [s] => s
  | s :: rest => s +:+ sep +:+ Join rest sep
  end.

(** [strings.Cut(s, sep)] for a one-character separator. *)
Fixpoint cut_chars (sep : ascii) (l : list ascii) : list ascii * list ascii * bool :=
  match l with
  | [] => ([], [], false)
  | c :: l => if decide (c = sep) then ([], l, true)
              else let '(a, b, ok) := cut_chars sep l in (c :: a, b, ok)
  end.

Definition Cut (s : string) (sep : ascii) : string * string * bool :=
  let '(a, b, ok) := cut_chars sep (chars s) in (of_chars a, of_chars b, ok).

(** Splitting and cutting undo concatenation at a separator. *)
Lemma split_chars_none sep l : sep ∉ l → split_chars sep l = [l].
Proof.
  induction l as [|c l IH]; intros Hn; simpl; [done|].
  apply not_elem_of_cons in Hn as [? ?]. destruct (decide (c = sep)); [congruence|]. by rw IH.
Qed.

Lemma split_chars_app sep l1 l2 :
  sep ∉ l1 → split_chars sep (l1 ++ sep :: l2) = l1 :: split_chars sep l2.
Proof.
  induction l1 as [|c l IH]; intros Hn; simpl; [by rw decide_True|].
  apply not_elem_of_cons in Hn as [? ?]. destruct (decide (c = sep)); [congruence|]. by rw IH.
Qed.

Lemma cut_chars_app sep l1 l2 : sep ∉ l1 → cut_chars sep (l1 ++ sep :: l2) = (l1, l2, true).
Proof.
  induction l1 as [|c l IH]; intros Hn; simpl; [by rw decide_True|].
  apply not_elem_of_cons in Hn as [? ?]. destruct (decide (c = sep)); [congruence|]. by rw IH.
Qed.

Lemma TrimSpace_id s : (∀ c, c ∈ chars s → is_space c = false) → TrimSpace s = s.
Proof.
  intros H. unfold TrimSpace. rw trim_chars_id; [by apply of_chars_chars| |].
  - intros c l' Heq. apply H. rw Heq. left.
  - intros c l' Heq. apply H. rw Heq elem_of_app. right. left.
Qed.

Definition HasPrefix (s p : string) : bool := String.prefix p s.
Definition HasSuffix (s p : string) : bool :=
  String.prefix (of_chars (reverse (chars p))) (of_chars (reverse (chars s))).

(** [strings.Contains(s, string(c))] *)
Definition ContainsChar (s : string) (c : ascii) : bool := bool_decide (c ∈ chars s).

(** [strings.Contains(s, sub)] *)
Fixpoint Contains (s sub : string) : bool :=
  HasPrefix s sub || match s with EmptyString => false | String _ s' => Contains s' sub end.

Definition TrimPrefixDot (s : string) : string :=
  match s with String "." s' => s' | _ => s end.

Definition lower_char (c : ascii) : ascii :=
  if is_upper c then ascii_of_N (N_of_ascii c + 32) else c.
Definition ToLower (s : string) : string := of_chars (lower_char <$> chars s).

(** ** strconv *)

(** [strconv.FormatInt(z, 10)] and the [%d] verb. *)
Definition FormatInt (z : Z) : string := pretty z.

Definition hex_digit (z : Z) : ascii :=
  if (z <? 10)%Z then ascii_of_N (Z.to_N (48 + z)) else ascii_of_N (Z.to_N (87 + z)).

Definition quote_char (c : ascii) : string :=
  if decide (c = (ascii_of_N 34)) then of_chars ["\"%char; (ascii_of_N 34)]
  else if decide (c = "\"%char) then of_chars ["\"%char; "\"%char]
  else match N_of_ascii c with
       | 7 => "\a" | 8 => "\b" | 9 => "\t" | 10 => "\n" | 11 => "\v"
       | 12 => "\f" | 13 => "\r"
       | _ => if ((code c <? 32) || (code c =? 127))%Z
              then "\x" +:+ of_chars [hex_digit (code c / 16); hex_digit (code c mod 16)]
              else of_chars [c]
       end%N.

Definition dquote : string := of_chars [ascii_of_N 34].

(** The [%q] verb of package fmt ([strconv.Quote]). *)
Definition Quote (s : string) : string :=
  dquote +:+ String.concat "" (quote_char <$> chars s) +:+ dquote.
