(* ===== verification/Regexp.v ===== *)
(** * Anchored regular expressions (package [regexp])

    The two anchored patterns of the program are matched by derivatives, and
    their languages are characterised on character lists. *)
From S2P Require Import Prelude GoStrings.

Inductive regex :=
| RNone
| REps
| RClass (p : ascii → bool)
| RSeq (r1 r2 : regex)
| RAlt (r1 r2 : regex)
| RStar (r : regex).

Fixpoint nullable (r : regex) : bool :=
  match r with
  | RNone | RClass _ => false
  | REps | RStar _ => true
  | RSeq r1 r2 => nullable r1 && nullable r2
  | RAlt r1 r2 => nullable r1 || nullable r2
  end.

Fixpoint deriv (r : regex) (c : ascii) : regex :=
  match r with
  | RNone | REps => RNone
  | RClass p => if p c then REps else RNone
  | RSeq r1 r2 =>
      if nullable r1 then RAlt (RSeq (deriv r1 c) r2) (deriv r2 c)
      else RSeq (deriv r1 c) r2
  | RAlt r1 r2 => RAlt (deriv r1 c) (deriv r2 c)
  | RStar r => RSeq (deriv r c) (RStar r)
  end.

(** [re.MatchString(s)] for a pattern anchored with ^ and $. *)
Definition re_match (r : regex) (l : list ascii) : bool := nullable (foldl deriv r l).

(** The language of a pattern. *)
Inductive lang : regex → list ascii → Prop :=
| lang_eps : lang REps []
| lang_class p c : p c = true → lang (RClass p) [c]
| lang_seq r1 r2 l1 l2 : lang r1 l1 → lang r2 l2 → lang (RSeq r1 r2) (l1 ++ l2)
| lang_alt_l r1 r2 l : lang r1 l → lang (RAlt r1 r2) l
| lang_alt_r r1 r2 l : lang r2 l → lang (RAlt r1 r2) l
| lang_star_nil r : lang (RStar r) []
| lang_star_cons r l1 l2 : lang r l1 → lang (RStar r) l2 → lang (RStar r) (l1 ++ l2).

#[export] Hint Constructors lang : evg.

Lemma nullable_lang r : nullable r = true ↔ lang r [].
Proof.
  split.
  - induction r; simpl; intros Hn; try discriminate; auto with evg.
    + apply andb_true_iff in Hn as [??]. apply (lang_seq _ _ [] []); auto.
    + apply orb_true_iff in Hn as [?|?]; auto with evg.
  - remember [] as l eqn:El. induction 1; simplify_eq/=; try done.
    + apply app_eq_nil in El as [-> ->]. by rw IHlang1 // IHlang2.
    + by rw IHlang.
    + rw IHlang //. by apply orb_true_r.
Qed.

Lemma lang_star_inv r c l :
  lang (RStar r) (c :: l) → ∃ l1 l2, l = l1 ++ l2 ∧ lang r (c :: l1) ∧ lang (RStar r) l2.
Proof.
  remember (RStar r) as rs eqn:Ers. remember (c :: l) as cl eqn:Ecl. intros H.
  revert l Ecl. induction H as [| | | | | |r' l1 l2 H1 _ H2 IH2]; intros k Ecl; simplify_eq/=.
  destruct l1 as [|d l1]; simplify_eq/=; [by apply IH2 | eauto].
Qed.

Lemma deriv_lang r c l : lang (deriv r c) l ↔ lang r (c :: l).
Proof.
  revert l. induction r as [| |p|r1 IH1 r2 IH2|r1 IH1 r2 IH2|r IH]; intros l; simpl.
  - split; inversion 1.
  - split; inversion 1.
  - destruct (p c) eqn:E; split; inversion 1; subst; eauto with evg. congruence.
  - split.
    + intros H. destruct (nullable r1) eqn:E; [|].
      * inversion H as [| | |? ? ? Ha|? ? ? Ha| |]; subst.
        { inversion Ha as [| |? ? k1 k2 Hk1 Hk2| | | |]; subst.
          apply (lang_seq _ _ (c :: k1)); [by apply IH1 | done]. }
        apply (lang_seq _ _ [] (c :: l)); [by apply nullable_lang | by apply IH2].
      * inversion H as [| |? ? k1 k2 Hk1 Hk2| | | |]; subst.
        apply (lang_seq _ _ (c :: k1)); [by apply IH1 | done].
    + intros H. inversion H as [| |? ? k1 k2 Hk1 Hk2 Heq1 Heq2| | | |]; subst.
      destruct k1 as [|d k1]; simplify_eq/=.
      * rw (proj2 (nullable_lang r1)) //. apply lang_alt_r. by apply IH2.
      * apply IH1 in Hk1. destruct (nullable r1); [apply lang_alt_l|]; by constructor.
  - split; inversion 1; subst; (apply lang_alt_l + apply lang_alt_r);
      (by apply IH1) || (by apply IH2).
  - split.
    + inversion 1 as [| |? ? k1 k2 Hk1 Hk2| | | |]; subst.
      apply (lang_star_cons _ (c :: k1)); [by apply IH | done].
    + intros (l1 & l2 & -> & H1 & H2)%lang_star_inv.
      constructor; [by apply IH | done].
Qed.

Lemma re_match_lang r l : re_match r l = true ↔ lang r l.
Proof.
  revert r. induction l as [|c l IH]; intros r; [apply nullable_lang|].
  rw -deriv_lang -IH. done.
Qed.

Lemma lang_star_class p l : lang (RStar (RClass p)) l ↔ Forall (λ c, p c = true) l.
Proof.
  split.
  - remember (RStar (RClass p)) as r eqn:Er.
    induction 1 as [| | | | | |r' l1 l2 H1 _ H2 IH2]; simplify_eq/=; [done|].
    inversion H1; subst. constructor; auto.
  - induction 1 as [|c l Hc Hl IH]; [constructor|].
    apply (lang_star_cons _ [c]); [by constructor | done].
Qed.

(** ** The patterns *)

Definition is_alnum (c : ascii) : bool := is_lower c || is_digit c.
Definition is_name_char (c : ascii) : bool := is_dash c || is_alnum c.

(** The pattern ^[a-z0-9]([-a-z0-9]*[a-z0-9])?$ *)
Definition dns1123Label : regex :=
  RSeq (RClass is_alnum)
       (RAlt (RSeq (RStar (RClass is_name_char)) (RClass is_alnum)) REps).

(** The pattern ^[A-Za-z_][A-Za-z0-9_]*$ *)
Definition fieldPathSeg : regex :=
  RSeq (RClass (λ c, is_upper c || is_lower c || bool_decide (c = "_"%char)))
       (RStar (RClass (λ c, is_upper c || is_lower c || is_digit c || bool_decide (c = "_"%char)))).

Lemma alnum_name_char c : is_alnum c = true → is_name_char c = true.
Proof. unfold is_name_char. intros ->. apply orb_true_r. Qed.

(** A label: non-empty, only name characters, alphanumeric at both ends. *)
Lemma dns1123Label_spec l :
  re_match dns1123Label l = true ↔
  (∃ c l', l = c :: l' ∧ is_alnum c = true) ∧
  (∃ c l', l = l' ++ [c] ∧ is_alnum c = true) ∧
  Forall (λ c, is_name_char c = true) l.
Proof.
  rw re_match_lang. unfold dns1123Label. split.
  - inversion 1 as [| |? ? l1 l2 H1 H2| | | |]; subst.
    inversion H1 as [|p c Hc| | | | |]; subst. clear H1.
    inversion H2 as [| | |? ? ? H3|? ? ? H3| |]; subst.
    + inversion H3 as [| |? ? k1 k2 Hk1 Hk2| | | |]; subst.
      inversion Hk2 as [|p d Hd| | | | |]; subst. apply lang_star_class in Hk1.
      split; [by eauto|]. split; [by exists d, (c :: k1)|].
      rw Forall_app Forall_singleton. constructor; [by apply alnum_name_char|].
      apply Forall_app. split; [done|]. constructor; [by apply alnum_name_char | done].
    + inversion H3; subst. split; [by eauto|]. split; [by exists c, []|].
      constructor; [by apply alnum_name_char | done].
  - intros ((c & l' & -> & Hc) & (d & l2 & Heq & Hd) & Hall).
    apply (lang_seq _ _ [c]); [by constructor|].
    destruct l2 as [|e l2]; simplify_eq/=; [apply lang_alt_r; constructor|].
    apply lang_alt_l. constructor; [|by constructor].
    apply lang_star_class. apply Forall_cons in Hall as [_ [Hall _]%Forall_app]. done.
Qed.
