(* ===== verification/GoTime.v ===== *)
(** * Go's package time, as far as the program uses it

    A [Time] is an instant, in nanoseconds since the zero [time.Time]
    (January 1, year 1, 00:00:00 UTC), so [IsZero] is a comparison with 0; a
    [Duration] is a signed 64-bit count of nanoseconds.  [ParseDuration] follows
    the library routine character by character, its one floating-point
    expression included (computed with the axiom-free [SpecFloat]);
    [FormatRFC3339] is the layout used for stamps. *)
From S2P Require Import Prelude GoStrings.
From Stdlib Require Import SpecFloat.

#[local] Open Scope Z_scope.

Definition Time := Z.
Definition Duration := Z.

Definition Nanosecond : Duration := 1.
Definition Microsecond : Duration := 1000 * Nanosecond.
Definition Millisecond : Duration := 1000 * Microsecond.
Definition Second : Duration := 1000 * Millisecond.
Definition Minute : Duration := 60 * Second.
Definition Hour : Duration := 60 * Minute.

Definition zero_time : Time := 0.
Definition IsZero (t : Time) : bool := t =? zero_time.
Definition Before (t u : Time) : bool := t <? u.
Definition Add (t : Time) (d : Duration) : Time := t + d.

(** [t.Sub(u)] saturates at the range of [Duration]. *)
Definition Sub (t u : Time) : Duration := Z.max min_i64 (Z.min max_i64 (t - u)).

(** What the layout RFC 3339 keeps of an instant. *)
Definition whole_second (t : Time) : Time := t - t mod Second.

Lemma whole_second_le t : whole_second t <= t < whole_second t + Second.
Proof. unfold whole_second. pose proof (Z.mod_pos_bound t Second ltac:(done)). lia. Qed.

Lemma whole_second_idem t : whole_second (whole_second t) = whole_second t.
Proof.
  unfold whole_second. assert ((t - t mod Second) mod Second = 0) as ->; [|lia].
  rewrite Zminus_mod_idemp_r. replace (t - t) with 0 by lia. apply Z.mod_0_l. done.
Qed.

Lemma Sub_exact t u : min_i64 <= t - u <= max_i64 → Sub t u = t - u.
Proof. unfold Sub. lia. Qed.

(** ** ParseDuration *)

Definition two63 : Z := 9223372036854775808.
Definition two64 : Z := 18446744073709551616.

Definition digit_val (c : ascii) : Z := code c - 48.

(** [leadingInt]: [None] on overflow. *)
Fixpoint leadingInt (x : Z) (l : list ascii) : option (Z * list ascii) :=
  match l with
  | c :: l' =>
      if is_digit c then
        if two63 / 10 <? x then None
        else let x' := x * 10 + digit_val c in
             if two63 <? x' then None else leadingInt x' l'
      else Some (x, l)
  | [] => Some (x, [])
  end.

Definition f64 (z : Z) : spec_float := binary_normalize 53 1024 z 0 false.
Definition f64_mul (a b : spec_float) : spec_float := SFmul 53 1024 a b.
Definition f64_div (a b : spec_float) : spec_float := SFdiv 53 1024 a b.

(** Truncation towards zero of a non-negative float. *)
Definition f64_to_Z (f : spec_float) : Z :=
  match f with
  | S754_finite false m e =>
      if 0 <=? e then Z.pos m * 2 ^ e else Z.pos m / 2 ^ (- e)
  | _ => 0
  end.

(** [leadingFraction] *)
Fixpoint leadingFraction (x : Z) (scale : spec_float) (overflow : bool) (l : list ascii)
  : Z * spec_float * list ascii :=
  match l with
  | c :: l' =>
      if is_digit c then
        if overflow then leadingFraction x scale true l'
        else if (two63 - 1) / 10 <? x then leadingFraction x scale true l'
        else let y := x * 10 + digit_val c in
             if two63 <? y then leadingFraction x scale true l'
             else leadingFraction y (f64_mul scale (f64 10)) false l'
      else (x, scale, l)
  | [] => (x, scale, [])
  end.

Definition unitMap (u : list ascii) : option Z :=
  let u := of_chars u in
  if decide (u = "ns") then Some Nanosecond
  else if decide (u = "us") then Some Microsecond
  else if decide (u = of_chars [ascii_of_N 194; ascii_of_N 181; "s"%char]) then Some Microsecond
  else if decide (u = of_chars [ascii_of_N 206; ascii_of_N 188; "s"%char]) then Some Microsecond
  else if decide (u = "ms") then Some Millisecond
  else if decide (u = "s") then Some Second
  else if decide (u = "m") then Some Minute
  else if decide (u = "h") then Some Hour
  else None.

Definition unit_char (c : ascii) : bool := negb (bool_decide (c = "."%char) || is_digit c).

Fixpoint span (p : ascii → bool) (l : list ascii) : list ascii * list ascii :=
  match l with
  | c :: l' => if p c then let '(a, b) := span p l' in (c :: a, b) else ([], l)
  | [] => ([], [])
  end.

Definition time_quote_char (c : ascii) : string :=
  if decide (c = ascii_of_N 34) then of_chars [ascii_of_N 92; ascii_of_N 34]
  else if decide (c = ascii_of_N 92) then of_chars [ascii_of_N 92; ascii_of_N 92]
  else if ((code c <? 32) || (128 <=? code c))
       then of_chars [ascii_of_N 92; "x"%char; hex_digit (code c / 16); hex_digit (code c mod 16)]
       else of_chars [c].
Definition time_quote (s : string) : string :=
  dquote +:+ String.concat "" (time_quote_char <$> chars s) +:+ dquote.

Section ParseDuration.
Context (orig : string).

Definition invalid : string := "time: invalid duration " +:+ time_quote orig.
Definition missing_unit : string := "time: missing unit in duration " +:+ time_quote orig.
Definition unknown_unit (u : list ascii) : string :=
  "time: unknown unit " +:+ time_quote (of_chars u) +:+ " in duration " +:+ time_quote orig.

(** The digits of one group, before and after the decimal point: integer
    part, fraction, scale, and the rest; [None] when there is no digit or the
    integer part overflows. *)
Definition parse_number (l : list ascii) : option (Z * Z * spec_float * list ascii) :=
  match leadingInt 0 l with
  | None => None
  | Some (v, l1) =>
      let pre := negb (length l =? length l1)%nat in
      let '(f, scale, l2, post) :=
        match l1 with
        | "."%char :: l1' =>
            let '(f, scale, l2) := leadingFraction 0 (f64 1) false l1' in
            (f, scale, l2, negb (length l1' =? length l2)%nat)
        | _ => (0, f64 1, l1, false)
        end in
      if negb pre && negb post then None else Some (v, f, scale, l2)
  end.

(** [v * unit + uint64(float64(f) * (float64(unit) / scale))] with its two
    overflow checks. *)
Definition group_value (v f : Z) (scale : spec_float) (unit : Z) : option Z :=
  if two63 / unit <? v then None else
  if 0 <? f then
    let v' := (v * unit + f64_to_Z (f64_mul (f64 f) (f64_div (f64 unit) scale))) mod two64 in
    if two63 <? v' then None else Some v'
  else Some (v * unit).

(** One group, digits followed by a unit: nanoseconds and the rest. *)
Definition parse_group (l : list ascii) : string + (Z * list ascii) :=
  match l with
  | [] => inl invalid
  | c :: _ =>
      if unit_char c then inl invalid else
      match parse_number l with
      | None => inl invalid
      | Some (v, f, scale, l2) =>
          match span unit_char l2 with
          | ([], _) => inl missing_unit
          | (u, l3) =>
              match unitMap u with
              | None => inl (unknown_unit u)
              | Some unit =>
                  match group_value v f scale unit with
                  | None => inl invalid
                  | Some v => inr (v, l3)
                  end
              end
          end
      end
  end.

(** The main loop.  Every group consumes a character ([parse_group_shrinks]),
    so the length of the string is enough fuel. *)
Fixpoint parse_groups (fuel : nat) (d : Z) (l : list ascii) : string + Z :=
  match l, fuel with
  | [], _ => inr d
  | _, O => inl invalid
  | _, S fuel =>
      match parse_group l with
      | inl e => inl e
      | inr (v, l') =>
          let d := (d + v) mod two64 in
          if two63 <? d then inl invalid else parse_groups fuel d l'
      end
  end.

Lemma leadingInt_length x l v l' :
  leadingInt x l = Some (v, l') → (length l' ≤ length l)%nat.
Proof.
  revert x. induction l as [|c l IH]; simpl; intros x H; [by simplify_eq|].
  repeat case_match; simplify_eq/=; [|lia]. apply IH in H. lia.
Qed.

Lemma leadingFraction_length x sc o l v sc' l' :
  leadingFraction x sc o l = (v, sc', l') → (length l' ≤ length l)%nat.
Proof.
  revert x sc o. induction l as [|c l IH]; simpl; intros x sc o H; [by simplify_eq|].
  repeat case_match; simplify_eq/=; try (apply IH in H); lia.
Qed.

Lemma span_length p l a b : span p l = (a, b) → length l = (length a + length b)%nat.
Proof.
  revert a b. induction l as [|c l IH]; simpl; intros a b H; [by simplify_eq|].
  destruct (p c); [|by simplify_eq]. destruct (span p l) as [a' b'] eqn:E.
  simplify_eq/=. by rw (IH a' b).
Qed.

Lemma parse_number_length l v f sc l' :
  parse_number l = Some (v, f, sc, l') → (length l' ≤ length l)%nat.
Proof.
  unfold parse_number. destruct (leadingInt 0 l) as [[v1 l1]|] eqn:E; [|done].
  apply leadingInt_length in E.
  destruct l1 as [|c l1]; intros H; [repeat case_match; simplify_eq/=; lia|].
  destruct (leadingFraction 0 (f64 1) false l1) as [[f' sc'] l2] eqn:E2.
  apply leadingFraction_length in E2. simpl in *.
  repeat case_match; simplify_eq/=; lia.
Qed.

Lemma parse_group_shrinks l v l' :
  parse_group l = inr (v, l') → (length l' < length l)%nat.
Proof.
  unfold parse_group. destruct l as [|c l]; [done|]. intros H.
  destruct (unit_char c); [done|].
  destruct (parse_number (c :: l)) as [[[[v1 f] sc] l2]|] eqn:E; [|done].
  apply parse_number_length in E.
  destruct (span unit_char l2) as [[|u us] l3] eqn:E3; [done|].
  apply span_length in E3. repeat case_match; simplify_eq/=; lia.
Qed.

(** More fuel than characters changes nothing. *)
Lemma parse_groups_fuel n m d l :
  (length l ≤ n)%nat → (length l ≤ m)%nat → parse_groups n d l = parse_groups m d l.
Proof.
  revert m d l. induction n as [|n IH]; intros [|m] d [|c l] Hn Hm; try done; try (simpl in *; lia).
  cbn [parse_groups].
  destruct (parse_group (c :: l)) as [e|[v l']] eqn:E; [done|].
  apply parse_group_shrinks in E. simpl in E.
  case_match; [done|]. simpl in *. apply IH; lia.
Qed.
End ParseDuration.

Definition ParseDuration (s : string) : string + Duration :=
  let l := chars s in
  let '(neg, l) := match l with
                   | "-"%char :: l' => (true, l')
                   | "+"%char :: l' => (false, l')
                   | _ => (false, l)
                   end in
  if decide (l = ["0"%char]) then inr 0
  else if decide (l = []) then inl (invalid s)
  else match parse_groups s (length l) 0 l with
       | inl e => inl e
       | inr d => if neg then inr (if d =? two63 then min_i64 else - d)
                  else if two63 - 1 <? d then inl (invalid s) else inr d
       end.

Example ParseDuration_30m : ParseDuration "30m" = inr (30 * Minute).
Proof. vm_compute. reflexivity. Qed.
Example ParseDuration_1h30 : ParseDuration "1h30m0.5s" = inr (90 * Minute + 500 * Millisecond).
Proof. vm_compute. reflexivity. Qed.
Example ParseDuration_neg : ParseDuration "-1.5h" = inr (- (90 * Minute)).
Proof. vm_compute. reflexivity. Qed.
Example ParseDuration_zero : ParseDuration "0" = inr 0.
Proof. vm_compute. reflexivity. Qed.
Example ParseDuration_nounit : ∃ e, ParseDuration "30" = inl e.
Proof. eexists. vm_compute. reflexivity. Qed.
Example ParseDuration_big : ∃ e, ParseDuration "9223372036854775808ns" = inl e.
Proof. eexists. vm_compute. reflexivity. Qed.

(** ** RFC 3339 *)

(** Days since 0000-03-01 of the proleptic Gregorian calendar to a civil date. *)
Definition civil_from_days (z : Z) : Z * Z * Z :=
  let era := z / 146097 in
  let doe := z mod 146097 in
  let yoe := (doe - doe / 1460 + doe / 36524 - doe / 146096) / 365 in
  let doy := doe - (365 * yoe + yoe / 4 - yoe / 100) in
  let mp := (5 * doy + 2) / 153 in
  let d := doy - (153 * mp + 2) / 5 + 1 in
  let m := if mp <? 10 then mp + 3 else mp - 9 in
  let y := yoe + era * 400 + (if m <=? 2 then 1 else 0) in
  (y, m, d).

Fixpoint pad_left (n : nat) (s : list ascii) : list ascii :=
  match n with O => s | S n => if (length s <=? n)%nat then "0"%char :: pad_left n s else s end.

Definition pad (n : nat) (z : Z) : string := of_chars (pad_left n (chars (FormatInt z))).

(** [t.UTC().Format(time.RFC3339)]; January 1 of year 1 is 306 days after
    March 1 of year 0. *)
Definition FormatRFC3339 (t : Time) : string :=
  let secs := t / Second in
  let '(y, m, d) := civil_from_days (secs / 86400 + 306) in
  let sod := secs mod 86400 in
  pad 4 y +:+ "-" +:+ pad 2 m +:+ "-" +:+ pad 2 d +:+ "T"
  +:+ pad 2 (sod / 3600) +:+ ":" +:+ pad 2 (sod / 60 mod 60) +:+ ":" +:+ pad 2 (sod mod 60) +:+ "Z".

(** The instant of a Unix time in seconds. *)
Definition unix (s : Z) : Time := (s + 62135596800) * Second.

Example FormatRFC3339_zero : FormatRFC3339 zero_time = "0001-01-01T00:00:00Z".
Proof. vm_compute. reflexivity. Qed.
Example FormatRFC3339_epoch : FormatRFC3339 (unix 0) = "1970-01-01T00:00:00Z".
Proof. vm_compute. reflexivity. Qed.
Example FormatRFC3339_leap : FormatRFC3339 (unix 1709210096) = "2024-02-29T12:34:56Z".
Proof. vm_compute. reflexivity. Qed.

(** ** Duration.String *)

Fixpoint strip_zeros (l : list ascii) : list ascii :=
  match l with
  | [] => []
  | c :: rest => match strip_zeros rest with
                 | [] => if bool_decide (c = "0"%char) then [] else [c]
                 | l' => c :: l'
                 end
  end.

(** [fmtFrac]: the fraction of [v] out of [10^prec], without trailing zeros. *)
Definition fmtFrac (v : Z) (prec : nat) : string :=
  match strip_zeros (chars (pad prec (v mod 10 ^ Z.of_nat prec))) with
  | [] => ""
  | l => "." +:+ of_chars l
  end.

Definition micro_sign : string := of_chars [ascii_of_N 194; ascii_of_N 181].

(** [Duration.String] *)
Definition Duration_String (d : Duration) : string :=
  let u := Z.abs d in
  (if d <? 0 then "-" else "") +:+
  if u <? Second then
    if u =? 0 then "0s"
    else if u <? Microsecond then FormatInt u +:+ "ns"
    else if u <? Millisecond then FormatInt (u / 1000) +:+ fmtFrac u 3 +:+ micro_sign +:+ "s"
    else FormatInt (u / 1000000) +:+ fmtFrac u 6 +:+ "ms"
  else
    let secs := u / Second in
    let mins := secs / 60 in
    let hours := mins / 60 in
    (if 0 <? hours then FormatInt hours +:+ "h" else "")
    +:+ (if 0 <? mins then FormatInt (mins mod 60) +:+ "m" else "")
    +:+ FormatInt (secs mod 60) +:+ fmtFrac u 9 +:+ "s".

Example Duration_String_h : Duration_String (Hour + 30 * Minute) = "1h30m0s".
Proof. vm_compute. reflexivity. Qed.
Example Duration_String_frac : Duration_String (1500 * Millisecond) = "1.5s".
Proof. vm_compute. reflexivity. Qed.
Example Duration_String_ms : Duration_String (- (2 * Millisecond + 50 * Microsecond)) = "-2.05ms".
Proof. vm_compute. reflexivity. Qed.
Example Duration_String_0 : Duration_String 0 = "0s".
Proof. vm_compute. reflexivity. Qed.
