(* ===== verification/Glob.v ===== *)
(** * Shell patterns: Go's filepath.Match

    The library routine, loop by loop: [scanChunk] cuts the pattern at stars,
    [matchChunk] matches one star-free chunk (and keeps parsing it after a
    mismatch, so that a malformed chunk is always reported), [star_search]
    tries the chunk at later positions.  [None] stands for [ErrBadPattern].
    The theorems show that malformedness does not depend on the name: a pattern
    accepted against the empty string never fails later. *)
From S2P Require Import Prelude GoStrings.

#[local] Open Scope Z_scope.

(** ** utf8.DecodeRuneInString *)

Definition RuneError : Z := 65533.

Definition cont (lo hi : Z) (c : ascii) : bool := (lo <=? code c) && (code c <=? hi).

Definition decode_rune (l : list ascii) : Z * nat :=
  match l with
  | [] => (RuneError, 0%nat)
  | c0 :: l1 =>
      let b0 := code c0 in
      if b0 <? 128 then (b0, 1%nat)
      else if (194 <=? b0) && (b0 <=? 223) then
        match l1 with
        | c1 :: _ => if cont 128 191 c1
                     then ((b0 - 192) * 64 + (code c1 - 128), 2%nat) else (RuneError, 1%nat)
        | [] => (RuneError, 1%nat)
        end
      else if (224 <=? b0) && (b0 <=? 239) then
        match l1 with
        | c1 :: c2 :: _ =>
            if cont (if b0 =? 224 then 160 else 128) (if b0 =? 237 then 159 else 191) c1
               && cont 128 191 c2
            then ((b0 - 224) * 4096 + (code c1 - 128) * 64 + (code c2 - 128), 3%nat)
            else (RuneError, 1%nat)
        | _ => (RuneError, 1%nat)
        end
      else if (240 <=? b0) && (b0 <=? 244) then
        match l1 with
        | c1 :: c2 :: c3 :: _ =>
            if cont (if b0 =? 240 then 144 else 128) (if b0 =? 244 then 143 else 191) c1
               && cont 128 191 c2 && cont 128 191 c3
            then ((b0 - 240) * 262144 + (code c1 - 128) * 4096
                  + (code c2 - 128) * 64 + (code c3 - 128), 4%nat)
            else (RuneError, 1%nat)
        | _ => (RuneError, 1%nat)
        end
      else (RuneError, 1%nat)
  end.

(** ** The routine *)

Definition chr (c d : ascii) : bool := bool_decide (c = d).
Definition backslash : ascii := ascii_of_N 92.

(** [scanChunk]: leading stars, then up to the next star outside a range. *)
Fixpoint scan (inrange : bool) (p : list ascii) : list ascii * list ascii :=
  match p with
  | [] => ([], [])
  | c :: p' =>
      if chr c backslash then
        match p' with
        | d :: p'' => let '(a, b) := scan inrange p'' in (c :: d :: a, b)
        | [] => ([c], [])
        end
      else if chr c "["%char then let '(a, b) := scan true p' in (c :: a, b)
      else if chr c "]"%char then let '(a, b) := scan false p' in (c :: a, b)
      else if chr c "*"%char && negb inrange then ([], p)
      else let '(a, b) := scan inrange p' in (c :: a, b)
  end.

Fixpoint skip_stars (p : list ascii) : bool * list ascii :=
  match p with
  | c :: p' => if chr c "*"%char then (true, (skip_stars p').2) else (false, p)
  | [] => (false, [])
  end.

Definition scanChunk (p : list ascii) : bool * list ascii * list ascii :=
  let '(star, p') := skip_stars p in
  let '(chunk, rest) := scan false p' in (star, chunk, rest).

(** [getEsc]: one possibly escaped character of a range. *)
Definition getEsc (chunk : list ascii) : option (Z * list ascii) :=
  match chunk with
  | [] => None
  | c :: chunk' =>
      if chr c "-"%char || chr c "]"%char then None else
      let chunk1 := if chr c backslash then chunk' else chunk in
      match chunk1 with
      | [] => None
      | _ =>
          let '(r, n) := decode_rune chunk1 in
          if (r =? RuneError) && (n =? 1)%nat then None
          else match drop n chunk1 with [] => None | rest => Some (r, rest) end
      end
  end.

(** The inner loop of a bracket expression. *)
Fixpoint bracket (fuel : nat) (chunk : list ascii) (r : Z) (first mtch : bool)
  : option (bool * list ascii) :=
  match fuel with
  | O => None
  | S fuel =>
      match chunk with
      | c :: chunk' =>
          if chr c "]"%char && negb first then Some (mtch, chunk') else
          match getEsc chunk with
          | None => None
          | Some (lo, chunk1) =>
              match chunk1 with
              | d :: chunk2 =>
                  if chr d "-"%char then
                    match getEsc chunk2 with
                    | None => None
                    | Some (hi, chunk3) =>
                        bracket fuel chunk3 r false (mtch || ((lo <=? r) && (r <=? hi)))
                    end
                  else bracket fuel chunk1 r false (mtch || ((lo <=? r) && (r <=? lo)))
              | [] => None
              end
          end
      | [] => None
      end
  end.

(** The rest of the name to match; [None] once the chunk has failed. *)
Definition cursor := option (list ascii).

Definition negated (chunk : list ascii) : bool * list ascii :=
  match chunk with c :: l => if chr c "^"%char then (true, l) else (false, chunk) | [] => (false, []) end.

Definition take_rune (s : list ascii) : Z * list ascii :=
  let '(r, n) := decode_rune s in (r, drop n s).

(** Matching one literal byte of the chunk. *)
Definition literal (c : ascii) (s : cursor) : cursor :=
  match s with
  | Some (d :: s') => if chr c d then Some s' else None
  | _ => None
  end.

(** [matchChunk]: [None] is ErrBadPattern, [Some None] no match,
    [Some (Some t)] a match leaving [t]. *)
Fixpoint matchChunk (fuel : nat) (chunk : list ascii) (s : cursor) : option cursor :=
  match chunk with
  | [] => Some s
  | c :: chunk' =>
      match fuel with
      | O => None
      | S fuel =>
          let s := match s with Some [] => None | _ => s end in
          if chr c "["%char then
            let '(r, s1) := match s with Some s => let '(r, t) := take_rune s in (r, Some t)
                                    | None => (0, None) end in
            let '(neg, chunk1) := negated chunk' in
            match bracket (length chunk) chunk1 r true false with
            | None => None
            | Some (mtch, chunk2) =>
                matchChunk fuel chunk2 (if Bool.eqb mtch neg then None else s1)
            end
          else if chr c "?"%char then
            matchChunk fuel chunk'
              (match s with
               | Some (d :: s') => if chr d "/"%char then None else Some (take_rune (d :: s')).2
               | _ => None
               end)
          else if chr c backslash then
            match chunk' with
            | [] => None
            | d :: chunk'' => matchChunk fuel chunk'' (literal d s)
            end
          else matchChunk fuel chunk' (literal c s)
      end
  end.

Definition match_chunk (chunk s : list ascii) : option cursor :=
  matchChunk (length chunk) chunk (Some s).

Fixpoint star_search (chunk : list ascii) (last : bool) (name : list ascii) : option cursor :=
  match name with
  | [] => Some None
  | c :: rest =>
      if chr c "/"%char then Some None else
      match match_chunk chunk rest with
      | None => None
      | Some (Some t) =>
          if last && negb (bool_decide (t = [])) then star_search chunk last rest
          else Some (Some t)
      | Some None => star_search chunk last rest
      end
  end.

(** The rest of the pattern is syntactically valid. *)
Fixpoint rest_ok (fuel : nat) (p : list ascii) : bool :=
  match p, fuel with
  | [], _ => true
  | _, O => false
  | _, S fuel =>
      let '(_, chunk, p') := scanChunk p in
      match match_chunk chunk [] with None => false | Some _ => rest_ok fuel p' end
  end.

(** The [Pattern] loop. *)
Fixpoint match_loop (fuel : nat) (p name : list ascii) : option bool :=
  match p, fuel with
  | [], _ => Some (bool_decide (name = []))
  | _, O => None
  | _, S fuel =>
      let '(star, chunk, p') := scanChunk p in
      if star && bool_decide (chunk = []) then Some (negb (bool_decide ("/"%char ∈ name))) else
      let fail := if rest_ok fuel p' then Some false else None in
      let later :=
        if star then
          match star_search chunk (bool_decide (p' = [])) name with
          | None => None
          | Some (Some t) => match_loop fuel p' t
          | Some None => fail
          end
        else fail in
      match match_chunk chunk name with
      | None => None
      | Some (Some t) =>
          if bool_decide (t = []) || negb (bool_decide (p' = []))
          then match_loop fuel p' t else later
      | Some None => later
      end
  end.

(** [filepath.Match(pattern, name)] *)
Definition Match (pattern name : string) : option bool :=
  match_loop (length (chars pattern)) (chars pattern) (chars name).

Example Match_star : Match "ip-10-0-*" "ip-10-0-7" = Some true.
Proof. vm_compute. reflexivity. Qed.
Example Match_star_no : Match "spot-*" "ondemand-1" = Some false.
Proof. vm_compute. reflexivity. Qed.
Example Match_range : Match "node-[a-c]?" "node-b7" = Some true.
Proof. vm_compute. reflexivity. Qed.
Example Match_neg : Match "n[^0-9]*z" "nabz" = Some true.
Proof. vm_compute. reflexivity. Qed.
Example Match_bad : Match "node-[" "x" = None.
Proof. vm_compute. reflexivity. Qed.
Example Match_bad_late : Match "a*[]x" "b" = None.
Proof. vm_compute. reflexivity. Qed.
Example Match_mid : Match "a*b*c" "axxbyyc" = Some true.
Proof. vm_compute. reflexivity. Qed.

(** ** Every loop consumes its input: fuel never runs out *)

Lemma decode_rune_pos c l : (1 ≤ (decode_rune (c :: l)).2)%nat.
Proof. unfold decode_rune. repeat case_match; simpl; lia. Qed.

Lemma getEsc_length l r l' : getEsc l = Some (r, l') → (length l' < length l)%nat.
Proof.
  unfold getEsc. destruct l as [|c l]; [done|]. intros H.
  destruct (chr c "-"%char || chr c "]"%char); [done|].
  set (k := if chr c backslash then l else c :: l) in H.
  assert (length k ≤ S (length l))%nat as Hk by (subst k; destruct (chr c backslash); simpl; lia).
  destruct k as [|d k]; [done|]. pose proof (decode_rune_pos d k) as Hpos.
  destruct (decode_rune (d :: k)) as [r' n]. simpl in Hpos.
  destruct ((r' =? RuneError) && (n =? 1)%nat); [done|].
  destruct (drop n (d :: k)) as [|e rest] eqn:E; [done|]. simplify_eq/=.
  apply (f_equal length) in E. rw length_drop in E. simpl in *. lia.
Qed.

Lemma bracket_length n l r f m b l' :
  bracket n l r f m = Some (b, l') → (length l' < length l)%nat.
Proof.
  revert l f m. induction n as [|n IH]; intros l f m; simpl; [done|].
  destruct l as [|c l]; [done|]. intros H.
  destruct (chr c "]"%char && negb f); [simplify_eq; simpl; lia|].
  destruct (getEsc (c :: l)) as [[lo [|d k]]|] eqn:E1; [done| |done].
  apply getEsc_length in E1. simpl in E1.
  destruct (chr d "-"%char); [|apply IH in H; simpl in *; lia].
  destruct (getEsc k) as [[hi k3]|] eqn:E2; [|done].
  apply getEsc_length in E2. apply IH in H. simpl in *. lia.
Qed.

Lemma bracket_fuel n m l r f b :
  (length l ≤ n)%nat → (length l ≤ m)%nat → bracket n l r f b = bracket m l r f b.
Proof.
  revert m l f b. induction n as [|n IH]; intros [|m] [|c l] f b Hn Hm;
    try done; try (simpl in *; lia).
  cbn [bracket]. destruct (chr c "]"%char && negb f); [done|].
  destruct (getEsc (c :: l)) as [[lo [|d k]]|] eqn:E1; try done.
  apply getEsc_length in E1. simpl in *.
  destruct (chr d "-"%char); [|apply IH; simpl; lia].
  destruct (getEsc k) as [[hi k3]|] eqn:E2; [|done].
  apply getEsc_length in E2. apply IH; lia.
Qed.

(** Which ranges a bracket has does not depend on the character it is tested on. *)
Lemma bracket_rest n l r r' f m m' :
  snd <$> bracket n l r f m = snd <$> bracket n l r' f m'.
Proof.
  revert l f m m'. induction n as [|n IH]; intros l f m m'; simpl; [done|].
  repeat (case_match; simplify_eq/=; try done).
Qed.

Lemma negated_length l b l' : negated l = (b, l') → (length l' ≤ length l)%nat.
Proof. destruct l as [|c l]; simpl; [intros; by simplify_eq|]. case_match; intros; simplify_eq/=; lia. Qed.

Lemma matchChunk_fuel n m l s :
  (length l ≤ n)%nat → (length l ≤ m)%nat → matchChunk n l s = matchChunk m l s.
Proof.
  revert m l s. induction n as [|n IH]; intros [|m] [|c l] s Hn Hm; try done; try (simpl in *; lia).
  cbn [matchChunk]. simpl in Hn, Hm.
  set (s' := match s with Some [] => None | _ => s end).
  destruct (chr c "["%char).
  - destruct (match s' with Some _ => _ | None => _ end) as [r s1].
    destruct (negated l) as [neg k] eqn:Ek. apply negated_length in Ek.
    destruct (bracket (length (c :: l)) k r true false) as [[b k2]|] eqn:Eb; [|done].
    apply bracket_length in Eb. apply IH; lia.
  - destruct (chr c "?"%char); [apply IH; lia|].
    destruct (chr c backslash); [|apply IH; lia].
    destruct l as [|d l]; [done|]. simpl in *. apply IH; lia.
Qed.

(** A chunk is malformed against every name or against none. *)
Lemma matchChunk_error n l s s' : matchChunk n l s = None → matchChunk n l s' = None.
Proof.
  revert l s s'. induction n as [|n IH]; intros [|c l] s s'; try done.
  cbn [matchChunk].
  set (t := match s with Some [] => None | _ => s end).
  set (t' := match s' with Some [] => None | _ => s' end).
  destruct (chr c "["%char).
  - destruct (match t with Some _ => _ | None => _ end) as [r s1].
    destruct (match t' with Some _ => _ | None => _ end) as [r' s1'].
    destruct (negated l) as [neg k].
    pose proof (bracket_rest (length (c :: l)) k r r' true false false) as Hr.
    destruct (bracket _ k r true false) as [[b k2]|], (bracket _ k r' true false) as [[b' k2']|];
      simplify_eq/=; [by apply IH | done].
  - destruct (chr c "?"%char); [by apply IH|].
    destruct (chr c backslash); [|by apply IH].
    destruct l as [|d l]; [done|]. by apply IH.
Qed.

Lemma skip_stars_length p b p' :
  skip_stars p = (b, p') →
  (length p' ≤ length p)%nat ∧ (b = true → (length p' < length p)%nat).
Proof.
  revert b p'. induction p as [|c p IH]; simpl; intros b p' H; [by simplify_eq|].
  destruct (chr c "*"%char); simplify_eq/=; [|split; [lia | done]].
  destruct (skip_stars p) as [b' p'']. specialize (IH _ _ eq_refl) as [IH _]. simpl. lia.
Qed.

Lemma skip_stars_head p b c p' : skip_stars p = (b, c :: p') → c ≠ "*"%char.
Proof.
  revert b. induction p as [|d p IH]; simpl; intros b H; [done|].
  destruct (chr d "*"%char) eqn:E.
  - destruct (skip_stars p) as [b' q] eqn:Eq. simplify_eq/=. by eapply IH.
  - unfold chr in E. apply bool_decide_eq_false in E. by simplify_eq.
Qed.

Lemma scan_spec_length n b p x y :
  (length p ≤ n)%nat → scan b p = (x, y) → length p = (length x + length y)%nat.
Proof.
  revert b p x y. induction n as [|n IH]; intros b [|c p] x y Hn H; simpl in *; try lia;
    try by simplify_eq.
  destruct (chr c backslash).
  - destruct p as [|d p]; [by simplify_eq|].
    destruct (scan b p) as [x' y'] eqn:E. simplify_eq/=. apply IH in E; lia.
  - destruct (chr c "["%char); [|destruct (chr c "]"%char)];
      [| |destruct (chr c "*"%char && negb b); [by simplify_eq|]];
      match type of H with context [scan ?b' p] => destruct (scan b' p) as [x' y'] eqn:E end;
      simplify_eq/=; apply IH in E; lia.
Qed.

Lemma scan_length b p x y : scan b p = (x, y) → length p = (length x + length y)%nat.
Proof. by apply (scan_spec_length (length p)). Qed.

Lemma scan_head c p x y : c ≠ "*"%char → scan false (c :: p) = (x, y) → x ≠ [].
Proof.
  intros Hc H. simpl in H. unfold chr in H.
  rw (bool_decide_false (c = "*"%char)) // in H.
  repeat case_match; simplify_eq/=; done.
Qed.

(** A non-empty pattern loses at least one character to [scanChunk]; an empty
    chunk only comes from stars that end the pattern. *)
Lemma scanChunk_length p star chunk p' :
  p ≠ [] → scanChunk p = (star, chunk, p') → (length p' < length p)%nat.
Proof.
  unfold scanChunk. intros Hp H.
  destruct (skip_stars p) as [b q] eqn:E1. destruct (scan false q) as [x y] eqn:E2.
  simplify_eq/=. pose proof (scan_length _ _ _ _ E2) as Hl.
  pose proof (skip_stars_length _ _ _ E1) as [Hq Hstar].
  destruct star; [specialize (Hstar eq_refl); lia|].
  destruct q as [|c q].
  - destruct p as [|d p]; [done|]. simpl in *. lia.
  - apply scan_head in E2; [|by eapply skip_stars_head]. destruct chunk; [done|]. simpl in *. lia.
Qed.

Lemma scanChunk_empty p star p' :
  p ≠ [] → scanChunk p = (star, [], p') → star = true ∧ p' = [].
Proof.
  unfold scanChunk. intros Hp H.
  destruct (skip_stars p) as [b q] eqn:E1. destruct (scan false q) as [x y] eqn:E2. simplify_eq/=.
  destruct q as [|c q].
  - simpl in E2. simplify_eq. split; [|done].
    destruct p as [|d p]; [done|]. simpl in E1. destruct (chr d "*"%char); by simplify_eq.
  - by apply scan_head in E2; [|by eapply skip_stars_head].
Qed.

Lemma rest_ok_fuel n m p :
  (length p ≤ n)%nat → (length p ≤ m)%nat → rest_ok n p = rest_ok m p.
Proof.
  revert m p. induction n as [|n IH]; intros [|m] [|c p] Hn Hm; try done; try (simpl in *; lia).
  cbn [rest_ok]. destruct (scanChunk (c :: p)) as [[star chunk] p'] eqn:E.
  apply scanChunk_length in E; [|done]. simpl in *.
  destruct (match_chunk chunk []); [|done]. apply IH; lia.
Qed.

Lemma match_loop_fuel n m p name :
  (length p ≤ n)%nat → (length p ≤ m)%nat → match_loop n p name = match_loop m p name.
Proof.
  revert m p name. induction n as [|n IH]; intros [|m] [|c p] name Hn Hm;
    try done; try (simpl in *; lia).
  cbn [match_loop]. destruct (scanChunk (c :: p)) as [[star chunk] p'] eqn:E.
  apply scanChunk_length in E; [|done]. simpl in E, Hn, Hm.
  rw (rest_ok_fuel n m p'); [|lia..].
  assert (∀ t, match_loop n p' t = match_loop m p' t) as Heq by (intros; apply IH; lia).
  repeat (case_match; simplify_eq/=; try done); by rw ?Heq.
Qed.

(** ** Malformedness does not depend on the name *)

Lemma match_chunk_error chunk s : match_chunk chunk s = None → match_chunk chunk [] = None.
Proof. apply matchChunk_error. Qed.

Lemma star_search_error chunk last name :
  star_search chunk last name = None → match_chunk chunk [] = None.
Proof.
  induction name as [|c name IH]; simpl; [done|].
  destruct (chr c "/"%char); [done|].
  destruct (match_chunk chunk name) as [[t|]|] eqn:E; intros H; [|by apply IH|].
  - destruct (last && _); [by apply IH | done].
  - by apply match_chunk_error in E.
Qed.

(** An error of the loop is an error of some chunk. *)
Lemma match_loop_error n p name :
  (length p ≤ n)%nat → match_loop n p name = None → rest_ok n p = false.
Proof.
  revert p name. induction n as [|n IH]; intros [|c p] name Hn; try done; try (simpl in *; lia).
  cbn [match_loop rest_ok]. destruct (scanChunk (c :: p)) as [[star chunk] p'] eqn:E.
  apply scanChunk_length in E; [|done]. simpl in E, Hn.
  destruct (match_chunk chunk []) as [c0|] eqn:Ec; [|done].
  destruct (star && bool_decide (chunk = [])); [done|].
  assert (Hfail : (if rest_ok n p' then Some false else None) = None → rest_ok n p' = false)
    by (by destruct (rest_ok n p')).
  assert (Hrec : ∀ t, match_loop n p' t = None → rest_ok n p' = false)
    by (intros t; apply IH; lia).
  assert (Hlater : (if star then
          match star_search chunk (bool_decide (p' = [])) name with
          | None => None | Some (Some t) => match_loop n p' t
          | Some None => if rest_ok n p' then Some false else None end
        else if rest_ok n p' then Some false else None) = None → rest_ok n p' = false).
  { destruct star; [|done].
    destruct (star_search _ _ name) as [[t|]|] eqn:Es; [apply Hrec | done |].
    apply star_search_error in Es. congruence. }
  destruct (match_chunk chunk name) as [[t|]|] eqn:Em; [|done|].
  - destruct (bool_decide (t = []) || _); [apply Hrec | done].
  - apply match_chunk_error in Em. congruence.
Qed.

Lemma match_chunk_nil chunk t : match_chunk chunk [] = Some (Some t) → chunk = [].
Proof.
  destruct chunk as [|c chunk]; [done|]. unfold match_chunk. cbn [length matchChunk].
  assert (∀ n l t, matchChunk n l None ≠ Some (Some t)) as Hnone.
  { clear. induction n as [|n IH]; intros [|c l] t; try done. cbn [matchChunk].
    destruct (chr c "["%char).
    - destruct (negated l) as [neg k]. destruct (bracket _ k 0 true false) as [[b k2]|]; [|done].
      by case_match; apply IH.
    - destruct (chr c "?"%char); [apply IH|]. destruct (chr c backslash); [|apply IH].
      destruct l; [done | apply IH]. }
  destruct (chr c "["%char).
  - destruct (negated chunk) as [neg k]. destruct (bracket _ k 0 true false) as [[b k2]|]; [|done].
    case_match; intros []%Hnone.
  - destruct (chr c "?"%char); [by intros []%Hnone|].
    destruct (chr c backslash); [|by intros []%Hnone].
    destruct chunk; [done | by intros []%Hnone].
Qed.

(** Matching the empty string visits every chunk. *)
Lemma match_loop_empty n p :
  (length p ≤ n)%nat → match_loop n p [] ≠ None → rest_ok n p = true.
Proof.
  destruct p as [|c p]; [by destruct n|]. destruct n as [|n]; [simpl; lia|]. intros Hn.
  cbn [match_loop rest_ok]. destruct (scanChunk (c :: p)) as [[star chunk] p'] eqn:E.
  destruct (decide (chunk = [])) as [->|Hne].
  - apply scanChunk_empty in E as [-> ->]; [|done]. intros _. simpl. by destruct n.
  - rw (bool_decide_false (chunk = [])) // andb_false_r.
    destruct (match_chunk chunk []) as [[t|]|] eqn:Em; [by apply match_chunk_nil in Em| |done].
    simpl. destruct star; destruct (rest_ok n p'); done.
Qed.

(** A pattern that is well-formed against the empty name never errors. *)
Lemma Match_valid p name : Match p "" ≠ None → Match p name ≠ None.
Proof.
  unfold Match. intros Hempty%match_loop_empty Herr%match_loop_error; [congruence|lia..].
Qed.
