(* ===== verification/Sha256.v ===== *)
(** * crypto/sha256 and encoding/hex

    FIPS 180-4 SHA-256 on lists of bytes (integers 0..255), with 32-bit words
    as integers reduced modulo 2^32, and hexadecimal encoding.  [WindowName]
    uses the first eight bytes of a digest as a suffix. *)
From S2P Require Import Prelude GoStrings.

#[local] Open Scope Z_scope.

Definition w32 (z : Z) : Z := Z.land z 4294967295.
Definition rotr (n x : Z) : Z :=
  Z.lor (Z.shiftr x n) (w32 (Z.shiftl x (32 - n))).

Definition Ch x y z := Z.lxor (Z.land x y) (Z.land (Z.lxor x 4294967295) z).
Definition Maj x y z := Z.lxor (Z.lxor (Z.land x y) (Z.land x z)) (Z.land y z).
Definition Sigma0 x := Z.lxor (Z.lxor (rotr 2 x) (rotr 13 x)) (rotr 22 x).
Definition Sigma1 x := Z.lxor (Z.lxor (rotr 6 x) (rotr 11 x)) (rotr 25 x).
Definition sigma0 x := Z.lxor (Z.lxor (rotr 7 x) (rotr 18 x)) (Z.shiftr x 3).
Definition sigma1 x := Z.lxor (Z.lxor (rotr 17 x) (rotr 19 x)) (Z.shiftr x 10).

(** The standard's constants are the first 32 bits of the fractional parts of
    roots of the first primes: cube roots for the rounds, square roots for the
    initial hash.  They are computed here as integer roots of scaled primes. *)
Definition is_prime (n : nat) : bool :=
  forallb (λ d, negb (Nat.eqb (Nat.modulo n d) 0)) (seq 2 (n - 2)).
Definition primes : list Z := Z.of_nat <$> List.filter is_prime (seq 2 310).

(** The integer cube root below [2 ^ bits], bit by bit from the top. *)
Fixpoint cbrt_bits (bits : nat) (n acc : Z) : Z :=
  match bits with
  | O => acc
  | S b => let x := acc + Z.shiftl 1 (Z.of_nat b) in cbrt_bits b n (if x * x * x <=? n then x else acc)
  end.

Definition round_constants : list Z :=
  Eval vm_compute in (λ p, w32 (cbrt_bits 36 (Z.shiftl p 96) 0)) <$> primes.

Record hash := Hash { ha : Z; hb : Z; hc : Z; hd : Z; he : Z; hf : Z; hg : Z; hh : Z }.

Definition init_hash : hash :=
  Eval vm_compute in
    match (λ p, w32 (Z.sqrt (Z.shiftl p 64))) <$> take 8 primes with
    | [a; b; c; d; e; f; g; h] => Hash a b c d e f g h
    | _ => Hash 0 0 0 0 0 0 0 0
    end.

Fixpoint be_bytes (n : nat) (z : Z) : list Z :=
  match n with O => [] | S n => be_bytes n (z / 256) ++ [z mod 256] end.

(** Padding to a multiple of 64 bytes: 0x80, zeros, the bit length. *)
Definition padding (len : Z) : list Z :=
  128 :: replicate (Z.to_nat ((55 - len) mod 64)) 0 ++ be_bytes 8 (8 * len).

Fixpoint words_of (l : list Z) : list Z :=
  match l with
  | a :: b :: c :: d :: l => ((a * 256 + b) * 256 + c) * 256 + d :: words_of l
  | _ => []
  end.

(** The message schedule: [ws] holds the last sixteen words, newest first. *)
Fixpoint schedule (n : nat) (ws : list Z) : list Z :=
  match n with
  | O => []
  | S n =>
      match ws !! 1%nat, ws !! 6%nat, ws !! 14%nat, ws !! 15%nat with
      | Some w2, Some w7, Some w15, Some w16 =>
          let w := w32 (sigma1 w2 + w7 + sigma0 w15 + w16) in
          w :: schedule n (w :: take 15 ws)
      | _, _, _, _ => []
      end
  end.

Definition round (h : hash) (kw : Z * Z) : hash :=
  let '(Hash a b c d e f g hv) := h in
  let t1 := hv + Sigma1 e + Ch e f g + kw.1 + kw.2 in
  let t2 := Sigma0 a + Maj a b c in
  Hash (w32 (t1 + t2)) a b c (w32 (d + t1)) e f g.

Definition compress (h : hash) (block : list Z) : hash :=
  let ws := words_of block in
  let sched := ws ++ schedule 48 (reverse ws) in
  let '(Hash a b c d e f g hv) := foldl round h (zip round_constants sched) in
  Hash (w32 (ha h + a)) (w32 (hb h + b)) (w32 (hc h + c)) (w32 (hd h + d))
       (w32 (he h + e)) (w32 (hf h + f)) (w32 (hg h + g)) (w32 (hh h + hv)).

Fixpoint blocks (fuel : nat) (h : hash) (l : list Z) : hash :=
  match fuel with
  | O => h
  | S fuel => match l with [] => h | _ => blocks fuel (compress h (take 64 l)) (drop 64 l) end
  end.

Definition digest (h : hash) : list Z :=
  let '(Hash a b c d e f g hv) := h in
  be_bytes 4 a ++ be_bytes 4 b ++ be_bytes 4 c ++ be_bytes 4 d
  ++ be_bytes 4 e ++ be_bytes 4 f ++ be_bytes 4 g ++ be_bytes 4 hv.

(** [sha256.Sum256] *)
Definition Sum256 (data : list Z) : list Z :=
  let l := data ++ padding (Z.of_nat (length data)) in
  digest (blocks (length l) init_hash l).

(** [hex.EncodeToString] *)
Definition EncodeToString (l : list Z) : string :=
  of_chars (concat ((λ b, [hex_digit (b / 16); hex_digit (b mod 16)]) <$> l)).

Definition bytes_of (s : string) : list Z := code <$> chars s.

Example Sum256_abc :
  EncodeToString (Sum256 (bytes_of "abc"))
  = "ba7816bf8f01cfea414140de5dae2223b00361a396177a9cb410ff61f20015ad".
Proof. vm_compute. reflexivity. Qed.

Example Sum256_two_blocks :
  EncodeToString (Sum256 (bytes_of "abcdbcdecdefdefgefghfghighijhijkijkljklmklmnlmnomnopnopq"))
  = "248d6a61d20638b8e5c026930c3e6039a33ce45964ff2167f6ecedd419db06c1".
Proof. vm_compute. reflexivity. Qed.

(** ** What the naming component relies on: eight bytes give sixteen hex digits *)

(** More fuel than bytes changes nothing. *)
Lemma blocks_fuel n m h l : (length l ≤ n)%nat → (length l ≤ m)%nat → blocks n h l = blocks m h l.
Proof.
  revert m h l. induction n as [|n IH]; intros [|m] h [|b l] Hn Hm; simpl in Hn, Hm; try lia; try done.
  cbn [blocks]. apply IH; rewrite length_drop; simpl; lia.
Qed.

Lemma be_bytes_length n z : length (be_bytes n z) = n.
Proof. revert z. induction n as [|n IH]; intros z; simpl; [done|]. rw length_app IH /=. lia. Qed.

Lemma be_bytes_range n z : Forall (λ b, 0 <= b < 256) (be_bytes n z).
Proof.
  revert z. induction n as [|n IH]; intros z; simpl; [done|].
  apply Forall_app. split; [done|]. constructor; [|done]. apply Z.mod_pos_bound. lia.
Qed.

Lemma Sum256_length l : length (Sum256 l) = 32%nat.
Proof. unfold Sum256. by destruct (blocks _ _ _). Qed.

Lemma Sum256_range l : Forall (λ b, 0 <= b < 256) (Sum256 l).
Proof.
  unfold Sum256, digest. destruct (blocks _ _ _).
  repeat first [apply be_bytes_range | apply Forall_app; split].
Qed.

Lemma EncodeToString_length l : length (chars (EncodeToString l)) = (2 * length l)%nat.
Proof.
  unfold EncodeToString. rw chars_of_chars. induction l as [|b l IH]; [done|].
  simpl. rw IH. lia.
Qed.

Definition is_hex (c : ascii) : bool := is_digit c || in_range "a"%char "f"%char c.

Lemma hex_digit_hex z : 0 <= z < 16 → is_hex (hex_digit z) = true.
Proof.
  intros Hz. assert (z ∈ seqZ 0 16) as Hin by (apply elem_of_seqZ; lia).
  revert z Hz Hin. cut (Forall (λ z, is_hex (hex_digit z) = true) (seqZ 0 16)).
  { intros Hall z _ Hin. by eapply (proj1 (Forall_forall _ _)) in Hall. }
  vm_compute. repeat constructor.
Qed.

Lemma EncodeToString_hex l :
  Forall (λ b, 0 <= b < 256) l → Forall (λ c, is_hex c = true) (chars (EncodeToString l)).
Proof.
  unfold EncodeToString. rw chars_of_chars. induction 1 as [|b l Hb Hl IH]; [done|]. simpl.
  constructor; [apply hex_digit_hex; split; [apply Z.div_pos; lia | apply Z.div_lt_upper_bound; lia]|].
  constructor; [apply hex_digit_hex, Z.mod_pos_bound; lia | done].
Qed.
