(* ===== verification/Meta.v ===== *)
(** * Kubernetes API data

    The wire objects the program reads, with the fields it uses.  A nil Go map
    and an empty one are identified: every use in the program treats them
    alike ([m[k]] of a nil map is the zero value, [len] is 0).  Pointers are
    options, except [tTimeAdded], whose identity the code compares. *)
From S2P Require Import Prelude GoStrings GoTime.

Abbreviation strmap := (gmap string string).

Record NamespacedName := NN { nnNamespace : string; nnName : string }.

#[global] Instance NamespacedName_eq_dec : EqDecision NamespacedName.
Proof. solve_decision. Defined.
#[global] Program Instance NamespacedName_countable : Countable NamespacedName :=
  inj_countable' (λ n, (nnNamespace n, nnName n)) (λ p, NN p.1 p.2) _.
Next Obligation. by intros []. Qed.

Record GroupVersion := GV { gvGroup : string; gvVersion : string }.
Record GroupVersionKind := GVK { gvkGV : GroupVersion; gvkKind : string }.

#[global] Instance GroupVersion_eq_dec : EqDecision GroupVersion.
Proof. solve_decision. Defined.
#[global] Program Instance GroupVersion_countable : Countable GroupVersion :=
  inj_countable' (λ n, (gvGroup n, gvVersion n)) (λ p, GV p.1 p.2) _.
Next Obligation. by intros []. Qed.
#[global] Instance GroupVersionKind_eq_dec : EqDecision GroupVersionKind.
Proof. solve_decision. Defined.
#[global] Program Instance GroupVersionKind_countable : Countable GroupVersionKind :=
  inj_countable' (λ n, (gvkGV n, gvkKind n)) (λ p, GVK p.1 p.2) _.
Next Obligation. by intros []. Qed.

Record OwnerReference := OwnerRef {
  orKind : string;
  orName : string;
  orController : option bool
}.

#[global] Instance OwnerReference_eq_dec : EqDecision OwnerReference.
Proof. solve_decision. Defined.

(** [o.Controller != nil && *o.Controller] *)
Definition is_controller (o : OwnerReference) : bool := default false (orController o).

Record ObjectMeta := MkMeta {
  mName : string;
  mNamespace : string;
  mLabels : strmap;
  mAnnotations : strmap;
  mDeletionTimestamp : option Time;
  mCreationTimestamp : Time;
  mFinalizers : list string;
  mOwnerReferences : list OwnerReference;
  mGeneration : Z
}.

#[global] Instance ObjectMeta_eq_dec : EqDecision ObjectMeta.
Proof. solve_decision. Defined.

Definition mKey (m : ObjectMeta) : NamespacedName := NN (mNamespace m) (mName m).

(** [IsZero] of a pointer to metav1.Time, true for nil. *)
Definition tsIsZero (t : option Time) : bool := match t with None => true | Some t => IsZero t end.

(** [metav1.LabelSelector] *)
Record SelectorRequirement := Requirement {
  srKey : string; srOperator : string; srValues : list string
}.
Record LabelSelector := MkSelector {
  matchLabels : strmap;
  matchExpressions : list SelectorRequirement
}.

Record Taint := MkTaint {
  tKey : string;
  tValue : string;
  tEffect : string;
  tTimeAdded : option positive  (* the address of the metav1.Time, or nil *)
}.

#[global] Instance Taint_eq_dec : EqDecision Taint.
Proof. solve_decision. Defined.

Record Node := MkNode { nMeta : ObjectMeta; nUnschedulable : bool; nTaints : list Taint }.

Record PodCondition := MkPodCondition { pcType : string; pcStatus : string }.

Record Pod := MkPod { podMeta : ObjectMeta; podNodeName : string; podConditions : list PodCondition }.

Record ReplicaSet := MkReplicaSet { rsMeta : ObjectMeta }.

Record Namespace := MkNamespace { nsMeta : ObjectMeta }.

Record Deployment := MkDeployment {
  dMeta : ObjectMeta;
  dReplicas : option Z;
  dSelector : option LabelSelector;
  dTemplateLabels : strmap
}.

Definition ConditionTrue : string := "True".
Definition ConditionFalse : string := "False".

(** [metav1.Condition] *)
Record Condition := MkCondition {
  cType : string;
  cStatus : string;
  cObservedGeneration : Z;
  cLastTransitionTime : Time;
  cReason : string;
  cMessage : string
}.

(** The [metav1.Status] carried by an API error: its machine-readable reason,
    its message, and the types of its causes when it has details. *)
Record Status := MkStatus {
  sReason : string;
  sMessage : string;
  sCauses : option (list string)
}.
