(* ===== verification/Api.v ===== *)
(** * api/v1alpha1: the custom resources

    EvictionGuardPolicy and EvictionGuardWindow (evictionguardpolicy_types.go,
    evictionguardwindow_types.go), the well-known labels and annotations
    (labels.go), the defaults and the small methods on these types. *)
From S2P Require Import Prelude GoStrings GoTime Meta.

#[local] Open Scope Z_scope.

(** ** labels.go *)

Definition ProtectedLabel : string := "eviction-guard.io/protected".
Definition PolicyLabel : string := "eviction-guard.io/policy".
Definition DeferredLabel : string := "eviction-guard.io/deferred".
Definition PolicyPinAnnotation : string := "eviction-guard.io/policy-pin".
Definition WorkloadNameLabel : string := "eviction-guard.io/workload-name".
Definition WorkloadNamespaceLabel : string := "eviction-guard.io/workload-namespace".
Definition ScaleBackendAnnotation : string := "eviction-guard.io/scale-backend".
Definition ScaleBackAfterAnnotation : string := "eviction-guard.io/scale-back-after".
Definition StampAnnotation : string := "eviction-guard.io/stamp".
Definition StampScaledToKeyAnnotation : string := "eviction-guard.io/stamp-scaled-to".
Definition StampBaselineKeyAnnotation : string := "eviction-guard.io/stamp-baseline".
Definition StampActiveKeyAnnotation : string := "eviction-guard.io/stamp-active".
Definition StampWindowUntilKeyAnnotation : string := "eviction-guard.io/stamp-window-until".
Definition StampScaledToKey : string := "eviction-guard.io/scaled-to".
Definition StampBaselineKey : string := "eviction-guard.io/baseline".
Definition StampActiveKey : string := "eviction-guard.io/active".
Definition StampWindowUntilKey : string := "eviction-guard.io/window-until".
Definition WindowFinalizer : string := "eviction-guard.io/scale-back".
Definition PolicyFinalizer : string := "eviction-guard.io/cleanup".

(** ** EvictionGuardPolicy *)

(** [DisruptionSignal] is an open string type: plugins register further names. *)
Definition DisruptionSignal : Type := string.

Definition SignalKarpenterDisrupted : DisruptionSignal := "KarpenterDisrupted".
Definition SignalKarpenterDeleteRequested : DisruptionSignal := "KarpenterDeleteRequested".
Definition SignalOutOfService : DisruptionSignal := "OutOfService".
Definition SignalSpotInterrupted : DisruptionSignal := "SpotInterrupted".
Definition SignalNodeCordoned : DisruptionSignal := "NodeCordoned".

Record TaintMatch := MkTaintMatch { tmKey : string; tmValue : string; tmEffect : string }.

(** [MatchesAny] *)
Fixpoint MatchesAny (t : TaintMatch) (taints : list Taint) : bool :=
  match taints with
  | [] => false
  | x :: rest =>
      if negb (str_eqb (tKey x) (tmKey t)) then MatchesAny t rest
      else if negb (str_eqb (tmValue t) "") && negb (str_eqb (tValue x) (tmValue t))
           then MatchesAny t rest
      else if negb (str_eqb (tmEffect t) "") && negb (str_eqb (tEffect x) (tmEffect t))
           then MatchesAny t rest
      else true
  end.

Record KeyValueMatch := MkKeyValueMatch { kvKey : string; kvValue : string }.

Record CustomDisruptionSignal := MkCustomSignal {
  csName : string;
  csTaint : option TaintMatch;
  csAnnotation : option KeyValueMatch;
  csLabel : option KeyValueMatch
}.

Record NodeFilter := MkNodeFilter {
  nfLabelSelector : option LabelSelector;
  nfExcludeLabelSelector : option LabelSelector;
  nfNames : list string;
  nfNamePattern : string;
  nfZones : list string;
  nfInstanceTypes : list string;
  nfCapacityTypes : list string;
  nfTaintSelector : list TaintMatch
}.

Record StampSpec := MkStampSpec {
  stEnabled : bool;
  stScaledToKey : string;
  stBaselineKey : string;
  stActiveKey : string;
  stWindowUntilKey : string
}.

Record BackendPatch := MkBackendPatch { bpPath : string; bpAnnotation : string }.

Record BackendCatalogEntry := MkCatalogEntry {
  ceAPIVersion : string;
  ceKind : string;
  cePatches : list BackendPatch;
  ceSkipDownscaling : bool;
  ceDefaultWhenUnset : option Z
}.

Record EvictionGuardPolicySpec := MkPolicySpec {
  psNodeFilter : NodeFilter;
  psWorkloadSelector : option LabelSelector;
  psNamespaceSelector : option LabelSelector;
  psSpareReplicas : option Z;
  psMaxBuffer : option Z;
  psMaxConcurrentWindows : option Z;
  psBackends : gmap string BackendCatalogEntry;
  psScaleBackAfter : option Duration;
  psMaxWindow : option Duration;
  psStamp : StampSpec;
  psDisruptionSignals : list DisruptionSignal;
  psCustomSignals : list CustomDisruptionSignal
}.

Record EvictionGuardPolicyStatus := MkPolicyStatus {
  plObservedGeneration : Z;
  plMatchedNodes : Z;
  plVulnerableNodes : Z;
  plActiveWindows : Z;
  plDeferredWorkloads : Z;
  plConditions : list Condition
}.

Record EvictionGuardPolicy := MkPolicy {
  polMeta : ObjectMeta;
  polSpec : EvictionGuardPolicySpec;
  polStatus : EvictionGuardPolicyStatus
}.

Definition polName (p : EvictionGuardPolicy) : string := mName (polMeta p).

Definition ConditionBackendsAuthorized : string := "BackendsAuthorized".
Definition ReasonMissingRBAC : string := "MissingRBAC".
Definition ReasonAuthorized : string := "Authorized".

Definition DefaultSpareReplicas : Z := 1.
Definition DefaultMaxBuffer : Z := 4.
Definition DefaultMaxConcurrentWindows : Z := 8.
Definition DefaultMaxWindow : Duration := 2 * Hour.
Definition DefaultScaleBackAfter : Duration := Minute.

Definition SpareReplicasOrDefault (p : EvictionGuardPolicy) : Z :=
  match psSpareReplicas (polSpec p) with None => DefaultSpareReplicas | Some n => n end.
Definition MaxBufferOrDefault (p : EvictionGuardPolicy) : Z :=
  match psMaxBuffer (polSpec p) with None => DefaultMaxBuffer | Some n => n end.
Definition MaxConcurrentWindowsOrDefault (p : EvictionGuardPolicy) : Z :=
  match psMaxConcurrentWindows (polSpec p) with None => DefaultMaxConcurrentWindows | Some n => n end.
Definition ScaleBackAfterOrDefault (p : EvictionGuardPolicy) : Duration :=
  match psScaleBackAfter (polSpec p) with None => DefaultScaleBackAfter | Some d => d end.
Definition MaxWindowOrDefault (p : EvictionGuardPolicy) : Duration :=
  match psMaxWindow (polSpec p) with None => DefaultMaxWindow | Some d => d end.

(** ** EvictionGuardWindow *)

(** [WindowPhase]; [PhaseUnset] is the empty string of a window whose status was
    not written yet. *)
Inductive WindowPhase :=
| WindowPhaseOpen | WindowPhaseCooling | WindowPhaseHeld | WindowPhaseClosed | PhaseUnset.

#[global] Instance WindowPhase_eq_dec : EqDecision WindowPhase.
Proof. solve_decision. Defined.

Definition ConditionSpareReady : string := "SpareReady".
Definition ConditionCapacityApplied : string := "CapacityApplied".
Definition ReasonReplicasReady : string := "ReplicasReady".
Definition ReasonWaitingForReady : string := "WaitingForReady".
Definition ReasonScaleApplied : string := "Applied".
Definition ReasonScaleFailed : string := "ApplyFailed".
Definition ReasonScaleRejected : string := "Rejected".
Definition ReasonScaleForbidden : string := "Forbidden".
Definition ReasonScaleConflict : string := "Conflict".
Definition ReasonScaleMissing : string := "Missing".

Record WorkloadReference := MkWorkloadRef {
  wrAPIVersion : string; wrKind : string; wrName : string; wrNamespace : string
}.

Record ScaleAction := MkScaleAction {
  saKey : string;
  saAPIVersion : string;
  saKind : string;
  saNamespace : string;
  saName : string;
  saFieldPath : string;
  saBaseline : Z;
  saScaledTo : Z;
  saSkipDownscaling : bool;
  saStampKeys : list string
}.

#[global] Instance ScaleAction_eq_dec : EqDecision ScaleAction.
Proof. solve_decision. Defined.

#[global] Instance WorkloadReference_eq_dec : EqDecision WorkloadReference.
Proof. solve_decision. Defined.

Record EvictionGuardWindowSpec := MkWindowSpec {
  wsPolicyName : string;
  wsTarget : WorkloadReference;
  wsActions : list ScaleAction;
  wsBaseline : Z;
  wsScaledTo : Z;
  wsVulnerableNodes : list string;
  wsWindowUntil : option Time
}.

#[global] Instance EvictionGuardWindowSpec_eq_dec : EqDecision EvictionGuardWindowSpec.
Proof. solve_decision. Defined.

Record EvictionGuardWindowStatus := MkWindowStatus {
  wtPhase : WindowPhase;
  wtLastScaleTime : option Time;
  wtSpareReady : bool;
  wtReadyReplicas : Z;
  wtSafeReadyReplicas : Z;
  wtMessage : string;
  wtForcedCool : bool;
  wtConditions : list Condition
}.

Record EvictionGuardWindow := MkWindow {
  winMeta : ObjectMeta;
  winSpec : EvictionGuardWindowSpec;
  winStatus : EvictionGuardWindowStatus
}.

Definition empty_window_status : EvictionGuardWindowStatus :=
  MkWindowStatus PhaseUnset None false 0 0 "" false [].

(** [IsActive] *)
Definition IsActive (w : EvictionGuardWindow) : bool :=
  match wtPhase (winStatus w) with
  | WindowPhaseOpen | WindowPhaseCooling | WindowPhaseHeld | PhaseUnset => true
  | WindowPhaseClosed => false
  end.

(** [ScaleActions]; the receiver is never nil in the program. *)
Definition ScaleActions (w : EvictionGuardWindow) : list ScaleAction := wsActions (winSpec w).

(** [PrimaryAction] *)
Definition PrimaryAction (w : EvictionGuardWindow) : option ScaleAction := head (ScaleActions w).

(** ** Field assignments

    [w.Status.F = v] and the like, as functions. *)
Definition with_meta (f : ObjectMeta → ObjectMeta) (w : EvictionGuardWindow) : EvictionGuardWindow :=
  MkWindow (f (winMeta w)) (winSpec w) (winStatus w).
Definition with_spec (f : EvictionGuardWindowSpec → EvictionGuardWindowSpec)
  (w : EvictionGuardWindow) : EvictionGuardWindow :=
  MkWindow (winMeta w) (f (winSpec w)) (winStatus w).
Definition with_status (f : EvictionGuardWindowStatus → EvictionGuardWindowStatus)
  (w : EvictionGuardWindow) : EvictionGuardWindow :=
  MkWindow (winMeta w) (winSpec w) (f (winStatus w)).

Definition set_labels (l : strmap) (m : ObjectMeta) : ObjectMeta :=
  MkMeta (mName m) (mNamespace m) l (mAnnotations m) (mDeletionTimestamp m)
         (mCreationTimestamp m) (mFinalizers m) (mOwnerReferences m) (mGeneration m).
Definition set_finalizers (l : list string) (m : ObjectMeta) : ObjectMeta :=
  MkMeta (mName m) (mNamespace m) (mLabels m) (mAnnotations m) (mDeletionTimestamp m)
         (mCreationTimestamp m) l (mOwnerReferences m) (mGeneration m).

Definition set_deletion (t : option Time) (m : ObjectMeta) : ObjectMeta :=
  MkMeta (mName m) (mNamespace m) (mLabels m) (mAnnotations m) t (mCreationTimestamp m) (mFinalizers m)
         (mOwnerReferences m) (mGeneration m).

Definition set_vulnerable (l : list string) (s : EvictionGuardWindowSpec) :=
  MkWindowSpec (wsPolicyName s) (wsTarget s) (wsActions s) (wsBaseline s) (wsScaledTo s) l (wsWindowUntil s).
Definition set_until (t : option Time) (s : EvictionGuardWindowSpec) :=
  MkWindowSpec (wsPolicyName s) (wsTarget s) (wsActions s) (wsBaseline s) (wsScaledTo s)
               (wsVulnerableNodes s) t.

Definition set_phase (p : WindowPhase) (s : EvictionGuardWindowStatus) :=
  MkWindowStatus p (wtLastScaleTime s) (wtSpareReady s) (wtReadyReplicas s) (wtSafeReadyReplicas s)
                 (wtMessage s) (wtForcedCool s) (wtConditions s).
Definition set_message (m : string) (s : EvictionGuardWindowStatus) :=
  MkWindowStatus (wtPhase s) (wtLastScaleTime s) (wtSpareReady s) (wtReadyReplicas s)
                 (wtSafeReadyReplicas s) m (wtForcedCool s) (wtConditions s).
Definition set_last_scale (t : option Time) (s : EvictionGuardWindowStatus) :=
  MkWindowStatus (wtPhase s) t (wtSpareReady s) (wtReadyReplicas s) (wtSafeReadyReplicas s)
                 (wtMessage s) (wtForcedCool s) (wtConditions s).
Definition set_forced (b : bool) (s : EvictionGuardWindowStatus) :=
  MkWindowStatus (wtPhase s) (wtLastScaleTime s) (wtSpareReady s) (wtReadyReplicas s)
                 (wtSafeReadyReplicas s) (wtMessage s) b (wtConditions s).
Definition set_spare (b : bool) (ready safe : Z) (s : EvictionGuardWindowStatus) :=
  MkWindowStatus (wtPhase s) (wtLastScaleTime s) b ready safe (wtMessage s) (wtForcedCool s)
                 (wtConditions s).
Definition set_conditions (c : list Condition) (s : EvictionGuardWindowStatus) :=
  MkWindowStatus (wtPhase s) (wtLastScaleTime s) (wtSpareReady s) (wtReadyReplicas s)
                 (wtSafeReadyReplicas s) (wtMessage s) (wtForcedCool s) c.

Definition win_key (w : EvictionGuardWindow) : NamespacedName := mKey (winMeta w).

(** ** Taint matching, as a predicate *)

Definition taint_matches (t : TaintMatch) (x : Taint) : Prop :=
  tKey x = tmKey t ∧ (tmValue t = "" ∨ tValue x = tmValue t)
  ∧ (tmEffect t = "" ∨ tEffect x = tmEffect t).

Lemma str_eqb_true a b : str_eqb a b = true ↔ a = b.
Proof. apply bool_decide_eq_true. Qed.
Lemma str_eqb_false a b : str_eqb a b = false ↔ a ≠ b.
Proof. apply bool_decide_eq_false. Qed.

Lemma taint_matches_dec t x :
  str_eqb (tKey x) (tmKey t)
  && (str_eqb (tmValue t) "" || str_eqb (tValue x) (tmValue t))
  && (str_eqb (tmEffect t) "" || str_eqb (tEffect x) (tmEffect t)) = true ↔ taint_matches t x.
Proof. unfold taint_matches. by rw !andb_true_iff !orb_true_iff !str_eqb_true and_assoc. Qed.

Lemma MatchesAny_cons t x l :
  MatchesAny t (x :: l) = true ↔ taint_matches t x ∨ MatchesAny t l = true.
Proof.
  rw -taint_matches_dec. simpl.
  destruct (str_eqb (tKey x) (tmKey t)), (str_eqb (tmValue t) ""), (str_eqb (tValue x) (tmValue t)),
    (str_eqb (tmEffect t) ""), (str_eqb (tEffect x) (tmEffect t)); simpl; intuition congruence.
Qed.

(** A taint match fires exactly when some taint has its key and, where they
    are set, its value and its effect. *)
Theorem MatchesAny_spec t taints :
  MatchesAny t taints = true ↔ ∃ x, x ∈ taints ∧ taint_matches t x.
Proof.
  induction taints as [|x l IH].
  - split; [done | intros (? & []%not_elem_of_nil & _)].
  - rw MatchesAny_cons IH. setoid_rewrite elem_of_cons. split.
    + intros [?|(y & ? & ?)]; eauto.
    + intros (y & [->|?] & ?); eauto.
Qed.
