(* ===== verification/DeepCopy.v ===== *)
(** * api/v1alpha1: the generated deep copies

    zz_generated.deepcopy.go on the memory of Heap.v.  A type that ends in [Mem]
    is the struct as it lies in memory, with its pointers, slices and maps; the
    types of Api.v are what it stands for.  [DeepCopyInto] returns the struct it
    leaves in [*out]: it starts as [*in] (its scalar fields are those of the
    argument) and its reference fields are replaced one after the other, in the
    source's order.  The deep copies of metav1's types are parameters. *)
From S2P Require Import Prelude GoStrings GoTime Meta Api Heap.

#[local] Open Scope Z_scope.

(** ** Types of apimachinery in memory *)
Class ApiMem := {
  ObjectMetaMem : Type;
  ListMetaMem : Type;
  LabelSelectorMem : Type;
  ConditionMem : Type;
  ListMeta : Type;
  zeroObjectMeta : Zero ObjectMetaMem;
  zeroListMeta : Zero ListMetaMem;
  zeroLabelSelector : Zero LabelSelectorMem;
  zeroCondition : Zero ConditionMem
}.
#[export] Existing Instances zeroObjectMeta zeroListMeta zeroLabelSelector zeroCondition.

Record TypeMeta := MkTypeMeta { tyKind : string; tyAPIVersion : string }.

(** ** The structs in memory *)
Section structs.
Context `{AM : ApiMem}.

Record BackendCatalogEntryMem := MkCatalogEntryMem {
  ceAPIVersionM : string; ceKindM : string; cePatchesM : slice BackendPatch; ceSkipDownscalingM : bool; ceDefaultWhenUnsetM : ptr Z
}.
Record CustomDisruptionSignalMem := MkCustomSignalMem {
  csNameM : string; csTaintM : ptr TaintMatch; csAnnotationM : ptr KeyValueMatch; csLabelM : ptr KeyValueMatch
}.
Record NodeFilterMem := MkNodeFilterMem {
  nfLabelSelectorM : ptr LabelSelectorMem; nfExcludeLabelSelectorM : ptr LabelSelectorMem; nfNamesM : slice string;
  nfNamePatternM : string; nfZonesM : slice string; nfInstanceTypesM : slice string; nfCapacityTypesM : slice string;
  nfTaintSelectorM : slice TaintMatch
}.
Record EvictionGuardPolicySpecMem := MkPolicySpecMem {
  psNodeFilterM : NodeFilterMem; psWorkloadSelectorM : ptr LabelSelectorMem; psNamespaceSelectorM : ptr LabelSelectorMem;
  psSpareReplicasM : ptr Z; psMaxBufferM : ptr Z; psMaxConcurrentWindowsM : ptr Z; psBackendsM : gomap BackendCatalogEntryMem;
  psScaleBackAfterM : ptr Z; psMaxWindowM : ptr Z; psStampM : StampSpec; psDisruptionSignalsM : slice string;
  psCustomSignalsM : slice CustomDisruptionSignalMem
}.
Record EvictionGuardPolicyStatusMem := MkPolicyStatusMem {
  plObservedGenerationM : Z; plMatchedNodesM : Z; plVulnerableNodesM : Z; plActiveWindowsM : Z; plDeferredWorkloadsM : Z;
  plConditionsM : slice ConditionMem
}.
Record EvictionGuardPolicyMem := MkPolicyMem {
  polTypeM : TypeMeta; polMetaM : ObjectMetaMem; polSpecM : EvictionGuardPolicySpecMem; polStatusM : EvictionGuardPolicyStatusMem
}.
Record EvictionGuardPolicyListMem := MkPolicyListMem {
  pliTypeM : TypeMeta; pliMetaM : ListMetaMem; pliItemsM : slice EvictionGuardPolicyMem
}.
Record ScaleActionMem := MkScaleActionMem {
  saKeyM : string; saAPIVersionM : string; saKindM : string; saNamespaceM : string; saNameM : string; saFieldPathM : string;
  saBaselineM : Z; saScaledToM : Z; saSkipDownscalingM : bool; saStampKeysM : slice string
}.
Record EvictionGuardWindowSpecMem := MkWindowSpecMem {
  wsPolicyNameM : string; wsTargetM : WorkloadReference; wsActionsM : slice ScaleActionMem; wsBaselineM : Z; wsScaledToM : Z;
  wsVulnerableNodesM : slice string; wsWindowUntilM : ptr Z
}.
Record EvictionGuardWindowStatusMem := MkWindowStatusMem {
  wtPhaseM : WindowPhase; wtLastScaleTimeM : ptr Z; wtSpareReadyM : bool; wtReadyReplicasM : Z; wtSafeReadyReplicasM : Z;
  wtMessageM : string; wtForcedCoolM : bool; wtConditionsM : slice ConditionMem
}.
Record EvictionGuardWindowMem := MkWindowMem {
  winTypeM : TypeMeta; winMetaM : ObjectMetaMem; winSpecM : EvictionGuardWindowSpecMem; winStatusM : EvictionGuardWindowStatusMem
}.
Record EvictionGuardWindowListMem := MkWindowListMem {
  wliTypeM : TypeMeta; wliMetaM : ListMetaMem; wliItemsM : slice EvictionGuardWindowMem
}.

(** Blocks: an array of one type, or the catalog's map.  Times and durations are
    stored like integers. *)
Inductive block :=
| Ints (l : list Z) | Strings (l : list string) | TaintMatches (l : list TaintMatch) | KeyValueMatches (l : list KeyValueMatch)
| BackendPatches (l : list BackendPatch) | StampSpecs (l : list StampSpec) | WorkloadReferences (l : list WorkloadReference)
| LabelSelectors (l : list LabelSelectorMem) | Conditions (l : list ConditionMem)
| CatalogEntries (l : list BackendCatalogEntryMem) | CustomSignals (l : list CustomDisruptionSignalMem)
| NodeFilters (l : list NodeFilterMem) | PolicySpecs (l : list EvictionGuardPolicySpecMem)
| PolicyStatuses (l : list EvictionGuardPolicyStatusMem) | Policies (l : list EvictionGuardPolicyMem)
| PolicyLists (l : list EvictionGuardPolicyListMem) | ActionBlock (l : list ScaleActionMem)
| WindowSpecs (l : list EvictionGuardWindowSpecMem) | WindowStatuses (l : list EvictionGuardWindowStatusMem)
| Windows (l : list EvictionGuardWindowMem) | WindowLists (l : list EvictionGuardWindowListMem)
| CatalogMap (m : gmap string BackendCatalogEntryMem).
End structs.

(** *** Which block holds what, and zero values *)
#[export] Instance block_Ints `{ApiMem} : Block block Z := {
  to_block := Ints; of_block b := match b with Ints l => Some l | _ => None end; of_to_block l := eq_refl
}.
#[export] Instance block_Strings `{ApiMem} : Block block string := {
  to_block := Strings; of_block b := match b with Strings l => Some l | _ => None end; of_to_block l := eq_refl
}.
#[export] Instance block_TaintMatches `{ApiMem} : Block block TaintMatch := {
  to_block := TaintMatches; of_block b := match b with TaintMatches l => Some l | _ => None end; of_to_block l := eq_refl
}.
#[export] Instance block_KeyValueMatches `{ApiMem} : Block block KeyValueMatch := {
  to_block := KeyValueMatches; of_block b := match b with KeyValueMatches l => Some l | _ => None end; of_to_block l := eq_refl
}.
#[export] Instance block_BackendPatches `{ApiMem} : Block block BackendPatch := {
  to_block := BackendPatches; of_block b := match b with BackendPatches l => Some l | _ => None end; of_to_block l := eq_refl
}.
#[export] Instance block_StampSpecs `{ApiMem} : Block block StampSpec := {
  to_block := StampSpecs; of_block b := match b with StampSpecs l => Some l | _ => None end; of_to_block l := eq_refl
}.
#[export] Instance block_WorkloadReferences `{ApiMem} : Block block WorkloadReference := {
  to_block := WorkloadReferences; of_block b := match b with WorkloadReferences l => Some l | _ => None end; of_to_block l := eq_refl
}.
#[export] Instance block_LabelSelectors `{ApiMem} : Block block LabelSelectorMem := {
  to_block := LabelSelectors; of_block b := match b with LabelSelectors l => Some l | _ => None end; of_to_block l := eq_refl
}.
#[export] Instance block_Conditions `{ApiMem} : Block block ConditionMem := {
  to_block := Conditions; of_block b := match b with Conditions l => Some l | _ => None end; of_to_block l := eq_refl
}.
#[export] Instance block_CatalogEntries `{ApiMem} : Block block BackendCatalogEntryMem := {
  to_block := CatalogEntries; of_block b := match b with CatalogEntries l => Some l | _ => None end; of_to_block l := eq_refl
}.
#[export] Instance block_CustomSignals `{ApiMem} : Block block CustomDisruptionSignalMem := {
  to_block := CustomSignals; of_block b := match b with CustomSignals l => Some l | _ => None end; of_to_block l := eq_refl
}.
#[export] Instance block_NodeFilters `{ApiMem} : Block block NodeFilterMem := {
  to_block := NodeFilters; of_block b := match b with NodeFilters l => Some l | _ => None end; of_to_block l := eq_refl
}.
#[export] Instance block_PolicySpecs `{ApiMem} : Block block EvictionGuardPolicySpecMem := {
  to_block := PolicySpecs; of_block b := match b with PolicySpecs l => Some l | _ => None end; of_to_block l := eq_refl
}.
#[export] Instance block_PolicyStatuses `{ApiMem} : Block block EvictionGuardPolicyStatusMem := {
  to_block := PolicyStatuses; of_block b := match b with PolicyStatuses l => Some l | _ => None end; of_to_block l := eq_refl
}.
#[export] Instance block_Policies `{ApiMem} : Block block EvictionGuardPolicyMem := {
  to_block := Policies; of_block b := match b with Policies l => Some l | _ => None end; of_to_block l := eq_refl
}.
#[export] Instance block_PolicyLists `{ApiMem} : Block block EvictionGuardPolicyListMem := {
  to_block := PolicyLists; of_block b := match b with PolicyLists l => Some l | _ => None end; of_to_block l := eq_refl
}.
#[export] Instance block_ActionBlock `{ApiMem} : Block block ScaleActionMem := {
  to_block := ActionBlock; of_block b := match b with ActionBlock l => Some l | _ => None end; of_to_block l := eq_refl
}.
#[export] Instance block_WindowSpecs `{ApiMem} : Block block EvictionGuardWindowSpecMem := {
  to_block := WindowSpecs; of_block b := match b with WindowSpecs l => Some l | _ => None end; of_to_block l := eq_refl
}.
#[export] Instance block_WindowStatuses `{ApiMem} : Block block EvictionGuardWindowStatusMem := {
  to_block := WindowStatuses; of_block b := match b with WindowStatuses l => Some l | _ => None end; of_to_block l := eq_refl
}.
#[export] Instance block_Windows `{ApiMem} : Block block EvictionGuardWindowMem := {
  to_block := Windows; of_block b := match b with Windows l => Some l | _ => None end; of_to_block l := eq_refl
}.
#[export] Instance block_WindowLists `{ApiMem} : Block block EvictionGuardWindowListMem := {
  to_block := WindowLists; of_block b := match b with WindowLists l => Some l | _ => None end; of_to_block l := eq_refl
}.
#[export] Instance block_CatalogMap `{ApiMem} : MapBlock block BackendCatalogEntryMem := {
  to_map := CatalogMap; of_map b := match b with CatalogMap m => Some m | _ => None end; of_to_map m := eq_refl
}.

#[export] Instance zero_Z : Zero Z := 0.
#[export] Instance zero_string : Zero string := "".
#[export] Instance zero_TaintMatch : Zero TaintMatch := MkTaintMatch "" "" "".
#[export] Instance zero_KeyValueMatch : Zero KeyValueMatch := MkKeyValueMatch "" "".
#[export] Instance zero_BackendPatch : Zero BackendPatch := MkBackendPatch "" "".
#[export] Instance zero_StampSpec : Zero StampSpec := MkStampSpec false "" "" "" "".
#[export] Instance zero_WorkloadReference : Zero WorkloadReference := MkWorkloadRef "" "" "" "".
#[export] Instance zero_TypeMeta : Zero TypeMeta := MkTypeMeta "" "".
#[export] Instance zero_CatalogEntry : Zero BackendCatalogEntryMem := MkCatalogEntryMem "" "" nils false nilp.
#[export] Instance zero_CustomSignal : Zero CustomDisruptionSignalMem := MkCustomSignalMem "" nilp nilp nilp.
#[export] Instance zero_ScaleAction : Zero ScaleActionMem := MkScaleActionMem "" "" "" "" "" "" 0 0 false nils.
#[export] Instance zero_NodeFilter `{ApiMem} : Zero NodeFilterMem := MkNodeFilterMem nilp nilp nils "" nils nils nils nils.
#[export] Instance zero_PolicySpec `{ApiMem} : Zero EvictionGuardPolicySpecMem :=
  MkPolicySpecMem zero nilp nilp nilp nilp nilp nilm nilp nilp zero nils nils.
#[export] Instance zero_PolicyStatus `{ApiMem} : Zero EvictionGuardPolicyStatusMem := MkPolicyStatusMem 0 0 0 0 0 nils.
#[export] Instance zero_Policy `{ApiMem} : Zero EvictionGuardPolicyMem := MkPolicyMem zero zero zero zero.
#[export] Instance zero_PolicyList `{ApiMem} : Zero EvictionGuardPolicyListMem := MkPolicyListMem zero zero nils.
#[export] Instance zero_WindowSpec : Zero EvictionGuardWindowSpecMem := MkWindowSpecMem "" zero nils 0 0 nils nilp.
#[export] Instance zero_WindowStatus `{ApiMem} : Zero EvictionGuardWindowStatusMem :=
  MkWindowStatusMem PhaseUnset nilp false 0 0 "" false nils.
#[export] Instance zero_Window `{ApiMem} : Zero EvictionGuardWindowMem := MkWindowMem zero zero zero zero.
#[export] Instance zero_WindowList `{ApiMem} : Zero EvictionGuardWindowListMem := MkWindowListMem zero zero nils.

(** The deep copies of apimachinery, and what its structs stand for. *)
Class ApiCopiers `{ApiMem} := {
  ObjectMeta_DeepCopyInto : ObjectMetaMem → C block ObjectMetaMem;
  ListMeta_DeepCopyInto : ListMetaMem → C block ListMetaMem;
  LabelSelector_DeepCopyInto : LabelSelectorMem → C block LabelSelectorMem;
  Condition_DeepCopyInto : ConditionMem → C block ConditionMem;
  Time_DeepCopy : ptr Z → C block (ptr Z);
  (** The order in which the runtime ranges over a map. *)
  range_order : gmap string BackendCatalogEntryMem → list (string * BackendCatalogEntryMem);
  means_ObjectMeta : Means block ObjectMetaMem ObjectMeta;
  means_ListMeta : Means block ListMetaMem ListMeta;
  means_LabelSelector : Means block LabelSelectorMem LabelSelector;
  means_Condition : Means block ConditionMem Condition
}.
#[export] Existing Instances means_ObjectMeta means_ListMeta means_LabelSelector means_Condition.

(** ** The copiers *)
Section copiers.
Context `{AC : ApiCopiers}.
Abbreviation Run := (C block).

Definition BackendPatch_DeepCopyInto (in_ : BackendPatch) : Run BackendPatch := mret in_.
Definition KeyValueMatch_DeepCopyInto (in_ : KeyValueMatch) : Run KeyValueMatch := mret in_.
Definition StampSpec_DeepCopyInto (in_ : StampSpec) : Run StampSpec := mret in_.
Definition TaintMatch_DeepCopyInto (in_ : TaintMatch) : Run TaintMatch := mret in_.
Definition WorkloadReference_DeepCopyInto (in_ : WorkloadReference) : Run WorkloadReference := mret in_.

Definition BackendCatalogEntry_DeepCopyInto (in_ : BackendCatalogEntryMem) : Run BackendCatalogEntryMem :=
  patches ← clone_slice (cePatchesM in_);
  unset ← copy_ptr mret (ceDefaultWhenUnsetM in_);
  mret (MkCatalogEntryMem (ceAPIVersionM in_) (ceKindM in_) patches (ceSkipDownscalingM in_) unset).

Definition CustomDisruptionSignal_DeepCopyInto (in_ : CustomDisruptionSignalMem) : Run CustomDisruptionSignalMem :=
  taint ← copy_ptr mret (csTaintM in_);
  annotation ← copy_ptr mret (csAnnotationM in_);
  label ← copy_ptr mret (csLabelM in_);
  mret (MkCustomSignalMem (csNameM in_) taint annotation label).

Definition NodeFilter_DeepCopyInto (in_ : NodeFilterMem) : Run NodeFilterMem :=
  selector ← copy_ptr LabelSelector_DeepCopyInto (nfLabelSelectorM in_);
  exclude ← copy_ptr LabelSelector_DeepCopyInto (nfExcludeLabelSelectorM in_);
  names ← clone_slice (nfNamesM in_);
  zones ← clone_slice (nfZonesM in_);
  instances ← clone_slice (nfInstanceTypesM in_);
  capacity ← clone_slice (nfCapacityTypesM in_);
  taints ← clone_slice (nfTaintSelectorM in_);
  mret (MkNodeFilterMem selector exclude names (nfNamePatternM in_) zones instances capacity taints).

Definition EvictionGuardPolicySpec_DeepCopyInto (in_ : EvictionGuardPolicySpecMem) : Run EvictionGuardPolicySpecMem :=
  filter ← NodeFilter_DeepCopyInto (psNodeFilterM in_);
  workloads ← copy_ptr LabelSelector_DeepCopyInto (psWorkloadSelectorM in_);
  namespaces ← copy_ptr LabelSelector_DeepCopyInto (psNamespaceSelectorM in_);
  spare ← copy_ptr mret (psSpareReplicasM in_);
  buffer ← copy_ptr mret (psMaxBufferM in_);
  windows ← copy_ptr mret (psMaxConcurrentWindowsM in_);
  backends ← copy_map range_order BackendCatalogEntry_DeepCopyInto (psBackendsM in_);
  after ← copy_ptr mret (psScaleBackAfterM in_);
  max ← copy_ptr mret (psMaxWindowM in_);
  signals ← clone_slice (psDisruptionSignalsM in_);
  custom ← copy_slice CustomDisruptionSignal_DeepCopyInto (psCustomSignalsM in_);
  mret (MkPolicySpecMem filter workloads namespaces spare buffer windows backends after max (psStampM in_) signals custom).

Definition EvictionGuardPolicyStatus_DeepCopyInto (in_ : EvictionGuardPolicyStatusMem) : Run EvictionGuardPolicyStatusMem :=
  conditions ← copy_slice Condition_DeepCopyInto (plConditionsM in_);
  mret (MkPolicyStatusMem (plObservedGenerationM in_) (plMatchedNodesM in_) (plVulnerableNodesM in_) (plActiveWindowsM in_)
          (plDeferredWorkloadsM in_) conditions).

Definition EvictionGuardPolicy_DeepCopyInto (in_ : EvictionGuardPolicyMem) : Run EvictionGuardPolicyMem :=
  meta ← ObjectMeta_DeepCopyInto (polMetaM in_);
  spec ← EvictionGuardPolicySpec_DeepCopyInto (polSpecM in_);
  status ← EvictionGuardPolicyStatus_DeepCopyInto (polStatusM in_);
  mret (MkPolicyMem (polTypeM in_) meta spec status).

Definition EvictionGuardPolicyList_DeepCopyInto (in_ : EvictionGuardPolicyListMem) : Run EvictionGuardPolicyListMem :=
  meta ← ListMeta_DeepCopyInto (pliMetaM in_);
  items ← copy_slice EvictionGuardPolicy_DeepCopyInto (pliItemsM in_);
  mret (MkPolicyListMem (pliTypeM in_) meta items).

Definition ScaleAction_DeepCopyInto (in_ : ScaleActionMem) : Run ScaleActionMem :=
  keys ← clone_slice (saStampKeysM in_);
  mret (MkScaleActionMem (saKeyM in_) (saAPIVersionM in_) (saKindM in_) (saNamespaceM in_) (saNameM in_) (saFieldPathM in_)
          (saBaselineM in_) (saScaledToM in_) (saSkipDownscalingM in_) keys).

(** A non-nil time is copied by its own method. *)
Definition copy_time (p : ptr Z) : Run (ptr Z) := match p with nilp => mret nilp | _ => Time_DeepCopy p end.

Definition EvictionGuardWindowSpec_DeepCopyInto (in_ : EvictionGuardWindowSpecMem) : Run EvictionGuardWindowSpecMem :=
  actions ← copy_slice ScaleAction_DeepCopyInto (wsActionsM in_);
  nodes ← clone_slice (wsVulnerableNodesM in_);
  until ← copy_time (wsWindowUntilM in_);
  mret (MkWindowSpecMem (wsPolicyNameM in_) (wsTargetM in_) actions (wsBaselineM in_) (wsScaledToM in_) nodes until).

Definition EvictionGuardWindowStatus_DeepCopyInto (in_ : EvictionGuardWindowStatusMem) : Run EvictionGuardWindowStatusMem :=
  last ← copy_time (wtLastScaleTimeM in_);
  conditions ← copy_slice Condition_DeepCopyInto (wtConditionsM in_);
  mret (MkWindowStatusMem (wtPhaseM in_) last (wtSpareReadyM in_) (wtReadyReplicasM in_) (wtSafeReadyReplicasM in_)
          (wtMessageM in_) (wtForcedCoolM in_) conditions).

Definition EvictionGuardWindow_DeepCopyInto (in_ : EvictionGuardWindowMem) : Run EvictionGuardWindowMem :=
  meta ← ObjectMeta_DeepCopyInto (winMetaM in_);
  spec ← EvictionGuardWindowSpec_DeepCopyInto (winSpecM in_);
  status ← EvictionGuardWindowStatus_DeepCopyInto (winStatusM in_);
  mret (MkWindowMem (winTypeM in_) meta spec status).

Definition EvictionGuardWindowList_DeepCopyInto (in_ : EvictionGuardWindowListMem) : Run EvictionGuardWindowListMem :=
  meta ← ListMeta_DeepCopyInto (wliMetaM in_);
  items ← copy_slice EvictionGuardWindow_DeepCopyInto (wliItemsM in_);
  mret (MkWindowListMem (wliTypeM in_) meta items).

(** *** DeepCopy: nil for nil, or a new object that [DeepCopyInto] fills *)

Definition BackendCatalogEntry_DeepCopy : ptr BackendCatalogEntryMem → Run (ptr BackendCatalogEntryMem) := copy_ptr BackendCatalogEntry_DeepCopyInto.
Definition BackendPatch_DeepCopy : ptr BackendPatch → Run (ptr BackendPatch) := copy_ptr BackendPatch_DeepCopyInto.
Definition CustomDisruptionSignal_DeepCopy : ptr CustomDisruptionSignalMem → Run (ptr CustomDisruptionSignalMem) := copy_ptr CustomDisruptionSignal_DeepCopyInto.
Definition EvictionGuardPolicy_DeepCopy : ptr EvictionGuardPolicyMem → Run (ptr EvictionGuardPolicyMem) := copy_ptr EvictionGuardPolicy_DeepCopyInto.
Definition EvictionGuardPolicyList_DeepCopy : ptr EvictionGuardPolicyListMem → Run (ptr EvictionGuardPolicyListMem) := copy_ptr EvictionGuardPolicyList_DeepCopyInto.
Definition EvictionGuardPolicySpec_DeepCopy : ptr EvictionGuardPolicySpecMem → Run (ptr EvictionGuardPolicySpecMem) := copy_ptr EvictionGuardPolicySpec_DeepCopyInto.
Definition EvictionGuardPolicyStatus_DeepCopy : ptr EvictionGuardPolicyStatusMem → Run (ptr EvictionGuardPolicyStatusMem) := copy_ptr EvictionGuardPolicyStatus_DeepCopyInto.
Definition EvictionGuardWindow_DeepCopy : ptr EvictionGuardWindowMem → Run (ptr EvictionGuardWindowMem) := copy_ptr EvictionGuardWindow_DeepCopyInto.
Definition EvictionGuardWindowList_DeepCopy : ptr EvictionGuardWindowListMem → Run (ptr EvictionGuardWindowListMem) := copy_ptr EvictionGuardWindowList_DeepCopyInto.
Definition EvictionGuardWindowSpec_DeepCopy : ptr EvictionGuardWindowSpecMem → Run (ptr EvictionGuardWindowSpecMem) := copy_ptr EvictionGuardWindowSpec_DeepCopyInto.
Definition EvictionGuardWindowStatus_DeepCopy : ptr EvictionGuardWindowStatusMem → Run (ptr EvictionGuardWindowStatusMem) := copy_ptr EvictionGuardWindowStatus_DeepCopyInto.
Definition KeyValueMatch_DeepCopy : ptr KeyValueMatch → Run (ptr KeyValueMatch) := copy_ptr KeyValueMatch_DeepCopyInto.
Definition NodeFilter_DeepCopy : ptr NodeFilterMem → Run (ptr NodeFilterMem) := copy_ptr NodeFilter_DeepCopyInto.
Definition ScaleAction_DeepCopy : ptr ScaleActionMem → Run (ptr ScaleActionMem) := copy_ptr ScaleAction_DeepCopyInto.
Definition StampSpec_DeepCopy : ptr StampSpec → Run (ptr StampSpec) := copy_ptr StampSpec_DeepCopyInto.
Definition TaintMatch_DeepCopy : ptr TaintMatch → Run (ptr TaintMatch) := copy_ptr TaintMatch_DeepCopyInto.
Definition WorkloadReference_DeepCopy : ptr WorkloadReference → Run (ptr WorkloadReference) := copy_ptr WorkloadReference_DeepCopyInto.

(** [runtime.Object], an interface: nil, or a pointer with its type. *)
Inductive Object :=
| PolicyObject (p : ptr EvictionGuardPolicyMem)
| PolicyListObject (p : ptr EvictionGuardPolicyListMem)
| WindowObject (p : ptr EvictionGuardWindowMem)
| WindowListObject (p : ptr EvictionGuardWindowListMem).

Definition as_object {T} (mk : ptr T → Object) (c : ptr T) : option Object := match c with nilp => None | _ => Some (mk c) end.

Definition EvictionGuardPolicy_DeepCopyObject (in_ : ptr EvictionGuardPolicyMem) : Run (option Object) :=
  c ← EvictionGuardPolicy_DeepCopy in_; mret (as_object PolicyObject c).
Definition EvictionGuardPolicyList_DeepCopyObject (in_ : ptr EvictionGuardPolicyListMem) : Run (option Object) :=
  c ← EvictionGuardPolicyList_DeepCopy in_; mret (as_object PolicyListObject c).
Definition EvictionGuardWindow_DeepCopyObject (in_ : ptr EvictionGuardWindowMem) : Run (option Object) :=
  c ← EvictionGuardWindow_DeepCopy in_; mret (as_object WindowObject c).
Definition EvictionGuardWindowList_DeepCopyObject (in_ : ptr EvictionGuardWindowListMem) : Run (option Object) :=
  c ← EvictionGuardWindowList_DeepCopy in_; mret (as_object WindowListObject c).
End copiers.

(** ** What a struct in memory stands for *)

(** An object with its TypeMeta, which the rest of the development leaves out. *)
Record typed (A : Type) := Typed { typeMeta : TypeMeta; object : A }.
Arguments Typed {A} _ _.

(** A value without references stands for itself. *)
Definition itself `{ApiMem} (T : Type) : Means block T T.
Proof. refine {| means _ x a := x = a |}. done. Defined.

#[export] Instance means_Z `{ApiMem} : Means block Z Z := itself Z.
#[export] Instance flat_Z `{ApiMem} : Flat block Z Z.
Proof. by intros ????. Qed.
#[export] Instance means_string `{ApiMem} : Means block string string := itself string.
#[export] Instance flat_string `{ApiMem} : Flat block string string.
Proof. by intros ????. Qed.
#[export] Instance means_TaintMatch `{ApiMem} : Means block TaintMatch TaintMatch := itself TaintMatch.
#[export] Instance flat_TaintMatch `{ApiMem} : Flat block TaintMatch TaintMatch.
Proof. by intros ????. Qed.
#[export] Instance means_KeyValueMatch `{ApiMem} : Means block KeyValueMatch KeyValueMatch := itself KeyValueMatch.
#[export] Instance flat_KeyValueMatch `{ApiMem} : Flat block KeyValueMatch KeyValueMatch.
Proof. by intros ????. Qed.
#[export] Instance means_BackendPatch `{ApiMem} : Means block BackendPatch BackendPatch := itself BackendPatch.
#[export] Instance flat_BackendPatch `{ApiMem} : Flat block BackendPatch BackendPatch.
Proof. by intros ????. Qed.
#[export] Instance means_StampSpec `{ApiMem} : Means block StampSpec StampSpec := itself StampSpec.
#[export] Instance flat_StampSpec `{ApiMem} : Flat block StampSpec StampSpec.
Proof. by intros ????. Qed.
#[export] Instance means_WorkloadReference `{ApiMem} : Means block WorkloadReference WorkloadReference := itself WorkloadReference.
#[export] Instance flat_WorkloadReference `{ApiMem} : Flat block WorkloadReference WorkloadReference.
Proof. by intros ????. Qed.

(** Every field of a struct means more in more memory. *)
Ltac struct_fields H := hnf in H; repeat match type of H with ∃ _, _ => let y := fresh in destruct H as [y H] end; destruct_and? H.
Ltac fields_mono :=
  let Hs := fresh in let Hm := fresh in
  intros h h' x a Hs Hm; struct_fields Hm; subst a;
  hnf; repeat match goal with |- ∃ _, _ => eexists end; split_and!; first [reflexivity | eapply means_mono; eassumption].

Section means.
Context `{AC : ApiCopiers}.

Definition CatalogEntry_means (h : heap block) (x : BackendCatalogEntryMem) (a : BackendCatalogEntry) : Prop :=
  ∃ patches unset, means h (cePatchesM x) patches ∧ means h (ceDefaultWhenUnsetM x) unset
    ∧ a = MkCatalogEntry (ceAPIVersionM x) (ceKindM x) patches (ceSkipDownscalingM x) unset.
#[export] Program Instance means_CatalogEntry : Means block BackendCatalogEntryMem (BackendCatalogEntry) := { means := CatalogEntry_means }.
Next Obligation. fields_mono. Qed.

Definition CustomSignal_means (h : heap block) (x : CustomDisruptionSignalMem) (a : CustomDisruptionSignal) : Prop :=
  ∃ taint annotation label, means h (csTaintM x) taint ∧ means h (csAnnotationM x) annotation ∧ means h (csLabelM x) label
    ∧ a = MkCustomSignal (csNameM x) taint annotation label.
#[export] Program Instance means_CustomSignal : Means block CustomDisruptionSignalMem (CustomDisruptionSignal) := { means := CustomSignal_means }.
Next Obligation. fields_mono. Qed.

Definition NodeFilter_means (h : heap block) (x : NodeFilterMem) (a : NodeFilter) : Prop :=
  ∃ selector exclude names zones instances capacity taints, means h (nfLabelSelectorM x) selector ∧ means h (nfExcludeLabelSelectorM x) exclude ∧ means h (nfNamesM x) names ∧ means h (nfZonesM x) zones ∧ means h (nfInstanceTypesM x) instances ∧ means h (nfCapacityTypesM x) capacity ∧ means h (nfTaintSelectorM x) taints
    ∧ a = MkNodeFilter selector exclude names (nfNamePatternM x) zones instances capacity taints.
#[export] Program Instance means_NodeFilter : Means block NodeFilterMem (NodeFilter) := { means := NodeFilter_means }.
Next Obligation. fields_mono. Qed.

Definition PolicySpec_means (h : heap block) (x : EvictionGuardPolicySpecMem) (a : EvictionGuardPolicySpec) : Prop :=
  ∃ filter workloads namespaces spare buffer windows backends after max signals custom, means h (psNodeFilterM x) filter ∧ means h (psWorkloadSelectorM x) workloads ∧ means h (psNamespaceSelectorM x) namespaces ∧ means h (psSpareReplicasM x) spare ∧ means h (psMaxBufferM x) buffer ∧ means h (psMaxConcurrentWindowsM x) windows ∧ means h (psBackendsM x) backends ∧ means h (psScaleBackAfterM x) after ∧ means h (psMaxWindowM x) max ∧ means h (psDisruptionSignalsM x) signals ∧ means h (psCustomSignalsM x) custom
    ∧ a = MkPolicySpec filter workloads namespaces spare buffer windows backends after max (psStampM x) signals custom.
#[export] Program Instance means_PolicySpec : Means block EvictionGuardPolicySpecMem (EvictionGuardPolicySpec) := { means := PolicySpec_means }.
Next Obligation. fields_mono. Qed.

Definition PolicyStatus_means (h : heap block) (x : EvictionGuardPolicyStatusMem) (a : EvictionGuardPolicyStatus) : Prop :=
  ∃ conditions, means h (plConditionsM x) conditions
    ∧ a = MkPolicyStatus (plObservedGenerationM x) (plMatchedNodesM x) (plVulnerableNodesM x) (plActiveWindowsM x) (plDeferredWorkloadsM x) conditions.
#[export] Program Instance means_PolicyStatus : Means block EvictionGuardPolicyStatusMem (EvictionGuardPolicyStatus) := { means := PolicyStatus_means }.
Next Obligation. fields_mono. Qed.

Definition Policy_means (h : heap block) (x : EvictionGuardPolicyMem) (a : typed EvictionGuardPolicy) : Prop :=
  ∃ om spec status, means h (polMetaM x) om ∧ means h (polSpecM x) spec ∧ means h (polStatusM x) status
    ∧ a = Typed (polTypeM x) (MkPolicy om spec status).
#[export] Program Instance means_Policy : Means block EvictionGuardPolicyMem (typed EvictionGuardPolicy) := { means := Policy_means }.
Next Obligation. fields_mono. Qed.

Definition PolicyList_means (h : heap block) (x : EvictionGuardPolicyListMem) (a : typed (ListMeta * list (typed EvictionGuardPolicy))) : Prop :=
  ∃ lm items, means h (pliMetaM x) lm ∧ means h (pliItemsM x) items
    ∧ a = Typed (pliTypeM x) (lm, items).
#[export] Program Instance means_PolicyList : Means block EvictionGuardPolicyListMem (typed (ListMeta * list (typed EvictionGuardPolicy))) := { means := PolicyList_means }.
Next Obligation. fields_mono. Qed.

Definition ScaleAction_means (h : heap block) (x : ScaleActionMem) (a : ScaleAction) : Prop :=
  ∃ keys, means h (saStampKeysM x) keys
    ∧ a = MkScaleAction (saKeyM x) (saAPIVersionM x) (saKindM x) (saNamespaceM x) (saNameM x) (saFieldPathM x) (saBaselineM x)
                            (saScaledToM x) (saSkipDownscalingM x) keys.
#[export] Program Instance means_ScaleAction : Means block ScaleActionMem (ScaleAction) := { means := ScaleAction_means }.
Next Obligation. fields_mono. Qed.

Definition WindowSpec_means (h : heap block) (x : EvictionGuardWindowSpecMem) (a : EvictionGuardWindowSpec) : Prop :=
  ∃ actions nodes until, means h (wsActionsM x) actions ∧ means h (wsVulnerableNodesM x) nodes ∧ means h (wsWindowUntilM x) until
    ∧ a = MkWindowSpec (wsPolicyNameM x) (wsTargetM x) actions (wsBaselineM x) (wsScaledToM x) nodes until.
#[export] Program Instance means_WindowSpec : Means block EvictionGuardWindowSpecMem (EvictionGuardWindowSpec) := { means := WindowSpec_means }.
Next Obligation. fields_mono. Qed.

Definition WindowStatus_means (h : heap block) (x : EvictionGuardWindowStatusMem) (a : EvictionGuardWindowStatus) : Prop :=
  ∃ last conditions, means h (wtLastScaleTimeM x) last ∧ means h (wtConditionsM x) conditions
    ∧ a = MkWindowStatus (wtPhaseM x) last (wtSpareReadyM x) (wtReadyReplicasM x) (wtSafeReadyReplicasM x) (wtMessageM x)
                            (wtForcedCoolM x) conditions.
#[export] Program Instance means_WindowStatus : Means block EvictionGuardWindowStatusMem (EvictionGuardWindowStatus) := { means := WindowStatus_means }.
Next Obligation. fields_mono. Qed.

Definition Window_means (h : heap block) (x : EvictionGuardWindowMem) (a : typed EvictionGuardWindow) : Prop :=
  ∃ om spec status, means h (winMetaM x) om ∧ means h (winSpecM x) spec ∧ means h (winStatusM x) status
    ∧ a = Typed (winTypeM x) (MkWindow om spec status).
#[export] Program Instance means_Window : Means block EvictionGuardWindowMem (typed EvictionGuardWindow) := { means := Window_means }.
Next Obligation. fields_mono. Qed.

Definition WindowList_means (h : heap block) (x : EvictionGuardWindowListMem) (a : typed (ListMeta * list (typed EvictionGuardWindow))) : Prop :=
  ∃ lm items, means h (wliMetaM x) lm ∧ means h (wliItemsM x) items
    ∧ a = Typed (wliTypeM x) (lm, items).
#[export] Program Instance means_WindowList : Means block EvictionGuardWindowListMem (typed (ListMeta * list (typed EvictionGuardWindow))) := { means := WindowList_means }.
Next Obligation. fields_mono. Qed.
End means.

(** ** The copiers are right *)

Class ApiCopyLaws `{AC : ApiCopiers} : Prop := {
  ObjectMeta_copies : copies ObjectMeta_DeepCopyInto;
  ListMeta_copies : copies ListMeta_DeepCopyInto;
  LabelSelector_copies : copies LabelSelector_DeepCopyInto;
  Condition_copies : copies Condition_DeepCopyInto;
  Time_copies : copies Time_DeepCopy;
  range_order_all m k x : (k, x) ∈ range_order m ↔ m !! k = Some x
}.

Create HintDb copies.
#[export] Hint Resolve copies_ptr copies_slice copies_clone copies_flat : copies.
#[export] Hint Resolve ObjectMeta_copies ListMeta_copies LabelSelector_copies Condition_copies Time_copies : copies.

(** A copier of a struct: each of its steps copies a field. *)
Ltac copy_struct :=
  apply fills_copies; let Hm := fresh in intros ? ? ? Hm; struct_fields Hm; subst;
  repeat (eapply fills_copy; [ | eassumption | assumption || solve_map_disjoint | intros ? ? ? ? ?]; [solve [eauto with copies typeclass_instances]|]);
  apply fills_ret; [assumption || solve_map_disjoint|];
  hnf; repeat match goal with |- ∃ _, _ => eexists end; split_and!;
  try match goal with |- _ = _ => reflexivity end; copied_later.

Section copied.
Context `{CL : ApiCopyLaws}.

Lemma copy_time_copies : copies copy_time.
Proof.
  intros h [|l i] o Hp; [|by apply Time_copies]. destruct o; [done|]. exists nilp, ∅. rewrite right_id_L.
  split; [done|]. split; [solve_map_disjoint | done].
Qed.
#[local] Hint Resolve copy_time_copies : copies.

Lemma BackendCatalogEntry_copies : copies BackendCatalogEntry_DeepCopyInto.
Proof. unfold BackendCatalogEntry_DeepCopyInto. copy_struct. Qed.
#[local] Hint Resolve BackendCatalogEntry_copies : copies.
Lemma CustomDisruptionSignal_copies : copies CustomDisruptionSignal_DeepCopyInto.
Proof. unfold CustomDisruptionSignal_DeepCopyInto. copy_struct. Qed.
#[local] Hint Resolve CustomDisruptionSignal_copies : copies.
Lemma NodeFilter_copies : copies NodeFilter_DeepCopyInto.
Proof. unfold NodeFilter_DeepCopyInto. copy_struct. Qed.
#[local] Hint Resolve NodeFilter_copies : copies.
Lemma backends_copies : copies (copy_map range_order BackendCatalogEntry_DeepCopyInto).
Proof. apply copies_map; [apply range_order_all | apply BackendCatalogEntry_copies]. Qed.
#[local] Hint Resolve backends_copies : copies.
Lemma EvictionGuardPolicySpec_copies : copies EvictionGuardPolicySpec_DeepCopyInto.
Proof. unfold EvictionGuardPolicySpec_DeepCopyInto. copy_struct. Qed.
#[local] Hint Resolve EvictionGuardPolicySpec_copies : copies.
Lemma EvictionGuardPolicyStatus_copies : copies EvictionGuardPolicyStatus_DeepCopyInto.
Proof. unfold EvictionGuardPolicyStatus_DeepCopyInto. copy_struct. Qed.
#[local] Hint Resolve EvictionGuardPolicyStatus_copies : copies.
Lemma EvictionGuardPolicy_copies : copies EvictionGuardPolicy_DeepCopyInto.
Proof. unfold EvictionGuardPolicy_DeepCopyInto. copy_struct. Qed.
#[local] Hint Resolve EvictionGuardPolicy_copies : copies.
Lemma EvictionGuardPolicyList_copies : copies EvictionGuardPolicyList_DeepCopyInto.
Proof. unfold EvictionGuardPolicyList_DeepCopyInto. copy_struct. Qed.
#[local] Hint Resolve EvictionGuardPolicyList_copies : copies.
Lemma ScaleAction_copies : copies ScaleAction_DeepCopyInto.
Proof. unfold ScaleAction_DeepCopyInto. copy_struct. Qed.
#[local] Hint Resolve ScaleAction_copies : copies.
Lemma EvictionGuardWindowSpec_copies : copies EvictionGuardWindowSpec_DeepCopyInto.
Proof. unfold EvictionGuardWindowSpec_DeepCopyInto. copy_struct. Qed.
#[local] Hint Resolve EvictionGuardWindowSpec_copies : copies.
Lemma EvictionGuardWindowStatus_copies : copies EvictionGuardWindowStatus_DeepCopyInto.
Proof. unfold EvictionGuardWindowStatus_DeepCopyInto. copy_struct. Qed.
#[local] Hint Resolve EvictionGuardWindowStatus_copies : copies.
Lemma EvictionGuardWindow_copies : copies EvictionGuardWindow_DeepCopyInto.
Proof. unfold EvictionGuardWindow_DeepCopyInto. copy_struct. Qed.
#[local] Hint Resolve EvictionGuardWindow_copies : copies.
Lemma EvictionGuardWindowList_copies : copies EvictionGuardWindowList_DeepCopyInto.
Proof. unfold EvictionGuardWindowList_DeepCopyInto. copy_struct. Qed.
#[local] Hint Resolve EvictionGuardWindowList_copies : copies.
End copied.

(** ** What a deep copy promises *)

(** [f] does not panic; the copy means what the original means, and keeps doing
    so whatever is stored in the memory that was there before; the original is
    untouched by whatever is stored in the memory of the copy. *)
Definition isolated `{ApiMem} {T A} {M : Means block T A} `{!Block block T} (f : ptr T → C block (ptr T)) : Prop :=
  ∀ h p o, means h p o → ∃ p' h',
    f p h = Some (p', h') ∧ means h' p' o ∧ means h' p o
    ∧ (∀ h'', (∀ l, h !! l = None → h'' !! l = h' !! l) → means h'' p' o)
    ∧ (∀ h'', (∀ l b, h !! l = Some b → h'' !! l = Some b) → means h'' p o).

Section promise.
Context `{CL : ApiCopyLaws}.

Lemma copies_isolated_ptr {T A} `{!Block block T, !Zero T} {M : Means block T A} (f : T → C block T) :
  copies f → isolated (copy_ptr f).
Proof. intros Hf h p o Hp. by apply copies_isolated; [apply copies_ptr|]. Qed.

(** C30: DeepCopy of the four API objects is a deep copy: it never panics on a
    well-formed object, the copy stands for the same object, later writes to
    the original's memory do not show in the copy, and later writes to the
    copy's memory do not show in the original.  This is what lets the
    reconcilers take [base := obj.DeepCopy()], change [obj] in place and send
    the difference. *)
Theorem DeepCopy_isolated :
  isolated EvictionGuardPolicy_DeepCopy ∧ isolated EvictionGuardPolicyList_DeepCopy
  ∧ isolated EvictionGuardWindow_DeepCopy ∧ isolated EvictionGuardWindowList_DeepCopy.
Proof.
  split_and!; apply copies_isolated_ptr;
    [apply EvictionGuardPolicy_copies | apply EvictionGuardPolicyList_copies
    | apply EvictionGuardWindow_copies | apply EvictionGuardWindowList_copies].
Qed.

(** [DeepCopyObject] of nil is the nil interface, and not an interface that
    holds a nil pointer. *)
Lemma copy_ptr_nil {T} `{!Block block T, !Zero T} (f : T → C block T) p h p' h' :
  copy_ptr f p h = Some (p', h') → p' = nilp ↔ p = nilp.
Proof.
  destruct p as [|l i]; [by intros [= <- _]|]. unfold copy_ptr. intros Hrun. split; [intros ->|done]. revert Hrun.
  destruct (new_run h) as (q & Hq & _). rewrite (bind_run _ _ _ _ _ Hq). unfold mbind, C_bind.
  destruct (load _ _) as [[v h1]|]; [|done]. destruct (f v h1) as [[v' h2]|]; [|done].
  destruct (store _ _ _) as [[u h3]|]; [|done]. by intros [=].
Qed.

Lemma DeepCopyObject_nil p h o h' :
  EvictionGuardWindow_DeepCopyObject p h = Some (o, h') → o = None ↔ p = nilp.
Proof.
  unfold EvictionGuardWindow_DeepCopyObject, mbind, C_bind. destruct (EvictionGuardWindow_DeepCopy p h) as [[c h1]|] eqn:E; [|done].
  apply copy_ptr_nil in E. rewrite -E. destruct c; by intros [= <- _].
Qed.
End promise.

(** ** A memory *)

(** Structs of apimachinery without references. *)
#[local] Instance PlainMem : ApiMem := {
  ObjectMetaMem := ObjectMeta; ListMetaMem := string; LabelSelectorMem := LabelSelector; ConditionMem := Condition; ListMeta := string;
  zeroObjectMeta := MkMeta "" "" ∅ ∅ None 0 [] [] 0; zeroListMeta := ""; zeroLabelSelector := MkSelector ∅ [];
  zeroCondition := MkCondition "" "" 0 0 "" ""
}.
#[local] Instance PlainCopiers : ApiCopiers := {
  ObjectMeta_DeepCopyInto := mret; ListMeta_DeepCopyInto := mret; LabelSelector_DeepCopyInto := mret;
  Condition_DeepCopyInto := mret; Time_DeepCopy := copy_ptr mret; range_order := map_to_list;
  means_ObjectMeta := itself ObjectMeta; means_ListMeta := itself string; means_LabelSelector := itself LabelSelector;
  means_Condition := itself Condition
}.

Lemma copies_itself T : @copies _ _ _ (itself T) mret.
Proof. apply (@copies_flat _ _ _ (itself T)). by intros ????. Qed.

#[local] Instance Plain_laws : ApiCopyLaws.
Proof.
  split; try apply (copies_itself _).
  - apply copies_ptr, (copies_itself Z).
  - intros m k x. apply elem_of_map_to_list.
Qed.

(** A window whose action has stamp keys; the keys share their array with the
    vulnerable nodes. *)
Definition window_meta : ObjectMeta := MkMeta "api" "shop" ∅ ∅ None 1 [] [] 1.
Definition window_mem : heap block :=
  {[ 1%positive := Windows [MkWindowMem (MkTypeMeta "EvictionGuardWindow" "eviction-guard.io/v1alpha1") window_meta
       (MkWindowSpecMem "p" (MkWorkloadRef "apps/v1" "Deployment" "api" "shop") (Slice 2 0 1) 3 4 (Slice 3 2 1) (Ptr 4 0))
       (MkWindowStatusMem WindowPhaseOpen (Ptr 4 0) false 0 0 "" false nils)];
     2%positive := ActionBlock [MkScaleActionMem "k" "apps/v1" "Deployment" "shop" "api" "spec.replicas" 3 4 false (Slice 3 0 2)];
     3%positive := Strings ["scaled-to"; "baseline"; "n1"];
     4%positive := Ints [10] ]}.
Definition window_value : typed EvictionGuardWindow :=
  Typed (MkTypeMeta "EvictionGuardWindow" "eviction-guard.io/v1alpha1")
    (MkWindow window_meta
       (MkWindowSpec "p" (MkWorkloadRef "apps/v1" "Deployment" "api" "shop")
          [MkScaleAction "k" "apps/v1" "Deployment" "shop" "api" "spec.replicas" 3 4 false ["scaled-to"; "baseline"]] 3 4 ["n1"] (Some 10))
       (MkWindowStatus WindowPhaseOpen (Some 10) false 0 0 "" false [])).

Lemma window_mem_means : means window_mem (Ptr 1 0 : ptr EvictionGuardWindowMem) (Some window_value).
Proof.
  eexists _, _. split; [reflexivity|]. split; [reflexivity|]. eexists _, _, _. split; [reflexivity|]. split; [|split; [|reflexivity]].
  - eexists _, _, _. split; [|split; [|split; [|reflexivity]]].
    + eexists. split; [reflexivity|]. constructor; [|constructor]. eexists. split; [|reflexivity].
      eexists. split; [reflexivity|]. repeat constructor.
    + eexists. split; [reflexivity|]. repeat constructor.
    + eexists _, _. split; [reflexivity|]. split; [reflexivity|]. reflexivity.
  - eexists _, _. split; [|split; [|reflexivity]].
    + eexists _, _. split; [reflexivity|]. split; [reflexivity|]. reflexivity.
    + eexists. split; [reflexivity|]. constructor.
Qed.

(** The original's keys are overwritten, its window is cleared; the copy holds. *)
Lemma DeepCopy_isolated_witness : ∃ base h, EvictionGuardWindow_DeepCopy (Ptr 1 0) window_mem = Some (base, h)
  ∧ means (<[ 1%positive := Windows [zero] ]> (<[ 3%positive := Strings ["x"; "y"; "z"] ]> h)) base (Some window_value).
Proof.
  destruct DeepCopy_isolated as (_ & _ & Hw & _).
  destruct (Hw window_mem (Ptr 1 0) (Some window_value) window_mem_means) as (base & h & Hr & _ & _ & Hiso & _).
  exists base, h. split; [exact Hr|]. apply Hiso. intros l Hl.
  assert (l ≠ 1%positive ∧ l ≠ 3%positive) as [H1 H3] by (split; intros ->; discriminate Hl).
  rewrite !lookup_insert_ne; [reflexivity | congruence..].
Defined.
