(* ===== verification/Kube.v ===== *)
(** * The outside world: apimachinery, controller-runtime's client, effects

    What the program calls but does not define is a parameter here:
    - [KubeLib]: the pure library functions (selectors, API error predicates,
      status conditions, finalizers, group versions);
    - [Client]: the Kubernetes client over an abstract cluster state [W] and an
      abstract unstructured object type [Obj].  Reads are functions of [W]
      (the informer cache), writes may change it, everything may fail;
    - their laws ([KubeLibLaws], [FieldLaws], [WindowLaws]): documented
      behaviour, assumed only by the theorems that name them.

    The program itself runs in [M]: it threads the cluster state, keeps it when
    it fails, and records every externally visible action (API writes, metric
    updates, events) as a list of [effect]s. *)
From S2P Require Import Prelude GoStrings GoTime Meta Api.

#[local] Open Scope Z_scope.

(** ** Errors *)

(** [backends.Target] (pkg/backends/backend.go) *)
Record Target := MkTarget {
  tgKey : NamespacedName;
  tgAPIVersion : string;
  tgKind : string;
  tgFieldPath : string;
  tgDefaultWhenUnset : option Z
}.

(** A Go [error] value: an API error, a plain one ([errors.New], [fmt.Errorf]
    without %w), a wrapped one, or plan.go's [backendAccessError]. *)
Inductive error :=
| StatusError (s : Status)
| ErrorString (msg : string)
| WrapError (pre : string) (e : error) (post : string)
| backendAccessError (t : Target) (e : error).

Inductive result (A : Type) :=
| Ok (a : A)
| Err (e : error).
Arguments Ok {_} _.
Arguments Err {_} _.

#[global] Instance result_ret : MRet result := @Ok.
#[global] Instance result_bind : MBind result := λ A B f m,
  match m with Ok a => f a | Err e => Err e end.
#[global] Instance result_fmap : FMap result := λ A B f m,
  match m with Ok a => Ok (f a) | Err e => Err e end.

Definition is_ok {A} (r : result A) : bool := match r with Ok _ => true | Err _ => false end.

(** [unwrap]s of an error, outermost first: what [errors.As] visits. *)
Fixpoint unwrap_chain (e : error) : list error :=
  e :: match e with
       | WrapError _ e' _ | backendAccessError _ e' => unwrap_chain e'
       | _ => []
       end.

(** The innermost error. *)
Fixpoint root_cause (e : error) : error :=
  match e with
  | WrapError _ e' _ | backendAccessError _ e' => root_cause e'
  | _ => e
  end.

Abbreviation labels := strmap.
(** [labels.Selector], by its [Matches] method. *)
Definition Selector := labels → bool.

(** ** The pure part of the libraries *)

Class KubeLib := {
  LabelSelectorAsSelector : option LabelSelector → result Selector;
  IsNotFound : error → bool;
  IsForbidden : error → bool;
  IsConflict : error → bool;
  IsInvalid : error → bool;
  IsBadRequest : error → bool;
  (** [errors.As(err, &status)] with non-nil details: the types of its causes. *)
  StatusCauses : error → option (list string);
  FindStatusCondition : list Condition → string → option Condition;
  SetStatusCondition : list Condition → Condition → list Condition;
  ContainsFinalizer : list string → string → bool;
  AddFinalizer : list string → string → list string;
  RemoveFinalizer : list string → string → list string;
  ParseGroupVersion : string → result GroupVersion;
  GVK_String : GroupVersionKind → string;
  NN_String : NamespacedName → string
}.

(** The [Error()] method. *)
Fixpoint Error_string `{KubeLib} (e : error) : string :=
  match e with
  | StatusError s => sMessage s
  | ErrorString m => m
  | WrapError pre e post => pre +:+ Error_string e +:+ post
  | backendAccessError t e =>
      "missing RBAC for " +:+ tgKind t +:+ " " +:+ Quote (NN_String (tgKey t))
      +:+ " (apiVersion=" +:+ tgAPIVersion t
      +:+ "); grant get/list/watch/patch via Helm extraClusterRoleRules: "
      +:+ Error_string e
  end.

Class KubeLibLaws (L : KubeLib) : Prop := {
  (** [meta.SetStatusCondition] sets the condition of its type ... *)
  find_set_same cs c : ∃ c',
    FindStatusCondition (SetStatusCondition cs c) (cType c) = Some c'
    ∧ cType c' = cType c ∧ cStatus c' = cStatus c ∧ cReason c' = cReason c
    ∧ cMessage c' = cMessage c;
  (** ... and leaves the others. *)
  find_set_other cs c ty : ty ≠ cType c →
    FindStatusCondition (SetStatusCondition cs c) ty = FindStatusCondition cs ty;
  contains_add l f : ContainsFinalizer (AddFinalizer l f) f = true;
  contains_remove l f : ContainsFinalizer (RemoveFinalizer l f) f = false;
  (** The predicates of [apierrors] look through wrapping and hold of API
      errors only. *)
  IsNotFound_root e : IsNotFound e = IsNotFound (root_cause e);
  IsNotFound_plain m : IsNotFound (ErrorString m) = false;
  IsForbidden_root e : IsForbidden e = IsForbidden (root_cause e);
  IsForbidden_plain m : IsForbidden (ErrorString m) = false
}.

(** [client.IgnoreNotFound] *)
Definition IgnoreNotFound `{KubeLib} (e : error) : option error :=
  if IsNotFound e then None else Some e.

(** ** JSON of merge patches *)

Inductive json :=
| JNull
| JInt (z : Z)
| JStr (s : string)
| JObj (m : gmap string json).

Abbreviation jobj := (gmap string json).

(** What a patch says about a path: nothing ([Untouched]), a leaf, an object
    whose members it lists ([Inner]), or that a proper prefix of the path is
    replaced by a scalar ([Cut]). *)
Inductive touch := Untouched | Leaf (j : json) | Inner (m : jobj) | CutOff.

Fixpoint touches (m : jobj) (path : list string) : touch :=
  match path with
  | [] => Inner m
  | k :: rest =>
      match m !! k, rest with
      | None, _ => Untouched
      | Some (JObj m'), _ => touches m' rest
      | Some j, [] => Leaf j
      | Some _, _ => CutOff
      end
  end.

(** ** Effects *)

(** The instruments of pkg/metrics. *)
Inductive metric :=
| VulnerableNodes | MatchedNodes | AtRiskPods | DesiredReplicas | CurrentSpare
| ScaleActionsTotal | SpareNotReady | CapacityApplyError | DeferredWorkloads
| MaxWindowExceeded | EvictionDecisions.

Record EventRef := MkEventRef { evKind : string; evKey : NamespacedName }.

Inductive effect :=
| GaugeSet (m : metric) (lvs : list string) (v : Z)
| CounterInc (m : metric) (lvs : list string)
| SeriesDelete (m : metric) (lvs : list string)
| EventEmitted (regarding : EventRef) (type reason note : string)
(** API writes, with their outcome. *)
| CreateWindowE (w : EvictionGuardWindow) (ok : bool)
| PatchWindowE (base w : EvictionGuardWindow) (ok : bool)
| UpdateWindowStatusE (w : EvictionGuardWindow) (ok : bool)
| DeleteWindowE (k : NamespacedName) (ok : bool)
| PatchPolicyE (base p : EvictionGuardPolicy) (ok : bool)
| UpdatePolicyStatusE (p : EvictionGuardPolicy) (ok : bool)
| PatchObjectE (gvk : GroupVersionKind) (k : NamespacedName) (patch : jobj) (ok : bool).

(** ** The client *)

(** The fields windows are indexed by (indexes.go). *)
Inductive WindowIndex := IndexWindowPolicyName | IndexWindowWorkload | IndexWindowVulnerableNode.

Class Client (Obj W : Type) := {
  getPod : NamespacedName → W → result Pod;
  getNode : string → W → result Node;
  getReplicaSet : NamespacedName → W → result ReplicaSet;
  getDeployment : NamespacedName → W → result Deployment;
  getNamespace : string → W → result Namespace;
  getPolicy : string → W → result EvictionGuardPolicy;
  getWindow : NamespacedName → W → result EvictionGuardWindow;
  getUnstructured : GroupVersionKind → NamespacedName → W → result Obj;
  listPolicies : W → result (list EvictionGuardPolicy);
  listNodes : W → result (list Node);
  (** [client.InNamespace] with [client.MatchingLabelsSelector] *)
  listPodsSelected : string → Selector → W → result (list Pod);
  (** [client.MatchingFields{IndexPodNodeName: ...}] *)
  listPodsOnNode : string → W → result (list Pod);
  listWindowsBy : WindowIndex → string → W → result (list EvictionGuardWindow);
  (** Writes.  The object returned is the server's answer, which the client
      stores back into the object it was given. *)
  createWindow : EvictionGuardWindow → W → result EvictionGuardWindow * W;
  patchWindow : EvictionGuardWindow → EvictionGuardWindow → W → result EvictionGuardWindow * W;
  updateWindowStatus : EvictionGuardWindow → W → result EvictionGuardWindow * W;
  deleteWindow : NamespacedName → W → result unit * W;
  patchPolicy : EvictionGuardPolicy → EvictionGuardPolicy → W → result EvictionGuardPolicy * W;
  updatePolicyStatus : EvictionGuardPolicy → W → result EvictionGuardPolicy * W;
  patchUnstructured : GroupVersionKind → NamespacedName → jobj → W → result unit * W;
  (** [controllerutil.SetControllerReference(policy, win, scheme)] *)
  SetControllerReference : EvictionGuardPolicy → EvictionGuardWindow → result EvictionGuardWindow;
  (** [unstructured.NestedInt64]: an error, or the value when it is found. *)
  NestedInt64 : Obj → list string → result (option Z);
  (** [unstructured.NestedStringMap(obj, "metadata", "annotations")], empty when
      missing or malformed (the program drops its other results). *)
  objAnnotations : Obj → strmap;
  (** The reconcilers' clock. *)
  clock : W → Time
}.

(** ** The program monad *)

Definition M (W A : Type) : Type := W → result A * W * list effect.

#[global] Instance M_ret {W} : MRet (M W) := λ A a w, (Ok a, w, []).
#[global] Instance M_bind {W} : MBind (M W) := λ A B f m w,
  match m w with
  | (Ok a, w', es) => let '(r, w'', es') := f a w' in (r, w'', es ++ es')
  | (Err e, w', es) => (Err e, w', es)
  end.

Section ops.
Context {Obj W : Type} `{C : Client Obj W}.

Definition lift {A} (r : result A) : M W A := λ w, (r, w, []).
Definition throw {A} (e : error) : M W A := lift (Err e).
Definition reads {A} (f : W → result A) : M W A := λ w, (f w, w, []).
Definition tell (e : effect) : M W unit := λ w, (Ok (), w, [e]).
Definition now : M W Time := λ w, (Ok (clock w), w, []).

(** A call whose error the caller inspects. *)
Definition try {A} (m : M W A) : M W (result A) := λ w,
  let '(r, w', es) := m w in (Ok r, w', es).

(** [if err := m; err != nil { return f(err) }] *)
Definition mapErr {A} (f : error → error) (m : M W A) : M W A := λ w,
  match m w with
  | (Err e, w', es) => (Err (f e), w', es)
  | (Ok a, w', es) => (Ok a, w', es)
  end.

Definition write {A} (f : W → result A * W) (e : bool → effect) : M W A := λ w,
  let '(r, w') := f w in (r, w', [e (is_ok r)]).

Definition CreateWindow (x : EvictionGuardWindow) : M W EvictionGuardWindow :=
  write (createWindow x) (CreateWindowE x).
Definition PatchWindow (base x : EvictionGuardWindow) : M W EvictionGuardWindow :=
  write (patchWindow base x) (PatchWindowE base x).
Definition UpdateWindowStatus (x : EvictionGuardWindow) : M W EvictionGuardWindow :=
  write (updateWindowStatus x) (UpdateWindowStatusE x).
Definition DeleteWindow (k : NamespacedName) : M W unit :=
  write (deleteWindow k) (DeleteWindowE k).
Definition PatchPolicy (base x : EvictionGuardPolicy) : M W EvictionGuardPolicy :=
  write (patchPolicy base x) (PatchPolicyE base x).
Definition UpdatePolicyStatus (x : EvictionGuardPolicy) : M W EvictionGuardPolicy :=
  write (updatePolicyStatus x) (UpdatePolicyStatusE x).
Definition PatchObject (gvk : GroupVersionKind) (k : NamespacedName) (p : jobj) : M W unit :=
  write (patchUnstructured gvk k p) (PatchObjectE gvk k p).
End ops.

(** Run and project. *)
Definition res {W A} (m : M W A) (w : W) : result A := (m w).1.1.
Definition final {W A} (m : M W A) (w : W) : W := (m w).1.2.
Definition effects {W A} (m : M W A) (w : W) : list effect := (m w).2.

Fixpoint for_each {W A} (f : A → M W unit) (l : list A) : M W unit :=
  match l with
  | [] => mret ()
  | x :: l => _ ← f x; for_each f l
  end.

(** ** Reasoning about effects: a predicate of every action a program takes *)
Section emits.
Context {W : Type}.

Definition emits {A} (P : effect → Prop) (m : M W A) : Prop := ∀ w, Forall P (effects m w).

Lemma emits_ret {A} P (a : A) : emits P (mret a : M W A).
Proof. intros w. constructor. Qed.
Lemma emits_lift {A} P (r : result A) : emits P (lift r : M W A).
Proof. intros w. constructor. Qed.
Lemma emits_throw {A} P (e : error) : emits P (throw e : M W A).
Proof. intros w. constructor. Qed.
Lemma emits_reads {A} P (f : W → result A) : emits P (reads f).
Proof. intros w. constructor. Qed.
Lemma emits_tell P e : P e → emits P (tell e : M W unit).
Proof. intros H w. by constructor. Qed.
Lemma emits_write {A} P (f : W → result A * W) e :
  (∀ b, P (e b)) → emits P (write f e).
Proof. intros H w. unfold effects, write. destruct (f w). by constructor. Qed.
Lemma emits_bind {A B} P (m : M W A) (f : A → M W B) :
  emits P m → (∀ a, emits P (f a)) → emits P (m ≫= f).
Proof.
  intros Hm Hf w. unfold effects, mbind, M_bind. specialize (Hm w). unfold effects in Hm.
  destruct (m w) as [[[a|e] w'] es]; [|done]. specialize (Hf a w'). unfold effects in Hf.
  destruct (f a w') as [[r w''] es']. simpl in *. by apply Forall_app.
Qed.
Lemma emits_try {A} P (m : M W A) : emits P m → emits P (try m).
Proof.
  intros Hm w. unfold effects, try. specialize (Hm w). unfold effects in Hm.
  by destruct (m w) as [[r w'] es].
Qed.
Lemma emits_mapErr {A} P f (m : M W A) : emits P m → emits P (mapErr f m).
Proof.
  intros Hm w. unfold effects, mapErr. specialize (Hm w). unfold effects in Hm.
  by destruct (m w) as [[[a|e] w'] es].
Qed.
Lemma emits_for_each {A} P (f : A → M W unit) l :
  (∀ x, x ∈ l → emits P (f x)) → emits P (for_each f l).
Proof.
  induction l as [|x l IH]; intros Hf; simpl; [apply emits_ret|].
  apply emits_bind; [apply Hf; left|]. intros _. apply IH. intros y Hy. apply Hf. by right.
Qed.
Lemma emits_elem {A} P (m : M W A) w r w' es e : emits P m → m w = (r, w', es) → e ∈ es → P e.
Proof. intros H E He. specialize (H w). unfold effects in H. rw E in H. by apply (proj1 (Forall_forall _ _) H). Qed.
Lemma emits_impl {A} (P Q : effect → Prop) (m : M W A) :
  (∀ e, P e → Q e) → emits P m → emits Q m.
Proof. intros HPQ Hm w. eapply Forall_impl; [apply Hm | done]. Qed.
End emits.

Lemma emits_now {Obj W} `{C : Client Obj W} P : emits P (now : M W Time).
Proof. intros w. constructor. Qed.

#[export] Hint Resolve emits_ret emits_lift emits_throw emits_reads emits_tell emits_write
  emits_now emits_try emits_mapErr : evg.

(** Walk through a program, splitting its binds and branches. *)
Ltac emits_step :=
  first
    [ apply emits_bind; [|intros ?]
    | apply emits_try
    | apply emits_mapErr
    | apply emits_ret | apply emits_lift | apply emits_throw | apply emits_reads
    | apply emits_now
    | apply emits_tell
    | apply emits_write; intros ?
    | apply emits_for_each; intros ? ?
    | match goal with |- emits _ (match ?x with _ => _ end) => destruct x eqn:? end ].
Ltac emits_tac := repeat (progress simpl || emits_step); try done.

(** ** Reasoning about the state: a relation every run respects *)
Section keeps.
Context {W : Type} (R : W → W → Prop) `{!PreOrder R}.

Definition keeps {A} (m : M W A) : Prop := ∀ w, R w (final m w).

Lemma keeps_run {A} (m : M W A) w r w' es : keeps m → m w = (r, w', es) → R w w'.
Proof. intros H E. specialize (H w). unfold final in H. by rw E in H. Qed.
Lemma keeps_ret {A} (a : A) : keeps (mret a : M W A).
Proof. intros w. unfold final. simpl. reflexivity. Qed.
Lemma keeps_lift {A} (r : result A) : keeps (lift r : M W A).
Proof. intros w. unfold final. simpl. reflexivity. Qed.
Lemma keeps_throw {A} (e : error) : keeps (throw e : M W A).
Proof. apply keeps_lift. Qed.
Lemma keeps_reads {A} (f : W → result A) : keeps (reads f).
Proof. intros w. unfold final. simpl. reflexivity. Qed.
Lemma keeps_tell e : keeps (tell e : M W unit).
Proof. intros w. unfold final. simpl. reflexivity. Qed.
Lemma keeps_write {A} (f : W → result A * W) e : (∀ w, R w (f w).2) → keeps (write f e).
Proof. intros H w. unfold final, write. specialize (H w). by destruct (f w). Qed.
Lemma keeps_bind {A B} (m : M W A) (f : A → M W B) :
  keeps m → (∀ a, keeps (f a)) → keeps (m ≫= f).
Proof.
  intros Hm Hf w. unfold final, mbind, M_bind. specialize (Hm w). unfold final in Hm.
  destruct (m w) as [[[a|e] w'] es]; [|done]. specialize (Hf a w'). unfold final in Hf.
  destruct (f a w') as [[r w''] es']. simpl in *. by transitivity w'.
Qed.
Lemma keeps_try {A} (m : M W A) : keeps m → keeps (try m).
Proof.
  intros Hm w. unfold final, try. specialize (Hm w). unfold final in Hm. by destruct (m w) as [[r w'] es].
Qed.
Lemma keeps_mapErr {A} f (m : M W A) : keeps m → keeps (mapErr f m).
Proof.
  intros Hm w. unfold final, mapErr. specialize (Hm w). unfold final in Hm. by destruct (m w) as [[[a|e] w'] es].
Qed.
Lemma keeps_for_each {A} (f : A → M W unit) l : (∀ x, x ∈ l → keeps (f x)) → keeps (for_each f l).
Proof.
  induction l as [|x l IH]; intros Hf; simpl; [apply keeps_ret|].
  apply keeps_bind; [apply Hf; left|]. intros _. apply IH. intros y Hy. apply Hf. by right.
Qed.
End keeps.

Lemma keeps_now {Obj W} `{C : Client Obj W} R `{!PreOrder R} : keeps R (now : M W Time).
Proof. intros w. unfold final. simpl. reflexivity. Qed.

Ltac keeps_step :=
  first
    [ apply keeps_bind; [exact _| |intros ?]
    | apply keeps_try
    | apply keeps_mapErr
    | apply keeps_ret; exact _ | apply keeps_lift; exact _ | apply keeps_throw; exact _
    | apply keeps_reads; exact _ | apply keeps_now; exact _
    | apply keeps_tell; exact _
    | apply keeps_write; intros ?
    | apply keeps_for_each; [exact _|]; intros ? ?
    | match goal with |- keeps _ (match ?x with _ => _ end) => destruct x eqn:? end ].
Ltac keeps_tac := repeat (progress cbv beta iota zeta || keeps_step); try done.

(** ** Running programs *)
Section run.
Context {W : Type}.

Lemma run_bind_ok {A B} (m : M W A) (f : A → M W B) w a w' es :
  m w = (Ok a, w', es) →
  (m ≫= f) w = (let '(r, w'', es') := f a w' in (r, w'', es ++ es')).
Proof. intros H. unfold mbind, M_bind. by rw H. Qed.

Lemma run_bind_err {A B} (m : M W A) (f : A → M W B) w e w' es :
  m w = (Err e, w', es) → (m ≫= f) w = (Err e, w', es).
Proof. intros H. unfold mbind, M_bind. by rw H. Qed.

(** A bind that ends in [Ok] went through both halves. *)
Lemma bind_ok_inv {A B} (m : M W A) (f : A → M W B) w b w'' es :
  (m ≫= f) w = (Ok b, w'', es) →
  ∃ a w' es1 es2, m w = (Ok a, w', es1) ∧ f a w' = (Ok b, w'', es2) ∧ es = es1 ++ es2.
Proof.
  unfold mbind, M_bind. destruct (m w) as [[[a|e] w'] es1] eqn:Em; [|done].
  destruct (f a w') as [[r w2] es2] eqn:Ef. intros H. simplify_eq. eauto 10.
Qed.

Lemma mapErr_ok_inv {A} f (m : M W A) w a w' es :
  mapErr f m w = (Ok a, w', es) → m w = (Ok a, w', es).
Proof. unfold mapErr. by destruct (m w) as [[[b|e] w1] es1]; intros; simplify_eq. Qed.

Lemma mapErr_err_inv {A} f (m : M W A) w e w' es :
  mapErr f m w = (Err e, w', es) → ∃ e', m w = (Err e', w', es) ∧ e = f e'.
Proof. unfold mapErr. destruct (m w) as [[[b|e'] w1] es1]; intros; simplify_eq. eauto. Qed.

Lemma reads_inv {A} (f : W → result A) w r w' es :
  reads f w = (r, w', es) → r = f w ∧ w' = w ∧ es = [].
Proof. unfold reads. by intros [= <- <- <-]. Qed.

(** A run, by its result. *)
Lemma run_of {A} (m : M W A) w r : (m w).1.1 = r → m w = (r, (m w).1.2, (m w).2).
Proof. intros <-. by destruct (m w) as [[? ?] ?]. Qed.

Lemma lift_inv {A} (x : result A) (w : W) r w' es :
  lift x w = (r, w', es) → r = x ∧ w' = w ∧ es = [].
Proof. unfold lift. by intros [= <- <- <-]. Qed.

Lemma ret_inv {A} (x : A) (w : W) r w' es :
  (mret x : M W A) w = (r, w', es) → r = Ok x ∧ w' = w ∧ es = [].
Proof. unfold mret, M_ret. by intros [= <- <- <-]. Qed.

Lemma bind_inv {A B} (m : M W A) (f : A → M W B) w r w'' es :
  (m ≫= f) w = (r, w'', es) →
  (∃ e, m w = (Err e, w'', es) ∧ r = Err e)
  ∨ ∃ a w' es1 es2, m w = (Ok a, w', es1) ∧ f a w' = (r, w'', es2) ∧ es = es1 ++ es2.
Proof.
  unfold mbind, M_bind. destruct (m w) as [[[a|e] w'] es1] eqn:Em.
  - destruct (f a w') as [[r' w2] es2] eqn:Ef. intros H. simplify_eq. right. eauto 10.
  - intros H. simplify_eq. left. eauto.
Qed.

(** Equations of binds. *)
Lemma try_reads {A} (f : W → result A) w : try (reads f) w = (Ok (f w), w, []).
Proof. done. Qed.

Lemma bind_eq {A B} (m : M W A) (k : A → M W B) w :
  (m ≫= k) w = match m w with
               | (Ok a, w', es) => let '(r, w'', es') := k a w' in (r, w'', es ++ es')
               | (Err e, w', es) => (Err e, w', es)
               end.
Proof. done. Qed.

Lemma bind_try_reads {A B} (f : W → result A) (k : result A → M W B) w :
  (try (reads f) ≫= k) w = k (f w) w.
Proof. unfold mbind, M_bind. rewrite try_reads. by destruct (k (f w) w) as [[? ?] ?]. Qed.

Lemma bind_reads_ok {A B} (f : W → result A) (k : A → M W B) w a :
  f w = Ok a → (reads f ≫= k) w = k a w.
Proof. unfold mbind, M_bind, reads. intros ->. by destruct (k a w) as [[? ?] ?]. Qed.

Lemma bind_reads_err {A B} (f : W → result A) (k : A → M W B) w e :
  f w = Err e → (reads f ≫= k) w = (Err e, w, []).
Proof. unfold mbind, M_bind, reads. by intros ->. Qed.

Lemma bind_ret {A B} (a : A) (k : A → M W B) w : (mret a ≫= k) w = k a w.
Proof. unfold mbind, M_bind, mret, M_ret. by destruct (k a w) as [[? ?] ?]. Qed.

Lemma bind_throw {A B} (e : error) (k : A → M W B) w : (throw e ≫= k) w = (Err e, w, []).
Proof. done. Qed.
End run.

Lemma bind_now {Obj W} `{C : Client Obj W} {B} (k : Time → M W B) w : (now ≫= k) w = k (clock w) w.
Proof. unfold mbind, M_bind, now. by destruct (k (clock w) w) as [[? ?] ?]. Qed.

(** A loop that succeeded: what each round did, under an invariant. *)
Lemma for_each_ok {W A} (f : A → M W unit) (Inv : W → Prop) (Q : A → list effect → Prop) l w w' es :
  (∀ x w w' es, x ∈ l → Inv w → f x w = (Ok (), w', es) → Inv w' ∧ Q x es) →
  Inv w → for_each f l w = (Ok (), w', es) → Inv w' ∧ ∃ ess, es = concat ess ∧ Forall2 Q l ess.
Proof.
  revert w es. induction l as [|x l IH]; intros w es Hf Hw H; cbn [for_each] in H.
  { apply ret_inv in H as (_ & -> & ->). split; [done|]. exists []. by split; [|constructor]. }
  apply bind_ok_inv in H as ([] & w1 & es1 & es2 & H1 & H2 & ->).
  destruct (Hf x w w1 es1 ltac:(left) Hw H1) as [Hw1 Hq].
  destruct (IH w1 es2 (λ y w w' es Hy, Hf y w w' es ltac:(by right)) Hw1 H2) as [Hw' (ess & -> & Hall)].
  split; [done|]. exists (es1 :: ess). by split; [|constructor].
Qed.

(** The run a hypothesis matches on. *)
Tactic Notation "case_run" hyp(H) "as" ident(r) ident(w) ident(es) :=
  match type of H with
  | context [match ?x with (_, _) => _ end] => destruct x as [[r w] es]
  end.

(** Take a run apart into the runs of its parts. *)
Ltac run_inv :=
  repeat match goal with
  | H : (_ ≫= _) _ = (Ok _, _, _) |- _ =>
      apply bind_ok_inv in H; destruct H as (? & ? & ? & ? & ? & H & ?)
  | H : mapErr _ _ _ = (Ok _, _, _) |- _ => apply mapErr_ok_inv in H
  | H : reads _ _ = _ |- _ => apply reads_inv in H; destruct H as (? & ? & ?)
  | H : lift _ _ = _ |- _ => apply lift_inv in H; destruct H as (? & ? & ?)
  | H : mret _ _ = _ |- _ => apply ret_inv in H; destruct H as (? & ? & ?)
  | _ => progress simplify_eq/=
  end.


(** ** Laws of the unstructured client

    Merge patches (RFC 7386) as the API server applies them, with no admission
    webhook rewriting the patched fields.  Two versions of one group and kind
    serve the same object, so independence is stated per group, kind and key. *)
Definition same_object (g : GroupVersionKind) (k : NamespacedName)
  (g' : GroupVersionKind) (k' : NamespacedName) : Prop :=
  gvGroup (gvkGV g) = gvGroup (gvkGV g') ∧ gvkKind g = gvkKind g' ∧ k = k'.

#[global] Instance same_object_dec g k g' k' : Decision (same_object g k g' k').
Proof. unfold same_object. apply _. Defined.

Class FieldLaws {Obj W : Type} (C : Client Obj W) : Prop := {
  patch_ok_found g k p w w' :
    patchUnstructured g k p w = (Ok (), w') → ∃ o, getUnstructured g k w' = Ok o;
  patch_ok_int g k p w w' o' path z :
    patchUnstructured g k p w = (Ok (), w') → getUnstructured g k w' = Ok o' →
    touches p path = Leaf (JInt z) → NestedInt64 o' path = Ok (Some z);
  patch_ok_frame g k p w w' o o' path :
    patchUnstructured g k p w = (Ok (), w') →
    getUnstructured g k w = Ok o → getUnstructured g k w' = Ok o' →
    touches p path = Untouched → NestedInt64 o' path = NestedInt64 o path;
  patch_other g k p w r w' g' k' :
    patchUnstructured g k p w = (r, w') → ¬ same_object g k g' k' →
    getUnstructured g' k' w' = getUnstructured g' k' w;
  patch_err g k p w e w' g' k' :
    patchUnstructured g k p w = (Err e, w') →
    getUnstructured g' k' w' = getUnstructured g' k' w;
  (** A merge patch of the annotations sets strings, deletes nulls, keeps the
      rest. *)
  patch_ok_ann g k p w w' o o' m key j :
    patchUnstructured g k p w = (Ok (), w') →
    getUnstructured g k w = Ok o → getUnstructured g k w' = Ok o' →
    touches p ["metadata"; "annotations"] = Inner m → m !! key = Some j →
    objAnnotations o' !! key = match j with JStr s => Some s | _ => None end;
  patch_ok_ann_frame g k p w w' o o' m key :
    patchUnstructured g k p w = (Ok (), w') →
    getUnstructured g k w = Ok o → getUnstructured g k w' = Ok o' →
    touches p ["metadata"; "annotations"] = Inner m → m !! key = None →
    objAnnotations o' !! key = objAnnotations o !! key
}.

(** ** Laws of the windows' storage

    What a write answers, whatever else happens to the cluster: a status update
    goes to the status subresource of the version it was read at, and answers
    with the metadata, the spec and the flags it was sent. *)
Class AnswerLaws {Obj W : Type} (C : Client Obj W) : Prop := {
  status_answer x w y w' :
    updateWindowStatus x w = (Ok y, w') →
    winMeta y = winMeta x ∧ winSpec y = winSpec x
    ∧ wtForcedCool (winStatus y) = wtForcedCool (winStatus x)
    ∧ wtPhase (winStatus y) = wtPhase (winStatus x);
  (** An owner reference is metadata: it leaves the name, the labels and the rest
      of the window as they are. *)
  owner_reference p x y : SetControllerReference p x = Ok y →
    winSpec y = winSpec x ∧ winStatus y = winStatus x ∧ mKey (winMeta y) = mKey (winMeta x)
    ∧ mLabels (winMeta y) = mLabels (winMeta x) ∧ mFinalizers (winMeta y) = mFinalizers (winMeta x)
}.

(** Writing a window is not writing any other object, and nothing else happens
    at the same time. *)
Class WindowLaws {Obj W : Type} (C : Client Obj W) : Prop := {
  create_window_objects x w g k : getUnstructured g k (createWindow x w).2 = getUnstructured g k w;
  patch_window_objects b x w g k : getUnstructured g k (patchWindow b x w).2 = getUnstructured g k w;
  patch_window_nodes b x w n : getNode n (patchWindow b x w).2 = getNode n w;
  update_status_objects x w g k : getUnstructured g k (updateWindowStatus x w).2 = getUnstructured g k w;
  delete_window_objects k' w g k : getUnstructured g k (deleteWindow k' w).2 = getUnstructured g k w
}.

(** A patched field of type metav1.Time: on the wire it has whole seconds, and
    one that is the same on the wire is not in the patch.  (The zero time would
    be null; no cooldown ends in year 1.) *)
Definition patched_until (b x old : option Time) : option Time :=
  if decide (whole_second <$> x = whole_second <$> b) then old else whole_second <$> x.

Lemma patched_until_none b : patched_until b None b = None.
Proof. unfold patched_until. case_decide as H; [|done]. by destruct b. Qed.

Lemma patched_until_light b x : x = None ∨ x = b → patched_until b x None = None.
Proof. unfold patched_until. intros [->| ->]; by case_decide. Qed.

Lemma patched_until_same b old : patched_until b b old = old.
Proof. unfold patched_until. by case_decide. Qed.

(** Storage: a window is found under its key; a status update stores what it
    answers; a patch of the window that was just read answers with the spec and
    the finalizers it was sent (its time as it is on the wire) and the status
    that was stored; patching another object leaves the windows alone. *)
Class WindowStoreLaws {Obj W : Type} (C : Client Obj W) : Prop := {
  window_key k w x : getWindow k w = Ok x → mKey (winMeta x) = k;
  update_status_stored x w y w' : updateWindowStatus x w = (Ok y, w') → getWindow (mKey (winMeta x)) w' = Ok y;
  patch_answer b x w y w' :
    getWindow (mKey (winMeta b)) w = Ok b → mKey (winMeta x) = mKey (winMeta b) → winStatus x = winStatus b →
    patchWindow b x w = (Ok y, w') →
    winSpec y = set_until (patched_until (wsWindowUntil (winSpec b)) (wsWindowUntil (winSpec x)) (wsWindowUntil (winSpec b))) (winSpec x)
    ∧ winStatus y = winStatus b ∧ mFinalizers (winMeta y) = mFinalizers (winMeta x);
  patch_object_windows g k p w k' : getWindow k' (patchUnstructured g k p w).2 = getWindow k' w
}.
