(* ===== verification/Indexes.v ===== *)
(** * internal/controller/indexes.go: field indexes of the shared cache

    The indexer functions registered with the manager (the registration, behind
    [sync.Once], is in Startup.v); what a list by index returns is the client's
    business. *)
From S2P Require Import Prelude GoStrings Meta Api Kube.

(** The pod index by node name. *)
Definition podNodeNameIndex (p : Pod) : list string :=
  if decide (podNodeName p = "") then [] else [podNodeName p].

Definition workloadIndexKey (ns name : string) : string := ns +:+ "/" +:+ name.

(** The window index by policy name. *)
Definition windowPolicyNameIndex (w : EvictionGuardWindow) : list string :=
  if decide (wsPolicyName (winSpec w) = "") then [] else [wsPolicyName (winSpec w)].

(** The window index by target workload. *)
Definition windowWorkloadIndex (w : EvictionGuardWindow) : list string :=
  let t := wsTarget (winSpec w) in
  let ns := if decide (wrNamespace t = "") then mNamespace (winMeta w) else wrNamespace t in
  if decide (wrName t = "") then [] else [workloadIndexKey ns (wrName t)].

(** The window index by vulnerable node: non-empty entries, first occurrences. *)
Definition windowVulnerableNodeIndex (w : EvictionGuardWindow) : list string :=
  dedup_by id ∅ (filter (λ n, n ≠ "") (wsVulnerableNodes (winSpec w))).

Definition window_index (i : WindowIndex) : EvictionGuardWindow → list string :=
  match i with
  | IndexWindowPolicyName => windowPolicyNameIndex
  | IndexWindowWorkload => windowWorkloadIndex
  | IndexWindowVulnerableNode => windowVulnerableNodeIndex
  end.

(** What listing by index means: the stored windows whose index has the value. *)
Class WindowIndexLaws {Obj W : Type} (C : Client Obj W) : Prop := {
  listWindowsBy_sound i v w l x :
    listWindowsBy i v w = Ok l → x ∈ l → v ∈ window_index i x
}.

(** The vulnerable-node index lists each named node of the window once, and
    no empty name. *)
Theorem windowVulnerableNodeIndex_spec w :
  NoDup (windowVulnerableNodeIndex w)
  ∧ ∀ n, n ∈ windowVulnerableNodeIndex w ↔ n ∈ wsVulnerableNodes (winSpec w) ∧ n ≠ "".
Proof.
  unfold windowVulnerableNodeIndex. set (l := filter _ _). split.
  - pose proof (dedup_by_NoDup id ∅ l) as H. by rw list_fmap_id in H.
  - intros n. pose proof (dedup_by_keys id ∅ l n) as H. rw !list_fmap_id in H.
    rw H. subst l. rw list_elem_of_filter. set_solver.
Qed.
