(* ===== verification/Fake.v ===== *)
(** * A concrete cluster

    An executable instance of the interfaces of Kube.v: a cluster state made of
    finite maps, on which witnesses and examples run.  It satisfies the laws, so
    every theorem that assumes them applies to it. *)
From S2P Require Import Prelude GoStrings GoTime Meta Api Kube Indexes.

(** ** Library functions *)

Definition req_ok (r : SelectorRequirement) : bool :=
  bool_decide (srOperator r ∈ ["In"; "NotIn"; "Exists"; "DoesNotExist"]).

Definition req_matches (r : SelectorRequirement) (ls : labels) : bool :=
  match ls !! srKey r with
  | Some v =>
      if decide (srOperator r = "In") then bool_decide (v ∈ srValues r)
      else if decide (srOperator r = "NotIn") then bool_decide (v ∉ srValues r)
      else bool_decide (srOperator r = "Exists")
  | None => bool_decide (srOperator r ∈ ["NotIn"; "DoesNotExist"])
  end.

Definition fake_selector (s : option LabelSelector) : result Selector :=
  match s with
  | None => Ok (λ _, false)
  | Some s =>
      if forallb req_ok (matchExpressions s)
      then Ok (λ ls, forallb (λ kv, bool_decide (ls !! kv.1 = Some kv.2)) (map_to_list (matchLabels s))
                     && forallb (λ r, req_matches r ls) (matchExpressions s))
      else Err (ErrorString "not a valid label selector operator")
  end.

Definition has_reason (reason : string) (e : error) : bool :=
  match root_cause e with StatusError s => str_eqb (sReason s) reason | _ => false end.

Definition fake_find (cs : list Condition) (ty : string) : option Condition :=
  find (λ c, str_eqb (cType c) ty) cs.

Fixpoint fake_set (cs : list Condition) (c : Condition) : list Condition :=
  match cs with
  | [] => [c]
  | c0 :: cs =>
      if str_eqb (cType c0) (cType c) then
        MkCondition (cType c) (cStatus c) (cObservedGeneration c)
          (if str_eqb (cStatus c0) (cStatus c) then cLastTransitionTime c0 else cLastTransitionTime c)
          (cReason c) (cMessage c) :: cs
      else c0 :: fake_set cs c
  end.

Definition fake_contains (l : list string) (f : string) : bool := bool_decide (f ∈ l).

Definition fake_gv (s : string) : result GroupVersion :=
  match Split "/"%char s with
  | [v] => Ok (GV "" v)
  | [g; v] => Ok (GV g v)
  | _ => Err (ErrorString ("unexpected GroupVersion string: " +:+ s))
  end.

#[export] Instance FakeLib : KubeLib := {
  LabelSelectorAsSelector := fake_selector;
  IsNotFound := has_reason "NotFound";
  IsForbidden := has_reason "Forbidden";
  IsConflict := has_reason "Conflict";
  IsInvalid := has_reason "Invalid";
  IsBadRequest := has_reason "BadRequest";
  StatusCauses e := match root_cause e with StatusError s => sCauses s | _ => None end;
  FindStatusCondition := fake_find;
  SetStatusCondition := fake_set;
  ContainsFinalizer := fake_contains;
  AddFinalizer l f := if fake_contains l f then l else l ++ [f];
  RemoveFinalizer l f := filter (λ x, x ≠ f) l;
  ParseGroupVersion := fake_gv;
  GVK_String g := gvGroup (gvkGV g) +:+ "/" +:+ gvVersion (gvkGV g) +:+ ", Kind=" +:+ gvkKind g;
  NN_String k := nnNamespace k +:+ "/" +:+ nnName k
}.

Lemma fake_find_set_same cs c : ∃ c',
  fake_find (fake_set cs c) (cType c) = Some c'
  ∧ cType c' = cType c ∧ cStatus c' = cStatus c ∧ cReason c' = cReason c ∧ cMessage c' = cMessage c.
Proof.
  induction cs as [|c0 cs IH]; simpl.
  - exists c. unfold fake_find. simpl. by rw (proj2 (str_eqb_true _ _) eq_refl).
  - destruct (str_eqb (cType c0) (cType c)) eqn:E; unfold fake_find; simpl.
    + rw (proj2 (str_eqb_true _ _) eq_refl). by eexists.
    + by rw E.
Qed.

Lemma fake_find_set_other cs c ty :
  ty ≠ cType c → fake_find (fake_set cs c) ty = fake_find cs ty.
Proof.
  intros Hne. unfold fake_find. induction cs as [|c0 cs IH]; simpl.
  - by rw (proj2 (str_eqb_false (cType c) ty)).
  - destruct (str_eqb (cType c0) (cType c)) eqn:E; simpl; [|by rw IH].
    apply str_eqb_true in E. rw E. by rw (proj2 (str_eqb_false (cType c) ty)).
Qed.

#[export] Instance FakeLib_laws : KubeLibLaws FakeLib.
Proof.
  split.
  - apply fake_find_set_same.
  - apply fake_find_set_other.
  - intros l f. simpl. unfold fake_contains. repeat case_bool_decide; set_solver.
  - intros l f. simpl. unfold fake_contains. apply bool_decide_eq_false.
    rw list_elem_of_filter. naive_solver.
  - intros e. simpl. unfold has_reason. by induction e.
  - done.
  - intros e. simpl. unfold has_reason. by induction e.
  - done.
Qed.

(** ** Objects and state *)

(** An unstructured object: its integer fields by path, its annotations. *)
Record FakeObj := MkObj { foInts : list string → option Z; foAnns : strmap }.

Record Cluster := MkCluster {
  clPods : list Pod;
  clNodes : list Node;
  clReplicaSets : list ReplicaSet;
  clDeployments : list Deployment;
  clNamespaces : list Namespace;
  clPolicies : gmap string EvictionGuardPolicy;
  clWindows : gmap NamespacedName EvictionGuardWindow;
  clObjects : gmap (string * string * NamespacedName) FakeObj;
  clForbidden : list NamespacedName;   (* objects whose patches are refused *)
  clNow : Time
}.

Definition set_windows (m : gmap NamespacedName EvictionGuardWindow) (c : Cluster) : Cluster :=
  MkCluster (clPods c) (clNodes c) (clReplicaSets c) (clDeployments c) (clNamespaces c)
            (clPolicies c) m (clObjects c) (clForbidden c) (clNow c).
Definition set_policies (m : gmap string EvictionGuardPolicy) (c : Cluster) : Cluster :=
  MkCluster (clPods c) (clNodes c) (clReplicaSets c) (clDeployments c) (clNamespaces c)
            m (clWindows c) (clObjects c) (clForbidden c) (clNow c).
Definition set_objects (m : gmap (string * string * NamespacedName) FakeObj) (c : Cluster) : Cluster :=
  MkCluster (clPods c) (clNodes c) (clReplicaSets c) (clDeployments c) (clNamespaces c)
            (clPolicies c) (clWindows c) m (clForbidden c) (clNow c).
Definition set_now (t : Time) (c : Cluster) : Cluster :=
  MkCluster (clPods c) (clNodes c) (clReplicaSets c) (clDeployments c) (clNamespaces c)
            (clPolicies c) (clWindows c) (clObjects c) (clForbidden c) t.

Definition empty_cluster : Cluster := MkCluster [] [] [] [] [] ∅ ∅ ∅ [] 0%Z.

Definition not_found (what : string) : error := StatusError (MkStatus "NotFound" (what +:+ " not found") None).
Definition forbidden (what : string) : error := StatusError (MkStatus "Forbidden" (what +:+ " is forbidden") None).

Definition found {A} (what : string) (o : option A) : result A :=
  match o with Some a => Ok a | None => Err (not_found what) end.

Definition obj_key (g : GroupVersionKind) (k : NamespacedName) : string * string * NamespacedName :=
  (gvGroup (gvkGV g), gvkKind g, k).

Definition merge_ints (p : jobj) (f : list string → option Z) : list string → option Z := λ path,
  match touches p path with
  | Leaf (JInt z) => Some z
  | Untouched => f path
  | _ => None
  end.

Definition merge_anns (p : jobj) (a : strmap) : strmap :=
  match touches p ["metadata"; "annotations"] with
  | Inner m =>
      merge (λ j old, match j with
                      | Some (JStr s) => Some s
                      | Some _ => None
                      | None => old
                      end) m a
  | Untouched => a
  | _ => ∅
  end.

Definition merge_obj (p : jobj) (o : FakeObj) : FakeObj :=
  MkObj (merge_ints p (foInts o)) (merge_anns p (foAnns o)).

Definition fake_patch (g : GroupVersionKind) (k : NamespacedName) (p : jobj) (c : Cluster)
  : result unit * Cluster :=
  if decide (k ∈ clForbidden c) then (Err (forbidden (nnName k)), c) else
  match clObjects c !! obj_key g k with
  | Some o => (Ok (), set_objects (<[obj_key g k := merge_obj p o]> (clObjects c)) c)
  | None => (Err (not_found (nnName k)), c)
  end.

Definition pod_in (ns : string) (p : Pod) : bool := str_eqb (mNamespace (podMeta p)) ns.

(** A window is found under its own key. *)
Definition stored_window (k : NamespacedName) (c : Cluster) : option EvictionGuardWindow :=
  match clWindows c !! k with
  | Some x => if decide (win_key x = k) then Some x else None
  | None => None
  end.

Definition fake_create_window (x : EvictionGuardWindow) (c : Cluster) :=
  let x' := MkWindow (winMeta x) (set_until (whole_second <$> wsWindowUntil (winSpec x)) (winSpec x)) empty_window_status in
  match clWindows c !! win_key x with
  | Some _ => (Err (StatusError (MkStatus "AlreadyExists" "already exists" None)), c)
  | None => (Ok x', set_windows (<[win_key x := x']> (clWindows c)) c)
  end.

(** A JSON merge patch of the difference between [b] and [x], on [old]: what [x]
    changed is written, the rest of [old] stays; lists are replaced whole, maps
    key by key; the status and what the server manages are not patched. *)
Definition pick {A} `{EqDecision A} (b x old : A) : A := if decide (x = b) then old else x.

Definition merge_map (b x old : strmap) : strmap :=
  merge (λ d o, match d with Some v => v | None => o end)
    (merge (λ v v', if decide (v = v') then None else Some v) x b : gmap string (option string)) old.

Definition merge_window (b x old : EvictionGuardWindow) : EvictionGuardWindow :=
  let mb := winMeta b in let mx := winMeta x in let mo := winMeta old in
  let sb := winSpec b in let sx := winSpec x in let so := winSpec old in
  MkWindow
    (MkMeta (mName mo) (mNamespace mo) (merge_map (mLabels mb) (mLabels mx) (mLabels mo))
       (merge_map (mAnnotations mb) (mAnnotations mx) (mAnnotations mo)) (mDeletionTimestamp mo) (mCreationTimestamp mo)
       (pick (mFinalizers mb) (mFinalizers mx) (mFinalizers mo))
       (pick (mOwnerReferences mb) (mOwnerReferences mx) (mOwnerReferences mo)) (mGeneration mo))
    (MkWindowSpec (pick (wsPolicyName sb) (wsPolicyName sx) (wsPolicyName so))
       (pick (wsTarget sb) (wsTarget sx) (wsTarget so)) (pick (wsActions sb) (wsActions sx) (wsActions so))
       (pick (wsBaseline sb) (wsBaseline sx) (wsBaseline so)) (pick (wsScaledTo sb) (wsScaledTo sx) (wsScaledTo so))
       (pick (wsVulnerableNodes sb) (wsVulnerableNodes sx) (wsVulnerableNodes so))
       (patched_until (wsWindowUntil sb) (wsWindowUntil sx) (wsWindowUntil so)))
    (winStatus old).

(** The patch takes the last finalizer of an object that is being deleted. *)
Definition last_finalizer (b x y : EvictionGuardWindow) : bool :=
  bool_decide (mFinalizers (winMeta x) ≠ mFinalizers (winMeta b) ∧ mFinalizers (winMeta y) = [])
  && negb (tsIsZero (mDeletionTimestamp (winMeta y))).

Definition fake_patch_window (b x : EvictionGuardWindow) (c : Cluster) :=
  match stored_window (win_key x) c with
  | Some old =>
      let y := merge_window b x old in
      (Ok y, set_windows (if last_finalizer b x y then delete (win_key x) (clWindows c)
                          else <[win_key x := y]> (clWindows c)) c)
  | None => (Err (not_found "window"), c)
  end.

(** The deletion timestamp is set once, and to an instant that is not zero. *)
Definition mark_deleted (t : Time) (m : ObjectMeta) : ObjectMeta :=
  set_deletion (if tsIsZero (mDeletionTimestamp m) then Some (Z.max 1 t) else mDeletionTimestamp m) m.

(** An object with finalizers is marked, one without is removed. *)
Definition fake_delete_window (k : NamespacedName) (c : Cluster) : result unit * Cluster :=
  match clWindows c !! k with
  | Some x =>
      (Ok (), set_windows
                match mFinalizers (winMeta x) with
                | [] => delete k (clWindows c)
                | _ => <[k := with_meta (mark_deleted (clNow c)) x]> (clWindows c)
                end c)
  | None => (Err (not_found "window"), c)
  end.

Definition fake_update_status (x : EvictionGuardWindow) (c : Cluster) :=
  match stored_window (win_key x) c with
  | Some old =>
      (* the version read must be the stored one *)
      if decide (winMeta old = winMeta x ∧ winSpec old = winSpec x) then
        (Ok x, set_windows (<[win_key x := x]> (clWindows c)) c)
      else (Err (StatusError (MkStatus "Conflict" "the object has been modified" None)), c)
  | None => (Err (not_found "window"), c)
  end.

(** So is a policy. *)
Definition stored_policy (n : string) (c : Cluster) : option EvictionGuardPolicy :=
  match clPolicies c !! n with
  | Some p => if decide (polName p = n) then Some p else None
  | None => None
  end.

(** Its deletion timestamp is the server's; a patch leaves the status alone and
    may take the last finalizer of a policy that is being deleted, a status
    update leaves the rest alone. *)
Definition fake_patch_policy (b x : EvictionGuardPolicy) (c : Cluster) :=
  match stored_policy (polName x) c with
  | Some old =>
      let y := MkPolicy (set_deletion (mDeletionTimestamp (polMeta old)) (polMeta x)) (polSpec x) (polStatus old) in
      let gone := bool_decide (mFinalizers (polMeta y) = []) && negb (tsIsZero (mDeletionTimestamp (polMeta y))) in
      (Ok y, set_policies (if gone then delete (polName x) (clPolicies c) else <[polName x := y]> (clPolicies c)) c)
  | None => (Err (not_found "policy"), c)
  end.

Definition fake_policy_status (x : EvictionGuardPolicy) (c : Cluster) :=
  match stored_policy (polName x) c with
  | Some old =>
      let y := MkPolicy (polMeta old) (polSpec old) (polStatus x) in
      (Ok y, set_policies (<[polName x := y]> (clPolicies c)) c)
  | None => (Err (not_found "policy"), c)
  end.

#[export] Instance FakeClient : Client FakeObj Cluster := {
  getPod k c := found "pod" (find (λ p, bool_decide (mKey (podMeta p) = k)) (clPods c));
  getNode n c := found "node" (find (λ x, str_eqb (mName (nMeta x)) n) (clNodes c));
  getReplicaSet k c := found "replicaset" (find (λ x, bool_decide (mKey (rsMeta x) = k)) (clReplicaSets c));
  getDeployment k c := found "deployment" (find (λ x, bool_decide (mKey (dMeta x) = k)) (clDeployments c));
  getNamespace n c := found "namespace" (find (λ x, str_eqb (mName (nsMeta x)) n) (clNamespaces c));
  getPolicy n c := found "policy" (stored_policy n c);
  getWindow k c := found "window" (stored_window k c);
  getUnstructured g k c := found (nnName k) (clObjects c !! obj_key g k);
  listPolicies c := Ok (omap (λ n, stored_policy n c) (map_to_list (clPolicies c)).*1);
  listNodes c := Ok (clNodes c);
  listPodsSelected ns sel c :=
    Ok (filter (λ p, pod_in ns p && sel (mLabels (podMeta p)) = true) (clPods c));
  listPodsOnNode n c := Ok (filter (λ p, n ∈ podNodeNameIndex p) (clPods c));
  listWindowsBy i v c :=
    Ok (filter (λ w, v ∈ window_index i w) (omap (λ k, stored_window k c) (map_to_list (clWindows c)).*1));
  createWindow := fake_create_window;
  patchWindow := fake_patch_window;
  updateWindowStatus := fake_update_status;
  deleteWindow := fake_delete_window;
  patchPolicy := fake_patch_policy;
  updatePolicyStatus := fake_policy_status;
  patchUnstructured := fake_patch;
  SetControllerReference p x := Ok x;
  NestedInt64 o path := Ok (foInts o path);
  objAnnotations := foAnns;
  clock := clNow
}.

(** ** Merging *)

Lemma pick_same {A} `{EqDecision A} (b x : A) : pick b x b = x.
Proof. unfold pick. by case_decide. Qed.

Lemma pick_untouched {A} `{EqDecision A} (b old : A) : pick b b old = old.
Proof. unfold pick. by case_decide. Qed.

Lemma lookup_merge_map b x old l :
  merge_map b x old !! l = if decide (x !! l = b !! l) then old !! l else x !! l.
Proof.
  unfold merge_map. rewrite !lookup_merge. destruct (x !! l) as [v|], (b !! l) as [v'|], (old !! l); simpl;
    try done; repeat case_decide; naive_solver.
Qed.

Lemma merge_spec_same b x :
  winSpec (merge_window b x b)
  = set_until (patched_until (wsWindowUntil (winSpec b)) (wsWindowUntil (winSpec x)) (wsWindowUntil (winSpec b))) (winSpec x).
Proof. unfold merge_window. cbn. by rewrite !pick_same. Qed.

Lemma stored_window_key k c x : stored_window k c = Some x → win_key x = k.
Proof. unfold stored_window. destruct (clWindows c !! k); [|done]. case_decide; [|done]. by intros [= <-]. Qed.

Lemma merge_key b x old : win_key (merge_window b x old) = win_key old.
Proof. done. Qed.

(** ** The laws hold *)

Lemma obj_key_same g k g' k' : obj_key g k = obj_key g' k' ↔ same_object g k g' k'.
Proof.
  unfold obj_key, same_object. split.
  - intros Heq. injection Heq. tauto.
  - intros (-> & -> & ->). done.
Qed.

Lemma fake_patch_ok g k p c u c' :
  fake_patch g k p c = (Ok u, c') →
  ∃ o, clObjects c !! obj_key g k = Some o
       ∧ c' = set_objects (<[obj_key g k := merge_obj p o]> (clObjects c)) c.
Proof.
  unfold fake_patch. intros H. case_decide; [done|].
  destruct (clObjects c !! obj_key g k) as [o|] eqn:E; simplify_eq. eauto.
Qed.

Lemma fake_patch_err g k p c e c' : fake_patch g k p c = (Err e, c') → c' = c.
Proof.
  unfold fake_patch. intros H. case_decide; [by simplify_eq|].
  destruct (clObjects c !! obj_key g k); by simplify_eq.
Qed.

Lemma merge_anns_Inner p a m key :
  touches p ["metadata"; "annotations"] = Inner m →
  merge_anns p a !! key = match m !! key with
                          | Some (JStr s) => Some s
                          | Some _ => None
                          | None => a !! key
                          end.
Proof.
  unfold merge_anns. intros ->. rw lookup_merge. by destruct (m !! key) as [[]|], (a !! key).
Qed.

#[export] Instance FakeClient_field_laws : FieldLaws FakeClient.
Proof.
  split; simpl.
  - intros g k p c c' (o & Ho & ->)%fake_patch_ok. simpl. rw lookup_insert_eq. by eexists.
  - intros g k p c c' o' path z (o & Ho & ->)%fake_patch_ok. simpl. rw lookup_insert_eq.
    intros [= <-] Ht. simpl. unfold merge_ints. by rw Ht.
  - intros g k p c c' o o' path (o1 & Ho & ->)%fake_patch_ok. simpl. rw lookup_insert_eq Ho.
    intros [= <-] [= <-] Ht. simpl. unfold merge_ints. by rw Ht.
  - intros g k p c r c' g' k' Hp Hne. destruct r as [u|e].
    + apply fake_patch_ok in Hp as (o & Ho & ->). simpl. rw lookup_insert_ne //.
      by rw obj_key_same.
    + by apply fake_patch_err in Hp as ->.
  - intros g k p c e c' g' k' Hp. by apply fake_patch_err in Hp as ->.
  - intros g k p c c' o o' m key j (o1 & Ho & ->)%fake_patch_ok. simpl. rw lookup_insert_eq Ho.
    intros [= <-] [= <-] Ht Hm. cbn [foAnns merge_obj]. rw (merge_anns_Inner p (foAnns o1) m key Ht) Hm.
    by destruct j.
  - intros g k p c c' o o' m key (o1 & Ho & ->)%fake_patch_ok. simpl. rw lookup_insert_eq Ho.
    intros [= <-] [= <-] Ht Hm. cbn [foAnns merge_obj]. by rw (merge_anns_Inner p (foAnns o1) m key Ht) Hm.
Qed.

#[export] Instance FakeClient_index_laws : WindowIndexLaws FakeClient.
Proof. split. simpl. intros i v c l x [= <-] Hx. by apply list_elem_of_filter in Hx as [? _]. Qed.

#[export] Instance FakeClient_answer_laws : AnswerLaws FakeClient.
Proof.
  split; simpl.
  - unfold fake_update_status. intros x c y c' H. destruct (stored_window (win_key x) c); [|done].
    case_decide; [|done]. by injection H as <- <-.
  - by intros p x y [= <-].
Qed.

#[export] Instance FakeClient_window_laws : WindowLaws FakeClient.
Proof.
  split; simpl.
  - intros x c g k. unfold fake_create_window. by case_match.
  - intros b x c g k. unfold fake_patch_window. by case_match.
  - intros b x c n. unfold fake_patch_window. by case_match.
  - intros x c g k. unfold fake_update_status. case_match; [|done]. by case_decide.
  - intros k' c g k. unfold fake_delete_window. by case_match.
Qed.

#[export] Instance FakeClient_store_laws : WindowStoreLaws FakeClient.
Proof.
  split; simpl.
  - intros k c x. unfold stored_window. destruct (clWindows c !! k); [|done]. simpl. case_decide; [|done]. by intros [= <-].
  - unfold fake_update_status. intros x c y c' H. destruct (stored_window (win_key x) c); [|done].
    case_decide; [|done]. injection H as <- <-. unfold stored_window. simpl. rewrite lookup_insert_eq. by case_decide.
  - unfold fake_patch_window. intros b x c y c' Hb Hk Hst H. unfold win_key in *. rewrite Hk in H.
    destruct (stored_window (mKey (winMeta b)) c) as [old|]; [|done]. injection Hb as ->. injection H as <- <-.
    split; [apply merge_spec_same|]. split; [done|]. cbn. by rewrite pick_same.
  - intros g k p c k'. unfold fake_patch. case_decide; [done|]. by case_match.
Qed.

(** ** Building blocks for examples *)

Definition meta (name ns : string) : ObjectMeta := MkMeta name ns ∅ ∅ None 1%Z [] [] 1%Z.
Definition labelled (name ns : string) (ls : list (string * string)) : ObjectMeta :=
  MkMeta name ns (list_to_map ls) ∅ None 1%Z [] [] 1%Z.
Definition any_selector : LabelSelector := MkSelector ∅ [].
Definition no_filter : NodeFilter := MkNodeFilter None None [] "" [] [] [] [].
Definition no_stamp : StampSpec := MkStampSpec false "" "" "" "".
Definition ints_of (l : list (list string * Z)) : list string → option Z := λ p,
  snd <$> find (λ x, bool_decide (x.1 = p)) l.
Definition simple_policy (name : string) (backends : list (string * BackendCatalogEntry))
  (maxWindows : option Z) : EvictionGuardPolicy :=
  MkPolicy (MkMeta name "" ∅ ∅ None 1%Z [PolicyFinalizer] [] 1%Z)
    (MkPolicySpec no_filter None None None None maxWindows (list_to_map backends) None None no_stamp [] [])
    (MkPolicyStatus 0 0 0 0 0 []).
