(* ===== verification/Scheme.v ===== *)
(** * The scheme: api/v1alpha1/groupversion_info.go and the init of cmd/main.go

    Which Go types the client and the decoders know, and under which group,
    version and kind.  The scheme belongs to apimachinery: it is a parameter,
    with what its documentation says as laws. *)
From S2P Require Import Prelude GoStrings Meta Api Kube Fake.

(** [runtime.Scheme]; a Go type is given by its name. *)
Class SchemeLib := {
  Scheme : Type;
  NewScheme : Scheme;
  AddKnownTypes : GroupVersion → list string → Scheme → Scheme;
  AddToGroupVersion : GroupVersion → Scheme → Scheme;
  clientgo_AddToScheme : Scheme → result Scheme;
  (** [scheme.ObjectKinds] of a type, [scheme.New] of a kind. *)
  kinds_of_type : Scheme → string → list GroupVersionKind;
  type_of_kind : Scheme → GroupVersionKind → option string
}.

(** A type is registered under its own name; registering more forgets nothing,
    and may not move a kind to another type (AddKnownTypes panics then). *)
Class SchemeLaws `(SL : SchemeLib) : Prop := {
  AddKnownTypes_kinds gv l s t : t ∈ l → GVK gv t ∈ kinds_of_type (AddKnownTypes gv l s) t;
  AddKnownTypes_types gv l s t : t ∈ l → type_of_kind (AddKnownTypes gv l s) (GVK gv t) = Some t;
  AddToGroupVersion_kinds gv s t k : k ∈ kinds_of_type s t → k ∈ kinds_of_type (AddToGroupVersion gv s) t;
  AddToGroupVersion_types gv s k t : type_of_kind s k = Some t → type_of_kind (AddToGroupVersion gv s) k = Some t
}.

Definition GroupName : string := "eviction-guard.io".
Definition Version : string := "v1alpha1".
Definition ApiGroupVersion : GroupVersion := GV GroupName Version.

Definition api_types : list string :=
  ["EvictionGuardPolicy"; "EvictionGuardPolicyList"; "EvictionGuardWindow"; "EvictionGuardWindowList"].

Section scheme.
Context `{SL : SchemeLib}.

(** [addKnownTypes], the only function of the SchemeBuilder. *)
Definition addKnownTypes (s : Scheme) : result Scheme :=
  Ok (AddToGroupVersion ApiGroupVersion (AddKnownTypes ApiGroupVersion api_types s)).

(** [SchemeBuilder.AddToScheme]: the functions in order, up to the first error. *)
Fixpoint AddToScheme_with (fs : list (Scheme → result Scheme)) (s : Scheme) : result Scheme :=
  match fs with
  | [] => Ok s
  | f :: fs => match f s with Ok s' => AddToScheme_with fs s' | Err e => Err e end
  end.
Definition SchemeBuilder : list (Scheme → result Scheme) := [addKnownTypes].
Definition AddToScheme : Scheme → result Scheme := AddToScheme_with SchemeBuilder.

(** [init] of main.go; [None] is the panic of [Must]. *)
Definition init_scheme : option Scheme :=
  match clientgo_AddToScheme NewScheme with
  | Ok s => match AddToScheme s with Ok s' => Some s' | Err _ => None end
  | Err _ => None
  end.

(** The program's types are known by their names under its group and version,
    both ways, once [init] is through. *)
Lemma init_scheme_types `{!SchemeLaws SL} s t :
  init_scheme = Some s → t ∈ api_types →
  GVK ApiGroupVersion t ∈ kinds_of_type s t ∧ type_of_kind s (GVK ApiGroupVersion t) = Some t.
Proof.
  unfold init_scheme. destruct (clientgo_AddToScheme _) as [s0|e]; [|done]. intros [= <-] Ht.
  split; [by apply AddToGroupVersion_kinds, AddKnownTypes_kinds | by apply AddToGroupVersion_types, AddKnownTypes_types].
Qed.

(** [init] panics only when client-go's own types do not register. *)
Lemma init_scheme_total : init_scheme = None ↔ ∃ e, clientgo_AddToScheme NewScheme = Err e.
Proof.
  unfold init_scheme. destruct (clientgo_AddToScheme _) as [s|e]; cbn; split; [done | by intros [? ?] | by eexists | done].
Qed.
End scheme.

(** A scheme as the list of its registrations. *)
#[export] Instance ListScheme : SchemeLib := {
  Scheme := list (GroupVersion * string);
  NewScheme := [];
  AddKnownTypes gv l s := ((λ t, (gv, t)) <$> l) ++ s;
  AddToGroupVersion gv s := s;
  clientgo_AddToScheme s := Ok ((GV "apps" "v1", "Deployment") :: (GV "" "v1", "Pod") :: s);
  kinds_of_type s t := (λ x, GVK x.1 x.2) <$> filter (λ x, x.2 = t) s;
  type_of_kind s k := if decide ((gvkGV k, gvkKind k) ∈ s) then Some (gvkKind k) else None
}.
#[export] Instance ListScheme_laws : SchemeLaws ListScheme.
Proof.
  split; [|..]; cbn.
  - intros gv l s t Ht. apply list_elem_of_fmap. exists (gv, t). split; [done|]. apply list_elem_of_filter. split; [done|].
    apply elem_of_app. left. apply list_elem_of_fmap. by exists t.
  - intros gv l s t Ht. rewrite decide_True //. apply elem_of_app. left. apply list_elem_of_fmap. by exists t.
  - done.
  - done.
Qed.

Example window_registered : ∃ s, init_scheme = Some s ∧ type_of_kind s (GVK (GV "eviction-guard.io" "v1alpha1") "EvictionGuardWindow") = Some "EvictionGuardWindow".
Proof. eexists. split; reflexivity. Qed.
