(* ===== verification/Capacity.v ===== *)
(** * pkg/capacity: the replica target (Strategy A)

    [TargetReplicas] of replicas.go on 32-bit integers, its closed form, its
    bounds and what happens at the edge of the integer range. *)
From S2P Require Import Prelude.

#[local] Open Scope Z_scope.

Definition TargetReplicas (baseline atRisk spare maxBuffer : Z) : Z :=
  let baseline := if baseline <? 0 then 0 else baseline in
  let extra := atRisk in
  let extra := if extra <? spare then spare else extra in
  let extra := if (extra <? 1) && (0 <? atRisk) then 1 else extra in
  let extra := if (0 <? maxBuffer) && (maxBuffer <? extra) then maxBuffer else extra in
  i32 (baseline + extra).

(** The number of extra replicas, as a specification: the larger of the pods at
    risk and the configured spare, cut at a positive [maxBuffer]. *)
Definition extra_spec (atRisk spare maxBuffer : Z) : Z :=
  let e := Z.max atRisk spare in
  if 0 <? maxBuffer then Z.min e maxBuffer else e.

Lemma TargetReplicas_closed baseline atRisk spare maxBuffer :
  TargetReplicas baseline atRisk spare maxBuffer
  = i32 (Z.max 0 baseline + extra_spec atRisk spare maxBuffer).
Proof.
  unfold TargetReplicas, extra_spec. f_equal.
  destruct (Z.ltb_spec baseline 0), (Z.ltb_spec atRisk spare), (Z.ltb_spec 0 maxBuffer);
    simpl; repeat case_match; zify_bool; lia.
Qed.

Lemma TargetReplicas_in_range baseline atRisk spare maxBuffer :
  in_i32 (Z.max 0 baseline + extra_spec atRisk spare maxBuffer) →
  TargetReplicas baseline atRisk spare maxBuffer
  = Z.max 0 baseline + extra_spec atRisk spare maxBuffer.
Proof. intros H. rw TargetReplicas_closed. by apply i32_id. Qed.

(** ** Properties *)

(** C38: while the sum fits in an int32, the target is the non-negative baseline
    plus max(atRisk, spare) capped by a positive maxBuffer: it never falls
    below the baseline for non-negative inputs, exceeds it as soon as one pod
    is at risk, and adds at most maxBuffer extra replicas. *)
Theorem TargetReplicas_bounds baseline atRisk spare maxBuffer :
  0 <= atRisk → 0 <= spare → in_i32 baseline →
  in_i32 (Z.max 0 baseline + extra_spec atRisk spare maxBuffer) →
  let t := TargetReplicas baseline atRisk spare maxBuffer in
  t = Z.max 0 baseline + extra_spec atRisk spare maxBuffer
  ∧ Z.max 0 baseline <= t
  ∧ (0 < atRisk → Z.max 0 baseline < t)
  ∧ (0 < maxBuffer → t <= Z.max 0 baseline + maxBuffer)
  ∧ (maxBuffer <= 0 → Z.max 0 baseline + atRisk <= t).
Proof.
  intros Ha Hs _ Hr t. subst t. rw TargetReplicas_in_range; [|done].
  unfold extra_spec. destruct (Z.ltb_spec 0 maxBuffer); lia.
Qed.

Lemma TargetReplicas_bounds_witness :
  in_i32 (Z.max 0 3 + extra_spec 2 1 4) ∧ TargetReplicas 3 2 1 4 = 5.
Proof.
  split; [by vm_compute|].
  destruct (TargetReplicas_bounds 3 2 1 4 ltac:(lia) ltac:(lia) ltac:(by vm_compute) ltac:(by vm_compute))
    as (Heq & _).
  exact Heq.
Defined.

(** More pods at risk never lower the target (no int32 overflow). *)
Theorem TargetReplicas_monotone baseline atRisk atRisk' spare maxBuffer :
  atRisk <= atRisk' →
  in_i32 (Z.max 0 baseline + extra_spec atRisk spare maxBuffer) →
  in_i32 (Z.max 0 baseline + extra_spec atRisk' spare maxBuffer) →
  TargetReplicas baseline atRisk spare maxBuffer <= TargetReplicas baseline atRisk' spare maxBuffer.
Proof.
  intros Hle H1 H2. rw !TargetReplicas_in_range //.
  unfold extra_spec. destruct (0 <? maxBuffer); lia.
Qed.

Lemma TargetReplicas_monotone_witness : TargetReplicas 3 1 1 4 <= TargetReplicas 3 9 1 4.
Proof. apply (TargetReplicas_monotone 3 1 9 1 4); [lia | by vm_compute | by vm_compute]. Defined.

(** At the top of the int32 range the addition wraps: the target becomes
    negative although the baseline is positive and pods are at risk. *)
Theorem TargetReplicas_overflow baseline atRisk spare maxBuffer :
  in_i32 baseline → in_i32 atRisk → in_i32 spare →
  max_i32 < Z.max 0 baseline + extra_spec atRisk spare maxBuffer →
  TargetReplicas baseline atRisk spare maxBuffer
    = Z.max 0 baseline + extra_spec atRisk spare maxBuffer - 4294967296
  ∧ TargetReplicas baseline atRisk spare maxBuffer < 0.
Proof.
  rw TargetReplicas_closed. unfold in_i32, extra_spec, i32, min_i32, max_i32. intros Hb Ha Hs Ho.
  set (s := Z.max 0 baseline + _) in *.
  assert (s + 2147483648 = (s - 2147483648) + 1 * 4294967296) as -> by lia.
  assert (s < 4294967296) by (subst s; destruct (0 <? maxBuffer); lia).
  rw Z.mod_add; [|lia]. rw Z.mod_small; lia.
Qed.

Lemma TargetReplicas_overflow_witness : TargetReplicas 2147483646 5 1 4 < 0.
Proof.
  destruct (TargetReplicas_overflow 2147483646 5 1 4) as [_ H];
    [by vm_compute | by vm_compute | by vm_compute | by vm_compute | exact H].
Defined.
