(* ===== verification/Naming.v ===== *)
(** * pkg/naming: window names

    [WindowName] of window.go (and its re-export in internal/controller/names.go),
    with the proof that the result is always a DNS-1123 label, when it is the
    readable concatenation, and a collision between different workloads of one
    namespace. *)
From S2P Require Import Prelude GoStrings Regexp Sha256.

(** [dnsLabel.ReplaceAllString(raw, "-")] for the pattern [^a-z0-9-]+: every
    maximal run of other characters becomes one dash. *)
Fixpoint replace_runs (inrun : bool) (l : list ascii) : list ascii :=
  match l with
  | [] => []
  | c :: l =>
      if is_name_char c then c :: replace_runs false l
      else if inrun then replace_runs true l
      else "-"%char :: replace_runs true l
  end.

Definition raw_name (policy namespace name : string) : string :=
  policy +:+ "-" +:+ namespace +:+ "-" +:+ name.

Definition WindowName (policy namespace name : string) : string :=
  let raw := ToLower (raw_name policy namespace name) in
  let raw := of_chars (replace_runs false (chars raw)) in
  let raw := TrimDash raw in
  let raw := if decide (raw = "") then "evg" else raw in
  if decide (String.length raw ≤ 63) then raw else
  let sum := Sum256 (bytes_of (policy +:+ "/" +:+ namespace +:+ "/" +:+ name)) in
  let suffix := EncodeToString (take 8 sum) in
  let keep := 63 - 1 - String.length suffix in
  let prefix := TrimDash (of_chars (take keep (chars raw))) in
  prefix +:+ "-" +:+ suffix.

(** ** Lemmas *)

Definition is_label (s : string) : Prop := re_match dns1123Label (chars s) = true.

Lemma length_chars s : String.length s = length (chars s).
Proof. induction s as [|c s IH]; simpl; [done | by rw IH]. Qed.

Lemma replace_runs_name b l : Forall (λ c, is_name_char c = true) (replace_runs b l).
Proof.
  revert b. induction l as [|c l IH]; intros b; simpl; [done|].
  destruct (is_name_char c) eqn:E; [by constructor|].
  destruct b; [done|]. by constructor.
Qed.

Lemma replace_runs_id b l : Forall (λ c, is_name_char c = true) l → replace_runs b l = l.
Proof. intros H. revert b. induction H as [|c l Hc Hl IH]; intros b; simpl; [done|]. by rw Hc IH. Qed.

Lemma replace_runs_length b l : (length (replace_runs b l) ≤ length l)%nat.
Proof.
  revert b. induction l as [|c l IH]; intros b; simpl; [done|].
  destruct (is_name_char c); [|destruct b]; simpl; [specialize (IH false) | specialize (IH true)..]; lia.
Qed.

Lemma name_char_cases c : is_name_char c = true → is_dash c = false → is_alnum c = true.
Proof. unfold is_name_char. intros H Hd. by rw Hd in H. Qed.

Lemma hex_alnum c : is_hex c = true → is_alnum c = true.
Proof.
  unfold is_hex, is_alnum, is_lower, is_digit, in_range. intros [H|H]%orb_true_iff.
  - by rw H orb_true_r.
  - apply orb_true_iff. left. revert H.
    change (code "a") with 97%Z. change (code "f") with 102%Z. change (code "z") with 122%Z.
    intros. zify_bool. apply andb_true_iff. split; apply Z.leb_le; lia.
Qed.

(** A trimmed list of name characters is empty or a label. *)
Lemma trimmed_label l :
  Forall (λ c, is_name_char c = true) l → trim_chars is_dash l ≠ [] →
  re_match dns1123Label (trim_chars is_dash l) = true.
Proof.
  intros Hall Hne. apply dns1123Label_spec.
  assert (Forall (λ c, is_name_char c = true) (trim_chars is_dash l)) as Hall'.
  { apply Forall_forall. intros c Hc%elem_of_trim_chars.
    by eapply (proj1 (Forall_forall _ _)) in Hall. }
  split; [|split; [|done]].
  - destruct (trim_chars is_dash l) as [|c l'] eqn:E; [done|].
    exists c, l'. split; [done|]. apply Forall_cons in Hall' as [Hc _].
    apply name_char_cases; [done | by eapply trim_chars_head].
  - destruct (exists_last Hne) as (l' & c & E). exists c, l'. split; [done|].
    rw E Forall_app Forall_singleton in Hall'. destruct Hall' as [_ Hc].
    apply name_char_cases; [done | by eapply trim_chars_last].
Qed.

Lemma trim_chars_length p l : (length (trim_chars p l) ≤ length l)%nat.
Proof.
  destruct (trim_chars_split p l) as (k1 & k2 & Hl & _). rw {2}Hl !length_app. lia.
Qed.

(** The sanitised name before the length test. *)
Definition sanitized (raw : string) : string :=
  let raw := TrimDash (of_chars (replace_runs false (chars (ToLower raw)))) in
  if decide (raw = "") then "evg" else raw.

Lemma sanitized_label raw : is_label (sanitized raw).
Proof.
  unfold sanitized, is_label. case_decide as Hd; [by vm_compute|].
  unfold TrimDash in *. rw !chars_of_chars in Hd |- *. apply trimmed_label; [apply replace_runs_name|].
  intros Hnil. apply Hd. by rw Hnil.
Qed.

Lemma sanitized_length raw : (3 ≤ length (chars raw))%nat → (length (chars (sanitized raw)) ≤ length (chars raw))%nat.
Proof.
  intros H3. unfold sanitized. case_decide; [done|].
  unfold TrimDash, ToLower. rw !chars_of_chars.
  etrans; [apply trim_chars_length|]. etrans; [apply replace_runs_length|]. by rw length_fmap.
Qed.

Lemma label_prefix_trim n l c l' :
  l = c :: l' → is_alnum c = true → Forall (λ c, is_name_char c = true) l → (0 < n)%nat →
  trim_chars is_dash (take n l) ≠ [].
Proof.
  intros -> Hc _ Hn Hnil%trim_chars_nil. destruct n; [lia|]. simpl in Hnil.
  apply Forall_cons in Hnil as [Hd _]. unfold is_dash in Hd. apply bool_decide_eq_true in Hd as ->.
  by vm_compute in Hc.
Qed.

(** Joining a label and a hexadecimal suffix with a dash gives a label. *)
Lemma label_dash_hex l h :
  re_match dns1123Label l = true → h ≠ [] → Forall (λ c, is_hex c = true) h →
  re_match dns1123Label (l ++ "-"%char :: h) = true.
Proof.
  intros ((c & l1 & -> & Hc) & _ & Hall)%dns1123Label_spec Hne Hh.
  apply dns1123Label_spec. split; [by exists c, (l1 ++ "-"%char :: h)|]. split.
  - destruct (exists_last Hne) as (h' & d & ->). exists d, (c :: l1 ++ "-"%char :: h').
    split; [simpl; by rw -app_assoc|]. apply Forall_app in Hh as [_ Hd].
    rw Forall_singleton in Hd. by apply hex_alnum.
  - apply Forall_app. split; [done|]. constructor; [done|].
    eapply Forall_impl; [done|]. intros d Hd. by apply alnum_name_char, hex_alnum.
Qed.

Definition suffix (policy namespace name : string) : string :=
  EncodeToString (take 8 (Sum256 (bytes_of (policy +:+ "/" +:+ namespace +:+ "/" +:+ name)))).

Lemma suffix_length policy namespace name : length (chars (suffix policy namespace name)) = 16%nat.
Proof. unfold suffix. by rw EncodeToString_length length_take Sum256_length. Qed.

Lemma suffix_hex policy namespace name :
  Forall (λ c, is_hex c = true) (chars (suffix policy namespace name)).
Proof. apply EncodeToString_hex, Forall_take, Sum256_range. Qed.

Lemma WindowName_unfold policy namespace name :
  WindowName policy namespace name =
    let raw := sanitized (raw_name policy namespace name) in
    if decide (String.length raw ≤ 63) then raw
    else TrimDash (of_chars (take 46 (chars raw))) +:+ "-" +:+ suffix policy namespace name.
Proof.
  unfold WindowName. cbv zeta. fold (sanitized (raw_name policy namespace name)).
  case_decide; [done|].
  fold (suffix policy namespace name). by rw (length_chars (suffix _ _ _)) suffix_length.
Qed.

(** ** Properties *)

(** C39: whatever the policy, namespace and workload are called, the window name
    is a non-empty DNS-1123 label of at most 63 characters, so the API server
    accepts it. *)
Theorem WindowName_dns1123 policy namespace name :
  re_match dns1123Label (chars (WindowName policy namespace name)) = true
  ∧ (String.length (WindowName policy namespace name) ≤ 63)%nat.
Proof.
  rw WindowName_unfold. cbv zeta.
  set (raw := sanitized _). pose proof (sanitized_label (raw_name policy namespace name)) as Hl.
  fold raw in Hl. case_decide as Hlen; [done|].
  rw length_chars !chars_app chars_TrimDash (chars_of_chars (take _ _)).
  set (p := trim_chars is_dash (take 46 (chars raw))).
  assert (re_match dns1123Label p = true) as Hp.
  { pose proof Hl as ((c & l' & Hc & Hca) & _ & Hall)%dns1123Label_spec. apply trimmed_label.
    - by apply Forall_take.
    - eapply label_prefix_trim; [done..|lia]. }
  split.
  - apply (label_dash_hex p); [done| |apply suffix_hex].
    intros Hnil. pose proof (suffix_length policy namespace name) as H16. by rw Hnil in H16.
  - rw !length_app suffix_length. simpl.
    pose proof (trim_chars_length is_dash (take 46 (chars raw))) as Ht.
    rw length_take in Ht. fold p in Ht. lia.
Qed.

(** A name that is already a short label is kept as it is, so windows stay
    readable as policy-namespace-workload. *)
Theorem WindowName_readable policy namespace name :
  re_match dns1123Label (chars (raw_name policy namespace name)) = true →
  (String.length (raw_name policy namespace name) ≤ 63)%nat →
  WindowName policy namespace name = raw_name policy namespace name.
Proof.
  intros Hlab Hlen.
  assert (sanitized (raw_name policy namespace name) = raw_name policy namespace name) as Hs.
  { pose proof Hlab as ((c & l' & Hc & Hca) & (d & l2 & Hd & Hda) & Hall)%dns1123Label_spec.
    unfold sanitized, TrimDash, ToLower. rw !chars_of_chars.
    assert (lower_char <$> chars (raw_name policy namespace name) = chars (raw_name policy namespace name)) as ->.
    { rewrite <-(list_fmap_id (chars (raw_name policy namespace name))) at 2.
      apply list_fmap_ext. intros i e He. apply list_elem_of_lookup_2 in He.
      eapply (proj1 (Forall_forall _ _)) in Hall; [|done]. unfold lower_char.
      destruct (is_upper e) eqn:E; [|done]. exfalso. revert Hall E. clear.
      destruct e as [[][][][][][][][]]; vm_compute; done. }
    rw replace_runs_id // trim_chars_id ?of_chars_chars.
    - rw decide_False //. unfold raw_name. destruct policy; done.
    - intros e k Heq. rw Hc in Heq. simplify_eq. revert Hca. clear.
      unfold is_dash. case_bool_decide as He; [by subst|done].
    - intros e k Heq. rw Hd in Heq. apply app_inj_tail in Heq as [_ <-]. revert Hda. clear.
      unfold is_dash. case_bool_decide as He; [by subst|done]. }
  rw WindowName_unfold Hs. cbv zeta. by rw decide_True.
Qed.

Lemma WindowName_readable_witness : WindowName "spot" "shop" "cart" = "spot-shop-cart".
Proof. apply (WindowName_readable "spot" "shop" "cart"); [by vm_compute | vm_compute; lia]. Defined.

(** The name is not unique per (policy, workload): inside one namespace [n],
    policy [p]-[n] with workload [x] and policy [p] with workload [n]-[x]
    share a window name, whenever the joined name fits in 63 characters. *)
Theorem WindowName_collision p n x :
  (String.length (raw_name p n (n +:+ "-" +:+ x)) ≤ 63)%nat →
  WindowName (p +:+ "-" +:+ n) n x = WindowName p n (n +:+ "-" +:+ x).
Proof.
  intros Hlen.
  assert (raw_name (p +:+ "-" +:+ n) n x = raw_name p n (n +:+ "-" +:+ x)) as Hraw.
  { apply (inj String.list_ascii_of_string). unfold raw_name. rw !chars_app. by rw -!app_assoc. }
  rw !WindowName_unfold Hraw. cbv zeta.
  assert (String.length (sanitized (raw_name p n (n +:+ "-" +:+ x))) ≤ 63)%nat.
  { rw length_chars in Hlen. rw length_chars.
    destruct (decide (3 ≤ length (chars (raw_name p n (n +:+ "-" +:+ x))))%nat) as [H3|H3].
    - pose proof (sanitized_length _ H3). lia.
    - exfalso. apply H3. unfold raw_name. rw !chars_app !length_app. simpl. lia. }
  by rw !decide_True.
Qed.

Lemma WindowName_collision_witness :
  WindowName "spot-shop" "shop" "api" = WindowName "spot" "shop" "shop-api".
Proof. apply (WindowName_collision "spot" "shop" "api"). vm_compute. lia. Defined.
