(* ===== verification/Signals.v ===== *)
(** * pkg/signals and pkg/plugin: which nodes are about to evict pods

    The detector registry of detector.go (a map from signal names to detectors,
    passed explicitly: the package-level variable is read by every call), the
    built-in detectors, and the custom matchers of custom.go. *)
From S2P Require Import Prelude GoStrings Meta Api Fake.

Definition TaintKarpenterDisrupted : string := "karpenter.sh/disrupted".
Definition TaintOutOfService : string := "node.kubernetes.io/out-of-service".
Definition AnnotationDeleteAt : string := "karpenter.sh/delete-requested-at".
Definition AnnotationSpotInterrupt : string := "aws.amazon.com/spot-interrupt".
Definition LabelSpotVolatile : string := "spotinst.com/volatile".

(** The [Detector] interface. *)
Record Detector := MkDetector { detName : DisruptionSignal; detVulnerable : Node → bool }.

Definition Registry : Type := gmap DisruptionSignal Detector.

Definition Register (d : Detector) (registry : Registry) : Registry := <[detName d := d]> registry.
Definition Lookup (registry : Registry) (name : DisruptionSignal) : option Detector := registry !! name.

(** plugin.go *)
Definition RegisterSignal (d : Detector) (registry : Registry) : Registry := Register d registry.

(** ** Built-in detectors *)

Fixpoint hasTaint (taints : list Taint) (key : string) : bool :=
  match taints with [] => false | t :: l => if decide (tKey t = key) then true else hasTaint l key end.

Definition karpenterDisrupted : Detector :=
  MkDetector SignalKarpenterDisrupted (λ n, hasTaint (nTaints n) TaintKarpenterDisrupted).
Definition karpenterDeleteRequested : Detector :=
  MkDetector SignalKarpenterDeleteRequested
    (λ n, negb (str_eqb (mget (mAnnotations (nMeta n)) AnnotationDeleteAt) "")).
Definition outOfService : Detector :=
  MkDetector SignalOutOfService (λ n, hasTaint (nTaints n) TaintOutOfService).
Definition spotInterrupted : Detector :=
  MkDetector SignalSpotInterrupted (λ n,
    if hasTaint (nTaints n) TaintOutOfService then true
    else if negb (str_eqb (mget (mAnnotations (nMeta n)) AnnotationSpotInterrupt) "") then true
    else if str_eqb (mget (mLabels (nMeta n)) LabelSpotVolatile) "true" then true else false).
Definition nodeCordoned : Detector := MkDetector SignalNodeCordoned nUnschedulable.

(** [init] *)
Definition init_registry : Registry :=
  Register nodeCordoned (Register spotInterrupted (Register outOfService
    (Register karpenterDeleteRequested (Register karpenterDisrupted ∅)))).

Definition DefaultSignals : list DisruptionSignal :=
  [SignalKarpenterDisrupted; SignalKarpenterDeleteRequested; SignalOutOfService; SignalNodeCordoned].

Definition or_default (wanted : list DisruptionSignal) : list DisruptionSignal :=
  match wanted with [] => DefaultSignals | _ => wanted end.

Section signals.
Context (registry : Registry).

Fixpoint any_fires (node : Node) (wanted : list DisruptionSignal) : bool :=
  match wanted with
  | [] => false
  | name :: rest =>
      match registry !! name with
      | None => any_fires node rest
      | Some d => if detVulnerable d node then true else any_fires node rest
      end
  end.

Definition IsVulnerable (node : Node) (wanted : list DisruptionSignal) : bool :=
  any_fires node (or_default wanted).

Fixpoint firing (node : Node) (wanted : list DisruptionSignal) : list DisruptionSignal :=
  match wanted with
  | [] => []
  | name :: rest =>
      match registry !! name with
      | None => firing node rest
      | Some d => if detVulnerable d node then name :: firing node rest else firing node rest
      end
  end.

Definition Reasons (node : Node) (wanted : list DisruptionSignal) : list DisruptionSignal :=
  firing node (or_default wanted).
End signals.

(** ** custom.go *)

Definition kvMatch (m : strmap) (want : KeyValueMatch) : bool :=
  match m !! kvKey want with
  | None => false
  | Some v => if negb (str_eqb (kvValue want) "") && negb (str_eqb v (kvValue want)) then false else true
  end.

Definition customMatches (node : Node) (sig : CustomDisruptionSignal) : bool :=
  if match csTaint sig with Some t => MatchesAny t (nTaints node) | None => false end then true
  else if match csAnnotation sig with Some kv => kvMatch (mAnnotations (nMeta node)) kv | None => false end
       then true
  else if match csLabel sig with Some kv => kvMatch (mLabels (nMeta node)) kv | None => false end
       then true else false.

Fixpoint MatchCustom (node : Node) (signals : list CustomDisruptionSignal) : bool :=
  match signals with
  | [] => false
  | s :: rest => if customMatches node s then true else MatchCustom node rest
  end.

(** [Vulnerable] of a node for a policy ([None] for a nil policy). *)
Definition Vulnerable (registry : Registry) (node : Node) (policy : option EvictionGuardPolicy) : bool :=
  match policy with
  | None => IsVulnerable registry node []
  | Some p =>
      if IsVulnerable registry node (psDisruptionSignals (polSpec p)) then true
      else MatchCustom node (psCustomSignals (polSpec p))
  end.

(** ** Lemmas *)

Lemma hasTaint_spec taints key : hasTaint taints key = true ↔ ∃ t, t ∈ taints ∧ tKey t = key.
Proof.
  induction taints as [|t l IH]; [split; [done | by intros ?%exists_elem_nil]|].
  rw exists_elem_cons -IH. simpl. case_decide; naive_solver.
Qed.

Lemma any_fires_spec registry node wanted :
  any_fires registry node wanted = true ↔
  ∃ name, name ∈ wanted ∧ ∃ d, registry !! name = Some d ∧ detVulnerable d node = true.
Proof.
  induction wanted as [|n l IH]; [split; [done | by intros ?%exists_elem_nil]|].
  rw exists_elem_cons -IH. simpl.
  destruct (registry !! n) as [d|]; [destruct (detVulnerable d node) eqn:Ed|].
  - split; eauto.
  - split; [by right|]. intros [(? & ? & ?) | ?]; [congruence | done].
  - split; [by right|]. by intros [(? & ? & ?) | ?].
Qed.

Lemma elem_of_firing registry node wanted name :
  name ∈ firing registry node wanted ↔
  name ∈ wanted ∧ ∃ d, registry !! name = Some d ∧ detVulnerable d node = true.
Proof.
  induction wanted as [|n l IH]; simpl; [split; [by intros ?%not_elem_of_nil | by intros [?%not_elem_of_nil _]]|].
  assert (∀ b : bool, (∃ d, registry !! n = Some d ∧ detVulnerable d node = true) ↔ b = true →
    (name ∈ (if b then n :: firing registry node l else firing registry node l) ↔
     name ∈ n :: l ∧ ∃ d, registry !! name = Some d ∧ detVulnerable d node = true)) as Hb.
  { intros b Hb. destruct b; rewrite !elem_of_cons IH.
    - split; [intros [-> | [? ?]]; [split; [by left | by apply Hb] | by eauto]|].
      intros [[-> | ?] ?]; [by left | by right].
    - split; [intros [? ?]; eauto|]. intros [[-> | ?] Hd]; [|done].
      by apply Hb in Hd. }
  destruct (registry !! n) as [d|] eqn:E.
  - specialize (Hb (detVulnerable d node)). destruct (detVulnerable d node) eqn:Ed; apply Hb.
    + split; eauto.
    + split; [|done]. intros (? & ? & ?). congruence.
  - apply (Hb false). split; [|done]. by intros (? & ? & ?).
Qed.

(** A custom matcher: the key is present, with the wanted value if one is set. *)
Definition kv_holds (m : strmap) (want : KeyValueMatch) : Prop :=
  ∃ v, m !! kvKey want = Some v ∧ (kvValue want = "" ∨ v = kvValue want).

Definition custom_fires (node : Node) (sig : CustomDisruptionSignal) : Prop :=
  (∃ t x, csTaint sig = Some t ∧ x ∈ nTaints node ∧ taint_matches t x)
  ∨ (∃ kv, csAnnotation sig = Some kv ∧ kv_holds (mAnnotations (nMeta node)) kv)
  ∨ (∃ kv, csLabel sig = Some kv ∧ kv_holds (mLabels (nMeta node)) kv).

Lemma kvMatch_spec m want : kvMatch m want = true ↔ kv_holds m want.
Proof.
  unfold kvMatch, kv_holds. destruct (m !! kvKey want) as [v|]; [|naive_solver].
  destruct (str_eqb (kvValue want) "") eqn:E1; simpl; [apply str_eqb_true in E1; naive_solver|].
  apply str_eqb_false in E1.
  destruct (str_eqb v (kvValue want)) eqn:E2; simpl;
    [apply str_eqb_true in E2 | apply str_eqb_false in E2]; naive_solver.
Qed.

Lemma customMatches_spec node sig : customMatches node sig = true ↔ custom_fires node sig.
Proof.
  unfold customMatches, custom_fires.
  assert (∀ b1 b2 b3 : bool, (if b1 then true else if b2 then true else if b3 then true else false) = true
          ↔ b1 = true ∨ b2 = true ∨ b3 = true) as -> by (intros [] [] []; naive_solver).
  apply or_iff; [|apply or_iff].
  - destruct (csTaint sig) as [t|]; [rw MatchesAny_spec|split; [done | by intros (? & ? & ? & _)]].
    split; [intros (x & ? & ?); by exists t, x | intros (t' & x & [= <-] & ? & ?); by exists x].
  - destruct (csAnnotation sig) as [kv|]; [rw kvMatch_spec|split; [done | by intros (? & ? & _)]].
    split; [by exists kv | by intros (kv' & [= <-] & ?)].
  - destruct (csLabel sig) as [kv|]; [rw kvMatch_spec|split; [done | by intros (? & ? & _)]].
    split; [by exists kv | by intros (kv' & [= <-] & ?)].
Qed.

Lemma MatchCustom_spec node sigs :
  MatchCustom node sigs = true ↔ ∃ s, s ∈ sigs ∧ custom_fires node s.
Proof.
  induction sigs as [|s l IH]; [split; [done | by intros ?%exists_elem_nil]|].
  rw exists_elem_cons -IH -customMatches_spec. simpl. destruct (customMatches node s); naive_solver.
Qed.

(** ** Properties *)

(** A node is vulnerable for a policy exactly when one of its built-in
    signals (the defaults when it lists none) is registered and fires, or one
    of its custom matchers does; unregistered names are ignored. *)
Theorem Vulnerable_spec registry node p :
  Vulnerable registry node (Some p) = true ↔
  (∃ name, name ∈ or_default (psDisruptionSignals (polSpec p))
           ∧ ∃ d, registry !! name = Some d ∧ detVulnerable d node = true)
  ∨ (∃ s, s ∈ psCustomSignals (polSpec p) ∧ custom_fires node s).
Proof.
  unfold Vulnerable, IsVulnerable. rw -any_fires_spec -MatchCustom_spec.
  destruct (any_fires _ _ _); naive_solver.
Qed.

(** The reasons reported for a node are the wanted signals that fire, so
    there is one exactly when the node is vulnerable. *)
Theorem Reasons_spec registry node wanted :
  (∀ name, name ∈ Reasons registry node wanted ↔
    name ∈ or_default wanted ∧ ∃ d, registry !! name = Some d ∧ detVulnerable d node = true)
  ∧ (IsVulnerable registry node wanted = true ↔ Reasons registry node wanted ≠ []).
Proof.
  split; [intros name; apply elem_of_firing|].
  unfold IsVulnerable, Reasons. rw any_fires_spec. split.
  - intros (name & Hin & d & Hd & Hf) Hnil.
    assert (name ∈ firing registry node (or_default wanted)) as Hx by (apply elem_of_firing; eauto).
    rw Hnil in Hx. by apply not_elem_of_nil in Hx.
  - destruct (firing _ _ _) as [|name l] eqn:E; [done|]. intros _.
    assert (name ∈ firing registry node (or_default wanted)) as Hx by (rw E; left).
    apply elem_of_firing in Hx as (? & d & ? & ?). eauto.
Qed.

(** With the registry the process starts with and no signals configured, a
    node is vulnerable exactly when it is cordoned, carries the Karpenter or
    the out-of-service taint, or a delete-requested annotation. *)
Theorem default_signals_spec node :
  IsVulnerable init_registry node [] = true ↔
  (∃ t, t ∈ nTaints node ∧ tKey t = TaintKarpenterDisrupted)
  ∨ mget (mAnnotations (nMeta node)) AnnotationDeleteAt ≠ ""
  ∨ (∃ t, t ∈ nTaints node ∧ tKey t = TaintOutOfService)
  ∨ nUnschedulable node = true.
Proof.
  rw -!hasTaint_spec -str_eqb_false. unfold IsVulnerable, or_default, DefaultSignals.
  cbn [any_fires].
  replace (init_registry !! SignalKarpenterDisrupted) with (Some karpenterDisrupted)
    by (vm_compute; reflexivity).
  replace (init_registry !! SignalKarpenterDeleteRequested) with (Some karpenterDeleteRequested)
    by (vm_compute; reflexivity).
  replace (init_registry !! SignalOutOfService) with (Some outOfService) by (vm_compute; reflexivity).
  replace (init_registry !! SignalNodeCordoned) with (Some nodeCordoned) by (vm_compute; reflexivity).
  simpl. destruct (hasTaint _ _), (str_eqb _ _), (hasTaint _ _), (nUnschedulable node);
    simpl; naive_solver.
Qed.

(** Registering a plugin detector makes it (and only it) answer under its
    name. *)
Theorem Register_Lookup d registry name :
  Lookup (Register d registry) name = if decide (detName d = name) then Some d else Lookup registry name.
Proof. unfold Lookup, Register. by rw lookup_insert. Qed.
