(* ===== verification/PolicyOwn.v ===== *)
(** * pkg/policyown: which policy owns a Deployment

    Pins win over selectors; among the selecting policies that are not being
    deleted the lexicographically first name wins.  Pointers are options, as in
    the code. *)
From S2P Require Import Prelude GoStrings GoTime Meta Api Kube Fake.

Section own.
Context `{L : KubeLib}.

Definition Pin (dep : option Deployment) : string :=
  match dep with
  | None => ""
  | Some d => TrimSpace (mget (mAnnotations (dMeta d)) PolicyPinAnnotation)
  end.

Definition WorkloadSelectorMatch (policy : option EvictionGuardPolicy) (dep : option Deployment) : bool :=
  match policy, dep with
  | Some p, Some d =>
      match psWorkloadSelector (polSpec p) with
      | None => true
      | Some s =>
          match LabelSelectorAsSelector (Some s) with
          | Err _ => false
          | Ok sel => sel (mLabels (dMeta d))
          end
      end
  | _, _ => false
  end.

Definition NamespaceSelectorMatch (policy : option EvictionGuardPolicy) (nsLabels : labels) : bool :=
  match policy with
  | None => false
  | Some p =>
      match psNamespaceSelector (polSpec p) with
      | None => true
      | Some s =>
          match LabelSelectorAsSelector (Some s) with
          | Err _ => false
          | Ok sel => sel nsLabels
          end
      end
  end.

Definition SelectorMatch (policy : option EvictionGuardPolicy) (dep : option Deployment)
  (nsLabels : labels) : bool :=
  NamespaceSelectorMatch policy nsLabels && WorkloadSelectorMatch policy dep.

(** [!p.DeletionTimestamp.IsZero()] *)
Definition deleting (p : EvictionGuardPolicy) : bool := negb (tsIsZero (mDeletionTimestamp (polMeta p))).

(** The loop of [FirstByName]: the candidates by name, and their names in
    order of appearance. *)
Fixpoint collect (dep : option Deployment) (nsLabels : labels)
  (all : list (option EvictionGuardPolicy))
  (byName : gmap string EvictionGuardPolicy) (names : list string)
  : gmap string EvictionGuardPolicy * list string :=
  match all with
  | [] => (byName, names)
  | None :: rest => collect dep nsLabels rest byName names
  | Some p :: rest =>
      if deleting p then collect dep nsLabels rest byName names
      else if negb (SelectorMatch (Some p) dep nsLabels) then collect dep nsLabels rest byName names
      else match byName !! polName p with
           | Some _ => collect dep nsLabels rest byName names
           | None => collect dep nsLabels rest (<[polName p := p]> byName) (names ++ [polName p])
           end
  end.

Definition FirstByName (dep : option Deployment) (nsLabels : labels)
  (all : list (option EvictionGuardPolicy)) : option EvictionGuardPolicy :=
  let '(byName, names) := collect dep nsLabels all ∅ [] in
  match sort_strings names with
  | [] => None
  | first :: _ => byName !! first
  end.

Definition Owns (policy : option EvictionGuardPolicy) (dep : option Deployment)
  (nsLabels : labels) (all : list (option EvictionGuardPolicy)) : bool :=
  match policy, dep with
  | Some p, Some _ =>
      if deleting p then false
      else let pin := Pin dep in
      if negb (str_eqb pin "") then str_eqb pin (polName p)
      else if negb (SelectorMatch policy dep nsLabels) then false
      else match FirstByName dep nsLabels all with
           | None => false
           | Some winner => str_eqb (polName winner) (polName p)
           end
  | _, _ => false
  end.

(** The loop over a pinned name. *)
Fixpoint find_pinned (pin : string) (all : list (option EvictionGuardPolicy)) : option EvictionGuardPolicy :=
  match all with
  | [] => None
  | None :: rest => find_pinned pin rest
  | Some p :: rest =>
      if deleting p then find_pinned pin rest
      else if str_eqb (polName p) pin then Some p else find_pinned pin rest
  end.

Definition ResolveOwner (dep : option Deployment) (nsLabels : labels)
  (all : list (option EvictionGuardPolicy)) : option EvictionGuardPolicy :=
  match dep with
  | None => None
  | Some _ =>
      let pin := Pin dep in
      if negb (str_eqb pin "") then find_pinned pin all else FirstByName dep nsLabels all
  end.

(** ** Specification *)

(** A policy that competes for [dep]: listed, not deleting, selecting it. *)
Definition candidate (dep : option Deployment) (nsLabels : labels)
  (all : list (option EvictionGuardPolicy)) (p : EvictionGuardPolicy) : Prop :=
  Some p ∈ all ∧ deleting p = false ∧ SelectorMatch (Some p) dep nsLabels = true.

(** Distinct policies have distinct names (they are cluster-scoped objects). *)
Definition unique_names (all : list (option EvictionGuardPolicy)) : Prop :=
  ∀ p q, Some p ∈ all → Some q ∈ all → polName p = polName q → p = q.

Lemma candidate_cons dep ns x all p :
  candidate dep ns (x :: all) p ↔
  (x = Some p ∧ deleting p = false ∧ SelectorMatch (Some p) dep ns = true) ∨ candidate dep ns all p.
Proof. unfold candidate. rewrite elem_of_cons. intuition congruence. Qed.

(** What the loop adds to the maps it starts from. *)
Lemma collect_spec dep ns all byName names by' names' :
  (∀ n, n ∈ names ↔ is_Some (byName !! n)) →
  collect dep ns all byName names = (by', names') →
  (∀ n, n ∈ names' ↔ is_Some (by' !! n))
  ∧ (∀ n p, by' !! n = Some p → byName !! n = Some p ∨ (candidate dep ns all p ∧ polName p = n))
  ∧ (∀ n p, byName !! n = Some p → by' !! n = Some p)
  ∧ (∀ p, candidate dep ns all p → is_Some (by' !! polName p)).
Proof.
  revert byName names. induction all as [|x all IH]; intros byName names Hinv; simpl.
  { intros [= <- <-]. split; [done|]. split; [eauto|]. split; [done|].
    intros p (Hp & _). by apply not_elem_of_nil in Hp. }
  assert (∀ b, (b = true → ∀ p, ¬ (x = Some p ∧ deleting p = false ∧ SelectorMatch (Some p) dep ns = true)) →
    b = true → collect dep ns all byName names = (by', names') →
    (∀ n, n ∈ names' ↔ is_Some (by' !! n))
    ∧ (∀ n p, by' !! n = Some p → byName !! n = Some p ∨ (candidate dep ns (x :: all) p ∧ polName p = n))
    ∧ (∀ n p, byName !! n = Some p → by' !! n = Some p)
    ∧ (∀ p, candidate dep ns (x :: all) p → is_Some (by' !! polName p))) as Hskip.
  { intros b Hb Hbt Hc. specialize (Hb Hbt). apply IH in Hc as (H1 & H2 & H3 & H4); [|done].
    split; [done|]. split; [|split; [done|]].
    - intros n p [?|[? ?]]%H2; [by left | right]. by rewrite candidate_cons; eauto.
    - intros p [?|?]%candidate_cons; [by exfalso; eapply Hb | by apply H4]. }
  destruct x as [p|]; [|apply (Hskip true); [by intros _ q [? _] | done]].
  destruct (deleting p) eqn:Ed; [apply (Hskip true); [intros _ q (? & ? & _); congruence | done]|].
  destruct (SelectorMatch (Some p) dep ns) eqn:Es; simpl;
    [|apply (Hskip true); [intros _ q (? & _ & ?); congruence | done]].
  destruct (byName !! polName p) as [p0|] eqn:Eb.
  - intros Hc. apply IH in Hc as (H1 & H2 & H3 & H4); [|done].
    split; [done|]. split; [|split; [done|]].
    + intros n q [?|[? ?]]%H2; [by left | right]. by rewrite candidate_cons; eauto.
    + intros q [(? & _)|?]%candidate_cons; [simplify_eq; eauto | by apply H4].
  - intros Hc. apply IH in Hc as (H1 & H2 & H3 & H4).
    + split; [done|]. split; [|split].
      * intros n q [Hn|[? ?]]%H2; [|right; by rewrite candidate_cons; eauto].
        apply lookup_insert_Some in Hn as [[<- <-]|[? ?]]; [|by left].
        right. rewrite candidate_cons. eauto.
      * intros n q Hn. apply H3. rewrite lookup_insert_ne; [done|]. congruence.
      * intros q [(? & _)|?]%candidate_cons; [|by apply H4].
        simplify_eq. exists q. apply H3. by rewrite lookup_insert_eq.
    + intros n. rewrite elem_of_app list_elem_of_singleton Hinv lookup_insert.
      case_decide; [subst; naive_solver | naive_solver].
Qed.

Lemma collect_nil_spec dep ns all by' names' :
  collect dep ns all ∅ [] = (by', names') →
  (∀ n, n ∈ names' ↔ is_Some (by' !! n))
  ∧ (∀ n p, by' !! n = Some p → candidate dep ns all p ∧ polName p = n)
  ∧ (∀ p, candidate dep ns all p → is_Some (by' !! polName p)).
Proof.
  intros Hc. apply collect_spec in Hc as (H1 & H2 & _ & H4).
  - split; [done|]. split; [|done]. intros n p [Hn|?]%H2; [|done]. by rewrite lookup_empty in Hn.
  - intros n. rewrite lookup_empty. split; [by intros ?%not_elem_of_nil | by intros [? ?]].
Qed.

Lemma FirstByName_Some dep ns all p :
  FirstByName dep ns all = Some p →
  candidate dep ns all p ∧ ∀ q, candidate dep ns all q → String.le (polName p) (polName q).
Proof.
  unfold FirstByName. destruct (collect _ _ _ _ _) as [by' names'] eqn:Ec.
  apply collect_nil_spec in Ec as (H1 & H2 & H3).
  destruct (sort_strings names') as [|first rest] eqn:Es; [done|].
  intros Hp. apply sort_strings_head in Es as [_ Hmin].
  destruct (H2 _ _ Hp) as [Hc <-]. split; [done|]. intros q Hq. apply Hmin, H1. by apply H3.
Qed.

Lemma FirstByName_None dep ns all :
  FirstByName dep ns all = None → ∀ q, ¬ candidate dep ns all q.
Proof.
  unfold FirstByName. destruct (collect _ _ _ _ _) as [by' names'] eqn:Ec.
  apply collect_nil_spec in Ec as (H1 & H2 & H3).
  destruct (sort_strings names') as [|first rest] eqn:Es; intros Hp q Hq.
  - apply H3, H1, elem_of_sort_strings in Hq. rewrite Es in Hq. by apply not_elem_of_nil in Hq.
  - apply sort_strings_head in Es as [Hin _]. apply H1 in Hin as [? ?]. congruence.
Qed.

Lemma candidate_selected dep ns all p : candidate dep ns all p → is_Some dep.
Proof.
  intros (_ & _ & [_ H]%andb_prop). unfold WorkloadSelectorMatch in H. by destruct dep.
Qed.

Lemma find_pinned_Some pin all p :
  find_pinned pin all = Some p → Some p ∈ all ∧ deleting p = false ∧ polName p = pin.
Proof.
  induction all as [|[q|] all IH]; simpl; [done| |].
  - destruct (deleting q) eqn:Ed; [intros (?&?&?)%IH; split; [by right|done]|].
    destruct (str_eqb (polName q) pin) eqn:Eq; [|intros (?&?&?)%IH; split; [by right|done]].
    intros [= <-]. apply str_eqb_true in Eq. split; [left|done].
  - intros (?&?&?)%IH. split; [by right|done].
Qed.

Lemma find_pinned_None pin all :
  find_pinned pin all = None → ∀ p, Some p ∈ all → deleting p = false → polName p ≠ pin.
Proof.
  induction all as [|[q|] all IH]; simpl; intros Hn p Hp Hd; [by apply not_elem_of_nil in Hp| |].
  - apply elem_of_cons in Hp as [[= ->]|Hp].
    + rewrite Hd in Hn. by destruct (str_eqb (polName q) pin) eqn:Eq; [|apply str_eqb_false in Eq].
    + apply IH; [|done..]. destruct (deleting q); [done|]. by destruct (str_eqb _ _).
  - apply elem_of_cons in Hp as [?|Hp]; [done|]. by apply IH.
Qed.

(** ** Properties *)

(** The owner of an unpinned Deployment is the lexicographically first
    policy among those that are not deleting and whose namespace and workload
    selectors match it, and there is none only when no policy qualifies. *)
Theorem ResolveOwner_unpinned d ns all :
  Pin (Some d) = "" →
  match ResolveOwner (Some d) ns all with
  | Some p => candidate (Some d) ns all p
              ∧ ∀ q, candidate (Some d) ns all q → String.le (polName p) (polName q)
  | None => ∀ q, ¬ candidate (Some d) ns all q
  end.
Proof.
  intros Hpin. unfold ResolveOwner. rewrite Hpin. simpl.
  destruct (FirstByName _ _ _) as [p|] eqn:E; [by apply FirstByName_Some | by apply FirstByName_None].
Qed.

(** Owning is being the resolved owner. *)
Lemma Owns_iff p dep ns all :
  unique_names all → Some p ∈ all →
  Owns (Some p) dep ns all = true ↔ ResolveOwner dep ns all = Some p.
Proof.
  intros Huniq Hin. unfold Owns, ResolveOwner. destruct dep as [d|]; [|done]. cbv zeta.
  destruct (str_eqb (Pin (Some d)) "") eqn:Epin; cbn [negb].
  - destruct (FirstByName (Some d) ns all) as [w|] eqn:Ef.
    + apply FirstByName_Some in Ef as [(Hw & Hwd & Hws) _].
      destruct (deleting p) eqn:Ed; [split; [done | intros [= ->]; congruence]|].
      destruct (SelectorMatch (Some p) (Some d) ns) eqn:Es; simpl;
        [|split; [done | intros [= ->]; congruence]].
      rewrite str_eqb_true. split; [|by intros [= ->]]. intros Hn. f_equal. by apply Huniq.
    + by destruct (deleting p), (SelectorMatch (Some p) (Some d) ns).
  - destruct (find_pinned (Pin (Some d)) all) as [w|] eqn:Ef.
    + apply find_pinned_Some in Ef as (Hw & Hwd & Hn).
      destruct (deleting p) eqn:Ed; [split; [done | intros [= ->]; congruence]|].
      rewrite str_eqb_true -Hn. split; [|by intros [= ->]]. intros Hpn. f_equal. by apply Huniq.
    + destruct (deleting p) eqn:Ed; [done|].
      pose proof (find_pinned_None _ _ Ef p Hin Ed) as Hne. rewrite str_eqb_true. split; [intros Heq; by destruct Hne|done].
Qed.

(** C34: the two ways the program asks who owns a Deployment agree: among
    policies with distinct names, [Owns] (the policy reconciler) holds of
    exactly the policy [ResolveOwner] (the eviction gate) returns. *)
Theorem Owns_ResolveOwner p dep ns all :
  unique_names all → Some p ∈ all →
  Owns (Some p) dep ns all = true ↔ ResolveOwner dep ns all = Some p.
Proof. apply Owns_iff. Qed.

(** No two policies manage one Deployment: two owners have the same name. *)
Theorem Owns_unique p q dep ns all :
  Owns (Some p) dep ns all = true → Owns (Some q) dep ns all = true → polName p = polName q.
Proof.
  unfold Owns. destruct dep as [d|]; [|done].
  destruct (deleting p), (deleting q); try done.
  destruct (str_eqb (Pin (Some d)) "") eqn:Epin; cbn [negb].
  - destruct (SelectorMatch (Some p) _ _), (SelectorMatch (Some q) _ _); try done. simpl.
    destruct (FirstByName _ _ _) as [w|]; [|done]. rewrite !str_eqb_true. congruence.
  - rewrite !str_eqb_true. congruence.
Qed.
End own.

(** ** Witnesses *)

Definition pol_a : EvictionGuardPolicy := simple_policy "a" [] None.
Definition pol_b : EvictionGuardPolicy := simple_policy "b" [] None.
Definition dep_web : Deployment := MkDeployment (meta "web" "shop") (Some 3%Z) None ∅.

Lemma ResolveOwner_unpinned_witness :
  ResolveOwner (Some dep_web) ∅ [Some pol_b; None; Some pol_a] = Some pol_a
  ∧ (candidate (Some dep_web) ∅ [Some pol_b; None; Some pol_a] pol_a
     ∧ ∀ q, candidate (Some dep_web) ∅ [Some pol_b; None; Some pol_a] q → String.le (polName pol_a) (polName q)).
Proof.
  assert (H : ResolveOwner (Some dep_web) ∅ [Some pol_b; None; Some pol_a] = Some pol_a)
    by (vm_compute; reflexivity).
  split; [exact H|].
  pose proof (ResolveOwner_unpinned dep_web ∅ [Some pol_b; None; Some pol_a]) as Hs.
  rewrite H in Hs. apply Hs. vm_compute. reflexivity.
Defined.

Lemma unique_ab : unique_names [Some pol_b; Some pol_a].
Proof.
  intros p q Hp Hq. rewrite !elem_of_cons in Hp Hq.
  destruct Hp as [[= ->]|[[= ->]|[]%not_elem_of_nil]], Hq as [[= ->]|[[= ->]|[]%not_elem_of_nil]];
    done.
Qed.

Lemma Owns_ResolveOwner_witness :
  Owns (Some pol_a) (Some dep_web) ∅ [Some pol_b; Some pol_a] = true.
Proof.
  apply (Owns_ResolveOwner pol_a (Some dep_web) ∅ [Some pol_b; Some pol_a]).
  - exact unique_ab.
  - right. left.
  - vm_compute. reflexivity.
Defined.

Lemma Owns_unique_witness : polName pol_a = polName pol_a.
Proof.
  apply (Owns_unique pol_a pol_a (Some dep_web) ∅ [Some pol_b; Some pol_a]); vm_compute; reflexivity.
Defined.
