(* ===== verification/Workload.v ===== *)
(** * pkg/workload: from a pod to its Deployment

    The walk Pod -> ReplicaSet -> Deployment along controller references, shared
    by the policy reconciler and the eviction gate. *)
From S2P Require Import Prelude GoStrings GoTime Meta Api Kube Fake.

Section workload.
Context {Obj W : Type} `{L : KubeLib} `{C : Client Obj W}.

(** [return nil, client.IgnoreNotFound(err)] *)
Definition ignore_not_found {A} (e : error) : result (option A) :=
  match IgnoreNotFound e with None => Ok None | Some e => Err e end.

(** The inner loop over the ReplicaSet's owners: [None] when it falls
    through. *)
Fixpoint owner_of_rs (w : W) (ns : string) (refs : list OwnerReference)
  : option (result (option Deployment)) :=
  match refs with
  | [] => None
  | oo :: rest =>
      if negb (str_eqb (orKind oo) "Deployment") || negb (is_controller oo)
      then owner_of_rs w ns rest
      else Some match getDeployment (NN ns (orName oo)) w with
                | Err e => ignore_not_found e
                | Ok dep => Ok (Some dep)
                end
  end.

Fixpoint owner_of_pod (w : W) (ns : string) (refs : list OwnerReference) : result (option Deployment) :=
  match refs with
  | [] => Ok None
  | o :: rest =>
      if negb (str_eqb (orKind o) "ReplicaSet") || negb (is_controller o) then owner_of_pod w ns rest
      else match getReplicaSet (NN ns (orName o)) w with
           | Err e => ignore_not_found e
           | Ok rs =>
               match owner_of_rs w ns (mOwnerReferences (rsMeta rs)) with
               | Some r => r
               | None => owner_of_pod w ns rest
               end
           end
  end.

Definition OwnerDeployment (pod : option Pod) (w : W) : result (option Deployment) :=
  match pod with
  | None => Ok None
  | Some p => owner_of_pod w (mNamespace (podMeta p)) (mOwnerReferences (podMeta p))
  end.

Definition NamespaceLabels (name : string) (w : W) : result labels :=
  match getNamespace name w with
  | Err e => if IsNotFound e then Ok ∅ else Err e
  | Ok ns => Ok (mLabels (nsMeta ns))
  end.

(** ** Specification *)

Definition controls (kind : string) (refs : list OwnerReference) (name : string) : Prop :=
  ∃ o, o ∈ refs ∧ orKind o = kind ∧ is_controller o = true ∧ orName o = name.

Lemma controls_cons kind o refs name :
  controls kind (o :: refs) name ↔
  (orKind o = kind ∧ is_controller o = true ∧ orName o = name) ∨ controls kind refs name.
Proof.
  apply (exists_elem_cons (λ o, orKind o = kind ∧ is_controller o = true ∧ orName o = name)).
Qed.

Lemma ref_test kind o :
  negb (str_eqb (orKind o) kind) || negb (is_controller o) = false →
  orKind o = kind ∧ is_controller o = true.
Proof. intros H. zify_bool. rewrite <- (str_eqb_true (orKind o)). auto. Qed.

Lemma ignore_not_found_Some {A} (e : error) (a : A) : ignore_not_found e ≠ Ok (Some a).
Proof. unfold ignore_not_found, IgnoreNotFound. by destruct (IsNotFound e). Qed.

Lemma owner_of_rs_Some w ns refs d :
  owner_of_rs w ns refs = Some (Ok (Some d)) →
  ∃ name, controls "Deployment" refs name ∧ getDeployment (NN ns name) w = Ok d.
Proof.
  induction refs as [|o refs IH]; simpl; [done|].
  destruct (_ || _) eqn:E.
  - intros (name & ? & ?)%IH. exists name. rewrite controls_cons. eauto.
  - apply ref_test in E as [? ?]. intros [= Hdep]. exists (orName o). rewrite controls_cons.
    destruct (getDeployment _ w) as [d'|e]; [|by apply ignore_not_found_Some in Hdep].
    simplify_eq. eauto.
Qed.

(** A Deployment found for a pod is one its ReplicaSet controller chain
    leads to, in the pod's namespace: the pod is controlled by a ReplicaSet
    that the Deployment controls, and all three lookups succeeded. *)
Theorem OwnerDeployment_chain pod d w :
  OwnerDeployment (Some pod) w = Ok (Some d) →
  ∃ rsName rs depName,
    controls "ReplicaSet" (mOwnerReferences (podMeta pod)) rsName
    ∧ getReplicaSet (NN (mNamespace (podMeta pod)) rsName) w = Ok rs
    ∧ controls "Deployment" (mOwnerReferences (rsMeta rs)) depName
    ∧ getDeployment (NN (mNamespace (podMeta pod)) depName) w = Ok d.
Proof.
  unfold OwnerDeployment. generalize (mNamespace (podMeta pod)) as ns.
  generalize (mOwnerReferences (podMeta pod)) as refs. intros refs ns.
  induction refs as [|o refs IH]; simpl; [done|].
  assert (owner_of_pod w ns refs = Ok (Some d) → ∃ rsName rs depName,
    controls "ReplicaSet" (o :: refs) rsName ∧ getReplicaSet (NN ns rsName) w = Ok rs
    ∧ controls "Deployment" (mOwnerReferences (rsMeta rs)) depName
    ∧ getDeployment (NN ns depName) w = Ok d) as Hrest.
  { intros (n & rs & m & ? & ?)%IH. exists n, rs, m. rewrite controls_cons. eauto. }
  destruct (_ || _) eqn:E; [done|]. apply ref_test in E as [? ?].
  destruct (getReplicaSet _ w) as [rs|e] eqn:Er; [|by intros ?%ignore_not_found_Some].
  destruct (owner_of_rs _ _ _) as [r|] eqn:Eo; [|done]. intros ->.
  apply owner_of_rs_Some in Eo as (m & ? & ?).
  exists (orName o), rs, m. rewrite controls_cons. eauto 10.
Qed.
End workload.

Definition ref_to (kind name : string) : OwnerReference := OwnerRef kind name (Some true).

Definition owned (m : ObjectMeta) (o : OwnerReference) : ObjectMeta :=
  MkMeta (mName m) (mNamespace m) (mLabels m) (mAnnotations m) (mDeletionTimestamp m)
         (mCreationTimestamp m) (mFinalizers m) [o] (mGeneration m).

Definition web_dep : Deployment := MkDeployment (meta "web" "shop") (Some 3%Z) (Some any_selector) ∅.
Definition web_pod (node : string) : Pod :=
  MkPod (owned (meta "web-1" "shop") (ref_to "ReplicaSet" "web-rs")) node [].
Definition web_cluster : Cluster :=
  MkCluster [web_pod "n1"] [] [MkReplicaSet (owned (meta "web-rs" "shop") (ref_to "Deployment" "web"))]
            [web_dep] [] ∅ ∅ ∅ [] 0%Z.

Lemma OwnerDeployment_chain_witness :
  OwnerDeployment (Some (web_pod "n1")) web_cluster = Ok (Some web_dep)
  ∧ ∃ rsName rs depName,
      controls "ReplicaSet" (mOwnerReferences (podMeta (web_pod "n1"))) rsName
      ∧ getReplicaSet (NN "shop" rsName) web_cluster = Ok rs
      ∧ controls "Deployment" (mOwnerReferences (rsMeta rs)) depName
      ∧ getDeployment (NN "shop" depName) web_cluster = Ok web_dep.
Proof.
  assert (H : OwnerDeployment (Some (web_pod "n1")) web_cluster = Ok (Some web_dep)) by reflexivity.
  split; [exact H|]. exact (OwnerDeployment_chain (web_pod "n1") web_dep web_cluster H).
Defined.
