(* ===== verification/Bindings.v ===== *)
(** * pkg/backends/bindings.go: which capacity targets a workload asks for

    The scale-backend annotation is parsed into bindings, which the policy's
    catalog resolves into the integer paths to patch. *)
From S2P Require Import Prelude GoStrings GoTime Meta Api Kube Fake.

Record Binding := MkBinding { bKey : string; bNamespace : string; bName : string }.

Record ResolvedStep := MkStep {
  stepKey : string;
  stepTarget : Target;
  stepAnnotations : list string;
  stepSkipDownscaling : bool
}.

Definition splitBinding (tok defaultNS defaultName : string) : result (string * string * string) :=
  let '(key, rest, hasEq) := Cut tok "="%char in
  let key := TrimSpace key in
  if str_eqb key "" then Err (ErrorString ("empty scale-backend key in " +:+ Quote tok))
  else if negb hasEq || str_eqb (TrimSpace rest) "" then Ok (key, defaultNS, defaultName)
  else let rest := TrimSpace rest in
  if ContainsChar rest "/"%char then
    match Split "/"%char rest with
    | [ns; name] =>
        if str_eqb ns "" || str_eqb name ""
        then Err (ErrorString ("invalid scale-backend target " +:+ Quote tok +:+ " (want name or ns/name)"))
        else Ok (key, ns, name)
    | _ => Err (ErrorString ("invalid scale-backend target " +:+ Quote tok +:+ " (want name or ns/name)"))
    end
  else Ok (key, defaultNS, rest).

(** The loop of [ParseBindings]; [seen] are the keys met so far, [out] the
    bindings collected. *)
Fixpoint parse_tokens (toks : list string) (defaultNS defaultName : string)
  (seen : gset string) (out : list Binding) : result (list Binding) :=
  match toks with
  | [] => Ok out
  | p :: rest =>
      let p := TrimSpace p in
      if str_eqb p "" then parse_tokens rest defaultNS defaultName seen out
      else match splitBinding p defaultNS defaultName with
           | Err e => Err e
           | Ok (key, ns, name) =>
               if decide (key ∈ seen) then parse_tokens rest defaultNS defaultName seen out
               else parse_tokens rest defaultNS defaultName ({[key]} ∪ seen) (out ++ [MkBinding key ns name])
           end
  end.

Definition ParseBindings (raw defaultNS defaultName : string) : result (list Binding) :=
  match parse_tokens (Split ","%char raw) defaultNS defaultName ∅ [] with
  | Err e => Err e
  | Ok [] => Err (ErrorString "empty scale-backend list")
  | Ok out => Ok out
  end.

Definition BindingsForWorkload (dep : option Deployment) (policy : option EvictionGuardPolicy)
  : result (list Binding) :=
  match dep, policy with
  | Some dep, Some _ =>
      let raw := mget (mAnnotations (dMeta dep)) ScaleBackendAnnotation in
      if str_eqb (TrimSpace raw) "" then
        Err (ErrorString (ScaleBackendAnnotation +:+
          " is required (list policy.spec.backends keys; first patched key is SpareReady primary)"))
      else ParseBindings raw (mNamespace (dMeta dep)) (mName (dMeta dep))
  | _, _ => Err (ErrorString "deployment and policy required")
  end.

(** The loop of [splitPatches], with its accumulators. *)
Fixpoint split_patches (patches : list BackendPatch) (seenPath : gset string)
  (paths anns : list string) : result (list string * list string) :=
  match patches with
  | [] => Ok (paths, anns)
  | p :: rest =>
      if str_eqb (bpPath p) "" && str_eqb (bpAnnotation p) ""
      then Err (ErrorString "patch must set path or annotation")
      else if negb (str_eqb (bpPath p) "") && bool_decide (bpPath p ∈ seenPath)
      then Err (ErrorString ("duplicate path " +:+ Quote (bpPath p)))
      else
        let '(seenPath, paths) :=
          if negb (str_eqb (bpPath p) "") then ({[bpPath p]} ∪ seenPath, paths ++ [bpPath p])
          else (seenPath, paths) in
        let anns := if negb (str_eqb (bpAnnotation p) "") then anns ++ [bpAnnotation p] else anns in
        split_patches rest seenPath paths anns
  end.

Definition splitPatches (patches : list BackendPatch) : result (list string * list string) :=
  split_patches patches ∅ [] [].

(** One step per path, the entry's annotations on the first. *)
Definition steps_of (b : Binding) (entry : BackendCatalogEntry) (paths anns : list string)
  : list ResolvedStep :=
  imap (λ i path,
    MkStep (bKey b)
      (MkTarget (NN (bNamespace b) (bName b)) (ceAPIVersion entry) (ceKind entry) path
                (ceDefaultWhenUnset entry))
      (if decide (i = 0%nat) then anns else [])
      (ceSkipDownscaling entry)) paths.

Fixpoint resolve_bindings (backends : gmap string BackendCatalogEntry) (bindings : list Binding)
  (out : list ResolvedStep) : result (list ResolvedStep) :=
  match bindings with
  | [] => Ok out
  | b :: rest =>
      match backends !! bKey b with
      | None => Err (ErrorString ("unknown scale-backend key " +:+ Quote (bKey b)
                                  +:+ " (not in policy.spec.backends)"))
      | Some entry =>
          match splitPatches (cePatches entry) with
          | Err e => Err (WrapError ("backends[" +:+ bKey b +:+ "]: ") e "")
          | Ok (paths, anns) =>
              match paths with
              | [] => resolve_bindings backends rest out
              | _ => resolve_bindings backends rest (out ++ steps_of b entry paths anns)
              end
          end
      end
  end.

(** [dep] is not used by the code. *)
Definition ResolveCatalog (dep : option Deployment) (policy : option EvictionGuardPolicy)
  (bindings : list Binding) : result (list ResolvedStep) :=
  match policy with
  | None => Err (ErrorString "policy.spec.backends is required")
  | Some p =>
      if decide (psBackends (polSpec p) = ∅) then Err (ErrorString "policy.spec.backends is required")
      else resolve_bindings (psBackends (polSpec p)) bindings []
  end.

(** ** Parsing: reference definition *)

(** The meaningful tokens of an annotation. *)
Definition tokens (raw : string) : list string :=
  filter (λ t, t ≠ "") (TrimSpace <$> Split ","%char raw).

Definition mk_binding (x : string * string * string) : Binding := MkBinding x.1.1 x.1.2 x.2.

(** [l] parses token by token to [bs]. *)
Definition parses (defaultNS defaultName : string) : list string → list Binding → Prop :=
  Forall2 (λ t b, ∃ x, splitBinding t defaultNS defaultName = Ok x ∧ b = mk_binding x).

Lemma parse_tokens_ok toks ns name seen out out' :
  parse_tokens toks ns name seen out = Ok out' →
  ∃ bs, parses ns name (filter (λ t, t ≠ "") (TrimSpace <$> toks)) bs
        ∧ out' = out ++ dedup_by bKey seen bs.
Proof.
  revert seen out. induction toks as [|t toks IH]; intros seen out; simpl.
  { intros [= <-]. exists []. split; [constructor | by rw app_nil_r]. }
  rw filter_cons. destruct (str_eqb (TrimSpace t) "") eqn:E.
  { apply str_eqb_true in E. rw decide_False; [apply IH | by intros []]. }
  apply str_eqb_false in E. rw decide_True; [|done].
  destruct (splitBinding _ _ _) as [[[key n] o]|] eqn:Es; [|done].
  case_decide; intros (bs & Hbs & ->)%IH; exists (MkBinding key n o :: bs);
    (split; [constructor; [by eexists | done]|]); simpl.
  - by rw decide_True.
  - rw decide_False; [|done]. by rewrite <- app_assoc.
Qed.

Lemma parse_tokens_complete toks ns name seen out bs :
  parses ns name (filter (λ t, t ≠ "") (TrimSpace <$> toks)) bs →
  parse_tokens toks ns name seen out = Ok (out ++ dedup_by bKey seen bs).
Proof.
  revert seen out bs. induction toks as [|t toks IH]; intros seen out bs; simpl.
  { intros Hnil%Forall2_nil_inv_l. subst. simpl. by rw app_nil_r. }
  rw filter_cons. destruct (str_eqb (TrimSpace t) "") eqn:E.
  { apply str_eqb_true in E. rw decide_False; [apply IH | by intros []]. }
  apply str_eqb_false in E. rw decide_True; [|done].
  intros (b & bs' & ([[key n] o] & -> & ->) & Hbs & ->)%Forall2_cons_inv_l. simpl.
  case_decide; rw (IH _ _ bs') //. by rewrite <- app_assoc.
Qed.

(** Parsing the annotation succeeds exactly when every non-blank token of it
    parses, and the result is the parsed tokens in order, keeping the first
    binding of each key; a list without tokens is refused. *)
Theorem ParseBindings_spec raw ns name bs :
  ParseBindings raw ns name = Ok bs ↔
  ∃ all, parses ns name (tokens raw) all ∧ bs = dedup_by bKey ∅ all ∧ bs ≠ [].
Proof.
  unfold ParseBindings, tokens. split.
  - destruct (parse_tokens _ _ _ _ _) as [out|] eqn:E; [|done].
    apply parse_tokens_ok in E as (all & Hall & ->). simpl.
    destruct (dedup_by bKey ∅ all) as [|b l] eqn:Ed; [done|]. intros [= <-]. by exists all.
  - intros (all & Hall & -> & Hne). rw (parse_tokens_complete _ _ _ _ _ all); [|done].
    simpl. by destruct (dedup_by bKey ∅ all).
Qed.

Lemma ParseBindings_NoDup raw ns name bs : ParseBindings raw ns name = Ok bs → NoDup (bKey <$> bs).
Proof. rw ParseBindings_spec. intros (all & _ & -> & _). apply dedup_by_NoDup. Qed.

(** Whether parsing succeeds does not depend on the defaults. *)
Lemma splitBinding_ok_indep tok ns name ns' name' :
  is_ok (splitBinding tok ns name) = is_ok (splitBinding tok ns' name').
Proof.
  unfold splitBinding. destruct (Cut tok "="%char) as [[key rest] hasEq].
  destruct (str_eqb (TrimSpace key) ""); [done|]. destruct (_ || _); [done|].
  destruct (ContainsChar _ _); [|done].
  destruct (Split _ _) as [|a [|b [|]]]; try done.
Qed.

Lemma splitBinding_key_indep tok ns name ns' name' x y :
  splitBinding tok ns name = Ok x → splitBinding tok ns' name' = Ok y → x.1.1 = y.1.1.
Proof.
  unfold splitBinding. destruct (Cut tok "="%char) as [[key rest] hasEq].
  destruct (str_eqb (TrimSpace key) ""); [done|]. destruct (_ || _); [by intros [= <-] [= <-]|].
  destruct (ContainsChar _ _); [|by intros [= <-] [= <-]].
  destruct (Split _ _) as [|a [|b [|]]]; try done. destruct (_ || _); [done|].
  by intros [= <-] [= <-].
Qed.

Lemma parses_indep ns name ns' name' toks bs :
  parses ns name toks bs → ∃ bs', parses ns' name' toks bs' ∧ length bs' = length bs.
Proof.
  induction 1 as [|t b toks bs (x & Hx & ->) _ (bs' & Hbs' & Hlen)].
  - exists []. split; [constructor | done].
  - pose proof (splitBinding_ok_indep t ns name ns' name') as Hok. rw Hx in Hok.
    destruct (splitBinding t ns' name') as [y|] eqn:Hy; [|done].
    exists (mk_binding y :: bs'). split; [|simpl; congruence].
    constructor; [by exists y | done].
Qed.

Lemma dedup_by_nil_inv {A} (key : A → string) l : dedup_by key ∅ l = [] → l = [].
Proof. destruct l as [|x l]; [done|]. simpl. case_decide; set_solver. Qed.

Lemma ParseBindings_indep raw ns name ns' name' bs :
  ParseBindings raw ns name = Ok bs → ∃ bs', ParseBindings raw ns' name' = Ok bs'.
Proof.
  rw ParseBindings_spec. intros (all & Hall & -> & Hne).
  destruct (parses_indep _ _ ns' name' _ _ Hall) as (all' & Hall' & Hlen).
  exists (dedup_by bKey ∅ all'). apply ParseBindings_spec. exists all'. split; [done|]. split; [done|].
  intros ->%dedup_by_nil_inv. apply Hne. by destruct all.
Qed.

(** ** Round trip *)

(** A name that can be written in the annotation. *)
Definition plain_char (c : ascii) : bool :=
  negb (is_space c) && negb (bool_decide (c ∈ [","%char; "="%char; "/"%char])).
Definition plain (s : string) : Prop := s ≠ "" ∧ Forall (λ c, plain_char c = true) (chars s).

(** [key=ns/name] *)
Definition render (b : Binding) : string := bKey b +:+ "=" +:+ bNamespace b +:+ "/" +:+ bName b.

Definition plain_binding (b : Binding) : Prop := plain (bKey b) ∧ plain (bNamespace b) ∧ plain (bName b).

Lemma plain_char_spec c : plain_char c = true →
  is_space c = false ∧ c ≠ ","%char ∧ c ≠ "="%char ∧ c ≠ "/"%char.
Proof.
  unfold plain_char. rw andb_true_iff !negb_true_iff bool_decide_eq_false. set_solver.
Qed.

Lemma plain_not_in s c :
  plain s → is_space c = true ∨ c ∈ [","%char; "="%char; "/"%char] → c ∉ chars s.
Proof.
  intros [_ Hall] Hc Hin. pose proof (proj1 (Forall_forall _ _) Hall c Hin) as Hp.
  unfold plain_char in Hp. zify_bool. apply bool_decide_eq_false in H0. destruct Hc; congruence.
Qed.

Lemma plain_TrimSpace s : plain s → TrimSpace s = s.
Proof.
  intros [_ Hall]. apply TrimSpace_id. intros c Hc.
  by apply plain_char_spec, (proj1 (Forall_forall _ _) Hall).
Qed.

Lemma chars_eq_app a b : of_chars (chars a ++ chars b) = a +:+ b.
Proof. by rewrite <- chars_app, of_chars_chars. Qed.

Lemma render_no_space b c : plain_binding b → c ∈ chars (render b) → is_space c = false ∧ c ≠ ","%char.
Proof.
  intros (Hk & Hn & Ho). unfold render. rw !chars_app !elem_of_app.
  assert (∀ s, plain s → c ∈ chars s → is_space c = false ∧ c ≠ ","%char) as Hp.
  { intros s [_ Hall] Hc. pose proof (proj1 (Forall_forall _ _) Hall c Hc) as H.
    apply plain_char_spec in H. tauto. }
  intros [?|[?|[?|[?|?]]]]; eauto.
  - assert (c = "="%char) as -> by (by apply list_elem_of_singleton). done.
  - assert (c = "/"%char) as -> by (by apply list_elem_of_singleton). done.
Qed.

Lemma splitBinding_render b ns name :
  plain_binding b → splitBinding (render b) ns name = Ok (bKey b, bNamespace b, bName b).
Proof.
  intros (Hk & Hn & Ho). unfold splitBinding, Cut, render. rw chars_app.
  change (chars ("=" +:+ bNamespace b +:+ "/" +:+ bName b))
    with ("="%char :: chars (bNamespace b +:+ "/" +:+ bName b)).
  rw cut_chars_app; [|by apply plain_not_in; [|right; set_solver]].
  rw !of_chars_chars (plain_TrimSpace _ Hk).
  assert (∀ s, plain s → str_eqb s "" = false) as Hne by (intros s [? _]; by apply str_eqb_false).
  rw (Hne _ Hk). simpl.
  assert (TrimSpace (bNamespace b +:+ "/" +:+ bName b) = bNamespace b +:+ "/" +:+ bName b) as ->.
  { apply TrimSpace_id. intros c. rw !chars_app !elem_of_app.
    assert (∀ s, plain s → c ∈ chars s → is_space c = false) as Hp.
    { intros s [_ Hall] Hc. by apply plain_char_spec, (proj1 (Forall_forall _ _) Hall). }
    intros [?|[?|?]]; eauto. by assert (c = "/"%char) as -> by (by apply list_elem_of_singleton). }
  assert (str_eqb (bNamespace b +:+ "/" +:+ bName b) "" = false) as ->.
  { apply str_eqb_false. destruct Hn as [Hn _]. by destruct (bNamespace b). }
  unfold ContainsChar. rw bool_decide_true; [|rw !chars_app; set_solver].
  unfold Split. rw chars_app.
  change (chars ("/" +:+ bName b)) with ("/"%char :: chars (bName b)).
  rw split_chars_app; [|by apply plain_not_in; [|right; set_solver]].
  rw split_chars_none; [|by apply plain_not_in; [|right; set_solver]]. simpl.
  by rw !of_chars_chars (Hne _ Hn) (Hne _ Ho).
Qed.

Lemma Split_Join_render bs :
  Forall plain_binding bs → bs ≠ [] → Split ","%char (Join (render <$> bs) ",") = render <$> bs.
Proof.
  intros Hall. unfold Split.
  assert (∀ b, plain_binding b → ","%char ∉ chars (render b)) as Hno.
  { intros b Hb Hin. by apply (render_no_space _ _ Hb) in Hin as [_ ?]. }
  induction Hall as [|b bs Hb Hbs IH]; [done|]. intros _. destruct bs as [|b' bs]; simpl.
  - rw split_chars_none; [|by apply Hno]. simpl. by rw of_chars_chars.
  - rw chars_app. change (chars ("," +:+ ?r)) with (","%char :: chars r).
    rw split_chars_app; [|by apply Hno]. simpl. rw of_chars_chars. f_equal. by apply IH.
Qed.

Lemma parses_render bs ns name : Forall plain_binding bs → parses ns name (render <$> bs) bs.
Proof.
  induction 1 as [|b bs Hb _ IH]; simpl; constructor; [|done].
  exists (bKey b, bNamespace b, bName b). split; [by apply splitBinding_render | by destruct b].
Qed.

Lemma tokens_render bs :
  Forall plain_binding bs → bs ≠ [] → tokens (Join (render <$> bs) ",") = render <$> bs.
Proof.
  intros Hall Hne. unfold tokens. rw Split_Join_render //. clear Hne.
  induction Hall as [|b bs Hb _ IH]; [done|]. simpl.
  rw TrimSpace_id; [|intros c Hc; by eapply render_no_space].
  rw filter_cons decide_True; [by f_equal|].
  unfold render. destruct Hb as ([Hk _] & _). by destruct (bKey b).
Qed.

(** C37: writing bindings with distinct keys in the annotation, each as
    [key=namespace/name], and parsing it gives the bindings back, whatever the
    defaults. *)
Theorem ParseBindings_render bs ns name :
  bs ≠ [] → Forall plain_binding bs → NoDup (bKey <$> bs) →
  ParseBindings (Join (render <$> bs) ",") ns name = Ok bs.
Proof.
  intros Hne Hall Hnd. apply ParseBindings_spec. exists bs. split.
  - rw tokens_render //. by apply parses_render.
  - split; [|done]. symmetry. apply dedup_by_id; [done | set_solver].
Qed.

(** ** The catalog *)

(** The paths and the annotations a list of patches names, in order. *)
Definition patch_paths (l : list BackendPatch) : list string := filter (λ s, s ≠ "") (bpPath <$> l).
Definition patch_anns (l : list BackendPatch) : list string := filter (λ s, s ≠ "") (bpAnnotation <$> l).

(** Patches the catalog accepts: each says something, no path twice. *)
Definition good_patches (l : list BackendPatch) : Prop :=
  Forall (λ p, bpPath p ≠ "" ∨ bpAnnotation p ≠ "") l ∧ NoDup (patch_paths l).

Lemma patch_paths_cons p l :
  patch_paths (p :: l) = (if str_eqb (bpPath p) "" then [] else [bpPath p]) ++ patch_paths l.
Proof.
  unfold patch_paths. rw fmap_cons filter_cons.
  destruct (str_eqb (bpPath p) "") eqn:E; [apply str_eqb_true in E | apply str_eqb_false in E];
    case_decide; solve [done | tauto].
Qed.

Lemma patch_anns_cons p l :
  patch_anns (p :: l) = (if str_eqb (bpAnnotation p) "" then [] else [bpAnnotation p]) ++ patch_anns l.
Proof.
  unfold patch_anns. rw fmap_cons filter_cons.
  destruct (str_eqb (bpAnnotation p) "") eqn:E; [apply str_eqb_true in E | apply str_eqb_false in E];
    case_decide; solve [done | tauto].
Qed.

Lemma split_patches_spec l seen paths anns r :
  split_patches l seen paths anns = Ok r ↔
  Forall (λ p, bpPath p ≠ "" ∨ bpAnnotation p ≠ "") l
  ∧ NoDup (patch_paths l) ∧ (∀ x, x ∈ patch_paths l → x ∉ seen)
  ∧ r = (paths ++ patch_paths l, anns ++ patch_anns l).
Proof.
  revert seen paths anns. induction l as [|p l IH]; intros seen paths anns; simpl.
  { rw !app_nil_r. split; [intros [= <-] | by intros (_ & _ & _ & ->)].
    split; [constructor|]. split; [constructor|]. split; [|done]. by intros x ?%not_elem_of_nil. }
  rw Forall_cons patch_paths_cons patch_anns_cons.
  destruct (str_eqb (bpPath p) "") eqn:Ep, (str_eqb (bpAnnotation p) "") eqn:Ea; simpl;
    repeat match goal with
    | H : str_eqb _ _ = true |- _ => apply str_eqb_true in H
    | H : str_eqb _ _ = false |- _ => apply str_eqb_false in H
    end.
  - split; [done|]. intros [[[?|?] _] _]; done.
  - rw IH -app_assoc. simpl. tauto.
  - case_bool_decide as Hin; [split; [done|]|].
    + intros (_ & _ & Hs & _). by destruct (Hs (bpPath p) ltac:(left)).
    + rw IH NoDup_cons -app_assoc. simpl. setoid_rewrite elem_of_cons. set_solver.
  - case_bool_decide as Hin; [split; [done|]|].
    + intros (_ & _ & Hs & _). by destruct (Hs (bpPath p) ltac:(left)).
    + rw IH NoDup_cons -!app_assoc. simpl. setoid_rewrite elem_of_cons. set_solver.
Qed.

Lemma splitPatches_spec l paths anns :
  splitPatches l = Ok (paths, anns) ↔ good_patches l ∧ paths = patch_paths l ∧ anns = patch_anns l.
Proof.
  unfold splitPatches, good_patches. rw split_patches_spec. split.
  - intros (? & ? & _ & [= -> ->]). done.
  - intros ([? ?] & -> & ->). split; [done|]. split; [done|]. split; [set_solver | done].
Qed.

(** The steps one binding contributes. *)
Definition binding_steps (backends : gmap string BackendCatalogEntry) (b : Binding) : list ResolvedStep :=
  match backends !! bKey b with
  | Some entry => steps_of b entry (patch_paths (cePatches entry)) (patch_anns (cePatches entry))
  | None => []
  end.

Definition bound (backends : gmap string BackendCatalogEntry) (b : Binding) : Prop :=
  ∃ entry, backends !! bKey b = Some entry ∧ good_patches (cePatches entry).

Lemma resolve_bindings_spec backends bs out r :
  resolve_bindings backends bs out = Ok r ↔
  Forall (bound backends) bs ∧ r = out ++ concat (binding_steps backends <$> bs).
Proof.
  revert out. induction bs as [|b bs IH]; intros out; simpl.
  { rw app_nil_r. split; [by intros [= <-] | by intros [_ ->]]. }
  rw Forall_cons. unfold bound at 1, binding_steps at 1.
  destruct (backends !! bKey b) as [e|] eqn:Eb; [|by split; [done | intros [[(? & ? & _) _] _]]].
  destruct (splitPatches (cePatches e)) as [[paths anns]|err] eqn:Es.
  - apply splitPatches_spec in Es as (Hg & -> & ->).
    assert (∀ P : Prop, (∃ e0, Some e = Some e0 ∧ good_patches (cePatches e0)) ∧ P ↔ P) as Hex.
    { intros P. split; [tauto|]. intros HP. split; [by exists e | done]. }
    destruct (patch_paths (cePatches e)) as [|x l] eqn:Ep; rw IH
      -?app_assoc; intuition eauto 6.
  - split; [done|]. intros [[(e' & [= <-] & Hg) _] _].
    assert (splitPatches (cePatches e) = Ok (patch_paths (cePatches e), patch_anns (cePatches e))) as Hok
      by (by apply splitPatches_spec). congruence.
Qed.

(** A binding list resolves exactly when the policy has a catalog, it knows
    every bound key and every bound entry's patches are well formed; the steps
    are then, binding by binding in annotation order, one per integer path of
    its entry in order (none for an external entry), each aimed at the bound
    object. *)
Theorem ResolveCatalog_spec dep p bs steps :
  ResolveCatalog dep (Some p) bs = Ok steps ↔
  psBackends (polSpec p) ≠ ∅
  ∧ Forall (bound (psBackends (polSpec p))) bs
  ∧ steps = concat (binding_steps (psBackends (polSpec p)) <$> bs).
Proof.
  unfold ResolveCatalog. case_decide; [split; [done | tauto]|]. rw resolve_bindings_spec. tauto.
Qed.

(** Every step patches a path its entry names, on the bound object. *)
Lemma elem_of_binding_steps backends b s :
  s ∈ binding_steps backends b ↔
  ∃ entry i, backends !! bKey b = Some entry
    ∧ patch_paths (cePatches entry) !! i = Some (tgFieldPath (stepTarget s))
    ∧ s = MkStep (bKey b)
            (MkTarget (NN (bNamespace b) (bName b)) (ceAPIVersion entry) (ceKind entry)
                      (tgFieldPath (stepTarget s)) (ceDefaultWhenUnset entry))
            (if decide (i = 0%nat) then patch_anns (cePatches entry) else [])
            (ceSkipDownscaling entry).
Proof.
  unfold binding_steps, steps_of. destruct (backends !! bKey b) as [e|] eqn:E.
  - rw elem_of_lookup_imap. split.
    + intros (i & path & -> & Hp). by exists e, i.
    + intros (e' & i & [= <-] & Hp & Heq). eauto.
  - split; [by intros ?%not_elem_of_nil | by intros (? & ? & ? & _)].
Qed.

(** ** Witnesses *)

Definition bind_web : Binding := MkBinding "deployment" "shop" "web".
Definition bind_hpa : Binding := MkBinding "hpa" "shop" "web-hpa".

Definition hpa_entry : BackendCatalogEntry :=
  MkCatalogEntry "autoscaling/v2" "HorizontalPodAutoscaler"
    [MkBackendPatch "spec.minReplicas" ""; MkBackendPatch "" "note"; MkBackendPatch "spec.maxReplicas" ""]
    false None.

Definition web_policy : EvictionGuardPolicy :=
  simple_policy "p" [("deployment", MkCatalogEntry "apps/v1" "Deployment" [MkBackendPatch "spec.replicas" ""] false None);
                     ("hpa", hpa_entry)] None.

Lemma plain_example s : bool_decide (s ≠ "") && forallb plain_char (chars s) = true → plain s.
Proof.
  intros [H1%bool_decide_eq_true H2]%andb_prop. split; [done|].
  apply Forall_forall. by apply forallb_elem.
Qed.

Lemma ParseBindings_render_witness :
  ParseBindings "deployment=shop/web,hpa=shop/web-hpa" "other" "x" = Ok [bind_web; bind_hpa].
Proof.
  apply (ParseBindings_render [bind_web; bind_hpa] "other" "x").
  - discriminate.
  - repeat constructor; apply plain_example; vm_compute; reflexivity.
  - apply (bool_decide_unpack _). vm_compute. exact I.
Defined.

Example ParseBindings_defaults :
  ParseBindings " deployment , hpa=web-hpa, deployment=other/x" "shop" "web" = Ok [bind_web; bind_hpa].
Proof. vm_compute. reflexivity. Qed.

Example ParseBindings_bad : is_ok (ParseBindings "hpa=a/b/c" "shop" "web") = false.
Proof. vm_compute. reflexivity. Qed.

Example ResolveCatalog_example :
  match ResolveCatalog None (Some web_policy) [bind_hpa; bind_web] with
  | Ok l => map (λ s, tgFieldPath (stepTarget s)) l
  | Err _ => []
  end = ["spec.minReplicas"; "spec.maxReplicas"; "spec.replicas"].
Proof. vm_compute. reflexivity. Qed.
