(* ===== verification/Fields.v ===== *)
(** * pkg/backends: the integer field patcher and the stamp patcher

    crd.go ([fieldBackend]), backend.go (its package-level entry points) and
    stamp.go.  [json.Marshal] of the patches built here cannot fail (they hold
    integers and strings), and [obj.GroupVersionKind()] of an object just read is
    the one it was read with; both error exits are left out. *)
From S2P Require Import Prelude GoStrings GoTime Meta Api Kube Fake.

#[local] Open Scope Z_scope.

Section fields.
Context {Obj W : Type} `{L : KubeLib} `{C : Client Obj W}.

Definition knownDefaultOne (apiVersion kind : string) : bool :=
  if str_eqb kind "Deployment" then str_eqb apiVersion "apps/v1"
  else if str_eqb kind "HorizontalPodAutoscaler"
       then str_eqb apiVersion "autoscaling/v1" || str_eqb apiVersion "autoscaling/v2"
       else false.

Definition defaultWhenPathUnset (t : Target) : result Z :=
  match tgDefaultWhenUnset t with
  | Some d => Ok d
  | None =>
      if knownDefaultOne (tgAPIVersion t) (tgKind t) then Ok 1
      else Err (ErrorString (tgKind t +:+ " " +:+ NN_String (tgKey t) +:+ " path " +:+ Quote (tgFieldPath t)
             +:+ " unset: set backends[].defaultWhenUnset (known Deployment/HPA default to 1)"))
  end.

Definition int64ToInt32 (v : Z) (t : Target) : result Z :=
  if (v <? min_i32) || (v >? max_i32)
  then Err (ErrorString (tgKind t +:+ " " +:+ NN_String (tgKey t) +:+ " path " +:+ Quote (tgFieldPath t)
              +:+ " value " +:+ FormatInt v +:+ " out of int32 range"))
  else Ok (i32 v).

Definition parseAPIVersionKind (apiVersion kind : string) : result GroupVersionKind :=
  if str_eqb apiVersion "" || str_eqb kind ""
  then Err (ErrorString "scale target requires apiVersion and kind")
  else match ParseGroupVersion apiVersion with
       | Err e => Err e
       | Ok gv => Ok (GVK gv kind)
       end.

Definition splitFieldPath (p : string) : list string :=
  let p := if str_eqb p "" then "spec.replicas" else p in
  Split "."%char (TrimPrefixDot p).

Fixpoint setNested (obj : jobj) (value : json) (path : list string) : result jobj :=
  match path with
  | [] => Err (ErrorString "empty field path")
  | k :: rest =>
      match rest with
      | [] => Ok (<[k := value]> obj)
      | _ =>
          let next := match obj !! k with Some (JObj m) => m | _ => ∅ end in
          match setNested next value rest with
          | Err e => Err e
          | Ok next => Ok (<[k := JObj next]> obj)
          end
      end
  end.

(** [get]: the object, its group/version/kind and the split path. *)
Definition get (t : Target) : M W (GroupVersionKind * Obj * list string) :=
  gvk ← lift (parseAPIVersionKind (tgAPIVersion t) (tgKind t));
  obj ← mapErr (λ e, WrapError ("get " +:+ GVK_String gvk +:+ " " +:+ NN_String (tgKey t) +:+ ": ") e "")
          (reads (getUnstructured gvk (tgKey t)));
  mret (gvk, obj, splitFieldPath (tgFieldPath t)).

Definition Current (t : Target) : M W Z :=
  x ← get t;
  let '(gvk, obj, path) := x in
  v ← lift (NestedInt64 obj path);
  match v with
  | None => lift (defaultWhenPathUnset t)
  | Some v => lift (int64ToInt32 v t)
  end.

(** [cur, ok, _ := NestedInt64(...)]: the error is dropped with the value. *)
Definition nested (obj : Obj) (path : list string) : option Z :=
  match NestedInt64 obj path with Ok v => v | Err _ => None end.

(** [ok && int32(cur) == desired] *)
Definition already (obj : Obj) (path : list string) (desired : Z) : bool :=
  match nested obj path with Some cur => i32 cur =? desired | None => false end.

Definition send_patch (gvk : GroupVersionKind) (k : NamespacedName) (p : jobj) (verb : string) : M W unit :=
  mapErr (λ e, WrapError (verb +:+ " " +:+ GVK_String gvk +:+ " " +:+ NN_String k +:+ ": ") e "")
    (PatchObject gvk k p).

Definition patch (t : Target) (desired : Z) : M W unit :=
  x ← get t;
  let '(gvk, obj, path) := x in
  if already obj path desired then mret ()
  else p ← lift (setNested ∅ (JInt desired) path);
       send_patch gvk (tgKey t) p "patch".

Definition ScaleUp (t : Target) (desired : Z) : M W unit := patch t desired.
Definition ScaleDown (t : Target) (baseline : Z) : M W unit := patch t baseline.

(** The loop of [PatchIntegers]: whether a patch is needed, and the patch. *)
Fixpoint collect_values (obj : Obj) (paths : list string) (values : gmap string Z)
  (need : bool) (p : jobj) : result (bool * jobj) :=
  match paths with
  | [] => Ok (need, p)
  | path :: rest =>
      match values !! path with
      | None => collect_values obj rest values need p
      | Some desired =>
          let parts := splitFieldPath path in
          if already obj parts desired then collect_values obj rest values need p
          else match setNested p (JInt desired) parts with
               | Err e => Err e
               | Ok p => collect_values obj rest values true p
               end
      end
  end.

Definition PatchIntegers (base : Target) (paths : list string) (values : gmap string Z) : M W unit :=
  match paths with
  | [] => mret ()
  | _ =>
      x ← get base;
      let '(gvk, obj, _) := x in
      np ← lift (collect_values obj paths values false ∅);
      if negb np.1 then mret () else send_patch gvk (tgKey base) np.2 "patch"
  end.

(** ** stamp.go *)

(** Built key by key from a Go map; the result does not depend on the order. *)
Definition annotationPatch (obj : Obj) (want : strmap) : jobj :=
  let existing := objAnnotations obj in
  map_imap (λ k v,
    if str_eqb v "" then match existing !! k with Some _ => Some JNull | None => None end
    else if negb (str_eqb (mget existing k) v) then Some (JStr v) else None) want.

Definition PatchAnnotations (t : Target) (anns : strmap) : M W unit :=
  if decide (anns = ∅) then mret () else
  gvk ← lift (parseAPIVersionKind (tgAPIVersion t) (tgKind t));
  obj ← mapErr (λ e, WrapError ("get " +:+ GVK_String gvk +:+ " " +:+ NN_String (tgKey t) +:+ ": ") e "")
          (reads (getUnstructured gvk (tgKey t)));
  let patchAnns := annotationPatch obj anns in
  if decide (patchAnns = ∅) then mret ()
  else send_patch gvk (tgKey t) {[ "metadata" := JObj {[ "annotations" := JObj patchAnns ]} ]} "stamp".

Definition StampDeletes (keys : list string) : strmap :=
  foldl (λ out k, <[k := ""]> out) ∅ keys.
End fields.

(** ** Paths of a patch *)

(** Neither path leads into the other. *)
Definition independent (p q : list string) : Prop := ¬ p `prefix_of` q ∧ ¬ q `prefix_of` p.

#[export] Instance independent_dec p q : Decision (independent p q).
Proof. unfold independent. apply _. Defined.

Lemma independent_sym p q : independent p q → independent q p.
Proof. unfold independent. tauto. Qed.

Lemma independent_cons k p q : independent (k :: p) (k :: q) → independent p q.
Proof. intros [H1 H2]. split; intros ?; [apply H1 | apply H2]; by apply prefix_cons. Qed.

Lemma split_chars_nonnil sep l : split_chars sep l ≠ [].
Proof. destruct l as [|c l]; simpl; [done|]. case_decide; [done|]. by destruct (split_chars sep l). Qed.

Lemma splitFieldPath_nonnil p : splitFieldPath p ≠ [].
Proof.
  unfold splitFieldPath, Split. pose proof (split_chars_nonnil "."%char) as H.
  intros Hn%fmap_nil_inv. by apply H in Hn.
Qed.

Lemma touches_cons m k k2 rest :
  touches m (k :: k2 :: rest) =
  match m !! k with Some (JObj m') => touches m' (k2 :: rest) | None => Untouched | _ => CutOff end.
Proof. simpl. by destruct (m !! k) as [[]|]. Qed.

Lemma setNested_cons m v k k2 rest :
  setNested m v (k :: k2 :: rest) =
  match setNested match m !! k with Some (JObj m') => m' | _ => ∅ end v (k2 :: rest) with
  | Err e => Err e
  | Ok next => Ok (<[k := JObj next]> m)
  end.
Proof. done. Qed.

Lemma setNested_ok m v path : path ≠ [] → ∃ m', setNested m v path = Ok m'.
Proof.
  revert m. induction path as [|k [|k2 rest] IH]; intros m Hne; [done|by eexists|].
  rw setNested_cons. destruct (IH match m !! k with Some (JObj m') => m' | _ => ∅ end) as [n Hn]; [done|].
  rw Hn. by eexists.
Qed.

Lemma touches_set_same m z path m' :
  setNested m (JInt z) path = Ok m' → touches m' path = Leaf (JInt z).
Proof.
  revert m m'. induction path as [|k [|k2 rest] IH]; intros m m'; [done| |].
  - intros [= <-]. simpl. by rw lookup_insert_eq.
  - rw setNested_cons. destruct (setNested _ _ _) as [n|] eqn:En; [|done]. intros [= <-].
    rw touches_cons lookup_insert_eq. by eapply IH.
Qed.

Lemma touches_empty k rest : touches ∅ (k :: rest) = Untouched.
Proof. simpl. by rw lookup_empty. Qed.

(** Setting a path does not change what the patch says of an independent one. *)
Lemma touches_set_other m v p q m' :
  setNested m v p = Ok m' → independent p q → touches m q ≠ CutOff → touches m' q = touches m q.
Proof.
  revert m q m'. induction p as [|k p IH]; intros m q m' Hset Hind Hcut.
  { by destruct Hind as [[] _]; exists q. }
  destruct q as [|k' q]; [by destruct Hind as [_ []]; eexists|].
  destruct (decide (k = k')) as [<-|Hk].
  - apply independent_cons in Hind as Hind'. destruct p as [|k2 p]; [by destruct Hind' as [[] _]; exists q|].
    destruct q as [|k3 q]; [by destruct Hind' as [_ []]; eexists|].
    rw setNested_cons in Hset. rw touches_cons in Hcut. rw !touches_cons.
    destruct (setNested _ _ _) as [n|] eqn:En; [|done]. simplify_eq. rw lookup_insert_eq.
    destruct (m !! k) as [[]|] eqn:Em; try done.
    + by eapply IH.
    + rw (IH _ _ _ En Hind'); [by rw touches_empty | by rw touches_empty].
  - assert (m' !! k' = m !! k') as Heq.
    { destruct p as [|k2 p]; [|rw setNested_cons in Hset; destruct (setNested _ _ _); [|done]];
        simplify_eq/=; by rw lookup_insert_ne. }
    simpl. by rw Heq.
Qed.

(** ** What the operations read *)

Section laws.
Context {Obj W : Type} `{L : KubeLib} `{C : Client Obj W}.

Definition target_gvk (t : Target) : result GroupVersionKind :=
  parseAPIVersionKind (tgAPIVersion t) (tgKind t).

(** The object a target names, in a cluster state. *)
Definition located (w : W) (t : Target) (gvk : GroupVersionKind) (o : Obj) : Prop :=
  target_gvk t = Ok gvk ∧ getUnstructured gvk (tgKey t) w = Ok o.

(** The field of [t] reads as [v], as an [int32]. *)
Definition holds (w : W) (t : Target) (v : Z) : Prop :=
  ∃ gvk o cur, located w t gvk o
    ∧ NestedInt64 o (splitFieldPath (tgFieldPath t)) = Ok (Some cur) ∧ i32 cur = v.

Lemma get_ok_inv t w x w' es :
  get t w = (Ok x, w', es) →
  ∃ gvk o, x = (gvk, o, splitFieldPath (tgFieldPath t)) ∧ located w t gvk o ∧ w' = w ∧ es = [].
Proof.
  unfold get, located, target_gvk. intros H. run_inv. eauto 10.
Qed.

Lemma get_total t w : ∃ r, get t w = (r, w, []).
Proof.
  unfold get. destruct (parseAPIVersionKind _ _) as [gvk|e] eqn:E1; [|by eexists].
  destruct (getUnstructured gvk (tgKey t) w) as [o|e] eqn:E2; eexists;
    unfold mbind, M_bind, lift, mapErr, reads; by rw E2.
Qed.

Lemma already_true o path v :
  already o path v = true ↔ ∃ cur, NestedInt64 o path = Ok (Some cur) ∧ i32 cur = v.
Proof.
  unfold already, nested. destruct (NestedInt64 o path) as [[cur|]|e]; [rw Z.eqb_eq| |]; naive_solver.
Qed.

Lemma send_patch_ok_inv gvk k p verb w w' es :
  send_patch gvk k p verb w = (Ok (), w', es) →
  patchUnstructured gvk k p w = (Ok (), w') ∧ es = [PatchObjectE gvk k p true].
Proof.
  unfold send_patch, PatchObject, write. intros H%mapErr_ok_inv.
  destruct (patchUnstructured gvk k p w) as [[[]|e] w1]; by simplify_eq/=.
Qed.

Lemma send_patch_err_inv gvk k p verb w e w' es :
  send_patch gvk k p verb w = (Err e, w', es) →
  ∃ e', patchUnstructured gvk k p w = (Err e', w') ∧ es = [PatchObjectE gvk k p false].
Proof.
  unfold send_patch, PatchObject, write. intros (e' & H & _)%mapErr_err_inv.
  destruct (patchUnstructured gvk k p w) as [[[]|e1] w1]; simplify_eq/=. eauto.
Qed.

(** Reading a capacity never yields a number outside [int32] (the catalog's
    own default being one), changes nothing and writes nothing. *)
Theorem Current_range t w :
  (∀ d, tgDefaultWhenUnset t = Some d → in_i32 d) →
  final (Current t) w = w ∧ effects (Current t) w = []
  ∧ ∀ z, res (Current t) w = Ok z → in_i32 z.
Proof.
  intros Hd. unfold final, effects, res, Current.
  destruct (get_total t w) as [r Hr]. unfold mbind, M_bind. rw Hr.
  destruct r as [[[gvk o] path]|e]; [|done]. simpl. unfold lift.
  destruct (NestedInt64 o path) as [[v|]|e]; simpl; (split; [done|]; split; [done|]); [| |done].
  - intros z. unfold int64ToInt32. destruct (_ || _); [done|]. intros [= <-]. apply i32_range.
  - intros z. unfold defaultWhenPathUnset. destruct (tgDefaultWhenUnset t) as [d|]; [|case_match; [|done]].
    + intros [= <-]. by apply Hd.
    + intros [= <-]. unfold in_i32, min_i32, max_i32. lia.
Qed.

Context {FL : FieldLaws C}.

Lemma patch_int_holds t gvk w w' p path v :
  target_gvk t = Ok gvk → patchUnstructured gvk (tgKey t) p w = (Ok (), w') →
  path = tgFieldPath t → touches p (splitFieldPath path) = Leaf (JInt v) → in_i32 v → holds w' t v.
Proof.
  intros Hg Hp -> Ht Hv. destruct (patch_ok_found _ _ _ _ _ Hp) as [o' Ho'].
  exists gvk, o', v. split; [by split|]. split; [by eapply patch_ok_int | by apply i32_id].
Qed.

(** After a scale-up or a scale-back that succeeds, the field reads as the
    value asked for (as the [int32] the code compares). *)
Theorem patch_sets t desired w w' es :
  patch t desired w = (Ok (), w', es) → in_i32 desired → holds w' t desired.
Proof.
  unfold patch. intros H Hd. apply bind_ok_inv in H as (x & w1 & es1 & es2 & Hget & H & _).
  apply get_ok_inv in Hget as (gvk & o & -> & [Hg Ho] & -> & ->).
  destruct (already o _ desired) eqn:Ea.
  - run_inv. apply already_true in Ea as (cur & Hc & Hi). exists gvk, o, cur. by split; [split|].
  - apply bind_ok_inv in H as (p & w1 & es3 & es4 & Hs & H & _). run_inv.
    apply send_patch_ok_inv in H as [H _]. eapply patch_int_holds; [done..| |done].
    by eapply touches_set_same.
Qed.

Lemma collect_values_need (o : Obj) paths values p need' p' :
  collect_values o paths values true p = Ok (need', p') → need' = true.
Proof.
  revert p. induction paths as [|x paths IH]; intros p; simpl; [by intros [= <- _]|].
  destruct (values !! x) as [v|]; [|apply IH]. destruct (already _ _ _); [apply IH|].
  destruct (setNested _ _ _); [apply IH | done].
Qed.

(** What the loop of [PatchIntegers] puts in the patch: a changed path its
    value, every other path nothing. *)
Lemma collect_values_spec (o : Obj) (values : gmap string Z) paths need p need' p' :
  NoDup paths →
  (∀ x y, x ∈ paths → y ∈ paths → x ≠ y → independent (splitFieldPath x) (splitFieldPath y)) →
  (∀ x, x ∈ paths → touches p (splitFieldPath x) = Untouched) →
  collect_values o paths values need p = Ok (need', p') →
  (∀ q, (∀ x, x ∈ paths → independent (splitFieldPath x) q) → touches p q ≠ CutOff →
        touches p' q = touches p q)
  ∧ (∀ x, x ∈ paths → touches p' (splitFieldPath x) =
       match values !! x with
       | Some v => if already o (splitFieldPath x) v then Untouched else Leaf (JInt v)
       | None => Untouched
       end)
  ∧ (need' = false → ∀ x v, x ∈ paths → values !! x = Some v → already o (splitFieldPath x) v = true).
Proof.
  revert need p. induction paths as [|x paths IH]; intros need p Hnd Hind Hun; simpl.
  { intros [= -> ->]. split; [done|]. split; [intros y|intros _ y v]; by intros ?%not_elem_of_nil. }
  apply NoDup_cons in Hnd as [Hx Hnd].
  assert (∀ y z, y ∈ paths → z ∈ paths → y ≠ z → independent (splitFieldPath y) (splitFieldPath z)) as Hind'
    by (intros y z ??; apply Hind; by right).
  assert (∀ y, y ∈ paths → independent (splitFieldPath x) (splitFieldPath y)) as Hxy.
  { intros y Hy. apply Hind; [left | by right | congruence]. }
  assert (∀ pn nn, (∀ y, y ∈ paths → touches pn (splitFieldPath y) = Untouched) →
    (∀ q, (∀ y, y ∈ x :: paths → independent (splitFieldPath y) q) → touches p q ≠ CutOff →
          touches pn q = touches p q) →
    touches pn (splitFieldPath x) = match values !! x with
       | Some v => if already o (splitFieldPath x) v then Untouched else Leaf (JInt v)
       | None => Untouched end →
    (nn = true ∨ ∀ v, values !! x = Some v → already o (splitFieldPath x) v = true) →
    collect_values o paths values nn pn = Ok (need', p') →
    (∀ q, (∀ y, y ∈ x :: paths → independent (splitFieldPath y) q) → touches p q ≠ CutOff →
        touches p' q = touches p q)
    ∧ (∀ y, y ∈ x :: paths → touches p' (splitFieldPath y) =
       match values !! y with
       | Some v => if already o (splitFieldPath y) v then Untouched else Leaf (JInt v)
       | None => Untouched
       end)
    ∧ (need' = false → ∀ y v, y ∈ x :: paths → values !! y = Some v → already o (splitFieldPath y) v = true))
    as Hstep.
  { intros pn nn Hpn Hq Hpx Hnn Hc. pose proof (IH _ _ Hnd Hind' Hpn Hc) as (IH1 & IH2 & IH3).
    split; [|split].
    - intros q Hqi Hqc. rewrite <- (Hq q Hqi Hqc). apply IH1; [|by rw Hq].
      intros y Hy. apply Hqi. by right.
    - intros y [->|Hy]%elem_of_cons; [|by apply IH2]. rewrite <- Hpx. apply IH1.
      + intros z Hz. by apply independent_sym, Hxy.
      + rw Hpx. by repeat case_match.
    - intros Hn y v [->|Hy]%elem_of_cons Hv; [|by eapply IH3].
      destruct Hnn as [->|Hnn]; [|by apply Hnn]. apply collect_values_need in Hc. congruence. }
  destruct (values !! x) as [v|] eqn:Ev; [destruct (already o (splitFieldPath x) v) eqn:Ea|].
  - apply Hstep; [intros y Hy; apply Hun; by right | done | apply Hun; left | right; naive_solver].
  - destruct (setNested p (JInt v) (splitFieldPath x)) as [pn|] eqn:Es; [|done].
    apply Hstep.
    + intros y Hy. rw (touches_set_other _ _ _ _ _ Es); [apply Hun; by right | by apply Hxy|].
      rw Hun; [done | by right].
    + intros q Hq Hc. apply (touches_set_other _ _ _ _ _ Es); [apply Hq; left | done].
    + by eapply touches_set_same.
    + by left.
  - apply Hstep; [intros y Hy; apply Hun; by right | done | apply Hun; left | right; naive_solver].
Qed.

Definition at_path (t : Target) (path : string) : Target :=
  MkTarget (tgKey t) (tgAPIVersion t) (tgKind t) path (tgDefaultWhenUnset t).

Lemma PatchIntegers_inv base paths values w w' es :
  PatchIntegers base paths values w = (Ok (), w', es) → paths ≠ [] →
  ∃ gvk o need p, located w base gvk o
    ∧ collect_values o paths values false ∅ = Ok (need, p)
    ∧ ((need = false ∧ w' = w ∧ es = [])
       ∨ (need = true ∧ patchUnstructured gvk (tgKey base) p w = (Ok (), w')
          ∧ es = [PatchObjectE gvk (tgKey base) p true])).
Proof.
  unfold PatchIntegers. intros H Hne. destruct paths as [|x0 paths]; [done|]. cbv beta iota in H.
  apply bind_ok_inv in H as (x & w1 & es1 & es2 & Hget & H & ->).
  apply get_ok_inv in Hget as (gvk & o & -> & Hl & -> & ->). cbv beta iota zeta in H.
  apply bind_ok_inv in H as ([need p] & w1 & es3 & es4 & Hc & H & ->).
  apply lift_inv in Hc as (Hc & -> & ->). simpl in H.
  exists gvk, o, need, p. split; [done|]. split; [done|]. destruct need; simpl in H.
  - right. by apply send_patch_ok_inv in H as [? ->].
  - left. by apply ret_inv in H as (_ & -> & ->).
Qed.

(** Patching several integer fields of one object, with no path inside
    another: on success every listed path reads as its value, and a path the
    map leaves out keeps whatever it held. *)
Theorem PatchIntegers_sets base paths values w w' es :
  PatchIntegers base paths values w = (Ok (), w', es) →
  NoDup paths → (∀ x v, values !! x = Some v → in_i32 v) →
  (∀ x y, x ∈ paths → y ∈ paths → x ≠ y → independent (splitFieldPath x) (splitFieldPath y)) →
  ∀ x, x ∈ paths →
    match values !! x with
    | Some v => holds w' (at_path base x) v
    | None => ∃ gvk o o', located w base gvk o ∧ located w' base gvk o'
                ∧ NestedInt64 o' (splitFieldPath x) = NestedInt64 o (splitFieldPath x)
    end.
Proof.
  intros H Hnd Hr Hind x Hx. assert (paths ≠ []) as Hne by (by intros ->; apply not_elem_of_nil in Hx).
  apply PatchIntegers_inv in H as (gvk & o & need & p & [Hg Ho] & Hc & Hcase); [|done].
  apply collect_values_spec in Hc as (_ & Ht & Hneed); [|done..|].
  2:{ intros y _. pose proof (splitFieldPath_nonnil y). destruct (splitFieldPath y); [done|].
      apply touches_empty. }
  specialize (Ht x Hx).
  destruct Hcase as [(-> & -> & _) | (-> & Hp & _)].
  - destruct (values !! x) as [v|] eqn:Ev; [|exists gvk, o, o; by split; [|split]].
    apply (Hneed eq_refl) in Ev; [|done]. apply already_true in Ev as (cur & ? & ?).
    exists gvk, o, cur. by split; [split|].
  - destruct (patch_ok_found _ _ _ _ _ Hp) as [o' Ho'].
    assert (touches p (splitFieldPath x) = Untouched →
            NestedInt64 o' (splitFieldPath x) = NestedInt64 o (splitFieldPath x)) as Hframe
      by (intros Hu; by eapply patch_ok_frame).
    destruct (values !! x) as [v|] eqn:Ev.
    + destruct (already o (splitFieldPath x) v) eqn:Ea.
      * apply already_true in Ea as (cur & Hcur & ?). exists gvk, o', cur.
        split; [by split|]. split; [|done]. simpl. by rw (Hframe Ht).
      * eapply patch_int_holds; [done..|]. by eapply Hr.
    + exists gvk, o, o'. split; [by split|]. split; [by split|]. by apply Hframe.
Qed.

(** Several paths of one object are written in at most one request, and a
    call that fails leaves every object as it was: there is no partial
    update. *)
Theorem PatchIntegers_atomic base paths values w r w' es :
  PatchIntegers base paths values w = (r, w', es) →
  (length es ≤ 1)%nat
  ∧ (∀ e, r = Err e → ∀ g k, getUnstructured g k w' = getUnstructured g k w).
Proof.
  unfold PatchIntegers. destruct paths as [|x0 paths].
  { intros (-> & -> & ->)%ret_inv. split; [simpl; lia | done]. }
  intros H. cbv beta iota in H. destruct (get_total base w) as [rg Hg].
  apply bind_inv in H as [(e & He & ->) | (x & w1 & es1 & es2 & He & H & ->)];
    rw Hg in He; simplify_eq; [split; [simpl; lia | done]|].
  destruct x as [[gvk o] path].
  apply bind_inv in H as [(e & He & ->) | ([need p] & w2 & es1 & es3 & He & H & ->)];
    apply lift_inv in He as (? & -> & ->); [split; [simpl; lia | done]|]. simpl in H.
  destruct need; simpl in H; [|apply ret_inv in H as (-> & -> & ->); split; [simpl; lia | done]].
  destruct r as [[]|e].
  - apply send_patch_ok_inv in H as [_ ->]. split; [simpl; lia | done].
  - apply send_patch_err_inv in H as (e' & Hp & ->). split; [simpl; lia|].
    intros _ _ g k. by eapply patch_err.
Qed.

(** ** Stamps *)

Lemma annotationPatch_lookup (o : Obj) want k :
  annotationPatch o want !! k =
  match want !! k with
  | None => None
  | Some v => if str_eqb v "" then match objAnnotations o !! k with Some _ => Some JNull | None => None end
              else if negb (str_eqb (mget (objAnnotations o) k) v) then Some (JStr v) else None
  end.
Proof. unfold annotationPatch. rw map_lookup_imap. by destruct (want !! k). Qed.

(** What an annotation should be: absent for an empty value. *)
Definition stamped (anns : strmap) (old : strmap) (k : string) : option string :=
  match anns !! k with
  | Some v => if str_eqb v "" then None else Some v
  | None => old !! k
  end.

Lemma annotationPatch_unchanged (o : Obj) want k :
  annotationPatch o want !! k = None → objAnnotations o !! k = stamped want (objAnnotations o) k.
Proof.
  rw annotationPatch_lookup. unfold stamped, mget. destruct (want !! k) as [v|]; [|done].
  destruct (str_eqb v "") eqn:Ev; [by destruct (objAnnotations o !! k)|].
  apply str_eqb_false in Ev.
  destruct (objAnnotations o !! k) as [v'|]; simpl; (destruct (str_eqb _ v) eqn:E; simpl; [|done]);
    apply str_eqb_true in E; congruence.
Qed.

(** Stamping an object succeeds only with every requested annotation set
    (an empty value removes the key) and every other annotation kept. *)
Theorem PatchAnnotations_sets t anns w w' es :
  PatchAnnotations t anns w = (Ok (), w', es) → anns ≠ ∅ →
  ∃ gvk o o', located w t gvk o ∧ located w' t gvk o'
    ∧ ∀ k, objAnnotations o' !! k = stamped anns (objAnnotations o) k.
Proof.
  unfold PatchAnnotations. intros H Hne. rewrite decide_False in H; [|done].
  apply bind_ok_inv in H as (gvk & w1 & es1 & es2 & Hg & H & _). apply lift_inv in Hg as (Hg & -> & ->).
  apply bind_ok_inv in H as (o & w1 & es3 & es4 & Ho & H & _).
  apply mapErr_ok_inv, reads_inv in Ho as (Ho & -> & ->). cbv zeta in H.
  case_decide as Hp.
  - apply ret_inv in H as (_ & -> & _). exists gvk, o, o. split; [by split|]. split; [by split|].
    intros k. apply annotationPatch_unchanged. by rw Hp lookup_empty.
  - apply send_patch_ok_inv in H as [H _]. destruct (patch_ok_found _ _ _ _ _ H) as [o' Ho'].
    exists gvk, o, o'. split; [by split|]. split; [by split|]. intros k.
    set (m := annotationPatch o anns) in *.
    assert (touches {[ "metadata" := JObj {[ "annotations" := JObj m ]} ]} ["metadata"; "annotations"] = Inner m)
      as Ht by (simpl; by rw lookup_singleton_eq /= lookup_singleton_eq).
    destruct (m !! k) as [j|] eqn:Em.
    + rw (patch_ok_ann _ _ _ _ _ _ _ _ _ _ H (eq_sym Ho) Ho' Ht Em).
      subst m. rw annotationPatch_lookup in Em. unfold stamped.
      destruct (anns !! k) as [v|]; [|done]. destruct (str_eqb v "").
      * destruct (objAnnotations o !! k); by simplify_eq.
      * destruct (negb _); by simplify_eq.
    + rw (patch_ok_ann_frame _ _ _ _ _ _ _ _ _ H (eq_sym Ho) Ho' Ht Em).
      by apply annotationPatch_unchanged.
Qed.

(** The map built to remove stamps asks for exactly the given keys. *)
Lemma StampDeletes_lookup keys k :
  StampDeletes keys !! k = if decide (k ∈ keys) then Some "" else None.
Proof.
  unfold StampDeletes.
  assert (∀ m : strmap, foldl (λ out k, <[k := ""]> out) m keys !! k
                        = if decide (k ∈ keys) then Some "" else m !! k) as H.
  { induction keys as [|x l IH]; intros m; simpl.
    - done.
    - rw IH lookup_insert. clear IH. repeat case_decide; set_solver. }
  by rw H lookup_empty.
Qed.
End laws.

(** ** Witnesses and examples *)

Definition web_key : NamespacedName := NN "shop" "web".
Definition hpa_key : NamespacedName := NN "shop" "web-hpa".
Definition web_target : Target := MkTarget web_key "apps/v1" "Deployment" "spec.replicas" None.
Definition hpa_target : Target :=
  MkTarget hpa_key "autoscaling/v2" "HorizontalPodAutoscaler" "spec.minReplicas" None.
Definition deployment_gvk : GroupVersionKind := GVK (GV "apps" "v1") "Deployment".
Definition hpa_gvk : GroupVersionKind := GVK (GV "autoscaling" "v2") "HorizontalPodAutoscaler".

Definition objects (replicas minReplicas maxReplicas : Z) : Cluster :=
  set_objects
    (<[obj_key deployment_gvk web_key := MkObj (ints_of [(["spec"; "replicas"], replicas)]) {[ "team" := "shop" ]}]>
     (<[obj_key hpa_gvk hpa_key :=
          MkObj (ints_of [(["spec"; "minReplicas"], minReplicas); (["spec"; "maxReplicas"], maxReplicas)]) ∅]> ∅))
    empty_cluster.

Lemma Current_range_witness :
  res (Current web_target) (objects 3 2 10) = Ok 3 ∧ in_i32 3.
Proof.
  split; [vm_compute; reflexivity|].
  apply (Current_range web_target (objects 3 2 10)).
  - intros d H. discriminate.
  - vm_compute. reflexivity.
Defined.

Lemma patch_sets_witness :
  ∃ w' es, ScaleUp web_target 5 (objects 3 2 10) = (Ok (), w', es) ∧ holds w' web_target 5.
Proof.
  eexists _, _. split; [reflexivity|].
  eapply (patch_sets web_target 5 (objects 3 2 10)).
  - reflexivity.
  - vm_compute. split; discriminate.
Defined.

Definition hpa_values : gmap string Z := <["spec.minReplicas" := 4]> (<["spec.maxReplicas" := 12]> ∅).

Lemma PatchIntegers_sets_witness :
  ∃ w' es, PatchIntegers hpa_target ["spec.minReplicas"; "spec.maxReplicas"] hpa_values (objects 3 2 10)
           = (Ok (), w', es) ∧ holds w' (at_path hpa_target "spec.minReplicas") 4.
Proof.
  eexists _, _. split; [reflexivity|].
  refine (PatchIntegers_sets hpa_target ["spec.minReplicas"; "spec.maxReplicas"] hpa_values (objects 3 2 10)
            _ _ _ _ _ _ "spec.minReplicas" _).
  - reflexivity.
  - apply (bool_decide_unpack _). vm_compute. exact I.
  - intros x v. unfold hpa_values. rewrite !lookup_insert_Some lookup_empty.
    intros [[_ <-]|[_ [[_ <-]|[_ [=]]]]]; unfold in_i32, min_i32, max_i32; lia.
  - intros x y. rewrite !elem_of_cons.
    intros [->|[->|[]%not_elem_of_nil]] [->|[->|[]%not_elem_of_nil]] Hne; try done;
      apply (bool_decide_unpack _); vm_compute; exact I.
  - left.
Defined.

Lemma PatchIntegers_atomic_witness :
  ∃ r w' es, PatchIntegers hpa_target ["spec.minReplicas"; "spec.maxReplicas"] hpa_values (objects 3 2 10)
             = (r, w', es) ∧ (length es ≤ 1)%nat.
Proof.
  eexists _, _, _. split; [reflexivity|].
  eapply (PatchIntegers_atomic hpa_target ["spec.minReplicas"; "spec.maxReplicas"] hpa_values (objects 3 2 10)).
  reflexivity.
Defined.

Lemma PatchAnnotations_sets_witness :
  ∃ w' es, PatchAnnotations web_target (<["a" := "1"]> (<["team" := ""]> ∅)) (objects 3 2 10) = (Ok (), w', es)
    ∧ ∃ gvk o o', located (objects 3 2 10) web_target gvk o ∧ located w' web_target gvk o'
      ∧ ∀ k, objAnnotations o' !! k = stamped (<["a" := "1"]> (<["team" := ""]> ∅)) (objAnnotations o) k.
Proof.
  eexists _, _. split; [reflexivity|].
  eapply (PatchAnnotations_sets web_target (<["a" := "1"]> (<["team" := ""]> ∅)) (objects 3 2 10)).
  - reflexivity.
  - intros H. apply (f_equal (lookup "a")) in H. vm_compute in H. discriminate.
Defined.

(** [ScaleUp] is a plain write: asked for less than the field holds, it lowers
    the field. *)
Lemma ScaleUp_lowers :
  ∃ w' es, ScaleUp web_target 2 (objects 3 2 10) = (Ok (), w', es)
           ∧ res (Current web_target) (objects 3 2 10) = Ok 3 ∧ res (Current web_target) w' = Ok 2.
Proof. eexists _, _. split; [reflexivity|]. split; vm_compute; reflexivity. Qed.

(** The comparison truncates the stored 64-bit value: a field holding
    [desired + 2^32] is taken for [desired] and left alone. *)
Lemma patch_truncated_compare :
  ∃ w', ScaleDown web_target 3 (objects (3 + 4294967296) 2 10) = (Ok (), w', [])
        ∧ is_ok (res (Current web_target) w') = false.
Proof. eexists. split; [reflexivity|]. vm_compute. reflexivity. Qed.
