(* ===== verification/Validate.v ===== *)
(** * pkg/validate: what the admission webhooks accept

    [WorkloadAnnotations] and [ScaleBackendRequired] for Deployments, [Policy]
    for policies.  [Policy] ranges over the catalog, a Go map: the iteration
    order is an argument, any permutation of the map's entries.  [result unit]
    stands for a Go [error], [Ok ()] being nil. *)
From S2P Require Import Prelude GoStrings Regexp GoTime Glob Meta Api Kube Filters Bindings Fields Fake.

#[local] Open Scope Z_scope.

Definition errorf (msg : string) : result unit := Err (ErrorString msg).
Definition fails (b : bool) (e : error) : result unit := if b then Err e else Ok ().

(** ** Workloads *)

Definition ScaleBackendRequired (ann : strmap) : result unit :=
  fails (str_eqb (TrimSpace (mget ann ScaleBackendAnnotation)) "")
    (ErrorString (ScaleBackendAnnotation +:+
       " is required (list policy.spec.backends keys; first key is SpareReady primary)")).

Definition check_scale_backend (namespace : string) (ann : strmap) : result unit :=
  let raw := mget ann ScaleBackendAnnotation in
  if negb (str_eqb raw "") then
    match ParseBindings raw namespace "workload" with
    | Err e => Err (WrapError (ScaleBackendAnnotation +:+ ": ") e "")
    | Ok _ => Ok ()
    end
  else Ok ().

Definition check_scale_back_after (ann : strmap) : result unit :=
  let raw := mget ann ScaleBackAfterAnnotation in
  if negb (str_eqb raw "") then
    match ParseDuration raw with
    | inl msg => Err (WrapError (ScaleBackAfterAnnotation +:+ ": ") (ErrorString msg)
                        " (want a Go duration such as 1m or 1h)")
    | inr d => fails (d <=? 0) (ErrorString (ScaleBackAfterAnnotation +:+ " must be greater than 0"))
    end
  else Ok ().

Definition check_stamp (ann : strmap) : result unit :=
  let raw := mget ann StampAnnotation in
  fails (negb (str_eqb raw "") && negb (str_eqb raw "true") && negb (str_eqb raw "false"))
    (ErrorString (StampAnnotation +:+ " must be " +:+ dquote +:+ "true" +:+ dquote +:+ " or "
                  +:+ dquote +:+ "false" +:+ dquote)).

(** [len(s) > 63 || !dns1123Label.MatchString(s)] *)
Definition bad_label (s : string) : bool :=
  bool_decide (63 < String.length s)%nat || negb (re_match dns1123Label (chars s)).

Definition check_pin (ann : strmap) : result unit :=
  let raw := TrimSpace (mget ann PolicyPinAnnotation) in
  fails (negb (str_eqb raw "") && bad_label raw)
    (ErrorString (PolicyPinAnnotation +:+ " must be a DNS-1123 label (policy name)")).

Definition WorkloadAnnotations (namespace : string) (ann : strmap) : result unit :=
  _ ← check_scale_backend namespace ann;
  _ ← check_scale_back_after ann;
  _ ← check_stamp ann;
  check_pin ann.

(** ** Policies *)

Definition validateFieldPath (path : string) : result unit :=
  let path := TrimSpace path in
  if str_eqb path "" then errorf "empty"
  else if HasPrefix path "." || HasSuffix path "." || Contains path ".."
       then errorf (Quote path +:+ " has empty segments")
  else fails (negb (forallb (λ seg, re_match fieldPathSeg (chars seg)) (Split "."%char path)))
         (ErrorString (Quote path +:+ " is not a simple dotted path")).

(** The loop over an entry's patches, from index [i]. *)
Fixpoint check_patches (key : string) (i : Z) (patches : list BackendPatch) (seenPath : gset string)
  : result unit :=
  match patches with
  | [] => Ok ()
  | patch :: rest =>
      if str_eqb (bpPath patch) "" && str_eqb (bpAnnotation patch) ""
      then errorf ("spec.backends[" +:+ key +:+ "].patches[" +:+ FormatInt i +:+ "]: set path or annotation")
      else if negb (str_eqb (bpPath patch) "") then
        match validateFieldPath (bpPath patch) with
        | Err e => Err (WrapError ("spec.backends[" +:+ key +:+ "].patches[" +:+ FormatInt i +:+ "].path: ") e "")
        | Ok _ =>
            if decide (bpPath patch ∈ seenPath)
            then errorf ("spec.backends[" +:+ key +:+ "]: duplicate path " +:+ Quote (bpPath patch))
            else check_patches key (i + 1) rest ({[bpPath patch]} ∪ seenPath)
        end
      else check_patches key (i + 1) rest seenPath
  end.

Definition check_entry (kv : string * BackendCatalogEntry) : result unit :=
  let '(key, entry) := kv in
  if str_eqb (TrimSpace key) "" then errorf "spec.backends: empty key"
  else if bad_label key then errorf ("spec.backends[" +:+ key +:+ "]: key must be a DNS-1123 label")
  else if str_eqb (ceAPIVersion entry) "" || str_eqb (ceKind entry) ""
       then errorf ("spec.backends[" +:+ key +:+ "]: apiVersion and kind are required")
  else check_patches key 0 (cePatches entry) ∅.

Fixpoint check_entries (order : list (string * BackendCatalogEntry)) : result unit :=
  match order with
  | [] => Ok ()
  | kv :: rest => _ ← check_entry kv; check_entries rest
  end.

Section policy.
Context `{L : KubeLib}.

Definition validateLabelSelector (field : string) (sel : option LabelSelector) : result unit :=
  match sel with
  | None => Ok ()
  | Some _ => match LabelSelectorAsSelector sel with
              | Err e => Err (WrapError (field +:+ ": ") e "")
              | Ok _ => Ok ()
              end
  end.

Definition Policy (order : list (string * BackendCatalogEntry)) (p : option EvictionGuardPolicy)
  : result unit :=
  match p with
  | None => Ok ()
  | Some p =>
      let spec := polSpec p in
      _ ← validateLabelSelector "spec.nodeFilter.labelSelector" (nfLabelSelector (psNodeFilter spec));
      _ ← validateLabelSelector "spec.nodeFilter.excludeLabelSelector" (nfExcludeLabelSelector (psNodeFilter spec));
      _ ← validateLabelSelector "spec.workloadSelector" (psWorkloadSelector spec);
      _ ← validateLabelSelector "spec.namespaceSelector" (psNamespaceSelector spec);
      _ ← fails (negb (str_eqb (nfNamePattern (psNodeFilter spec)) "")
                 && bool_decide (Match (nfNamePattern (psNodeFilter spec)) "" = None))
            (WrapError "spec.nodeFilter.namePattern: " ErrBadPattern "");
      _ ← fails match psScaleBackAfter spec with Some d => d <? 0 | None => false end
            (ErrorString "spec.scaleBackAfter must not be negative");
      _ ← fails match psMaxWindow spec with Some d => d <? 0 | None => false end
            (ErrorString "spec.maxWindow must not be negative (0 means unlimited)");
      _ ← fails (bool_decide (psBackends spec = ∅)) (ErrorString "spec.backends is required");
      check_entries order
  end.
End policy.

(** ** Lemmas *)

Lemma result_bind_ok {A} (m : result unit) (f : unit → result A) x :
  (m ≫= f) = Ok x ↔ m = Ok () ∧ f () = Ok x.
Proof. destruct m as [[]|e]; simpl; naive_solver. Qed.

Lemma fails_ok b e : fails b e = Ok () ↔ b = false.
Proof. unfold fails. destruct b; naive_solver. Qed.

Lemma check_entries_ok order : check_entries order = Ok () ↔ ∀ kv, kv ∈ order → check_entry kv = Ok ().
Proof.
  induction order as [|kv order IH]; simpl.
  - split; [by intros _ kv ?%not_elem_of_nil | done].
  - rw result_bind_ok IH. split.
    + intros [H1 H2] kv' [->|?]%elem_of_cons; eauto.
    + intros H. split; [apply H; left | intros kv' ?; apply H; by right].
Qed.

Lemma check_patches_ok key i l seen :
  check_patches key i l seen = Ok () ↔
  Forall (λ p, bpPath p ≠ "" ∨ bpAnnotation p ≠ "") l ∧ NoDup (patch_paths l)
  ∧ (∀ x, x ∈ patch_paths l → x ∉ seen ∧ validateFieldPath x = Ok ()).
Proof.
  revert i seen. induction l as [|p l IH]; intros i seen; simpl.
  { split; [|done]. intros _. split; [constructor|]. split; [constructor|]. by intros x ?%not_elem_of_nil. }
  rw Forall_cons patch_paths_cons.
  destruct (str_eqb (bpPath p) "") eqn:Ep, (str_eqb (bpAnnotation p) "") eqn:Ea; simpl;
    repeat match goal with
    | H : str_eqb _ _ = true |- _ => apply str_eqb_true in H
    | H : str_eqb _ _ = false |- _ => apply str_eqb_false in H
    end.
  1: { split; [done|]. intros [[[?|?] _] _]; done. }
  1: { rw IH. tauto. }
  all: destruct (validateFieldPath (bpPath p)) as [[]|e] eqn:Ev;
    [case_decide as Hs|].
  all: try (split; [done|]; intros (_ & _ & Hall); destruct (Hall (bpPath p) ltac:(left)) as [Hni Hv];
            first [done | by rewrite Ev in Hv]).
  all: rw IH NoDup_cons; setoid_rewrite elem_of_cons; split.
  all: intros (H1 & H2 & Hall).
  - split; [split; [by left | done]|]. split; [split; [|done]|].
    + intros Hin. apply Hall in Hin as [Hni _]. set_solver.
    + intros x [->|Hx]; [done|]. apply Hall in Hx. set_solver.
  - destruct H1 as [_ H1], H2 as [Hn H2]. split; [done|]. split; [done|].
    intros x Hx. destruct (Hall x (or_intror Hx)). set_solver.
  - split; [split; [by left | done]|]. split; [split; [|done]|].
    + intros Hin. apply Hall in Hin as [Hni _]. set_solver.
    + intros x [->|Hx]; [done|]. apply Hall in Hx. set_solver.
  - destruct H1 as [_ H1], H2 as [Hn H2]. split; [done|]. split; [done|].
    intros x Hx. destruct (Hall x (or_intror Hx)). set_solver.
Qed.

(** A catalog entry that was accepted. *)
Definition good_entry (key : string) (e : BackendCatalogEntry) : Prop :=
  bad_label key = false ∧ ceAPIVersion e ≠ "" ∧ ceKind e ≠ "" ∧ good_patches (cePatches e)
  ∧ ∀ x, x ∈ patch_paths (cePatches e) → validateFieldPath x = Ok ().

Lemma check_entry_ok key e : check_entry (key, e) = Ok () → good_entry key e.
Proof.
  unfold check_entry, good_entry, good_patches. destruct (str_eqb (TrimSpace key) ""); [done|].
  destruct (bad_label key); [done|]. destruct (_ || _) eqn:E; [done|].
  apply orb_false_iff in E as [E1%str_eqb_false E2%str_eqb_false].
  rw check_patches_ok. intros (? & ? & H). split; [done|]. split; [done|]. split; [done|].
  split; [done|]. intros x Hx. by apply H.
Qed.

Section admission.
Context `{L : KubeLib}.

Lemma validateLabelSelector_ok field sel :
  validateLabelSelector field sel = Ok () ↔ sel = None ∨ ∃ s, LabelSelectorAsSelector sel = Ok s.
Proof.
  unfold validateLabelSelector. destruct sel as [s|]; [|split; [by left | done]].
  destruct (LabelSelectorAsSelector (Some s)) as [sel|e]; split; try done.
  - intros _. right. by eexists.
  - by intros [?|[? ?]].
Qed.

(** Everything acceptance says of a policy. *)
Lemma Policy_ok order p :
  Policy order (Some p) = Ok () ↔
  (∀ sel, sel ∈ [nfLabelSelector (psNodeFilter (polSpec p)); nfExcludeLabelSelector (psNodeFilter (polSpec p));
                 psWorkloadSelector (polSpec p); psNamespaceSelector (polSpec p)] →
          sel = None ∨ ∃ s, LabelSelectorAsSelector sel = Ok s)
  ∧ (nfNamePattern (psNodeFilter (polSpec p)) = "" ∨ Match (nfNamePattern (psNodeFilter (polSpec p))) "" ≠ None)
  ∧ (∀ d, psScaleBackAfter (polSpec p) = Some d → 0 <= d)
  ∧ (∀ d, psMaxWindow (polSpec p) = Some d → 0 <= d)
  ∧ psBackends (polSpec p) ≠ ∅
  ∧ (∀ kv, kv ∈ order → check_entry kv = Ok ()).
Proof.
  unfold Policy. cbv zeta. rw !result_bind_ok !fails_ok check_entries_ok !validateLabelSelector_ok.
  rw bool_decide_eq_false andb_false_iff negb_false_iff str_eqb_true bool_decide_eq_false.
  assert (∀ o : option Duration, match o with Some d => d <? 0 | None => false end = false
          ↔ ∀ d, o = Some d → 0 <= d) as Hd.
  { intros [d|]; [|done]. rw Z.ltb_ge. naive_solver. }
  rw !Hd. split.
  - intros (H1 & H2 & H3 & H4 & H). split; [|done].
    intros sel. rw !elem_of_cons. intros [->|[->|[->|[->|[]%not_elem_of_nil]]]]; done.
  - intros (H & Hrest). do 4 (split; [apply H; set_solver|]). done.
Qed.

(** Whether a policy is accepted does not depend on the order in which the
    catalog map is iterated (the message of a rejection may). *)
Theorem Policy_order_irrelevant order1 order2 p :
  order1 ≡ₚ order2 → is_ok (Policy order1 p) = is_ok (Policy order2 p).
Proof.
  intros Hp. destruct p as [p|]; [|done].
  assert (Policy order1 (Some p) = Ok () ↔ Policy order2 (Some p) = Ok ()) as Hiff.
  { rw !Policy_ok. by setoid_rewrite Hp. }
  destruct (Policy order1 (Some p)) as [[]|e1], (Policy order2 (Some p)) as [[]|e2]; try done; simpl.
  - by discriminate (proj1 Hiff eq_refl).
  - by discriminate (proj2 Hiff eq_refl).
Qed.

(** An admitted policy cannot fail later in the reconciler for reasons
    admission checks: its node filter compiles, and any binding list over its
    catalog keys resolves to steps whose targets name an apiVersion and kind. *)
Theorem Policy_admitted order p :
  order ≡ₚ map_to_list (psBackends (polSpec p)) → Policy order (Some p) = Ok () →
  (∃ f, FromSpec (psNodeFilter (polSpec p)) = Ok f)
  ∧ ∀ dep bs, Forall (λ b, is_Some (psBackends (polSpec p) !! bKey b)) bs →
      ∃ steps, ResolveCatalog dep (Some p) bs = Ok steps
        ∧ Forall (λ s, tgAPIVersion (stepTarget s) ≠ "" ∧ tgKind (stepTarget s) ≠ ""
                       ∧ validateFieldPath (tgFieldPath (stepTarget s)) = Ok ()) steps.
Proof.
  intros Hperm (Hsel & Hpat & _ & _ & Hne & Hents)%Policy_ok.
  assert (∀ key e, psBackends (polSpec p) !! key = Some e → good_entry key e) as Hgood.
  { intros key e Hl. apply check_entry_ok, Hents. rw Hperm. by apply elem_of_map_to_list. }
  split.
  - unfold FromSpec, compile_selector.
    destruct (Hsel (nfLabelSelector (psNodeFilter (polSpec p))) ltac:(set_solver)) as [H1|[s1 H1]];
    destruct (Hsel (nfExcludeLabelSelector (psNodeFilter (polSpec p))) ltac:(set_solver)) as [H2|[s2 H2]].
    all: assert (negb (str_eqb (nfNamePattern (psNodeFilter (polSpec p))) "")
            && bool_decide (Match (nfNamePattern (psNodeFilter (polSpec p))) "" = None) = false) as Hpat'
      by (destruct Hpat as [->|Hm]; [done | rewrite (bool_decide_eq_false_2 _ Hm); apply andb_false_r]).
    all: destruct (nfLabelSelector (psNodeFilter (polSpec p))), (nfExcludeLabelSelector (psNodeFilter (polSpec p)));
      try done; rewrite ?H1 ?H2; simpl; rewrite Hpat'; by eexists.
  - intros dep bs Hbs. exists (concat (binding_steps (psBackends (polSpec p)) <$> bs)). split.
    + apply ResolveCatalog_spec. split; [done|]. split; [|done].
      eapply Forall_impl; [exact Hbs|]. intros b [e He]. exists e. split; [done|].
      by destruct (Hgood _ _ He) as (_ & _ & _ & ? & _).
    + apply Forall_forall. intros s (l & Hs & Hl)%elem_of_concat.
      apply list_elem_of_fmap in Hl as (b & -> & _).
      apply elem_of_binding_steps in Hs as (e & i & He & Hi & ->). simpl.
      destruct (Hgood _ _ He) as (_ & ? & ? & _ & Hv). split; [done|]. split; [done|].
      apply Hv. by eapply list_elem_of_lookup_2.
Qed.

(** An admitted protected Deployment has usable annotations: its
    scale-backend list parses into bindings with distinct keys for every
    policy, a scale-back-after override is a positive duration, and a pin is
    a policy name. *)
Theorem WorkloadAnnotations_admitted d :
  ScaleBackendRequired (mAnnotations (dMeta d)) = Ok () →
  WorkloadAnnotations (mNamespace (dMeta d)) (mAnnotations (dMeta d)) = Ok () →
  (∀ p, ∃ bs, BindingsForWorkload (Some d) (Some p) = Ok bs ∧ bs ≠ [] ∧ NoDup (bKey <$> bs))
  ∧ (mget (mAnnotations (dMeta d)) ScaleBackAfterAnnotation ≠ "" →
     ∃ t, ParseDuration (mget (mAnnotations (dMeta d)) ScaleBackAfterAnnotation) = inr t ∧ 0 < t)
  ∧ (TrimSpace (mget (mAnnotations (dMeta d)) PolicyPinAnnotation) = ""
     ∨ bad_label (TrimSpace (mget (mAnnotations (dMeta d)) PolicyPinAnnotation)) = false).
Proof.
  intros Hreq%fails_ok. unfold WorkloadAnnotations. rw !result_bind_ok. intros (Hb & Ha & _ & Hp).
  split; [|split].
  - intros p. unfold BindingsForWorkload. cbv zeta. rewrite Hreq. unfold check_scale_backend in Hb.
    cbv zeta in Hb. destruct (str_eqb (mget _ _) "") eqn:Er.
    { apply str_eqb_true in Er. rewrite Er in Hreq. vm_compute in Hreq. discriminate. }
    simpl in Hb. destruct (ParseBindings _ _ _) as [bs|e] eqn:E; [|done].
    destruct (ParseBindings_indep _ _ _ (mNamespace (dMeta d)) (mName (dMeta d)) _ E) as [bs' Hbs].
    exists bs'. split; [done|]. split; [|by eapply ParseBindings_NoDup].
    apply ParseBindings_spec in Hbs as (_ & _ & _ & ?). done.
  - intros Hne. unfold check_scale_back_after in Ha. cbv zeta in Ha.
    apply str_eqb_false in Hne. rewrite Hne in Ha. simpl in Ha.
    destruct (ParseDuration _) as [msg|t]; [done|]. apply fails_ok in Ha. exists t. split; [done|]. lia.
  - apply fails_ok, andb_false_iff in Hp as [Hp|Hp]; [left | by right].
    by apply negb_false_iff, str_eqb_true in Hp.
Qed.
End admission.

(** A validated path that carries no surrounding blanks is patched segment by
    segment as validated: every key the patcher descends through is a plain
    identifier. *)
Theorem validateFieldPath_segments path :
  validateFieldPath path = Ok () → TrimSpace path = path →
  Forall (λ seg, re_match fieldPathSeg (chars seg) = true) (splitFieldPath path).
Proof.
  unfold validateFieldPath, splitFieldPath. intros H Ht. rewrite Ht in H.
  destruct (str_eqb path "") eqn:E; [done|]. destruct (HasPrefix path ".") eqn:Ep; [done|]. simpl in H.
  destruct (_ || _); [done|]. apply fails_ok in H. zify_bool.
  assert (TrimPrefixDot path = path) as ->.
  { destruct path as [|c s]; [done|]. unfold TrimPrefixDot.
    destruct c as [[] [] [] [] [] [] [] []]; try done. }
  apply Forall_forall. by apply forallb_elem.
Qed.

(** ** Witnesses, and what the blanks do *)

(** Blanks around a path survive validation (which trims its own copy) and end
    up in the patched keys. *)
Lemma validateFieldPath_untrimmed :
  validateFieldPath " spec.replicas" = Ok () ∧ splitFieldPath " spec.replicas" = [" spec"; "replicas"].
Proof. split; vm_compute; reflexivity. Qed.

Lemma Policy_admitted_witness :
  ∃ f, FromSpec (psNodeFilter (polSpec web_policy)) = Ok f.
Proof.
  refine (proj1 (Policy_admitted (map_to_list (psBackends (polSpec web_policy))) web_policy _ _)).
  - reflexivity.
  - vm_compute. reflexivity.
Defined.

Lemma Policy_order_irrelevant_witness :
  is_ok (Policy (map_to_list (psBackends (polSpec web_policy))) (Some web_policy))
  = is_ok (Policy (reverse (map_to_list (psBackends (polSpec web_policy)))) (Some web_policy)).
Proof. apply Policy_order_irrelevant. symmetry. apply reverse_Permutation. Defined.

(** Two broken entries: the message names whichever the iteration meets first. *)
Definition broken_entry : BackendCatalogEntry := MkCatalogEntry "" "" [] false None.
Lemma Policy_message_order :
  Policy [("a", broken_entry); ("b", broken_entry)] (Some (simple_policy "p" [("a", broken_entry); ("b", broken_entry)] None))
  ≠ Policy [("b", broken_entry); ("a", broken_entry)] (Some (simple_policy "p" [("a", broken_entry); ("b", broken_entry)] None)).
Proof. vm_compute. discriminate. Qed.

Definition annotated_dep : Deployment :=
  MkDeployment (MkMeta "web" "shop" ∅
    (<[ScaleBackendAnnotation := "deployment,hpa=web-hpa"]> (<[ScaleBackAfterAnnotation := "90s"]> ∅))
    None 1 [] [] 1) (Some 3) (Some any_selector) ∅.

Lemma WorkloadAnnotations_admitted_witness :
  ∃ t, ParseDuration (mget (mAnnotations (dMeta annotated_dep)) ScaleBackAfterAnnotation) = inr t ∧ 0 < t.
Proof.
  refine (proj1 (proj2 (WorkloadAnnotations_admitted annotated_dep _ _)) _).
  - vm_compute. reflexivity.
  - vm_compute. reflexivity.
  - vm_compute. discriminate.
Defined.

Lemma validateFieldPath_segments_witness :
  Forall (λ seg, re_match fieldPathSeg (chars seg) = true) (splitFieldPath "spec.minReplicas").
Proof. apply validateFieldPath_segments; vm_compute; reflexivity. Defined.
