(* ===== verification/Evictgate.v ===== *)
(** * pkg/evictgate: may this pod be evicted now?

    [Evaluate] of decide.go, reading the cluster through the client.  The
    detector registry is an argument, as in Signals.v. *)
From S2P Require Import Prelude GoStrings GoTime Meta Api Kube Naming Filters Signals PolicyOwn Workload Fake.

#[local] Open Scope Z_scope.

Inductive Decision := Allow | Deny.
#[global] Instance Decision_eq_dec : EqDecision Decision.
Proof. solve_decision. Defined.

Record Result := MkResult { rDecision : Decision; rReason : string }.

Definition optedIn (pod : Pod) : bool := str_eqb (mget (mLabels (podMeta pod)) ProtectedLabel) "true".
Definition templateOptedIn (dep : Deployment) : bool :=
  str_eqb (mget (dTemplateLabels dep) ProtectedLabel) "true".

Section gate.
Context {Obj W : Type} `{L : KubeLib} `{C : Client Obj W}.
Context (registry : Registry).

Definition gateListPolicies (w : W) : result (list (option EvictionGuardPolicy)) :=
  match listPolicies w with
  | Err e => Err e
  | Ok items => Ok (map Some items)
  end.

Definition activeWindowFor (dep : Deployment) (policy : option EvictionGuardPolicy) (w : W)
  : result (option EvictionGuardWindow) :=
  match policy with
  | None => Ok None
  | Some p =>
      match getWindow (NN (mNamespace (dMeta dep))
                          (WindowName (polName p) (mNamespace (dMeta dep)) (mName (dMeta dep)))) w with
      | Err e => if IsNotFound e then Ok None else Err e
      | Ok win => if IsActive win || wtForcedCool (winStatus win) then Ok (Some win) else Ok None
      end
  end.

(** The loop of [nextAtRiskPod] over the listed pods. *)
Fixpoint min_at_risk (vuln : gset string) (pods : list Pod) (next : string) : string :=
  match pods with
  | [] => next
  | p :: rest =>
      if bool_decide (mDeletionTimestamp (podMeta p) ≠ None) then min_at_risk vuln rest next
      else if negb (str_eqb (mget (mLabels (podMeta p)) ProtectedLabel) "true") then min_at_risk vuln rest next
      else if negb (bool_decide (podNodeName p ∈ vuln)) then min_at_risk vuln rest next
      else if str_eqb next "" || string_ltb (mName (podMeta p)) next
           then min_at_risk vuln rest (mName (podMeta p))
           else min_at_risk vuln rest next
  end.

Definition nextAtRiskPod (dep : Deployment) (vulnNodes : list string) (w : W) : result string :=
  sel ← LabelSelectorAsSelector (dSelector dep);
  pods ← listPodsSelected (mNamespace (dMeta dep)) sel w;
  Ok (min_at_risk (list_to_set vulnNodes) pods "").

(** [Evaluate] from the lookup of the window on. *)
Definition evaluate_window (pod : Pod) (dep : Deployment) (win : option EvictionGuardWindow) (w : W)
  : result Result :=
  if match win with Some x => wtForcedCool (winStatus x) | None => false end
  then Ok (MkResult Allow "maxWindow force-cool")
  else if match win with Some x => bool_decide (wtPhase (winStatus x) = WindowPhaseClosed) | None => false end
  then Ok (MkResult Allow "window closed")
  else
    match win with
    | None => Ok (MkResult Deny "waiting for eviction-guard window and spare capacity")
    | Some x =>
        if negb (wtSpareReady (winStatus x))
        then Ok (MkResult Deny "waiting for eviction-guard spare capacity")
        else
          let vulnNodes := match wsVulnerableNodes (winSpec x) with
                           | [] => [podNodeName pod]
                           | l => l
                           end in
          next ← nextAtRiskPod dep vulnNodes w;
          if str_eqb next "" then Ok (MkResult Allow "no at-risk pods")
          else if negb (str_eqb (mName (podMeta pod)) next)
               then Ok (MkResult Deny ("waiting for eviction of " +:+ next +:+ " first"))
               else Ok (MkResult Allow "spare ready; next at-risk pod")
    end.

(** [Evaluate] once the Deployment and the node are known. *)
Definition evaluate_node (pod : Pod) (dep : Deployment) (node : Node) (w : W) : result Result :=
  policies ← gateListPolicies w;
  nsLabels ← NamespaceLabels (mNamespace (podMeta pod)) w;
  match ResolveOwner (Some dep) nsLabels policies with
  | None => Ok (MkResult Allow "no matching policy")
  | Some owner =>
      flt ← FromSpec (psNodeFilter (polSpec owner));
      nodeOK ← Matches flt (Some node);
      if negb (nodeOK && Vulnerable registry node (Some owner)) then Ok (MkResult Allow "no disruption")
      else
        win ← activeWindowFor dep (Some owner) w;
        evaluate_window pod dep win w
  end.

Definition Evaluate (pod : option Pod) (w : W) : result Result :=
  match pod with
  | None => Ok (MkResult Allow "")
  | Some pod =>
      if negb (optedIn pod) then Ok (MkResult Allow "not opted in")
      else if str_eqb (podNodeName pod) "" then Ok (MkResult Allow "unscheduled")
      else
        dep ← OwnerDeployment (Some pod) w;
        match dep with
        | None => Ok (MkResult Allow "workload not opted in")
        | Some dep =>
            if negb (templateOptedIn dep) then Ok (MkResult Allow "workload not opted in")
            else
              match getNode (podNodeName pod) w with
              | Err e => if IsNotFound e then Ok (MkResult Allow "node gone") else Err e
              | Ok node => evaluate_node pod dep node w
              end
        end
  end.

(** ** Specification *)

(** A pod of the Deployment that is waiting to be evicted: protected, not
    terminating, on one of [nodes]. *)
Definition waiting (nodes : list string) (p : Pod) : Prop :=
  mDeletionTimestamp (podMeta p) = None ∧ optedIn p = true ∧ podNodeName p ∈ nodes.

#[global] Instance waiting_dec nodes p : base.Decision (waiting nodes p).
Proof. unfold waiting. apply _. Defined.

Lemma min_at_risk_filter nodes pods next :
  min_at_risk (list_to_set nodes) pods next
  = foldl (λ next p, if str_eqb next "" || string_ltb (mName (podMeta p)) next then mName (podMeta p) else next)
      next (filter (waiting nodes) pods).
Proof.
  revert next. induction pods as [|p pods IH]; intros next; simpl; [done|].
  rw filter_cons. fold (optedIn p).
  assert (podNodeName p ∈ (list_to_set nodes : gset string) ↔ podNodeName p ∈ nodes) as Hn
    by apply elem_of_list_to_set.
  destruct (decide (waiting nodes p)) as [(Hd & Ho & Hi)|Hno].
  - rw bool_decide_eq_false_2; [|by intros []]. rw Ho (bool_decide_eq_true_2 _ (proj2 Hn Hi)). simpl.
    by destruct (_ || _); rw IH.
  - case_bool_decide as Hd; [apply IH|]. destruct (optedIn p) eqn:Ho; [|apply IH]. simpl.
    case_bool_decide as Hi; [|apply IH]. exfalso. apply Hno. split; [|split; [done | by apply Hn]].
    destruct (mDeletionTimestamp (podMeta p)); [by destruct Hd | done].
Qed.

Lemma min_fold (pods : list Pod) next :
  (∀ p, p ∈ pods → mName (podMeta p) ≠ "") → next ≠ "" →
  let m := foldl (λ next p, if str_eqb next "" || string_ltb (mName (podMeta p)) next
                            then mName (podMeta p) else next) next pods in
  m ≠ "" ∧ (m = next ∨ ∃ p, p ∈ pods ∧ mName (podMeta p) = m)
  ∧ String.le m next ∧ ∀ p, p ∈ pods → String.le m (mName (podMeta p)).
Proof.
  revert next. induction pods as [|p pods IH]; intros next Hne Hnext; simpl.
  { split; [done|]. split; [by left|]. split; [done|]. by intros ? ?%not_elem_of_nil. }
  assert (mName (podMeta p) ≠ "") as Hp by (apply Hne; left).
  rewrite (proj2 (str_eqb_false next "") Hnext). simpl.
  destruct (string_ltb (mName (podMeta p)) next) eqn:E.
  - apply string_ltb_true in E as [Hle _].
    destruct (IH (mName (podMeta p))) as (H1 & H2 & H3 & H4); [intros q ?; apply Hne; by right | done|].
    split; [done|]. split; [|split].
    + right. destruct H2 as [->|(q & ? & <-)]; [exists p; split; [left | done] | exists q; split; [by right | done]].
    + by etrans.
    + intros q [->|?]%elem_of_cons; eauto.
  - apply string_ltb_false in E.
    destruct (IH next) as (H1 & H2 & H3 & H4); [intros q ?; apply Hne; by right | done|].
    split; [done|]. split; [|split; [done|]].
    + destruct H2 as [->|(q & ? & <-)]; [by left | right; exists q; split; [by right | done]].
    + intros q [->|?]%elem_of_cons; [by etrans | eauto].
Qed.

(** The pods of a Deployment, as the gate lists them. *)
Definition workload_pods (dep : Deployment) (w : W) : result (list Pod) :=
  sel ← LabelSelectorAsSelector (dSelector dep);
  listPodsSelected (mNamespace (dMeta dep)) sel w.

Lemma nextAtRiskPod_spec dep nodes w pods :
  workload_pods dep w = Ok pods → (∀ p, p ∈ pods → mName (podMeta p) ≠ "") →
  ∃ next, nextAtRiskPod dep nodes w = Ok next
    ∧ (next = "" ↔ ∀ p, p ∈ pods → ¬ waiting nodes p)
    ∧ (next ≠ "" → (∃ p, p ∈ pods ∧ waiting nodes p ∧ mName (podMeta p) = next)
                   ∧ ∀ p, p ∈ pods → waiting nodes p → String.le next (mName (podMeta p))).
Proof.
  unfold workload_pods, nextAtRiskPod. destruct (LabelSelectorAsSelector (dSelector dep)) as [sel|]; [|done].
  simpl. intros -> Hne. simpl. eexists. split; [done|].
  rw min_at_risk_filter. destruct (filter (waiting nodes) pods) as [|p l] eqn:Ef.
  - simpl. split; [|done]. split; [|done]. intros _ p Hp Hw.
    assert (p ∈ filter (waiting nodes) pods) as H by (by apply list_elem_of_filter).
    rewrite Ef in H. by apply not_elem_of_nil in H.
  - assert (∀ q, q ∈ p :: l ↔ waiting nodes q ∧ q ∈ pods) as Hel by (intros q; rw -Ef; apply list_elem_of_filter).
    simpl. destruct (min_fold l (mName (podMeta p))) as (H1 & H2 & H3 & H4).
    + intros q Hq. apply Hne. by apply (Hel q); right.
    + apply Hne. by apply (Hel p); left.
    + set (m := foldl _ _ l) in *. split; [split; [done|]|].
      * intros Hno. exfalso. destruct (proj1 (Hel p) ltac:(left)) as [Hw Hp]. by apply (Hno p).
      * intros _. split.
        -- destruct H2 as [->|(q & Hq & <-)]; [exists p | exists q]; split; try done.
           ++ by apply (Hel p); left.
           ++ split; [|done]. by apply (Hel p); left.
           ++ by apply (Hel q); right.
           ++ split; [|done]. by apply (Hel q); right.
        -- intros q Hq Hw. assert (q ∈ p :: l) as [->|?]%elem_of_cons by (by apply Hel); [done|].
           by apply H4.
Qed.

(** Everything that puts an eviction behind the gate: the pod and its
    Deployment opted in, the node is known, a policy owns the Deployment, its
    filter covers the node and one of its signals fires.  [win] is the window
    the gate consults. *)
Definition gated (w : W) (pod : Pod) (dep : Deployment) (node : Node) (owner : EvictionGuardPolicy)
  (win : option EvictionGuardWindow) : Prop :=
  optedIn pod = true ∧ podNodeName pod ≠ ""
  ∧ OwnerDeployment (Some pod) w = Ok (Some dep) ∧ templateOptedIn dep = true
  ∧ getNode (podNodeName pod) w = Ok node
  ∧ (∃ policies nsLabels, listPolicies w = Ok policies
       ∧ NamespaceLabels (mNamespace (podMeta pod)) w = Ok nsLabels
       ∧ ResolveOwner (Some dep) nsLabels (map Some policies) = Some owner)
  ∧ (∃ f, FromSpec (psNodeFilter (polSpec owner)) = Ok f ∧ Matches f (Some node) = Ok true)
  ∧ Vulnerable registry node (Some owner) = true
  ∧ activeWindowFor dep (Some owner) w = Ok win.

Lemma Evaluate_at_window w pod dep node owner win :
  gated w pod dep node owner win → Evaluate (Some pod) w = evaluate_window pod dep win w.
Proof.
  intros (Hp & Hn & Ho & Ht & Hg & (ps & ns & Hl & Hns & Hr) & (f & Hf & Hm) & Hv & Hw).
  unfold Evaluate. rewrite Hp Ho. apply str_eqb_false in Hn. rewrite Hn. simpl. rewrite Ht Hg. simpl.
  unfold evaluate_node, gateListPolicies. rewrite Hl Hns. cbn [mbind result_bind]. rewrite Hr Hf. cbn [mbind result_bind].
  rewrite Hm. cbn [mbind result_bind]. rewrite Hv. cbn [mbind result_bind andb negb]. by rewrite Hw.
Qed.

Lemma bind_Ok {A B} (m : result A) (f : A → result B) b :
  (m ≫= f) = Ok b ↔ ∃ a, m = Ok a ∧ f a = Ok b.
Proof.
  destruct m as [a|e]; simpl; split; [by intros ?; exists a | by intros (? & [= <-] & ?) | done | by intros (? & ? & _)].
Qed.

Lemma Evaluate_deny_gated w pod why :
  Evaluate (Some pod) w = Ok (MkResult Deny why) → ∃ dep node owner win, gated w pod dep node owner win.
Proof.
  unfold Evaluate. destruct (optedIn pod) eqn:Hp; [|done]. simpl.
  destruct (str_eqb (podNodeName pod) "") eqn:Hn; [done|]. apply str_eqb_false in Hn.
  rw bind_Ok. intros ([dep|] & Ho & H); [|done].
  destruct (templateOptedIn dep) eqn:Ht; [|done]. simpl in H.
  destruct (getNode (podNodeName pod) w) as [node|e] eqn:Hg; [|by destruct (IsNotFound e)].
  unfold evaluate_node in H. apply bind_Ok in H as (ps & Hl & H). apply bind_Ok in H as (ns & Hns & H).
  unfold gateListPolicies in Hl. destruct (listPolicies w) as [l|] eqn:Hl'; [|done]. injection Hl as <-.
  destruct (ResolveOwner (Some dep) ns _) as [owner|] eqn:Hr; [|done].
  apply bind_Ok in H as (f & Hf & H). apply bind_Ok in H as (b & Hm & H).
  destruct b; [|done]. cbn [andb negb] in H. destruct (Vulnerable registry node (Some owner)) eqn:Hv; [|done]. cbn [andb negb] in H.
  apply bind_Ok in H as (win & Hw & _).
  exists dep, node, owner, win. unfold gated. repeat (split; [done|]). split; [by exists l, ns|].
  split; [by exists f | done].
Qed.

Lemma activeWindowFor_open dep p w x :
  activeWindowFor dep (Some p) w = Ok (Some x) →
  wtPhase (winStatus x) ≠ WindowPhaseClosed ∨ wtForcedCool (winStatus x) = true.
Proof.
  unfold activeWindowFor. destruct (getWindow _ w) as [y|e]; [|by destruct (IsNotFound e)].
  unfold IsActive. destruct (wtForcedCool (winStatus y)) eqn:Ef.
  - rewrite orb_true_r. intros [= <-]. by right.
  - rewrite orb_false_r. destruct (wtPhase (winStatus y)) eqn:Ep; try done; intros [= <-]; left; by rewrite Ep.
Qed.

(** The nodes whose pods the gate orders. *)
Definition gate_nodes (pod : Pod) (x : EvictionGuardWindow) : list string :=
  match wsVulnerableNodes (winSpec x) with [] => [podNodeName pod] | l => l end.

(** When an eviction behind the gate may proceed. *)
Definition may_evict (pods : list Pod) (pod : Pod) (win : option EvictionGuardWindow) : Prop :=
  ∃ x, win = Some x ∧
    (wtForcedCool (winStatus x) = true
     ∨ wtSpareReady (winStatus x) = true
       ∧ ((∀ p, p ∈ pods → ¬ waiting (gate_nodes pod x) p)
          ∨ (∃ p, p ∈ pods ∧ waiting (gate_nodes pod x) p ∧ mName (podMeta p) = mName (podMeta pod))
            ∧ ∀ p, p ∈ pods → waiting (gate_nodes pod x) p → String.le (mName (podMeta pod)) (mName (podMeta p)))).

(** A gated pod gets a decision, and which. *)
Lemma Evaluate_decides w pod dep node owner win pods :
  gated w pod dep node owner win →
  workload_pods dep w = Ok pods → (∀ p, p ∈ pods → mName (podMeta p) ≠ "") →
  ∃ r, Evaluate (Some pod) w = Ok r ∧ (rDecision r = Allow ↔ may_evict pods pod win).
Proof.
  intros Hg Hpods Hnames. rewrite (Evaluate_at_window _ _ _ _ _ _ Hg). unfold evaluate_window, may_evict.
  destruct win as [x|]; [|eexists; split; [done | split; [done | by intros (? & ? & _)]]].
  destruct (wtForcedCool (winStatus x)) eqn:Ef.
  { eexists. split; [done|]. split; [|done]. intros _. exists x. auto. }
  assert (wtPhase (winStatus x) ≠ WindowPhaseClosed) as Hopen.
  { destruct Hg as (_ & _ & _ & _ & _ & _ & _ & _ & Hw).
    apply activeWindowFor_open in Hw as [?|?]; congruence. }
  rewrite (bool_decide_eq_false_2 _ Hopen). destruct (wtSpareReady (winStatus x)) eqn:Es; simpl.
  2:{ eexists. split; [done|]. split; [done|]. intros (y & [= <-] & [?|[? _]]); congruence. }
  fold (gate_nodes pod x).
  destruct (nextAtRiskPod_spec dep (gate_nodes pod x) w pods Hpods Hnames) as (next & -> & H1 & H2). simpl.
  destruct (str_eqb next "") eqn:En.
  { apply str_eqb_true in En. eexists. split; [done|]. split; [|done]. intros _. exists x. split; [done|].
    right. split; [done|]. left. by apply H1. }
  apply str_eqb_false in En. destruct (H2 En) as ((q & Hq & Hwq & Hnq) & Hmin).
  destruct (str_eqb (mName (podMeta pod)) next) eqn:Ep; simpl.
  - apply str_eqb_true in Ep. eexists. split; [done|]. split; [|done]. intros _. exists x. split; [done|].
    right. split; [done|]. right. rewrite Ep. split; [by exists q | done].
  - apply str_eqb_false in Ep. eexists. split; [done|]. split; [done|].
    intros (y & [= <-] & [?|(_ & [Hno|[(p & Hp & Hwp & Hnp) Hle]])]); [congruence | by apply Hno in Hwq|].
    destruct Ep. apply (anti_symm String.le).
    + rewrite -Hnq. by apply Hle.
    + rewrite -Hnp. by apply Hmin.
Qed.

(** C19: the gate, exactly: an eviction that is behind it always gets a decision,
    and proceeds only when the window was force-cooled, or when the spare is
    Ready and the pod is the lexicographically first of the Deployment's waiting
    pods (or none is waiting). *)
Theorem Evaluate_gated w pod dep node owner win pods :
  gated w pod dep node owner win →
  workload_pods dep w = Ok pods → (∀ p, p ∈ pods → mName (podMeta p) ≠ "") →
  ∃ r, Evaluate (Some pod) w = Ok r ∧ (rDecision r = Allow ↔ may_evict pods pod win).
Proof. apply Evaluate_decides. Qed.

(** Fail open: an eviction is denied only when the pod and its Deployment
    opted in, a policy owns the Deployment and finds the node vulnerable, and no
    force-cooled window covers it. *)
Theorem Evaluate_fail_open w pod why :
  Evaluate (Some pod) w = Ok (MkResult Deny why) →
  ∃ dep node owner win, gated w pod dep node owner win
    ∧ ∀ x, win = Some x → wtForcedCool (winStatus x) = false.
Proof.
  intros H. destruct (Evaluate_deny_gated _ _ _ H) as (dep & node & owner & win & Hg).
  exists dep, node, owner, win. split; [done|]. intros x ->.
  rewrite (Evaluate_at_window _ _ _ _ _ _ Hg) in H. unfold evaluate_window in H.
  by destruct (wtForcedCool (winStatus x)).
Qed.

(** C20: one at a time: behind one window of a Deployment that was not
    force-cooled, while some of the Deployment's pods wait on the nodes that the
    window lists, the gate lets one name through at most: a pod that is let go
    has the least name of the pods that wait, and every other gated pod of the
    Deployment, by another name, is denied. *)
Theorem Evaluate_one_at_a_time w pod1 pod2 dep node1 node2 owner x pods why1 :
  gated w pod1 dep node1 owner (Some x) → gated w pod2 dep node2 owner (Some x) →
  workload_pods dep w = Ok pods → (∀ p, p ∈ pods → mName (podMeta p) ≠ "") →
  wtForcedCool (winStatus x) = false →
  (∃ p, p ∈ pods ∧ waiting (wsVulnerableNodes (winSpec x)) p) →
  Evaluate (Some pod1) w = Ok (MkResult Allow why1) →
  (∃ p, p ∈ pods ∧ waiting (wsVulnerableNodes (winSpec x)) p ∧ mName (podMeta p) = mName (podMeta pod1))
  ∧ (∀ p, p ∈ pods → waiting (wsVulnerableNodes (winSpec x)) p → String.le (mName (podMeta pod1)) (mName (podMeta p)))
  ∧ (mName (podMeta pod2) ≠ mName (podMeta pod1) → ∃ why2, Evaluate (Some pod2) w = Ok (MkResult Deny why2)).
Proof.
  intros Hg1 Hg2 Hpods Hnames Hforced (q & Hq & Hwq) H1.
  assert (∀ pod, gate_nodes pod x = wsVulnerableNodes (winSpec x)) as Hnodes.
  { intros pod. unfold gate_nodes. destruct (wsVulnerableNodes (winSpec x)); [|done].
    by destruct Hwq as (_ & _ & ?%not_elem_of_nil). }
  assert (∀ pod node why, gated w pod dep node owner (Some x) → Evaluate (Some pod) w = Ok (MkResult Allow why) →
    (∃ p, p ∈ pods ∧ waiting (wsVulnerableNodes (winSpec x)) p ∧ mName (podMeta p) = mName (podMeta pod))
    ∧ ∀ p, p ∈ pods → waiting (wsVulnerableNodes (winSpec x)) p → String.le (mName (podMeta pod)) (mName (podMeta p)))
    as Hleast.
  { intros pod node why Hg He. destruct (Evaluate_decides w pod dep node owner (Some x) pods Hg Hpods Hnames)
      as (r & Hr & Hiff). rewrite He in Hr. injection Hr as <-.
    destruct (proj1 Hiff eq_refl) as (y & [= <-] & [?|(_ & [Hno|Hl])]); [congruence| |].
    - rewrite Hnodes in Hno. by apply Hno in Hwq.
    - by rewrite Hnodes in Hl. }
  destruct (Hleast _ _ _ Hg1 H1) as [Hp1 Hl1]. split; [done|]. split; [done|]. intros Hne.
  destruct (Evaluate_decides w pod2 dep node2 owner (Some x) pods Hg2 Hpods Hnames) as ([[] why2] & H2 & _); [|by exists why2].
  destruct Hne, Hp1 as (p1 & Hp1 & Hw1 & Hn1). destruct (Hleast _ _ _ Hg2 H2) as [(p2 & Hp2 & Hw2 & Hn2) Hl2].
  apply (anti_symm String.le); rewrite -?Hn1 -?Hn2; [rewrite Hn2; auto | rewrite Hn1; auto].
Qed.

(** The gate's branch for a closed window is never the reason: the window it
    consults is active or force-cooled, so a window that closed normally counts
    as absent. *)
Theorem activeWindowFor_not_closed dep p w win :
  activeWindowFor dep (Some p) w = Ok win →
  ∀ x, win = Some x → IsActive x = true ∨ wtForcedCool (winStatus x) = true.
Proof.
  unfold activeWindowFor. destruct (getWindow _ w) as [y|e]; [|destruct (IsNotFound e); by intros [= <-]].
  destruct (IsActive y) eqn:Ea; simpl; [intros [= <-] x [= <-]; by left|].
  destruct (wtForcedCool (winStatus y)) eqn:Ef; intros [= <-] x [= <-]. by right.
Qed.
End gate.

(** ** Witnesses: a cordoned node, two protected pods, a window *)

Definition protected : list (string * string) := [(ProtectedLabel, "true")].
Definition shop_dep : Deployment :=
  MkDeployment (meta "web" "shop") (Some 2) (Some any_selector) (list_to_map protected).
Definition shop_pod (name : string) : Pod :=
  MkPod (owned (labelled name "shop" protected) (ref_to "ReplicaSet" "web-rs")) "n1" [].
Definition cordoned : Node := MkNode (meta "n1" "") true [].
Definition gate_policy : EvictionGuardPolicy := simple_policy "p" [] None.
Definition gate_window (ready forced : bool) (phase : WindowPhase) : EvictionGuardWindow :=
  MkWindow (meta (WindowName "p" "shop" "web") "shop")
    (MkWindowSpec "p" (MkWorkloadRef "apps/v1" "Deployment" "web" "shop") [] 2 3 ["n1"] None)
    (MkWindowStatus phase None ready 3 1 "" forced []).
Definition gate_cluster (x : EvictionGuardWindow) : Cluster :=
  MkCluster [shop_pod "web-b"; shop_pod "web-a"] [cordoned]
    [MkReplicaSet (owned (meta "web-rs" "shop") (ref_to "Deployment" "web"))] [shop_dep] []
    {[ "p" := gate_policy ]} {[ win_key x := x ]} ∅ [] 0.

Definition ready_window : EvictionGuardWindow := gate_window true false WindowPhaseOpen.
Definition waiting_window : EvictionGuardWindow := gate_window false false WindowPhaseOpen.

Definition match_all : specFilter := MkSpecFilter no_filter None None.

Lemma shop_gated name x :
  activeWindowFor (Obj:=FakeObj) shop_dep (Some gate_policy) (gate_cluster x) = Ok (Some x) →
  gated init_registry (gate_cluster x) (shop_pod name) shop_dep cordoned gate_policy (Some x).
Proof.
  intros Hw. unfold gated. split; [reflexivity|]. split; [discriminate|]. split; [reflexivity|].
  split; [reflexivity|]. split; [reflexivity|]. split.
  { exists [gate_policy], ∅. split; [reflexivity|]. split; [reflexivity|]. vm_compute. reflexivity. }
  split; [exists match_all; split; vm_compute; reflexivity|]. split; [vm_compute; reflexivity | exact Hw].
Qed.

Lemma shop_names x p : p ∈ clPods (gate_cluster x) → mName (podMeta p) ≠ "".
Proof. cbn. rewrite !elem_of_cons. by intros [->|[->|[]%not_elem_of_nil]]. Qed.

Lemma Evaluate_gated_witness :
  ∃ r, Evaluate init_registry (Some (shop_pod "web-a")) (gate_cluster ready_window) = Ok r
    ∧ (rDecision r = Allow
       ↔ may_evict (clPods (gate_cluster ready_window)) (shop_pod "web-a") (Some ready_window)).
Proof.
  apply (Evaluate_gated init_registry (gate_cluster ready_window) (shop_pod "web-a") shop_dep cordoned gate_policy
           (Some ready_window) (clPods (gate_cluster ready_window))).
  - apply shop_gated. vm_compute. reflexivity.
  - vm_compute. reflexivity.
  - apply shop_names.
Defined.

Example gate_first_pod :
  Evaluate init_registry (Some (shop_pod "web-a")) (gate_cluster ready_window)
  = Ok (MkResult Allow "spare ready; next at-risk pod").
Proof. vm_compute. reflexivity. Qed.
Example gate_second_pod :
  Evaluate init_registry (Some (shop_pod "web-b")) (gate_cluster ready_window)
  = Ok (MkResult Deny "waiting for eviction of web-a first").
Proof. vm_compute. reflexivity. Qed.
Example gate_forced :
  Evaluate init_registry (Some (shop_pod "web-b")) (gate_cluster (gate_window false true WindowPhaseClosed))
  = Ok (MkResult Allow "maxWindow force-cool").
Proof. vm_compute. reflexivity. Qed.

Lemma Evaluate_fail_open_witness :
  ∃ dep node owner win,
    gated init_registry (gate_cluster waiting_window) (shop_pod "web-a") dep node owner win
    ∧ ∀ x, win = Some x → wtForcedCool (winStatus x) = false.
Proof.
  apply (Evaluate_fail_open init_registry (gate_cluster waiting_window) (shop_pod "web-a")
           "waiting for eviction-guard spare capacity").
  vm_compute. reflexivity.
Defined.

(** "web-a" may go, so "web-b" has to wait. *)
Lemma Evaluate_one_at_a_time_witness :
  Evaluate init_registry (Some (shop_pod "web-a")) (gate_cluster ready_window) = Ok (MkResult Allow "spare ready; next at-risk pod")
  ∧ ∃ why, Evaluate init_registry (Some (shop_pod "web-b")) (gate_cluster ready_window) = Ok (MkResult Deny why).
Proof.
  split; [vm_compute; reflexivity|].
  apply (Evaluate_one_at_a_time init_registry (gate_cluster ready_window) (shop_pod "web-a") (shop_pod "web-b")
           shop_dep cordoned cordoned gate_policy ready_window (clPods (gate_cluster ready_window))
           "spare ready; next at-risk pod").
  - apply shop_gated. vm_compute. reflexivity.
  - apply shop_gated. vm_compute. reflexivity.
  - vm_compute. reflexivity.
  - apply shop_names.
  - reflexivity.
  - exists (shop_pod "web-a"). split; [right; left|]. split; [reflexivity|]. split; [reflexivity | left].
  - vm_compute. reflexivity.
  - discriminate.
Defined.

Lemma activeWindowFor_not_closed_witness :
  IsActive ready_window = true ∨ wtForcedCool (winStatus ready_window) = true.
Proof.
  apply (activeWindowFor_not_closed (Obj:=FakeObj) shop_dep gate_policy (gate_cluster ready_window) (Some ready_window)).
  - vm_compute. reflexivity.
  - reflexivity.
Defined.
