(* ===== verification/Webhook.v ===== *)
(** * internal/webhook: the admission handlers

    The eviction, Deployment and policy validators.  The admission decoder is a
    parameter; responses carry the outcome and its message (or the HTTP status
    of an error).  Registration on the webhook server is in Startup.v. *)
From S2P Require Import Prelude GoStrings GoTime Meta Api Kube Bindings Signals Validate Evictgate Fake.

#[local] Open Scope Z_scope.

Inductive Response :=
| Allowed (reason : string)
| Denied (reason : string)
| Errored (code : Z) (e : error).

Definition StatusBadRequest : Z := 400.
Definition StatusInternalServerError : Z := 500.

(** The fields of [admission.Request] the handlers read; [reqRaw] is
    [req.Object.Raw]. *)
Record Request := MkRequest { reqNamespace : string; reqName : string; reqRaw : string }.

(** [policyv1.Eviction]: its object key. *)
Record Eviction := MkEviction { evName : string; evNamespace : string }.

Definition admitted (r : Response) : bool := match r with Allowed _ => true | _ => false end.

(** ** webhook.go *)

Definition templateProtected (dep : option Deployment) : bool :=
  match dep with
  | None => false
  | Some d => str_eqb (mget (dTemplateLabels d) ProtectedLabel) "true"
  end.

Definition hasEvictionGuardAnnotations (ann : strmap) : bool :=
  existsb (λ kv, HasPrefix kv.1 "eviction-guard.io/") (map_to_list ann).

Section webhook.
Context {Obj W : Type} `{L : KubeLib} `{C : Client Obj W}.
Context (registry : Registry).
Context (DecodeEviction : Request → result Eviction).
Context (DecodeDeployment : Request → result Deployment).
Context (DecodePolicy : Request → result EvictionGuardPolicy).

Definition deployment_Handle (req : Request) : Response :=
  match DecodeDeployment req with
  | Err e => Errored StatusBadRequest e
  | Ok dep =>
      let ann := mAnnotations (dMeta dep) in
      let checked :=
        if templateProtected (Some dep) then ScaleBackendRequired ann else Ok () in
      match checked with
      | Err e => Denied (Error_string e)
      | Ok _ =>
          if negb (hasEvictionGuardAnnotations ann) && negb (templateProtected (Some dep)) then Allowed ""
          else match WorkloadAnnotations (mNamespace (dMeta dep)) ann with
               | Err e => Denied (Error_string e)
               | Ok _ => Allowed ""
               end
      end
  end.

(** [order] is the iteration order of the policy's catalog (see Validate.v). *)
Definition policy_Handle (order : list (string * BackendCatalogEntry)) (req : Request) : Response :=
  match DecodePolicy req with
  | Err e => Errored StatusBadRequest e
  | Ok p =>
      match Policy order (Some p) with
      | Err e => Denied (Error_string e)
      | Ok _ => Allowed ""
      end
  end.

(** ** eviction.go *)

(** The pod an eviction request is about. *)
Definition eviction_key (req : Request) : result NamespacedName :=
  ev ← match DecodeEviction req with
       | Err e => if negb (str_eqb (reqRaw req) "") || str_eqb (reqName req) "" || str_eqb (reqNamespace req) ""
                  then Err e else Ok (MkEviction (reqName req) (reqNamespace req))
       | Ok ev => Ok ev
       end;
  let ns := if str_eqb (evNamespace ev) "" then reqNamespace req else evNamespace ev in
  let name := if str_eqb (evName ev) "" then reqName req else evName ev in
  Ok (NN ns name).

Definition eviction_Handle (req : Request) : M W Response :=
  match eviction_key req with
  | Err e => mret (Errored StatusBadRequest e)
  | Ok key =>
      pod ← try (reads (getPod key));
      match pod with
      | Err e => if IsNotFound e then mret (Allowed "pod not found")
                 else mret (Errored StatusInternalServerError e)
      | Ok pod =>
          res ← try (reads (Evaluate registry (Some pod)));
          match res with
          | Err e => mret (Errored StatusInternalServerError e)
          | Ok res =>
              if decide (rDecision res = Deny)
              then _ ← tell (CounterInc EvictionDecisions ["deny"]); mret (Denied (rReason res))
              else _ ← tell (CounterInc EvictionDecisions ["allow"]); mret (Allowed (rReason res))
          end
      end
  end.

(** ** Lemmas *)

Lemma hasEvictionGuardAnnotations_false ann :
  hasEvictionGuardAnnotations ann = false →
  mget ann ScaleBackendAnnotation = "" ∧ mget ann ScaleBackAfterAnnotation = "" ∧ mget ann PolicyPinAnnotation = "".
Proof.
  unfold hasEvictionGuardAnnotations. rw existsb_elem_false. intros H.
  assert (∀ k, HasPrefix k "eviction-guard.io/" = true → mget ann k = "") as Hk.
  { intros k Hp. unfold mget. destruct (ann !! k) as [v|] eqn:E; [|done].
    apply elem_of_map_to_list in E. specialize (H _ E). simpl in H. congruence. }
  split; [|split]; apply Hk; vm_compute; reflexivity.
Qed.

(** The eviction handler, as a function of the cluster. *)
Lemma eviction_Handle_run req w :
  eviction_Handle req w =
  match eviction_key req with
  | Err e => (Ok (Errored StatusBadRequest e), w, [])
  | Ok key =>
      match getPod key w with
      | Err e => (Ok (if IsNotFound e then Allowed "pod not found" else Errored StatusInternalServerError e), w, [])
      | Ok pod =>
          match Evaluate registry (Some pod) w with
          | Err e => (Ok (Errored StatusInternalServerError e), w, [])
          | Ok res =>
              if decide (rDecision res = Deny)
              then (Ok (Denied (rReason res)), w, [CounterInc EvictionDecisions ["deny"]])
              else (Ok (Allowed (rReason res)), w, [CounterInc EvictionDecisions ["allow"]])
          end
      end
  end.
Proof.
  unfold eviction_Handle. destruct (eviction_key req) as [key|e]; [|done].
  unfold mbind, M_bind, try, reads, mret, M_ret, tell. cbv beta iota.
  destruct (getPod key w) as [pod|e]; [|by destruct (IsNotFound e)].
  cbv beta iota. destruct (Evaluate registry (Some pod) w) as [r|e]; [|done]. cbv beta iota. by case_decide.
Qed.

(** C31: the webhook never fails open on trouble: an eviction is admitted only
    when its pod is gone or the gate said Allow; an undecodable request, an API
    failure or a gate error is an error response.  It writes nothing but its
    decision counter. *)
Theorem eviction_admitted req w :
  ∃ resp, eviction_Handle req w = (Ok resp, w, (eviction_Handle req w).2)
    ∧ (admitted resp = true →
        ∃ key, eviction_key req = Ok key
          ∧ ((∃ e, getPod key w = Err e ∧ IsNotFound e = true)
             ∨ ∃ pod r, getPod key w = Ok pod ∧ Evaluate registry (Some pod) w = Ok r ∧ rDecision r = Allow
                        ∧ effects (eviction_Handle req) w = [CounterInc EvictionDecisions ["allow"]])).
Proof.
  unfold effects. rw eviction_Handle_run. destruct (eviction_key req) as [key|e]; [|by eexists; split].
  destruct (getPod key w) as [pod|e] eqn:Ep.
  - destruct (Evaluate registry (Some pod) w) as [r|e] eqn:Ev; [|by eexists; split]. case_decide as Hd; [by eexists|].
    eexists. split; [done|]. intros _. exists key. split; [done|]. right. exists pod, r.
    split; [done|]. split; [done|]. split; [by destruct (rDecision r)|done].
  - eexists. split; [done|]. destruct (IsNotFound e) eqn:E; [|done]. intros _. exists key. split; [done|].
    left. by exists e.
Qed.

(** A Deployment the webhook admits with an opted-in template can be bound:
    its scale-backend annotation parses for every policy. *)
Theorem deployment_admitted_binds req d :
  DecodeDeployment req = Ok d → admitted (deployment_Handle req) = true → templateProtected (Some d) = true →
  ∀ p, ∃ bs, BindingsForWorkload (Some d) (Some p) = Ok bs ∧ bs ≠ [] ∧ NoDup (bKey <$> bs).
Proof.
  unfold deployment_Handle. intros -> H Hp. rewrite Hp in H. cbv zeta in H.
  destruct (ScaleBackendRequired (mAnnotations (dMeta d))) as [[]|e] eqn:Er; [|done].
  rewrite andb_false_r in H.
  destruct (WorkloadAnnotations _ _) as [[]|e] eqn:Ew; [|done].
  by apply (WorkloadAnnotations_admitted d Er Ew).
Qed.
End webhook.

(** ** Witnesses *)

Definition protected_dep : Deployment :=
  MkDeployment (dMeta annotated_dep) (Some 3) (Some any_selector) (list_to_map protected).
Definition any_request : Request := MkRequest "shop" "web-a" "".

Lemma deployment_admitted_binds_witness :
  ∃ bs, BindingsForWorkload (Some protected_dep) (Some gate_policy) = Ok bs ∧ bs ≠ [] ∧ NoDup (bKey <$> bs).
Proof.
  apply (deployment_admitted_binds (λ _, Ok protected_dep) any_request protected_dep).
  - reflexivity.
  - vm_compute. reflexivity.
  - vm_compute. reflexivity.
Defined.

Lemma eviction_admitted_witness :
  ∃ resp, eviction_Handle init_registry (λ _, Err (ErrorString "no content to decode")) any_request
            (gate_cluster ready_window)
          = (Ok resp, gate_cluster ready_window, [CounterInc EvictionDecisions ["allow"]])
    ∧ admitted resp = true.
Proof.
  destruct (eviction_admitted init_registry (λ _, Err (ErrorString "no content to decode")) any_request
              (gate_cluster ready_window)) as (resp & H & _).
  exists resp. vm_compute in H. injection H as <-. split; vm_compute; reflexivity.
Defined.
