(* ===== verification/WindowPhase.v ===== *)
(** * internal/controller: the pure decisions of the window reconciler

    window_phase.go (which step to take), maxwindow.go (how long a window may
    stay open) and requeue.go. *)
From S2P Require Import Prelude GoStrings GoTime Meta Api Fake.

#[local] Open Scope Z_scope.

(** ** requeue.go *)

Definition requeueOpen : Duration := 15 * Second.
Definition requeueDeferred : Duration := 15 * Second.
Definition requeuePolicyCleanup : Duration := 2 * Second.
Definition requeueForcedCoolTombstone : Duration := 15 * Second.

(** ** Messages and reasons of window_controller.go *)

Definition reasonScaledBack : string := "ScaledBack".
Definition reasonCooling : string := "CoolingDown".
Definition reasonSpareReady : string := "SpareReady".
Definition reasonSpareWait : string := "SpareNotReady".
Definition reasonMaxWindow : string := "MaxWindowExceeded".
Definition msgNodesVulnerable : string := "at-risk pods still on vulnerable nodes".
Definition msgWaitingSpare : string := "waiting for Ready pods off vulnerable nodes".
Definition msgMaxWindow : string := "maxWindow exceeded; forcing cooldown".

(** ** maxwindow.go *)

Definition windowOpenedAt (win : EvictionGuardWindow) : Time :=
  match wtLastScaleTime (winStatus win) with
  | Some t => if negb (IsZero t) then t
              else if negb (IsZero (mCreationTimestamp (winMeta win)))
                   then mCreationTimestamp (winMeta win) else zero_time
  | None => if negb (IsZero (mCreationTimestamp (winMeta win)))
            then mCreationTimestamp (winMeta win) else zero_time
  end.

Definition maxWindowExceeded (policy : option EvictionGuardPolicy) (win : option EvictionGuardWindow)
  (now : Time) : bool :=
  match policy, win with
  | Some policy, Some win =>
      let d := MaxWindowOrDefault policy in
      if d <=? 0 then false
      else let opened := windowOpenedAt win in
           if IsZero opened then false
           else negb (Before now (Add opened d))
  | _, _ => false
  end.

Definition maxWindowRequeue (policy : option EvictionGuardPolicy) (win : option EvictionGuardWindow)
  (now : Time) : Duration :=
  match policy, win with
  | Some policy, Some win =>
      let d := MaxWindowOrDefault policy in
      if d <=? 0 then 0
      else let opened := windowOpenedAt win in
           if IsZero opened then 0
           else let left := Sub (Add opened d) now in
                if left <=? 0 then Second else left
  | _, _ => 0
  end.

Definition holdMaxWindow (policy : option EvictionGuardPolicy) (win : option EvictionGuardWindow)
  (now : Time) : bool :=
  match win with
  | None => false
  | Some x =>
      if wtForcedCool (winStatus x) || bool_decide (wtPhase (winStatus x) = WindowPhaseClosed) then true
      else maxWindowExceeded policy win now
  end.

(** ** window_phase.go *)

Inductive windowStep :=
| stepStayOpenVulnerable | stepStayOpenWaitingSpare | stepBeginScaleBack | stepStayCooling | stepClose.

#[global] Instance windowStep_eq_dec : EqDecision windowStep.
Proof. solve_decision. Defined.

Record windowPhaseInput := PhaseInput {
  inLiveAtRisk : Z;
  inForceCool : bool;
  inForcedCool : bool;
  inSafeReady : Z;
  inBaseline : Z;
  inWindowUntil : Time;
  inNow : Time
}.

Record windowPhaseDecision := PhaseDecision {
  pdStep : windowStep;
  pdPhase : WindowPhase;
  pdMessage : string;
  pdAbortCooldown : bool;
  pdRetainClosed : bool
}.

Definition coolingMessage (forceCool forcedCool : bool) : string :=
  if forceCool || forcedCool then msgMaxWindow else reasonCooling.

Definition decideWindowStep (i : windowPhaseInput) : windowPhaseDecision :=
  if (inLiveAtRisk i >? 0) && negb (inForceCool i)
  then PhaseDecision stepStayOpenVulnerable WindowPhaseOpen msgNodesVulnerable true false
  else if negb (inForceCool i) && (inSafeReady i <? inBaseline i)
  then PhaseDecision stepStayOpenWaitingSpare WindowPhaseOpen msgWaitingSpare true false
  else if IsZero (inWindowUntil i)
  then PhaseDecision stepBeginScaleBack PhaseUnset "" false false
  else if Before (inNow i) (inWindowUntil i)
  then PhaseDecision stepStayCooling WindowPhaseCooling (coolingMessage (inForceCool i) (inForcedCool i)) false false
  else
    let retain := inForcedCool i in
    let msg := if retain then "scaled back after maxWindow; holding until nodes clear"
               else "scaled back to baseline" in
    PhaseDecision stepClose WindowPhaseClosed msg false retain.

(** ** Properties *)

(** The window may wind down: it was forced, or nothing is at risk and enough
    safe pods are Ready. *)
Definition may_wind_down (i : windowPhaseInput) : Prop :=
  inForceCool i = true ∨ (inLiveAtRisk i <= 0 ∧ inBaseline i <= inSafeReady i).

#[global] Instance may_wind_down_dec i : Decision (may_wind_down i).
Proof. unfold may_wind_down. apply _. Defined.

Lemma wind_down_guards i :
  may_wind_down i ↔
  (inLiveAtRisk i >? 0) && negb (inForceCool i) = false
  ∧ negb (inForceCool i) && (inSafeReady i <? inBaseline i) = false.
Proof.
  unfold may_wind_down. destruct (inForceCool i); simpl; rw ?andb_false_r ?andb_true_r.
  - split; auto.
  - rewrite Z.gtb_ltb Z.ltb_ge Z.ltb_ge. split; [intros [?|[? ?]]; [done | lia] | right; lia].
Qed.

Lemma begin_scale_back i :
  pdStep (decideWindowStep i) = stepBeginScaleBack → may_wind_down i ∧ IsZero (inWindowUntil i) = true.
Proof.
  rw wind_down_guards. unfold decideWindowStep.
  destruct ((inLiveAtRisk i >? 0) && negb (inForceCool i)), (negb (inForceCool i) && (inSafeReady i <? inBaseline i));
    try done. destruct (IsZero (inWindowUntil i)); [done|]. by destruct (Before _ _).
Qed.

Lemma close_step i :
  pdStep (decideWindowStep i) = stepClose →
  may_wind_down i ∧ IsZero (inWindowUntil i) = false ∧ inWindowUntil i <= inNow i
  ∧ pdRetainClosed (decideWindowStep i) = inForcedCool i.
Proof.
  rw wind_down_guards. unfold decideWindowStep, Before.
  destruct ((inLiveAtRisk i >? 0) && negb (inForceCool i)), (negb (inForceCool i) && (inSafeReady i <? inBaseline i));
    try done. destruct (IsZero (inWindowUntil i)); [done|].
  destruct (inNow i <? inWindowUntil i) eqn:E; [done|]. zify_bool. done.
Qed.

Lemma stay_open i :
  pdStep (decideWindowStep i) = stepStayOpenVulnerable ∨ pdStep (decideWindowStep i) = stepStayOpenWaitingSpare →
  ¬ may_wind_down i ∧ pdPhase (decideWindowStep i) = WindowPhaseOpen ∧ pdAbortCooldown (decideWindowStep i) = true.
Proof.
  rw wind_down_guards. unfold decideWindowStep.
  destruct ((inLiveAtRisk i >? 0) && negb (inForceCool i)); [by intros _; split; [intros []|]|].
  destruct (negb (inForceCool i) && (inSafeReady i <? inBaseline i)); [by intros _; split; [intros []|]|].
  destruct (IsZero (inWindowUntil i)); [by intros []|]. destruct (Before _ _); by intros [].
Qed.

Lemma stay_cooling i :
  pdStep (decideWindowStep i) = stepStayCooling →
  may_wind_down i ∧ IsZero (inWindowUntil i) = false ∧ inNow i < inWindowUntil i
  ∧ pdPhase (decideWindowStep i) = WindowPhaseCooling.
Proof.
  rw wind_down_guards. unfold decideWindowStep.
  destruct ((inLiveAtRisk i >? 0) && negb (inForceCool i)), (negb (inForceCool i) && (inSafeReady i <? inBaseline i));
    try done. destruct (IsZero (inWindowUntil i)); [done|]. unfold Before.
  destruct (inNow i <? inWindowUntil i) eqn:E; [|done]. zify_bool. done.
Qed.

Lemma close_phase i : pdStep (decideWindowStep i) = stepClose → pdPhase (decideWindowStep i) = WindowPhaseClosed.
Proof. unfold decideWindowStep. by repeat case_match. Qed.

(** C32: the phase machine, for every input: an unforced window with pods at risk
    stays Open for them; without, but with fewer safe Ready pods than the
    baseline, it stays Open waiting for spare pods; a window that may wind down
    scales back while no cooldown is armed, stays Cooling until the armed one is
    over, and is closed then.  The step fixes the rest of the decision: the
    phase, the message (which tells a forced cooldown from another), that
    exactly the two Open steps cancel a cooldown, and that exactly a force-cooled
    window is retained when it is closed. *)
Theorem decideWindowStep_spec i :
  let d := decideWindowStep i in
  (pdStep d = stepStayOpenVulnerable ↔ inForceCool i = false ∧ 0 < inLiveAtRisk i)
  ∧ (pdStep d = stepStayOpenWaitingSpare ↔
      inForceCool i = false ∧ inLiveAtRisk i <= 0 ∧ inSafeReady i < inBaseline i)
  ∧ (pdStep d = stepBeginScaleBack ↔ may_wind_down i ∧ IsZero (inWindowUntil i) = true)
  ∧ (pdStep d = stepStayCooling ↔
      may_wind_down i ∧ IsZero (inWindowUntil i) = false ∧ inNow i < inWindowUntil i)
  ∧ (pdStep d = stepClose ↔
      may_wind_down i ∧ IsZero (inWindowUntil i) = false ∧ inWindowUntil i <= inNow i)
  ∧ pdPhase d = match pdStep d with
                | stepStayOpenVulnerable | stepStayOpenWaitingSpare => WindowPhaseOpen
                | stepBeginScaleBack => PhaseUnset
                | stepStayCooling => WindowPhaseCooling
                | stepClose => WindowPhaseClosed
                end
  ∧ pdMessage d = match pdStep d with
                  | stepStayOpenVulnerable => msgNodesVulnerable
                  | stepStayOpenWaitingSpare => msgWaitingSpare
                  | stepBeginScaleBack => ""
                  | stepStayCooling => if inForceCool i || inForcedCool i then msgMaxWindow else reasonCooling
                  | stepClose => if inForcedCool i then "scaled back after maxWindow; holding until nodes clear"
                                 else "scaled back to baseline"
                  end
  ∧ (pdAbortCooldown d = true ↔ ¬ may_wind_down i)
  ∧ (pdRetainClosed d = true ↔ pdStep d = stepClose ∧ inForcedCool i = true).
Proof.
  intros d. subst d. rw wind_down_guards. unfold decideWindowStep, Before, coolingMessage.
  destruct (inForceCool i) eqn:Ef; rw ?andb_false_r ?andb_true_r; cbn [negb andb];
    [|destruct (inLiveAtRisk i >? 0) eqn:E1; [|destruct (inSafeReady i <? inBaseline i) eqn:E2]]; cbn [negb andb];
    try destruct (IsZero (inWindowUntil i)) eqn:E3; try destruct (inNow i <? inWindowUntil i) eqn:E4;
    cbn [pdStep pdPhase pdMessage pdAbortCooldown pdRetainClosed]; zify_bool;
    split_and!; try done; split; try done; try (intros; destruct_and?; lia || congruence); try (by intros _; repeat split; (done || lia)); naive_solver lia.
Qed.

(** A forced window makes progress whatever the pods do. *)
Lemma forced_progress i :
  inForceCool i = true →
  pdStep (decideWindowStep i) ∈ [stepBeginScaleBack; stepStayCooling; stepClose].
Proof.
  intros Hf. unfold decideWindowStep. rewrite Hf. simpl. rewrite andb_false_r.
  destruct (IsZero _); simpl; [left|]. destruct (Before _ _); simpl; [right; left | right; right; left].
Qed.

(** C33: maxWindow runs out on time: for a window open since [opened <= now] with
    a limit, either the limit is already exceeded (and stays so), or the
    reconciler asks to be woken after a positive delay at whose end it is. *)
Theorem maxWindow_wakes p x now :
  let d := MaxWindowOrDefault p in let opened := windowOpenedAt x in
  0 < d <= max_i64 → IsZero opened = false → opened <= now →
  (maxWindowExceeded (Some p) (Some x) now = true →
     ∀ later, now <= later → maxWindowExceeded (Some p) (Some x) later = true)
  ∧ (maxWindowExceeded (Some p) (Some x) now = false →
     let r := maxWindowRequeue (Some p) (Some x) now in
     0 < r <= d ∧ maxWindowExceeded (Some p) (Some x) (Add now r) = true
     ∧ ∀ earlier, earlier < Add now r → maxWindowExceeded (Some p) (Some x) earlier = false).
Proof.
  intros d opened Hd Hz Ho. unfold maxWindowExceeded, maxWindowRequeue. fold d opened.
  rewrite (proj2 (Z.leb_gt d 0)); [|lia]. rewrite Hz. unfold Before, Add.
  split; rewrite ?negb_true_iff ?negb_false_iff.
  - intros H later Hl. apply Z.ltb_ge in H. rewrite negb_true_iff Z.ltb_ge. lia.
  - intros H%Z.ltb_lt. cbv zeta.
    assert (Sub (opened + d) now = opened + d - now) as ->.
    { apply Sub_exact. unfold min_i64, max_i64 in *. lia. }
    rewrite (proj2 (Z.leb_gt _ 0)); [|lia]. split; [lia|]. split.
    + rewrite Z.ltb_ge. lia.
    + intros e He. rewrite negb_false_iff Z.ltb_lt. lia.
Qed.

(** A limit of zero means none. *)
Lemma maxWindow_unlimited p x now : MaxWindowOrDefault p <= 0 → maxWindowExceeded (Some p) (Some x) now = false.
Proof. intros H. unfold maxWindowExceeded. by rewrite (proj2 (Z.leb_le _ 0)). Qed.

(** ** Witness *)

Definition wake_policy : EvictionGuardPolicy := simple_policy "p" [] None.
Definition wake_window : EvictionGuardWindow :=
  MkWindow (meta "w" "shop")
    (MkWindowSpec "p" (MkWorkloadRef "apps/v1" "Deployment" "web" "shop") [] 2 3 ["n1"] None)
    empty_window_status.

Lemma maxWindow_wakes_witness :
  maxWindowExceeded (Some wake_policy) (Some wake_window)
    (Add (5 * Second) (maxWindowRequeue (Some wake_policy) (Some wake_window) (5 * Second))) = true.
Proof.
  refine (proj1 (proj2 (proj2 (maxWindow_wakes wake_policy wake_window (5 * Second) _ _ _) _))).
  - vm_compute. split; [reflexivity | discriminate].
  - vm_compute. reflexivity.
  - vm_compute. discriminate.
  - vm_compute. reflexivity.
Defined.

(** A pod at risk and no force: the window stays Open for it; without, it closes. *)
Example decide_risky :
  pdStep (decideWindowStep (PhaseInput 1 false false 3 3 (10 * Second) (20 * Second))) = stepStayOpenVulnerable
  ∧ pdStep (decideWindowStep (PhaseInput 0 false false 3 3 (10 * Second) (20 * Second))) = stepClose.
Proof. split; vm_compute; reflexivity. Qed.
