(* ===== verification/ScaleActions.v ===== *)
(** * internal/controller: scale actions, stamps and scale errors

    scale_actions.go and scale_error.go.  [applyCapacityApplied] updates the
    window it is given and a gauge: here it returns the new window, and the
    gauge update is an effect. *)
From S2P Require Import Prelude GoStrings GoTime Meta Api Kube Fields WindowPhase Fake.

#[local] Open Scope Z_scope.

(** ** scale_actions.go *)

Definition scaleAction (key : string) (t : Target) (baseline scaledTo : Z) (stampKeys : list string)
  (skipDownscaling : bool) : ScaleAction :=
  MkScaleAction key (tgAPIVersion t) (tgKind t) (nnNamespace (tgKey t)) (nnName (tgKey t)) (tgFieldPath t)
    baseline scaledTo skipDownscaling stampKeys.

Definition actionTarget (a : ScaleAction) : Target :=
  MkTarget (NN (saNamespace a) (saName a)) (saAPIVersion a) (saKind a) (saFieldPath a) None.

Definition actionKey (a : ScaleAction) : string :=
  if negb (str_eqb (saKey a) "")
  then saKey a +:+ "/" +:+ saNamespace a +:+ "/" +:+ saName a +:+ "/" +:+ saFieldPath a
  else saAPIVersion a +:+ "/" +:+ saKind a +:+ "/" +:+ saNamespace a +:+ "/" +:+ saName a +:+ "/" +:+ saFieldPath a.

Definition findAction (actions : list ScaleAction) (key : string) (t : Target) : option ScaleAction :=
  let want := actionKey (scaleAction key t 0 0 [] false) in
  find (λ a, str_eqb (actionKey a) want) actions.

(** [next] first, then the existing actions whose key [next] does not have. *)
Definition mergeActions (existing next : list ScaleAction) : list ScaleAction :=
  next ++ filter (λ a, actionKey a ∉ (actionKey <$> next)) existing.

Definition scaleBackAfter (policy : EvictionGuardPolicy) (dep : option Deployment) : Duration :=
  match dep with
  | Some d =>
      let raw := mget (mAnnotations (dMeta d)) ScaleBackAfterAnnotation in
      if negb (str_eqb raw "") then
        match ParseDuration raw with
        | inr t => if 0 <? t then t else ScaleBackAfterOrDefault policy
        | inl _ => ScaleBackAfterOrDefault policy
        end
      else ScaleBackAfterOrDefault policy
  | None => ScaleBackAfterOrDefault policy
  end.

Record resourceStamp := MkStamp {
  rsEnabled : bool;
  rsScaledTo : string;
  rsBaseline : string;
  rsActive : string;
  rsWindowUntil : string
}.

Definition pickKey (configured fallback : string) : string :=
  if negb (str_eqb configured "") then configured else fallback.

Definition resolveStamp (policy : EvictionGuardPolicy) (dep : option Deployment) : resourceStamp :=
  let s := psStamp (polSpec policy) in
  let out := MkStamp (stEnabled s) (pickKey (stScaledToKey s) StampScaledToKey)
               (pickKey (stBaselineKey s) StampBaselineKey) (pickKey (stActiveKey s) StampActiveKey)
               (pickKey (stWindowUntilKey s) StampWindowUntilKey) in
  match dep with
  | None => out
  | Some d =>
      let ann := mAnnotations (dMeta d) in
      let enabled :=
        if str_eqb (mget ann StampAnnotation) "true" then true
        else if str_eqb (mget ann StampAnnotation) "false" then false
        else rsEnabled out in
      let override k old := let v := mget ann k in if negb (str_eqb v "") then v else old in
      MkStamp enabled (override StampScaledToKeyAnnotation (rsScaledTo out))
        (override StampBaselineKeyAnnotation (rsBaseline out))
        (override StampActiveKeyAnnotation (rsActive out))
        (override StampWindowUntilKeyAnnotation (rsWindowUntil out))
  end.

(** [resourceStamp.keys] *)
Definition stamp_keys (s : resourceStamp) : list string :=
  if negb (rsEnabled s) then []
  else sort_strings [rsScaledTo s; rsBaseline s; rsActive s; rsWindowUntil s].

(** [resourceStamp.values]: a map literal, so a repeated key keeps its last
    value. *)
Definition stamp_values (s : resourceStamp) (baseline desired : Z) : strmap :=
  if negb (rsEnabled s) then ∅
  else <[rsWindowUntil s := ""]> (<[rsActive s := "true"]>
         (<[rsBaseline s := FormatInt baseline]> (<[rsScaledTo s := FormatInt desired]> ∅))).

(** ** scale_error.go *)

Inductive scaleErrorClass :=
| scaleErrorNone | scaleErrorForbidden | scaleErrorRejected | scaleErrorConflict
| scaleErrorNotFound | scaleErrorOther.

#[global] Instance scaleErrorClass_eq_dec : EqDecision scaleErrorClass.
Proof. solve_decision. Defined.

(** The cause types of apimachinery the code lists, by their string values. *)
Definition rejected_causes : list string :=
  ["FieldValueInvalid"; "FieldValueDuplicate"; "FieldValueNotFound"; "FieldValueRequired";
   "FieldValueNotSupported"; "FieldValueTooLong"; "FieldValueForbidden"; "FieldValueTypeInvalid"].

Fixpoint has_rejected_cause (causes : list string) : bool :=
  match causes with
  | [] => false
  | c :: rest => if bool_decide (c ∈ rejected_causes) then true else has_rejected_cause rest
  end.

(** [errors.As(err, *backendAccessError)] (plan.go) *)
Definition isMissingBackendRBAC (e : error) : bool :=
  existsb (λ x, match x with backendAccessError _ _ => true | _ => false end) (unwrap_chain e).

Definition scaleErrorReason (class : scaleErrorClass) : string :=
  match class with
  | scaleErrorForbidden => ReasonScaleForbidden
  | scaleErrorRejected => ReasonScaleRejected
  | scaleErrorConflict => ReasonScaleConflict
  | scaleErrorNotFound => ReasonScaleMissing
  | scaleErrorOther => ReasonScaleFailed
  | scaleErrorNone => ReasonScaleApplied
  end.

Section scale_errors.
Context `{L : KubeLib}.

Definition classifyScaleError (err : option error) : scaleErrorClass :=
  match err with
  | None => scaleErrorNone
  | Some e =>
      if isMissingBackendRBAC e || IsForbidden e then scaleErrorForbidden
      else if IsConflict e then scaleErrorConflict
      else if IsNotFound e then scaleErrorNotFound
      else if IsInvalid e || IsBadRequest e then scaleErrorRejected
      else match StatusCauses e with
           | Some causes => if has_rejected_cause causes then scaleErrorRejected else scaleErrorOther
           | None => scaleErrorOther
           end
  end.

Definition window_labels (win : EvictionGuardWindow) : list string :=
  [wsPolicyName (winSpec win); wrNamespace (wsTarget (winSpec win)); wrName (wsTarget (winSpec win))].

(** The new window, the gauge update and whether the condition flipped. *)
Definition applyCapacityApplied (win : EvictionGuardWindow) (err : option error) (now : Time)
  : EvictionGuardWindow * effect * bool :=
  let class := classifyScaleError err in
  let wantOK := bool_decide (class = scaleErrorNone) in
  let prev := FindStatusCondition (wtConditions (winStatus win)) ConditionCapacityApplied in
  let reason := scaleErrorReason class in
  let transitioned :=
    match prev with
    | None => true
    | Some p => negb (Bool.eqb (str_eqb (cStatus p) ConditionTrue) wantOK) || negb (str_eqb (cReason p) reason)
    end in
  let gen := mGeneration (winMeta win) in
  let cond :=
    if wantOK
    then MkCondition ConditionCapacityApplied ConditionTrue gen now ReasonScaleApplied "capacity patches applied"
    else MkCondition ConditionCapacityApplied ConditionFalse gen now reason
           (match err with Some e => Error_string e | None => "" end
            +:+ "; eviction fail-opens after maxWindow") in
  (with_status (set_conditions (SetStatusCondition (wtConditions (winStatus win)) cond)) win,
   GaugeSet CapacityApplyError (window_labels win) (if wantOK then 0 else 1),
   transitioned).

Definition capacityAppliedBlocked (win : EvictionGuardWindow) : bool :=
  match FindStatusCondition (wtConditions (winStatus win)) ConditionCapacityApplied with
  | Some c => str_eqb (cStatus c) ConditionFalse
  | None => false
  end.

Definition applyErrorMessage (base : string) (win : EvictionGuardWindow) : string :=
  if negb (capacityAppliedBlocked win) then base
  else match FindStatusCondition (wtConditions (winStatus win)) ConditionCapacityApplied with
       | None => base +:+ "; capacity apply failed (fail-open after maxWindow)"
       | Some c => if str_eqb (cMessage c) "" then base +:+ "; capacity apply failed (fail-open after maxWindow)"
                   else base +:+ "; " +:+ cMessage c
       end.

(** ** Properties of errors *)

Lemma classifyScaleError_none err : classifyScaleError err = scaleErrorNone ↔ err = None.
Proof.
  destruct err as [e|]; [|done]. split; [|done]. unfold classifyScaleError.
  destruct (_ || _); [done|]. destruct (IsConflict e); [done|]. destruct (IsNotFound e); [done|].
  destruct (_ || _); [done|]. destruct (StatusCauses e) as [cs|]; [|done].
  by destruct (has_rejected_cause cs).
Qed.

Context {LL : KubeLibLaws L}.

(** The CapacityApplied condition of a window records the last mutation: after
    [applyCapacityApplied] it is True exactly when there was no error, the
    window counts as blocked exactly when there was one, other conditions are
    left alone, and the call reports a transition exactly when the condition
    was absent or its status or reason changed. *)
Theorem applyCapacityApplied_spec win err now win' e flip :
  applyCapacityApplied win err now = (win', e, flip) →
  (∃ c, FindStatusCondition (wtConditions (winStatus win')) ConditionCapacityApplied = Some c
        ∧ (cStatus c = ConditionTrue ↔ err = None) ∧ cReason c = scaleErrorReason (classifyScaleError err))
  ∧ (capacityAppliedBlocked win' = true ↔ err ≠ None)
  ∧ (∀ ty, ty ≠ ConditionCapacityApplied →
       FindStatusCondition (wtConditions (winStatus win')) ty = FindStatusCondition (wtConditions (winStatus win)) ty)
  ∧ (flip = false ↔
       ∃ c, FindStatusCondition (wtConditions (winStatus win)) ConditionCapacityApplied = Some c
            ∧ (cStatus c = ConditionTrue ↔ err = None) ∧ cReason c = scaleErrorReason (classifyScaleError err)).
Proof.
  unfold applyCapacityApplied. set (cond := if bool_decide _ then _ else _). intros [= <- <- <-]. simpl.
  pose proof (classifyScaleError_none err) as Hnone.
  assert (cType cond = ConditionCapacityApplied) as Hty by (subst cond; by case_bool_decide).
  assert (cStatus cond = ConditionTrue ↔ err = None) as Hst by (subst cond; case_bool_decide; simpl; naive_solver).
  assert (cStatus cond = ConditionFalse ↔ err ≠ None) as Hsf by (subst cond; case_bool_decide; simpl; naive_solver).
  assert (cReason cond = scaleErrorReason (classifyScaleError err)) as Hre.
  { subst cond. case_bool_decide as H; [by rewrite H | done]. }
  destruct (find_set_same (wtConditions (winStatus win)) cond) as (c & Hf & Ht & Hs & Hr & _).
  rewrite Hty in Hf. split; [|split; [|split]].
  - exists c. by rewrite Hs Hr.
  - unfold capacityAppliedBlocked. simpl. by rewrite Hf str_eqb_true Hs.
  - intros ty Hne. apply find_set_other. congruence.
  - destruct (FindStatusCondition (wtConditions (winStatus win)) _) as [p|] eqn:Ep; [|split; [done | by intros (? & ? & _)]].
    rewrite orb_false_iff !negb_false_iff eqb_true_iff str_eqb_true. split.
    + intros [H1 H2]. exists p. split; [done|]. split; [|done]. rewrite -Hnone.
      rewrite -str_eqb_true H1. apply bool_decide_eq_true.
    + intros (p' & [= <-] & H1 & H2). split; [|done].
      apply Bool.eq_true_iff_eq. by rewrite str_eqb_true bool_decide_eq_true Hnone.
Qed.

(** An error that means the operator may not touch the object (the API said
    Forbidden, or planning wrapped it as missing RBAC) is classified as such
    whatever else it is; so is a missing object when it is nothing worse. *)
Theorem classifyScaleError_priority e :
  (isMissingBackendRBAC e = true ∨ IsForbidden e = true →
     classifyScaleError (Some e) = scaleErrorForbidden)
  ∧ (isMissingBackendRBAC e = false → IsForbidden e = false → IsConflict e = false →
     (IsNotFound e = true ↔ classifyScaleError (Some e) = scaleErrorNotFound)).
Proof.
  unfold classifyScaleError. split.
  - intros H%orb_true_iff. by rewrite H.
  - intros -> -> ->. simpl. destruct (IsNotFound e); [done|]. split; [done|].
    destruct (_ || _); [done|]. destruct (StatusCauses e) as [cs|]; [|done].
    by destruct (has_rejected_cause cs).
Qed.
End scale_errors.

(** ** Properties of actions *)

Lemma findAction_Some actions key t a :
  findAction actions key t = Some a → a ∈ actions ∧ actionKey a = actionKey (scaleAction key t 0 0 [] false).
Proof.
  unfold findAction. intros H. apply find_some in H as [Hin Heq]. split; [by apply list_elem_of_In|].
  by apply str_eqb_true in Heq.
Qed.

Lemma findAction_None actions key t :
  findAction actions key t = None → ∀ a, a ∈ actions → actionKey a ≠ actionKey (scaleAction key t 0 0 [] false).
Proof.
  unfold findAction. intros H a Ha. apply list_elem_of_In in Ha.
  pose proof (find_none _ _ H a Ha) as Hn. simpl in Hn. by apply str_eqb_false in Hn.
Qed.

(** Merging recorded actions with a new plan's: every key of either side is
    kept, the plan's entry wins where both have one, and a key is never listed
    twice if neither side repeats one; so no recorded baseline is lost. *)
Theorem mergeActions_spec existing next :
  (∀ a, a ∈ mergeActions existing next ↔ a ∈ next ∨ (a ∈ existing ∧ actionKey a ∉ (actionKey <$> next)))
  ∧ (∀ k, k ∈ actionKey <$> mergeActions existing next ↔ k ∈ actionKey <$> existing ∨ k ∈ actionKey <$> next)
  ∧ (NoDup (actionKey <$> existing) → NoDup (actionKey <$> next) →
     NoDup (actionKey <$> mergeActions existing next)).
Proof.
  assert (∀ a, a ∈ mergeActions existing next ↔ a ∈ next ∨ (a ∈ existing ∧ actionKey a ∉ (actionKey <$> next))) as Hel.
  { intros a. unfold mergeActions. rw elem_of_app list_elem_of_filter. tauto. }
  split; [done|]. split.
  - intros k. rewrite !list_elem_of_fmap. split.
    + intros (a & -> & [?|[? _]]%Hel); eauto.
    + intros [(a & -> & Ha)|(a & -> & Ha)].
      * destruct (decide (actionKey a ∈ (actionKey <$> next))) as [(b & ? & ?)%list_elem_of_fmap|Hn].
        -- exists b. split; [done|]. apply Hel. by left.
        -- exists a. split; [done|]. apply Hel. by right.
      * exists a. split; [done|]. apply Hel. by left.
  - intros Hx Hn. unfold mergeActions. rw fmap_app. apply NoDup_app. split; [done|]. split.
    + intros k Hk (a & -> & [Ha _]%list_elem_of_filter)%list_elem_of_fmap. done.
    + eapply sublist_NoDup; [exact Hx|]. apply fmap_sublist. apply sublist_filter.
Qed.

(** Targets of recorded actions drop the catalog's default. *)
Lemma actionTarget_scaleAction key t b s ks skip :
  actionTarget (scaleAction key t b s ks skip) = MkTarget (tgKey t) (tgAPIVersion t) (tgKind t) (tgFieldPath t) None.
Proof. unfold actionTarget, scaleAction. simpl. by destruct t as [[]]. Qed.

(** The cooldown of a window is never negative, and it is the workload's own
    duration when its annotation gives a positive one. *)
Theorem scaleBackAfter_spec p d :
  0 <= ScaleBackAfterOrDefault p →
  0 <= scaleBackAfter p (Some d)
  ∧ ∀ t, ParseDuration (mget (mAnnotations (dMeta d)) ScaleBackAfterAnnotation) = inr t → 0 < t →
         mget (mAnnotations (dMeta d)) ScaleBackAfterAnnotation ≠ "" → scaleBackAfter p (Some d) = t.
Proof.
  intros Hp. unfold scaleBackAfter. cbv zeta. split.
  - destruct (negb _); [|done]. destruct (ParseDuration _) as [m|t]; [done|].
    destruct (0 <? t) eqn:E; [|done]. zify_bool. lia.
  - intros t -> Ht Hne. apply str_eqb_false in Hne. rewrite Hne. simpl. by rewrite (proj2 (Z.ltb_lt 0 t)).
Qed.

(** ** Witnesses *)

Definition some_window : EvictionGuardWindow := wake_window.
Definition web_action : ScaleAction := scaleAction "deployment" web_target 3 5 ["a"] false.
Definition hpa_action : ScaleAction := scaleAction "hpa" hpa_target 2 5 [] false.

Lemma applyCapacityApplied_spec_witness :
  ∃ win' e flip, applyCapacityApplied some_window (Some (ErrorString "boom")) 7 = (win', e, flip)
    ∧ (capacityAppliedBlocked win' = true ↔ Some (ErrorString "boom") ≠ None).
Proof.
  eexists _, _, _. split; [reflexivity|].
  refine (proj1 (proj2 (applyCapacityApplied_spec some_window (Some (ErrorString "boom")) 7 _ _ _ _))).
  reflexivity.
Defined.

Lemma mergeActions_spec_witness :
  NoDup (actionKey <$> mergeActions [web_action] [hpa_action; web_action]).
Proof.
  apply (proj2 (proj2 (mergeActions_spec [web_action] [hpa_action; web_action])));
    apply (bool_decide_unpack _); vm_compute; exact I.
Defined.
