(* ===== verification/Spare.v ===== *)
(** * internal/controller/spare.go: pods at risk and spare readiness

    The counters the window reconciler feeds to the phase machine, the node
    cache of one reconcile, the SpareReady condition and the event mappings from
    pods and Deployments to windows. *)
From S2P Require Import Evictgate.
From S2P Require Import Prelude GoStrings GoTime Meta Api Kube Indexes Filters Signals Workload WindowPhase ScaleActions Fake.

#[local] Open Scope Z_scope.

Definition PodReady : string := "Ready".

Fixpoint ready_condition (conds : list PodCondition) : bool :=
  match conds with
  | [] => false
  | c :: rest =>
      if str_eqb (pcType c) PodReady && str_eqb (pcStatus c) ConditionTrue then true else ready_condition rest
  end.

Definition podReady (p : Pod) : bool :=
  match mDeletionTimestamp (podMeta p) with
  | Some _ => false
  | None => ready_condition (podConditions p)
  end.

(** The loop of [spareCounts], counting in [int32]. *)
Fixpoint count_spare (vuln : gset string) (pods : list Pod) (ready safe : Z) : Z * Z :=
  match pods with
  | [] => (ready, safe)
  | p :: rest =>
      if negb (podReady p) then count_spare vuln rest ready safe
      else
        let ready := i32 (ready + 1) in
        if bool_decide (podNodeName p ∈ vuln) then count_spare vuln rest ready safe
        else count_spare vuln rest ready (i32 (safe + 1))
  end.

Section spare.
Context {Obj W : Type} `{L : KubeLib} `{C : Client Obj W}.
Context (registry : Registry).

Definition listWorkloadPods (dep : option Deployment) (w : W) : result (list Pod) :=
  match dep with
  | None => Ok []
  | Some d =>
      sel ← LabelSelectorAsSelector (dSelector d);
      listPodsSelected (mNamespace (dMeta d)) sel w
  end.

Definition spareCounts (win : EvictionGuardWindow) (dep : option Deployment) (w : W) : result (Z * Z) :=
  match dep with
  | None => Ok (0, 0)
  | Some d =>
      sel ← LabelSelectorAsSelector (dSelector d);
      pods ← listPodsSelected (mNamespace (dMeta d)) sel w;
      Ok (count_spare (list_to_set (wsVulnerableNodes (winSpec win))) pods 0 0)
  end.

Abbreviation NodeCache := (gmap string (option Node)).

(** [nodeVulnerableCached]: the answer and the cache it leaves. *)
Definition check_node (flt : specFilter) (policy : EvictionGuardPolicy) (n : option Node) : result bool :=
  match n with
  | None => Ok false
  | Some n =>
      match Matches flt (Some n) with
      | Err e => Err e
      | Ok false => Ok false
      | Ok true => Ok (Vulnerable registry n (Some policy))
      end
  end.

Definition nodeVulnerableCached (flt : specFilter) (policy : EvictionGuardPolicy) (name : string)
  (w : W) (cache : NodeCache) : result bool * NodeCache :=
  match cache !! name with
  | Some n => (check_node flt policy n, cache)
  | None =>
      match getNode name w with
      | Err e => match IgnoreNotFound e with
                 | None => (Ok false, <[name := None]> cache)
                 | Some _ => (Err e, cache)
                 end
      | Ok n => (check_node flt policy (Some n), <[name := Some n]> cache)
      end
  end.

(** The loop of [liveAtRiskPods]. *)
Fixpoint count_at_risk (flt : specFilter) (policy : EvictionGuardPolicy) (w : W) (pods : list Pod)
  (cache : NodeCache) (dying : gset string) (atRisk : Z) : result (Z * gset string) :=
  match pods with
  | [] => Ok (atRisk, dying)
  | p :: rest =>
      if bool_decide (mDeletionTimestamp (podMeta p) ≠ None) || str_eqb (podNodeName p) ""
      then count_at_risk flt policy w rest cache dying atRisk
      else
        let '(v, cache) := nodeVulnerableCached flt policy (podNodeName p) w cache in
        match v with
        | Err e => Err e
        | Ok false => count_at_risk flt policy w rest cache dying atRisk
        | Ok true => count_at_risk flt policy w rest cache ({[podNodeName p]} ∪ dying) (atRisk + 1)
        end
  end.

Definition liveAtRiskPods (win : option EvictionGuardWindow) (policy : option EvictionGuardPolicy)
  (dep : option Deployment) (w : W) : result (Z * list string) :=
  match win, policy, dep with
  | Some _, Some policy, Some _ =>
      flt ← FromSpec (psNodeFilter (polSpec policy));
      pods ← listWorkloadPods dep w;
      x ← count_at_risk flt policy w pods ∅ ∅ 0;
      Ok (x.1, sort_strings (elements x.2))
  | _, _, _ => Ok (0, [])
  end.

(** The new window, the gauge update and whether the condition flipped. *)
Definition applySpareStatus (win : EvictionGuardWindow) (ready safe : Z) (now : Time)
  : EvictionGuardWindow * effect * bool :=
  let want := wsBaseline (winSpec win) <=? safe in
  let prev := FindStatusCondition (wtConditions (winStatus win)) ConditionSpareReady in
  let transitioned :=
    match prev with
    | None => true
    | Some p => negb (Bool.eqb (str_eqb (cStatus p) ConditionTrue) want)
    end in
  let gen := mGeneration (winMeta win) in
  let b := FormatInt (wsBaseline (winSpec win)) in
  let cond :=
    if want
    then MkCondition ConditionSpareReady ConditionTrue gen now ReasonReplicasReady
           ("safeReady=" +:+ FormatInt safe +:+ " baseline=" +:+ b +:+ " ready=" +:+ FormatInt ready)
    else MkCondition ConditionSpareReady ConditionFalse gen now ReasonWaitingForReady
           ("safeReady=" +:+ FormatInt safe +:+ " < baseline=" +:+ b +:+ " (ready=" +:+ FormatInt ready
            +:+ "); extra pods not Ready off vulnerable nodes") in
  (with_status (λ s, set_conditions (SetStatusCondition (wtConditions s) cond) (set_spare want ready safe s)) win,
   GaugeSet SpareNotReady (window_labels win) (if want then 0 else 1),
   transitioned).

(** ** Event mappings: an error is answered with no request *)

Definition window_requests (l : list EvictionGuardWindow) : list NamespacedName := win_key <$> l.

Definition workloadToWindows (ns name : string) (w : W) : list NamespacedName :=
  match listWindowsBy IndexWindowWorkload (workloadIndexKey ns name) w with
  | Err _ => []
  | Ok l => window_requests l
  end.

(** The inner loop of [podToWindows]: the first controlling Deployment, or the
    name found before. *)
Fixpoint first_deployment (refs : list OwnerReference) (deployName : string) : string :=
  match refs with
  | [] => deployName
  | oo :: rest =>
      if str_eqb (orKind oo) "Deployment" && is_controller oo then orName oo
      else first_deployment rest deployName
  end.

Fixpoint deployment_of_pod (w : W) (ns : string) (refs : list OwnerReference) (deployName : string)
  : option string :=
  match refs with
  | [] => Some deployName
  | o :: rest =>
      if negb (str_eqb (orKind o) "ReplicaSet") || negb (is_controller o)
      then deployment_of_pod w ns rest deployName
      else match getReplicaSet (NN ns (orName o)) w with
           | Err _ => None
           | Ok rs => deployment_of_pod w ns rest (first_deployment (mOwnerReferences (rsMeta rs)) deployName)
           end
  end.

Definition podToWindows (pod : option Pod) (w : W) : list NamespacedName :=
  match pod with
  | None => []
  | Some pod =>
      let ns := mNamespace (podMeta pod) in
      match deployment_of_pod w ns (mOwnerReferences (podMeta pod)) "" with
      | None => []
      | Some deployName =>
          if str_eqb deployName "" then []
          else match listWindowsBy IndexWindowWorkload (workloadIndexKey ns deployName) w with
               | Err _ => []
               | Ok l => window_requests l
               end
      end
  end.

(** ** Counting *)

(** A pod sitting on a node the policy currently finds vulnerable, as the loop
    without its cache would decide. *)
Definition node_at_risk (flt : specFilter) (policy : EvictionGuardPolicy) (w : W) (name : string) : result bool :=
  match getNode name w with
  | Err e => if IsNotFound e then Ok false else Err e
  | Ok n => check_node flt policy (Some n)
  end.

Definition pod_at_risk (flt : specFilter) (policy : EvictionGuardPolicy) (w : W) (p : Pod) : Prop :=
  mDeletionTimestamp (podMeta p) = None ∧ podNodeName p ≠ ""
  ∧ node_at_risk flt policy w (podNodeName p) = Ok true.

#[global] Instance pod_at_risk_dec flt policy w p : Decision (pod_at_risk flt policy w p).
Proof.
  unfold pod_at_risk. apply and_dec; [apply _|]. apply and_dec; [apply _|].
  destruct (node_at_risk flt policy w (podNodeName p)) as [[]|]; [left|right|right]; congruence.
Defined.

Definition cache_ok (w : W) (cache : NodeCache) : Prop :=
  ∀ name n, cache !! name = Some n →
    match n with
    | Some n => getNode name w = Ok n
    | None => ∃ e, getNode name w = Err e ∧ IsNotFound e = true
    end.

(** The cache is transparent. *)
Lemma nodeVulnerableCached_spec flt policy name w cache :
  cache_ok w cache →
  (nodeVulnerableCached flt policy name w cache).1 = node_at_risk flt policy w name
  ∧ cache_ok w (nodeVulnerableCached flt policy name w cache).2.
Proof.
  intros Hc. unfold nodeVulnerableCached, node_at_risk, IgnoreNotFound.
  destruct (cache !! name) as [n|] eqn:E.
  - split; [|done]. specialize (Hc _ _ E). destruct n as [n|]; [by rewrite Hc|].
    destruct Hc as (e & -> & ->). done.
  - assert (∀ n, (match n with Some n => getNode name w = Ok n
                  | None => ∃ e, getNode name w = Err e ∧ IsNotFound e = true end) →
            cache_ok w (<[name := n]> cache)) as Hins.
    { intros n Hn k m [[<- <-]|[_ ?]]%lookup_insert_Some; [done | by apply Hc]. }
    destruct (getNode name w) as [n|e] eqn:En; simpl.
    + split; [done|]. by apply Hins.
    + destruct (IsNotFound e) eqn:Ee; simpl; (split; [done|]); [|done]. apply Hins. eauto.
Qed.

Lemma count_at_risk_spec flt policy w pods cache dying atRisk n dying' :
  cache_ok w cache →
  count_at_risk flt policy w pods cache dying atRisk = Ok (n, dying') →
  n = atRisk + Z.of_nat (length (filter (pod_at_risk flt policy w) pods))
  ∧ ∀ x, x ∈ dying' ↔ x ∈ dying ∨ ∃ p, p ∈ pods ∧ pod_at_risk flt policy w p ∧ podNodeName p = x.
Proof.
  revert cache dying atRisk. induction pods as [|p pods IH]; intros cache dying atRisk Hc; cbn [count_at_risk].
  { intros [= <- <-]. split; [simpl; lia|]. intros x. split; [by left|].
    intros [?|(? & ?%not_elem_of_nil & _)]; done. }
  rw filter_cons.
  assert (∀ P : Prop, (∀ x, (∃ q, q ∈ p :: pods ∧ pod_at_risk flt policy w q ∧ podNodeName q = x) ↔
      (pod_at_risk flt policy w p ∧ podNodeName p = x)
      ∨ ∃ q, q ∈ pods ∧ pod_at_risk flt policy w q ∧ podNodeName q = x)) as Hex.
  { intros _ x. apply (exists_elem_cons (λ q, pod_at_risk flt policy w q ∧ podNodeName q = x)). }
  specialize (Hex True).
  assert (¬ pod_at_risk flt policy w p →
    (∃ cache', cache_ok w cache' ∧ count_at_risk flt policy w pods cache' dying atRisk = Ok (n, dying')) →
    n = atRisk + Z.of_nat (length (if decide (pod_at_risk flt policy w p)
                                   then p :: filter (pod_at_risk flt policy w) pods
                                   else filter (pod_at_risk flt policy w) pods))
    ∧ ∀ x, x ∈ dying' ↔ x ∈ dying ∨ ∃ q, q ∈ p :: pods ∧ pod_at_risk flt policy w q ∧ podNodeName q = x) as Hskip.
  { intros Hn (cache' & Hc' & [-> Hd]%IH); [|done]. rewrite decide_False; [|done]. split; [done|].
    intros x. rw Hex Hd. tauto. }
  destruct (bool_decide _ || _) eqn:Eg.
  { intros Hr. apply Hskip; [|by exists cache]. intros (H1 & H2 & _).
    apply orb_true_iff in Eg as [?%bool_decide_eq_true|?%str_eqb_true]; done. }
  apply orb_false_iff in Eg as [Ed%bool_decide_eq_false Enn%str_eqb_false].
  destruct (nodeVulnerableCached_spec flt policy (podNodeName p) w cache Hc) as [Hv Hc'].
  destruct (nodeVulnerableCached flt policy (podNodeName p) w cache) as [v cache'] eqn:Env. simpl in Hv, Hc'.
  destruct v as [[]|e]; [| |done].
  - intros [-> Hd]%IH; [|done].
    assert (pod_at_risk flt policy w p) as Hp.
    { split; [by destruct (mDeletionTimestamp _); [destruct Ed|]|]. split; [done | by rewrite -Hv]. }
    rewrite decide_True; [|done]. split; [simpl; lia|]. intros x. rw Hex Hd elem_of_union elem_of_singleton.
    naive_solver.
  - intros Hr. apply Hskip; [|by exists cache']. intros (_ & _ & H). rewrite -Hv in H. done.
Qed.

(** C35: what the phase machine is told is at risk is exactly what is: the number
    of the Deployment's non-terminating pods on nodes that exist, pass the
    policy's filter and carry one of its signals, and the sorted, duplicate-free
    list of those nodes.  The per-reconcile node cache is invisible. *)
Theorem liveAtRiskPods_spec win p d w n nodes :
  liveAtRiskPods (Some win) (Some p) (Some d) w = Ok (n, nodes) →
  ∃ flt pods, FromSpec (psNodeFilter (polSpec p)) = Ok flt ∧ listWorkloadPods (Some d) w = Ok pods
    ∧ n = Z.of_nat (length (filter (pod_at_risk flt p w) pods))
    ∧ StronglySorted String.le nodes ∧ NoDup nodes
    ∧ ∀ x, x ∈ nodes ↔ ∃ q, q ∈ pods ∧ pod_at_risk flt p w q ∧ podNodeName q = x.
Proof.
  unfold liveAtRiskPods. destruct (FromSpec _) as [flt|] eqn:Ef; [|done]. cbn [mbind result_bind].
  destruct (listWorkloadPods (Some d) w) as [pods|] eqn:Ep; [|done].
  cbn [mbind result_bind]. destruct (count_at_risk flt p w pods ∅ ∅ 0) as [[k dying]|] eqn:Ec; [|done]. intros [= <- <-].
  apply count_at_risk_spec in Ec as [-> Hd]; [|by intros ? ? ?%lookup_empty_Some].
  exists flt, pods. split; [done|]. split; [done|]. split; [done|]. split; [apply sort_strings_sorted|].
  split; [apply sort_strings_NoDup, NoDup_elements|].
  intros x. rw elem_of_sort_strings elem_of_elements Hd. split; [|by right].
  intros [?%not_elem_of_empty|?]; done.
Qed.

Lemma count_spare_spec vuln pods ready safe :
  0 <= ready → 0 <= safe → ready + Z.of_nat (length pods) <= max_i32 → safe + Z.of_nat (length pods) <= max_i32 →
  count_spare vuln pods ready safe
  = (ready + Z.of_nat (length (filter (λ p, podReady p = true) pods)),
     safe + Z.of_nat (length (filter (λ p, podReady p = true ∧ podNodeName p ∉ vuln) pods))).
Proof.
  revert ready safe. induction pods as [|p pods IH]; intros ready safe Hr Hs Hrm Hsm; cbn [count_spare].
  { simpl. f_equal; lia. }
  rw !filter_cons. cbn [length] in Hrm, Hsm. destruct (podReady p) eqn:Er; cbn [negb].
  - rewrite (i32_id (ready + 1)); [|unfold in_i32, min_i32, max_i32 in *; lia].
    case_bool_decide as Hv; repeat case_decide; try tauto;
      rewrite ?(i32_id (safe + 1)); try (unfold in_i32, min_i32, max_i32 in *; lia);
      (rewrite IH; [simpl; f_equal; lia | lia..]).
  - repeat case_decide; try tauto; try done; try (by destruct_and?).
    rewrite IH; [done | lia..].
Qed.

(** The spare counters: for a workload of at most [2^31 - 1] pods, ready is
    the number of Ready non-terminating pods and safe of those not on the
    window's vulnerable nodes, so that [0 <= safe <= ready]. *)
Theorem spareCounts_spec win d w pods :
  listWorkloadPods (Some d) w = Ok pods → Z.of_nat (length pods) <= max_i32 →
  ∃ ready safe, spareCounts win (Some d) w = Ok (ready, safe)
    ∧ ready = Z.of_nat (length (filter (λ p, podReady p = true) pods))
    ∧ safe = Z.of_nat (length (filter (λ p, podReady p = true ∧ podNodeName p ∉ wsVulnerableNodes (winSpec win)) pods))
    ∧ 0 <= safe <= ready.
Proof.
  unfold listWorkloadPods, spareCounts. destruct (LabelSelectorAsSelector _) as [sel|]; [|done].
  cbn [mbind result_bind]. intros -> Hlen. cbn [mbind result_bind].
  rewrite count_spare_spec; [|lia..].
  eexists _, _. split; [done|]. rewrite !Z.add_0_l.
  assert (filter (λ p, podReady p = true ∧ podNodeName p ∉ (list_to_set (wsVulnerableNodes (winSpec win)) : gset string)) pods
          = filter (λ p, podReady p = true ∧ podNodeName p ∉ wsVulnerableNodes (winSpec win)) pods) as ->.
  { apply list_filter_iff. intros p. by rewrite elem_of_list_to_set. }
  split; [done|]. split; [done|]. split; [lia|]. apply Nat2Z.inj_le.
  apply sublist_length. induction pods as [|p pods IH]; [done|]. rewrite !filter_cons.
  cbn [length] in Hlen. assert (filter (λ p, podReady p = true ∧ podNodeName p ∉ wsVulnerableNodes (winSpec win)) pods
            `sublist_of` filter (λ p, podReady p = true) pods) as Hs by (apply IH; lia).
  destruct (decide (podReady p = true)) as [Hr|Hr].
  - destruct (decide _); by constructor.
  - rewrite decide_False; [done|]. by intros [? _].
Qed.

Context {LL : KubeLibLaws L}.

(** The SpareReady status says whether safe capacity covers the baseline: the
    flag and the condition are True exactly when [baseline <= safe], and a
    transition is reported exactly when the condition was absent or said the
    opposite. *)
Theorem applySpareStatus_spec win ready safe now win' e flip :
  applySpareStatus win ready safe now = (win', e, flip) →
  (wtSpareReady (winStatus win') = true ↔ wsBaseline (winSpec win) <= safe)
  ∧ wtReadyReplicas (winStatus win') = ready ∧ wtSafeReadyReplicas (winStatus win') = safe
  ∧ (∃ c, FindStatusCondition (wtConditions (winStatus win')) ConditionSpareReady = Some c
          ∧ (cStatus c = ConditionTrue ↔ wsBaseline (winSpec win) <= safe))
  ∧ winSpec win' = winSpec win ∧ winMeta win' = winMeta win
  ∧ wtPhase (winStatus win') = wtPhase (winStatus win)
  ∧ wtForcedCool (winStatus win') = wtForcedCool (winStatus win)
  ∧ (flip = false ↔ ∃ c, FindStatusCondition (wtConditions (winStatus win)) ConditionSpareReady = Some c
                         ∧ (cStatus c = ConditionTrue ↔ wsBaseline (winSpec win) <= safe)).
Proof.
  unfold applySpareStatus. set (cond := if _ <=? _ then _ else _). intros [= <- <- <-]. cbn.
  assert (cType cond = ConditionSpareReady) as Hty by (subst cond; by case_match).
  assert (cStatus cond = ConditionTrue ↔ wsBaseline (winSpec win) <= safe) as Hst.
  { subst cond. destruct (_ <=? _) eqn:E; zify_bool; simpl; [done|]. split; [done | lia]. }
  destruct (find_set_same (wtConditions (winStatus win)) cond) as (c & Hf & _ & Hs & _).
  rewrite Hty in Hf. split; [by rewrite Z.leb_le|]. split; [done|]. split; [done|].
  split; [exists c; by rewrite Hs|]. do 4 (split; [done|]).
  destruct (FindStatusCondition (wtConditions (winStatus win)) _) as [p|]; [|split; [done | by intros (? & ? & _)]].
  rewrite negb_false_iff eqb_true_iff. split.
  - intros H. exists p. split; [done|]. by rewrite -str_eqb_true H Z.leb_le.
  - intros (p' & [= <-] & H). apply Bool.eq_true_iff_eq. by rewrite str_eqb_true Z.leb_le.
Qed.

(** Pods and Deployments wake the windows of their workload, and only those. *)
Lemma workloadToWindows_sound {WL : WindowIndexLaws C} ns name w k :
  k ∈ workloadToWindows ns name w → ∃ x, win_key x = k ∧ workloadIndexKey ns name ∈ windowWorkloadIndex x.
Proof.
  unfold workloadToWindows. destruct (listWindowsBy _ _ w) as [l|] eqn:E; [|by intros ?%not_elem_of_nil].
  intros (x & -> & Hx)%list_elem_of_fmap. exists x. split; [done|]. by apply (listWindowsBy_sound _ _ _ _ _ E).
Qed.
End spare.

(** ** Witnesses *)

Lemma liveAtRiskPods_spec_witness :
  ∃ n nodes, liveAtRiskPods init_registry (Some ready_window) (Some gate_policy) (Some shop_dep)
               (gate_cluster ready_window) = Ok (n, nodes)
    ∧ (n, nodes) = (2, ["n1"]) ∧ NoDup nodes.
Proof.
  eexists _, _. split; [vm_compute; reflexivity|]. split; [reflexivity|].
  destruct (liveAtRiskPods_spec init_registry ready_window gate_policy shop_dep (gate_cluster ready_window) 2 ["n1"])
    as (flt & pods & _ & _ & _ & _ & H & _).
  - vm_compute. reflexivity.
  - exact H.
Defined.

Definition ready_pod (name node : string) : Pod :=
  MkPod (labelled name "shop" protected) node [MkPodCondition "Ready" "True"].
Definition spare_cluster : Cluster :=
  MkCluster [ready_pod "web-a" "n1"; ready_pod "web-b" "n2"] [] [] [shop_dep] [] ∅ ∅ ∅ [] 0.

Lemma spareCounts_spec_witness :
  ∃ ready safe, spareCounts ready_window (Some shop_dep) spare_cluster = Ok (ready, safe)
    ∧ (ready, safe) = (2, 1) ∧ 0 <= safe <= ready.
Proof.
  destruct (spareCounts_spec ready_window shop_dep spare_cluster (clPods spare_cluster)) as (r & s & H & _ & _ & Hle).
  - vm_compute. reflexivity.
  - vm_compute. discriminate.
  - exists r, s. vm_compute in H. injection H as <- <-. split; [vm_compute; reflexivity|]. split; [reflexivity | exact Hle].
Defined.

Lemma applySpareStatus_spec_witness :
  ∃ win' e flip, applySpareStatus waiting_window 3 2 7 = (win', e, flip)
    ∧ (wtSpareReady (winStatus win') = true ↔ wsBaseline (winSpec waiting_window) <= 2).
Proof.
  eexists _, _, _. split; [reflexivity|].
  refine (proj1 (applySpareStatus_spec waiting_window 3 2 7 _ _ _ _)). reflexivity.
Defined.
