(* ===== verification/Plan.v ===== *)
(** * internal/controller/plan.go: planning, applying and restoring capacity

    A plan is the list of integer paths to raise for one disrupted workload.
    [apply] raises them top to bottom, the consecutive paths of one object in one
    patch, and undoes the groups it patched when a later one fails;
    [restoreActions] brings the recorded actions back to their baselines.

    Log lines are left out; the outcome of [compensateApply], which the code only
    logs, is computed and dropped. *)
From S2P Require Import Prelude GoStrings GoTime Meta Api Kube Capacity Bindings Fields WindowPhase ScaleActions Fake.

#[local] Open Scope Z_scope.

Record scaleStep := MkScaleStep {
  spKey : string;
  spTarget : Target;
  spBaseline : Z;
  spDesired : Z;
  spStamp : strmap;
  spStampKeys : list string;
  spSkipDownscaling : bool
}.

Record scalePlan := MkPlan {
  planSteps : list scaleStep;
  planPrimaryBaseline : Z;
  planDesired : Z
}.

Definition deployReplicas (dep : option Deployment) : Z :=
  match dep with
  | Some d => match dReplicas d with Some r => r | None => 1 end
  | None => 1
  end.

Definition uniqueStrings (l : list string) : list string := dedup_by id ∅ (filter (λ s, s ≠ "") l).

Definition sameScaleObject (a b : Target) : bool :=
  str_eqb (tgAPIVersion a) (tgAPIVersion b) && str_eqb (tgKind a) (tgKind b)
  && str_eqb (nnNamespace (tgKey a)) (nnNamespace (tgKey b)) && str_eqb (nnName (tgKey a)) (nnName (tgKey b)).

Definition metricBackend (s : scaleStep) : string :=
  if negb (str_eqb (spKey s) "") then spKey s else tgKind (spTarget s).

(** Runs of consecutive elements on the object of the run's first one: the
    [for j < len && same(...)] loops. *)
Fixpoint runs_from {A} (tgt : A → Target) (first : Target) (run : list A) (l : list A) : list (list A) :=
  match l with
  | [] => [run]
  | x :: l => if sameScaleObject first (tgt x) then runs_from tgt first (run ++ [x]) l
              else run :: runs_from tgt (tgt x) [x] l
  end.

Definition runs {A} (tgt : A → Target) (l : list A) : list (list A) :=
  match l with [] => [] | x :: l => runs_from tgt (tgt x) [x] l end.

Section plan.
Context {Obj W : Type} `{L : KubeLib} `{C : Client Obj W}.

Definition wrapBackendErr (t : Target) (e : error) : error :=
  if IsForbidden e then backendAccessError t e
  else WrapError (tgKind t +:+ " " +:+ NN_String (tgKey t) +:+ ": ") e "".

(** ** buildPlan *)

(** The loop over the resolved steps; [primary] and [desired] are set by the
    first. *)
Fixpoint plan_steps (stamp : resourceStamp) (policy : EvictionGuardPolicy) (atRisk : Z)
  (existing : list ScaleAction) (resolved : list ResolvedStep) (first : bool) (primary desired : Z)
  (out : list scaleStep) : M W scalePlan :=
  match resolved with
  | [] => mret (MkPlan out primary desired)
  | step :: rest =>
      baseline ← match findAction existing (stepKey step) (stepTarget step) with
                 | Some old => mret (saBaseline old)
                 | None => Current (stepTarget step)
                 end;
      let primary := if first then baseline else primary in
      let desired :=
        if first then TargetReplicas baseline atRisk (SpareReplicasOrDefault policy) (MaxBufferOrDefault policy)
        else desired in
      let anns := foldl (λ m a, <[a := "true"]> m) (stamp_values stamp baseline desired) (stepAnnotations step) in
      let keys := stamp_keys stamp ++ stepAnnotations step in
      plan_steps stamp policy atRisk existing rest false primary desired
        (out ++ [MkScaleStep (stepKey step) (stepTarget step) baseline desired anns (uniqueStrings keys)
                   (stepSkipDownscaling step)])
  end.

Definition buildPlan (policy : option EvictionGuardPolicy) (dep : option Deployment) (atRisk : Z)
  (existing : list ScaleAction) (stickyBaseline : Z) : M W scalePlan :=
  match policy with
  | None => throw (ErrorString "policy.spec.backends is required")
  | Some p =>
      if decide (psBackends (polSpec p) = ∅) then throw (ErrorString "policy.spec.backends is required")
      else
        bindings ← lift (BindingsForWorkload dep policy);
        resolved ← lift (ResolveCatalog dep policy bindings);
        let stamp := resolveStamp p dep in
        match resolved with
        | [] =>
            let baseline := if stickyBaseline <=? 0 then deployReplicas dep else stickyBaseline in
            mret (MkPlan [] baseline
                    (TargetReplicas baseline atRisk (SpareReplicasOrDefault p) (MaxBufferOrDefault p)))
        | _ => plan_steps stamp p atRisk existing resolved true 0 0 []
        end
  end.

(** ** Restoring *)

Definition restoreOneAction (a : ScaleAction) : M W unit :=
  let target := actionTarget a in
  _ ← if negb (saSkipDownscaling a) then
        current ← mapErr (wrapBackendErr target) (Current target);
        if current >? saBaseline a then mapErr (wrapBackendErr target) (ScaleDown target (saBaseline a))
        else mret ()
      else mret ();
  mapErr (wrapBackendErr target) (PatchAnnotations target (StampDeletes (saStampKeys a))).

(** The loop of [restoreGroupedActions]: paths, values to restore, stamp keys. *)
Fixpoint scan_actions (group : list ScaleAction) (paths : list string) (values : gmap string Z)
  (stampKeys : list string) : M W (list string * gmap string Z * list string) :=
  match group with
  | [] => mret (paths, values, stampKeys)
  | ga :: rest =>
      let gt := actionTarget ga in
      let stampKeys := stampKeys ++ saStampKeys ga in
      if saSkipDownscaling ga then scan_actions rest paths values stampKeys
      else
        current ← mapErr (wrapBackendErr gt) (Current gt);
        scan_actions rest (paths ++ [tgFieldPath gt])
          (if current >? saBaseline ga then <[tgFieldPath gt := saBaseline ga]> values else values) stampKeys
  end.

(** [target] is that of [group[0]]; the group is never empty. *)
Definition restoreGroupedActions (target : Target) (group : list ScaleAction) : M W unit :=
  x ← scan_actions group [] ∅ [];
  let '(paths, values, stampKeys) := x in
  _ ← if decide (values = ∅) then mret ()
      else mapErr (wrapBackendErr target) (PatchIntegers target paths values);
  mapErr (wrapBackendErr target) (PatchAnnotations target (StampDeletes (uniqueStrings stampKeys))).

(** One run of actions: alone or grouped. *)
Definition restore_run (group : list ScaleAction) : M W unit :=
  match group with
  | [] => mret ()
  | [a] => restoreOneAction a
  | a :: _ => restoreGroupedActions (actionTarget a) group
  end.

Definition default_ns (ns : string) (a : ScaleAction) : ScaleAction :=
  if str_eqb (saNamespace a) "" then
    MkScaleAction (saKey a) (saAPIVersion a) (saKind a) ns (saName a) (saFieldPath a) (saBaseline a)
      (saScaledTo a) (saSkipDownscaling a) (saStampKeys a)
  else a.

(** A run whose object is gone is skipped. *)
Definition restore_or_skip (group : list ScaleAction) : M W unit :=
  r ← try (restore_run group);
  match r with
  | Ok _ => mret ()
  | Err e => if IsNotFound e then mret () else throw e
  end.

Definition restoreActions (win : EvictionGuardWindow) : M W unit :=
  for_each restore_or_skip
    (runs actionTarget (default_ns (mNamespace (winMeta win)) <$> ScaleActions win)).

(** ** Applying *)

Definition step_action (s : scaleStep) : ScaleAction :=
  scaleAction (spKey s) (spTarget s) (spBaseline s) (spDesired s) (spStampKeys s) (spSkipDownscaling s).

Definition restoreStepGroup (group : list scaleStep) : M W unit := restore_run (step_action <$> group).

(** Over the groups in reverse; the first error is returned. *)
Fixpoint compensate_rev (groups : list (list scaleStep)) (first : option error) : M W (option error) :=
  match groups with
  | [] => mret first
  | g :: rest =>
      r ← try (restoreStepGroup g);
      compensate_rev rest match first, r with None, Err e => Some e | _, _ => first end
  end.

Definition compensateApply (groups : list (list scaleStep)) : M W (option error) :=
  compensate_rev (reverse groups) None.

Record groupScan := MkScan {
  scPaths : list string;
  scValues : gmap string Z;
  scStamp : strmap;
  scRaised : bool
}.

(** The loop over one group: its scan, or the step that could not be read. *)
Fixpoint scan_group (group : list scaleStep) (acc : groupScan) : M W (groupScan + (Target * error)) :=
  match group with
  | [] => mret (inl acc)
  | s :: rest =>
      r ← try (Current (spTarget s));
      match r with
      | Err e => mret (inr (spTarget s, e))
      | Ok current =>
          let path := tgFieldPath (spTarget s) in
          let raise := current <? spDesired s in
          scan_group rest
            (MkScan (scPaths acc ++ [path])
                    (if raise then <[path := spDesired s]> (scValues acc) else scValues acc)
                    (spStamp s ∪ scStamp acc)
                    (scRaised acc || raise))
      end
  end.

(** What one group did: whether it counts as mutated and as scaled, and the
    error that stopped it. *)
Definition apply_group (policyName : string) (base : Target) (label : string) (group : list scaleStep)
  : M W (bool * bool * option error) :=
  r ← scan_group group (MkScan [] ∅ ∅ false);
  match r with
  | inr (t, e) => mret (false, false, Some (wrapBackendErr t e))
  | inl sc =>
      p ← (if decide (scValues sc = ∅) then mret (false, false, None)
          else
            r ← try (PatchIntegers base (scPaths sc) (scValues sc));
            match r with
            | Err e => mret (false, false, Some (wrapBackendErr base e))
            | Ok _ =>
                _ ← if scRaised sc then tell (CounterInc ScaleActionsTotal [policyName; "up"; label; "ok"]) else mret ();
                mret (true, scRaised sc, None)
            end : M W (bool * bool * option error)%type);
      let '(mutated, scaled, err) := p in
      match err with
      | Some _ => mret p
      | None =>
          if decide (scStamp sc = ∅) then mret p
          else
            r ← try (PatchAnnotations base (scStamp sc));
            match r with
            | Err e => mret (mutated, scaled, Some (wrapBackendErr base e))
            | Ok _ => mret (true, scaled, None)
            end
      end
  end.

(** Returns [scaled] and the error, as the code does. *)
Fixpoint apply_groups (policyName : string) (groups : list (list scaleStep)) (applied : list (list scaleStep))
  (scaled : bool) : M W (bool * option error) :=
  match groups with
  | [] => mret (scaled, None)
  | [] :: rest => apply_groups policyName rest applied scaled
  | (s0 :: _) as group :: rest =>
      x ← apply_group policyName (spTarget s0) (metricBackend s0) group;
      let '(mutated, raised, err) := (x : bool * bool * option error) in
      let scaled := scaled || raised in
      let applied := if mutated then applied ++ [group] else applied in
      match err with
      | Some e => _ ← compensateApply applied; mret (scaled, Some e)
      | None => apply_groups policyName rest applied scaled
      end
  end.

(** [scalePlan.apply] *)
Definition apply (p : scalePlan) (policyName : string) : M W (bool * option error) :=
  apply_groups policyName (runs spTarget (planSteps p)) [] false.

(** [scalePlan.actions] *)
Definition plan_actions (p : scalePlan) (existing : list ScaleAction) : list ScaleAction :=
  let next := step_action <$> planSteps p in
  match planSteps p with
  | [] => next
  | _ => mergeActions existing next
  end.

Definition backendLabel (dep : option Deployment) (policy : option EvictionGuardPolicy) : string :=
  match BindingsForWorkload dep policy with
  | Err _ => "unknown"
  | Ok [] => "unknown"
  | Ok bindings => Join (bKey <$> bindings) ","
  end.

(** ** Cooldown stamps *)

Definition with_ns (ns : string) (t : Target) : Target :=
  if str_eqb (nnNamespace (tgKey t)) ""
  then MkTarget (NN ns (nnName (tgKey t))) (tgAPIVersion t) (tgKind t) (tgFieldPath t) (tgDefaultWhenUnset t)
  else t.

Definition stampCooldown (policy : EvictionGuardPolicy) (dep : option Deployment) (win : EvictionGuardWindow)
  (until : Time) : M W unit :=
  let st := resolveStamp policy dep in
  if negb (rsEnabled st) then mret ()
  else
    let anns := <[rsWindowUntil st := if negb (IsZero until) then FormatRFC3339 until else ""]> ∅ in
    for_each (λ a, PatchAnnotations (with_ns (mNamespace (winMeta win)) (actionTarget a)) anns) (ScaleActions win).
End plan.
