(* ===== verification/PlanSpec.v ===== *)
(** * Correctness of plan.go

    What planning, applying and restoring do to the integer fields of the
    cluster, under the merge-patch laws of Kube.v: [apply] raises each field to
    [max current desired], [restoreActions] brings it back to
    [min current baseline], so that one undoes the other. *)
From S2P Require Import Prelude GoStrings GoTime Meta Api Kube Capacity Bindings Fields WindowPhase ScaleActions Plan Fake.

#[local] Open Scope Z_scope.

(** ** Lists of steps *)

Fixpoint pairwise {A} (R : A → A → Prop) (l : list A) : Prop :=
  match l with
  | [] => True
  | x :: l => Forall (R x) l ∧ pairwise R l
  end.

Lemma pairwise_app {A} (R : A → A → Prop) l1 l2 :
  pairwise R (l1 ++ l2) ↔ pairwise R l1 ∧ pairwise R l2 ∧ ∀ x y, x ∈ l1 → y ∈ l2 → R x y.
Proof.
  induction l1 as [|a l1 IH]; simpl.
  - split; [intros H; split; [done|]; split; [done|]; by intros ? ? ?%not_elem_of_nil | tauto].
  - rw Forall_app IH. split.
    + intros ((H1 & H2) & H3 & H4 & H5). split; [done|]. split; [done|].
      intros x y [->|Hx]%elem_of_cons Hy; [by eapply (proj1 (Forall_forall _ _) H2) | eauto].
    + intros ((H1 & H3) & H4 & H5). split; [split; [done|]|].
      * apply Forall_forall. intros y Hy. apply H5; [left | done].
      * split; [done|]. split; [done|]. intros x y Hx Hy. apply H5; [by right | done].
Qed.

Lemma pairwise_fmap {A B} (f : A → B) (R : B → B → Prop) l :
  pairwise R (f <$> l) ↔ pairwise (λ x y, R (f x) (f y)) l.
Proof. induction l as [|a l IH]; simpl; [done|]. by rw IH Forall_fmap. Qed.

Lemma pairwise_impl {A} (R S : A → A → Prop) l :
  (∀ x y, x ∈ l → y ∈ l → R x y → S x y) → pairwise R l → pairwise S l.
Proof.
  induction l as [|a l IH]; simpl; intros HRS; [done|]. intros [H1 H2]. split.
  - apply Forall_forall. intros y Hy. apply HRS; [left | by right|]. by eapply (proj1 (Forall_forall _ _) H1).
  - apply IH; [|done]. intros x y Hx Hy. apply HRS; by right.
Qed.

(** Distinct positions of a pairwise list are related. *)
Lemma pairwise_lookup {A} (R : A → A → Prop) l i j x y :
  pairwise R l → (i < j)%nat → l !! i = Some x → l !! j = Some y → R x y.
Proof.
  revert i j. induction l as [|a l IH]; intros i j; simpl; [done|]. intros [H1 H2] Hij Hi Hj.
  destruct j as [|j]; [lia|]. destruct i as [|i]; simpl in *.
  - simplify_eq. eapply (proj1 (Forall_forall _ _) H1). by eapply list_elem_of_lookup_2.
  - eapply (IH i j); [done | lia | done | done].
Qed.

(** Cutting a list into runs loses nothing, and a run stays on one object. *)
Lemma runs_from_concat {A} (tgt : A → Target) first run l :
  concat (runs_from tgt first run l) = run ++ l.
Proof.
  revert first run. induction l as [|x l IH]; intros first run; simpl; [done|].
  destruct (sameScaleObject first (tgt x)); simpl; rewrite IH; [by rewrite -app_assoc|done].
Qed.

Lemma runs_concat {A} (tgt : A → Target) l : concat (runs tgt l) = l.
Proof. destruct l as [|x l]; [done|]. apply (runs_from_concat tgt (tgt x) [x] l). Qed.

Definition one_object {A} (tgt : A → Target) (run : list A) : Prop :=
  ∃ x rest, run = x :: rest ∧ Forall (λ y, sameScaleObject (tgt x) (tgt y) = true) rest.

Lemma runs_from_one_object {A} (tgt : A → Target) x rest l :
  Forall (λ y, sameScaleObject (tgt x) (tgt y) = true) rest →
  Forall (one_object tgt) (runs_from tgt (tgt x) (x :: rest) l).
Proof.
  revert x rest. induction l as [|y l IH]; intros x rest Hrest; simpl.
  - constructor; [by exists x, rest | constructor].
  - destruct (sameScaleObject (tgt x) (tgt y)) eqn:E.
    + apply (IH x (rest ++ [y])). apply Forall_app. split; [done|]. by constructor.
    + constructor; [by exists x, rest|]. by apply (IH y []).
Qed.

Lemma runs_one_object {A} (tgt : A → Target) l : Forall (one_object tgt) (runs tgt l).
Proof. destruct l as [|x l]; [constructor|]. by apply (runs_from_one_object tgt x []). Qed.

(** ** Targets *)

Lemma sameScaleObject_true a b :
  sameScaleObject a b = true ↔ tgAPIVersion a = tgAPIVersion b ∧ tgKind a = tgKind b ∧ tgKey a = tgKey b.
Proof.
  unfold sameScaleObject. rw !andb_true_iff !str_eqb_true. destruct (tgKey a), (tgKey b); simpl.
  split; [intros [[[? ?] ?] ?]; subst; done | by intros (? & ? & [= -> ->])].
Qed.

Section spec.
Context {Obj W : Type} `{L : KubeLib} `{C : Client Obj W}.

(** The stored field of a target, unset included. *)
Definition raw (w : W) (t : Target) : result (option Z) :=
  gvk ← target_gvk t; o ← getUnstructured gvk (tgKey t) w; NestedInt64 o (splitFieldPath (tgFieldPath t)).

(** How [Current] reads it. *)
Definition interp (t : Target) (r : option Z) : result Z :=
  match r with None => defaultWhenPathUnset t | Some v => int64ToInt32 v t end.

(** What [Current] answers. *)
Definition val (w : W) (t : Target) : result Z := res (Current t) w.

Lemma Current_run t w : Current t w = (val w t, w, []).
Proof.
  unfold val, res. destruct (get_total t w) as [r Hr]. unfold Current, mbind, M_bind. rw Hr.
  destruct r as [[[gvk o] path]|e]; [|done]. unfold lift.
  destruct (NestedInt64 o path) as [[v|]|e]; done.
Qed.

Lemma val_Ok w t v : val w t = Ok v ↔ ∃ r, raw w t = Ok r ∧ interp t r = Ok v.
Proof.
  unfold val, res, raw, interp, Current, get, target_gvk, mbind, M_bind, lift, mapErr, reads, result_bind.
  destruct (parseAPIVersionKind _ _) as [gvk|e]; simpl; [|by split; [|intros (? & ? & _)]].
  destruct (getUnstructured gvk (tgKey t) w) as [o|e]; simpl; [|by split; [|intros (? & ? & _)]].
  destruct (NestedInt64 o _) as [[z|]|e]; simpl; [| |by split; [|intros (? & ? & _)]].
  - split; [intros H; by exists (Some z) | by intros (? & [= <-] & H)].
  - split; [intros H; by exists None | by intros (? & [= <-] & H)].
Qed.

Lemma interp_Some t z v : interp t (Some z) = Ok v ↔ z = v ∧ in_i32 v.
Proof.
  unfold interp, int64ToInt32, in_i32. destruct ((z <? min_i32) || (z >? max_i32)) eqn:E.
  - split; [done|]. intros [-> ?]. apply orb_true_iff in E. lia.
  - apply orb_false_iff in E as [E1 E2]. assert (in_i32 z) as Hz by (unfold in_i32; lia).
    rewrite (i32_id z Hz). split; [by intros [= <-]; split; [|unfold in_i32 in Hz] | by intros [-> _]].
Qed.

(** Two targets that may be patched independently: different objects, or
    independent paths of one object in one version. *)
Definition apart (a b : Target) : Prop :=
  ∀ ga gb, target_gvk a = Ok ga → target_gvk b = Ok gb → same_object ga (tgKey a) gb (tgKey b) →
    ga = gb ∧ independent (splitFieldPath (tgFieldPath a)) (splitFieldPath (tgFieldPath b)).

Lemma apart_sym a b : apart a b → apart b a.
Proof.
  intros H gb ga Hb Ha (H1 & H2 & H3). destruct (H ga gb Ha Hb) as [-> Hi]; [by split|].
  split; [done | by apply independent_sym].
Qed.

(** The same object read in the same version. *)
Definition compat (a b : Target) : Prop :=
  ∀ ga gb, target_gvk a = Ok ga → target_gvk b = Ok gb → same_object ga (tgKey a) gb (tgKey b) → ga = gb.

Lemma apart_compat a b : apart a b → compat a b.
Proof. intros H ga gb Ha Hb Hs. by apply H. Qed.

(** Capacity paths lie outside the object's metadata. *)
Definition plain_field (t : Target) : Prop := head (splitFieldPath (tgFieldPath t)) ≠ Some "metadata".

(** Targets differing in their default only. *)
Lemma raw_ext w a b :
  tgAPIVersion a = tgAPIVersion b → tgKind a = tgKind b → tgKey a = tgKey b → tgFieldPath a = tgFieldPath b →
  raw w a = raw w b.
Proof. unfold raw, target_gvk. by intros -> -> -> ->. Qed.

Lemma apart_ext a a' b :
  tgAPIVersion a = tgAPIVersion a' → tgKind a = tgKind a' → tgKey a = tgKey a' → tgFieldPath a = tgFieldPath a' →
  apart a b → apart a' b.
Proof. unfold apart, target_gvk. by intros -> -> -> ->. Qed.

Lemma compat_ext a a' b :
  tgAPIVersion a = tgAPIVersion a' → tgKind a = tgKind a' → tgKey a = tgKey a' → compat a b → compat a' b.
Proof. unfold compat, target_gvk. by intros -> -> ->. Qed.

Lemma apart_irrefl t o w gvk : located w t gvk o → ¬ apart t t.
Proof.
  intros [Hg _] H. destruct (H gvk gvk Hg Hg) as [_ [Hn _]]; [done|]. by apply Hn.
Qed.

Context {FL : FieldLaws C}.

(** ** Frames: what a patch leaves alone *)

(** Nothing moved but the given targets (and annotations). *)
Definition moved_only (ts : list Target) (w w' : W) : Prop :=
  ∀ t, plain_field t → Forall (λ b, apart b t) ts → raw w' t = raw w t.

Lemma moved_only_refl ts w : moved_only ts w w.
Proof. intros t _ _. done. Qed.

Lemma moved_only_trans ts1 ts2 w w1 w2 :
  moved_only ts1 w w1 → moved_only ts2 w1 w2 → moved_only (ts1 ++ ts2) w w2.
Proof.
  intros H1 H2 t Hp [Ha Hb]%Forall_app. rewrite (H2 t Hp Hb). by apply H1.
Qed.

Lemma moved_only_mono ts ts' w w' :
  moved_only ts w w' → (∀ b, b ∈ ts → b ∈ ts') → moved_only ts' w w'.
Proof.
  intros H Hs t Hp Ha. apply H; [done|]. apply Forall_forall. intros b Hb.
  by apply (proj1 (Forall_forall _ _) Ha), Hs.
Qed.

Lemma raw_objects w w' : (∀ g k, getUnstructured g k w' = getUnstructured g k w) → ∀ t, raw w' t = raw w t.
Proof. intros H t. unfold raw. destruct (target_gvk t) as [g|e]; simpl; [by rw H | done]. Qed.

(** A merge patch of one object moves only fields it touches. *)
Lemma patch_frame g k p w w' t o :
  patchUnstructured g k p w = (Ok (), w') → getUnstructured g k w = Ok o →
  (∀ gt, target_gvk t = Ok gt → same_object g k gt (tgKey t) →
     g = gt ∧ touches p (splitFieldPath (tgFieldPath t)) = Untouched) →
  raw w' t = raw w t.
Proof.
  intros Hp Ho Ht. unfold raw. destruct (target_gvk t) as [gt|e]; simpl; [|done].
  destruct (decide (same_object g k gt (tgKey t))) as [Hs|Hn].
  - destruct (Ht gt eq_refl Hs) as [<- Hu]. destruct Hs as (_ & _ & <-).
    destruct (patch_ok_found _ _ _ _ _ Hp) as [o' Ho']. rewrite Ho Ho'. simpl. by eapply patch_ok_frame.
  - by rewrite (patch_other _ _ _ _ _ _ gt (tgKey t) Hp Hn).
Qed.

Lemma touches_annotations m (t : Target) :
  plain_field t →
  touches {[ "metadata" := JObj {[ "annotations" := JObj m ]} ]} (splitFieldPath (tgFieldPath t)) = Untouched.
Proof.
  unfold plain_field. pose proof (splitFieldPath_nonnil (tgFieldPath t)) as Hn.
  destruct (splitFieldPath (tgFieldPath t)) as [|k rest]; [done|]. simpl. intros Hk.
  rewrite lookup_singleton_ne; [done | congruence].
Qed.

Lemma send_patch_err_objects g k p verb w e w' es :
  send_patch g k p verb w = (Err e, w', es) → ∀ g' k', getUnstructured g' k' w' = getUnstructured g' k' w.
Proof. intros (e' & Hp & _)%send_patch_err_inv g' k'. by eapply patch_err. Qed.

Lemma PatchAnnotations_frame b anns w r w' es t :
  PatchAnnotations b anns w = (r, w', es) → plain_field t → compat b t → raw w' t = raw w t.
Proof.
  unfold PatchAnnotations. intros H Hp Hc. case_decide; [by apply ret_inv in H as (_ & -> & _)|].
  apply bind_inv in H as [(e & He & ->) | (gvk & w1 & es1 & es2 & Hg & H & ->)].
  { by apply lift_inv in He as (_ & -> & _). }
  apply lift_inv in Hg as (Hg & -> & ->).
  apply bind_inv in H as [(e & He & ->) | (o & w1 & es3 & es4 & Ho & H & ->)].
  { apply mapErr_err_inv in He as (e' & He & _). by apply reads_inv in He as (_ & -> & _). }
  apply mapErr_ok_inv, reads_inv in Ho as (Ho & -> & ->). cbv zeta in H.
  case_decide; [by apply ret_inv in H as (_ & -> & _)|]. destruct r as [[]|e].
  - apply send_patch_ok_inv in H as [H _]. eapply patch_frame; [done | done|].
    intros gt Hgt Hs. split; [by apply (Hc gvk gt) | by apply touches_annotations].
  - apply raw_objects. by eapply send_patch_err_objects.
Qed.

(** ** Writing integers *)

(** The field of [t] was set to [v], or held it already (as an [int32]). *)
Definition wrote (w w' : W) (t : Target) (v : Z) : Prop :=
  raw w' t = Ok (Some v) ∨ (raw w' t = raw w t ∧ ∃ cur, raw w t = Ok (Some cur) ∧ i32 cur = v).

Lemma wrote_val w w' t v v0 : wrote w w' t v → in_i32 v → val w t = Ok v0 → val w' t = Ok v.
Proof.
  intros Hw Hv (r & Hr & Hi)%val_Ok. apply val_Ok. destruct Hw as [H|(Heq & cur & Hc & Hcur)].
  - exists (Some v). split; [done|]. by apply interp_Some.
  - exists (Some cur). rewrite Heq. split; [done|]. rewrite Hc in Hr. injection Hr as <-.
    apply interp_Some in Hi as [<- Hin]. apply interp_Some. rewrite (i32_id cur Hin) in Hcur. by subst.
Qed.

(** The field of [t] was set to [v], or left as it was. *)
Definition changed_to (w w' : W) (t : Target) (c : bool) (v : Z) : Prop :=
  if c then raw w' t = Ok (Some v) else raw w' t = raw w t.

Lemma wrote_exact w w' t v v0 : wrote w w' t v → val w t = Ok v0 → v0 ≠ v → raw w' t = Ok (Some v).
Proof.
  intros [H|(_ & cur & Hc & Hcur)] (r & Hr & Hi)%val_Ok Hne; [done|].
  rewrite Hc in Hr. injection Hr as <-. apply interp_Some in Hi as [<- Hin].
  rewrite (i32_id cur Hin) in Hcur. by destruct Hne.
Qed.

Lemma val_raw w w' t v : raw w' t = raw w t → val w t = Ok v → val w' t = Ok v.
Proof. intros Hr (r & H & Hi)%val_Ok. apply val_Ok. exists r. by rewrite Hr. Qed.

Lemma val_set w' t v : raw w' t = Ok (Some v) → in_i32 v → val w' t = Ok v.
Proof. intros Hr Hv. apply val_Ok. exists (Some v). split; [done|]. by apply interp_Some. Qed.

Lemma changed_val w w' t c v v0 :
  changed_to w w' t c v → val w t = Ok v0 → in_i32 v → val w' t = Ok (if c then v else v0).
Proof. destruct c; simpl; intros H Hv0 Hv; [by apply val_set | by eapply val_raw]. Qed.

Lemma changed_to_frame w w1 w2 w3 t c v :
  raw w1 t = raw w t → raw w3 t = raw w2 t → changed_to w1 w2 t c v → changed_to w w3 t c v.
Proof. unfold changed_to. intros H1 H2. destruct c; congruence. Qed.

(** A write at a path of [base]. *)
Lemma patch_wrote base gvk o p w w' path v :
  located w base gvk o → patchUnstructured gvk (tgKey base) p w = (Ok (), w') →
  touches p (splitFieldPath path) = Leaf (JInt v) → raw w' (at_path base path) = Ok (Some v).
Proof.
  intros [Hg Ho] Hp Ht. destruct (patch_ok_found _ _ _ _ _ Hp) as [o' Ho'].
  unfold raw. simpl. unfold target_gvk in *. simpl. rewrite Hg. simpl. rewrite Ho'. simpl.
  by eapply patch_ok_int.
Qed.

Lemma already_wrote base gvk o w path v :
  located w base gvk o → already o (splitFieldPath path) v = true → wrote w w (at_path base path) v.
Proof.
  intros [Hg Ho] (cur & Hc & Hi)%already_true. right. split; [done|]. exists cur. split; [|done].
  unfold raw. simpl. unfold target_gvk in *. simpl. rewrite Hg. simpl. by rewrite Ho.
Qed.

Lemma patch_spec t v w w' es :
  patch t v w = (Ok (), w', es) → wrote w w' t v ∧ moved_only [t] w w'.
Proof.
  intros H. assert (t = at_path t (tgFieldPath t)) as Ht by (by destruct t). revert H. unfold patch. intros H.
  apply bind_ok_inv in H as (x & w1 & es1 & es2 & Hget & H & _).
  apply get_ok_inv in Hget as (gvk & o & -> & Hl & -> & ->). cbv beta iota in H.
  destruct (already o _ v) eqn:Ea.
  - apply ret_inv in H as (_ & -> & _). split; [|apply moved_only_refl].
    rewrite Ht. by eapply already_wrote.
  - apply bind_ok_inv in H as (p & w1 & es3 & es4 & Hs & H & _). apply lift_inv in Hs as (Hs & -> & ->).
    apply send_patch_ok_inv in H as [H _]. split.
    + left. rewrite {1}Ht. eapply patch_wrote; [done..|]. by eapply touches_set_same.
    + intros t' Hp Ha. apply Forall_cons in Ha as [Ha _]. destruct Hl as [Hg Ho].
      eapply patch_frame; [done | done|]. intros gt Hgt Hsame. destruct (Ha gvk gt Hg Hgt Hsame) as [<- Hi].
      split; [done|]. destruct (splitFieldPath (tgFieldPath t')) as [|k rest] eqn:E.
      { by apply splitFieldPath_nonnil in E. }
      rewrite (touches_set_other _ _ _ _ _ (eq_sym Hs) Hi); apply touches_empty || rewrite touches_empty; done.
Qed.

Lemma patch_err_frame t v w e w' es :
  patch t v w = (Err e, w', es) → ∀ g k, getUnstructured g k w' = getUnstructured g k w.
Proof.
  unfold patch. intros H. destruct (get_total t w) as [rg Hg].
  apply bind_inv in H as [(e' & He & _) | (x & w1 & es1 & es2 & He & H & _)];
    rw Hg in He; simplify_eq; [done|]. destruct x as [[gvk o] path]. cbv beta iota in H.
  destruct (already _ _ _); [by apply ret_inv in H as (? & _)|].
  apply bind_inv in H as [(e' & He & _) | (p & w2 & es3 & es4 & He & H & _)];
    apply lift_inv in He as (_ & -> & _); [done|]. by eapply send_patch_err_objects.
Qed.

(** Fields of one object at pairwise independent paths. *)
Definition paths_apart (paths : list string) : Prop :=
  pairwise (λ x y, independent (splitFieldPath x) (splitFieldPath y)) paths.

Lemma paths_apart_spec paths :
  paths_apart paths →
  NoDup paths ∧ ∀ x y, x ∈ paths → y ∈ paths → x ≠ y → independent (splitFieldPath x) (splitFieldPath y).
Proof.
  induction paths as [|a l IH]; simpl; [split; [constructor | by intros ? ? ?%not_elem_of_nil]|].
  intros [Ha [Hnd Hind]%IH]. pose proof (proj1 (Forall_forall _ _) Ha) as Ha'. split.
  - constructor; [|done]. intros Hin%Ha'. destruct Hin as [Hn _]. by apply Hn.
  - intros x y [->|Hx]%elem_of_cons [->|Hy]%elem_of_cons Hne; [done | by apply Ha' | by apply independent_sym, Ha' | by apply Hind].
Qed.

Lemma PatchIntegers_spec base paths values w w' es :
  PatchIntegers base paths values w = (Ok (), w', es) → paths ≠ [] → paths_apart paths →
  (∀ x, x ∈ paths →
     match values !! x with
     | Some v => wrote w w' (at_path base x) v
     | None => raw w' (at_path base x) = raw w (at_path base x)
     end)
  ∧ moved_only (at_path base <$> paths) w w'.
Proof.
  intros H Hne [Hnd Hind]%paths_apart_spec.
  apply PatchIntegers_inv in H as (gvk & o & need & p & Hl & Hc & Hcase); [|done].
  apply collect_values_spec in Hc as (Hframe & Ht & Hneed); [|done|done|].
  2:{ intros x _. pose proof (splitFieldPath_nonnil x). destruct (splitFieldPath x); [done | apply touches_empty]. }
  destruct Hcase as [(-> & -> & _) | (-> & Hp & _)].
  - split; [|apply moved_only_refl]. intros x Hx. destruct (values !! x) as [v|] eqn:Ev; [|done].
    eapply already_wrote; [done|]. by eapply Hneed.
  - assert (∀ t, (∀ gt, target_gvk t = Ok gt → same_object gvk (tgKey base) gt (tgKey t) →
                 gvk = gt ∧ touches p (splitFieldPath (tgFieldPath t)) = Untouched) → raw w' t = raw w t) as Hkeep.
    { intros t. destruct Hl as [_ Ho]. by eapply patch_frame. }
    assert (∀ x, touches p (splitFieldPath x) = Untouched → raw w' (at_path base x) = raw w (at_path base x)) as Hkeep'.
    { intros x Hx. apply Hkeep. intros gt Hgt _. destruct Hl as [Hg _]. unfold target_gvk in *. simpl in Hgt.
      split; [congruence | done]. }
    split.
    + intros x Hx. specialize (Ht x Hx). destruct (values !! x) as [v|]; [|by apply Hkeep'].
      destruct (already o (splitFieldPath x) v) eqn:Ea; [|left; by eapply patch_wrote].
      destruct (already_wrote _ _ _ _ _ _ Hl Ea) as [Hr|[_ Hr]]; right; (split; [by apply Hkeep'|]).
      * apply already_true in Ea as (cur & Hcur & ?). exists cur. split; [|done].
        destruct Hl as [Hg Ho]. unfold raw. simpl. unfold target_gvk in *. simpl. rewrite Hg. simpl. by rewrite Ho.
      * done.
    + intros t Hpl Ha. apply Hkeep. intros gt Hgt Hs.
      assert (∀ x, x ∈ paths → gvk = gt ∧ independent (splitFieldPath x) (splitFieldPath (tgFieldPath t))) as Hxt.
      { intros x Hx. apply Forall_fmap, Forall_forall with (x := x) in Ha; [|done].
        destruct Hl as [Hg _]. by apply (Ha gvk gt). }
      destruct paths as [|x0 rest]; [done|]. split; [apply (Hxt x0); left|].
      pose proof (splitFieldPath_nonnil (tgFieldPath t)) as Hnn.
      rewrite Hframe; [by destruct (splitFieldPath (tgFieldPath t)); [|apply touches_empty] | by intros x Hx; apply Hxt|].
      destruct (splitFieldPath (tgFieldPath t)); [done|]. by rewrite touches_empty.
Qed.

Lemma PatchIntegers_err_frame base paths values w e w' es :
  PatchIntegers base paths values w = (Err e, w', es) → ∀ t, raw w' t = raw w t.
Proof.
  unfold PatchIntegers. destruct paths as [|x0 paths]; [by intros (? & _)%ret_inv|]. intros H t.
  cbv beta iota in H. destruct (get_total base w) as [rg Hg].
  apply bind_inv in H as [(e' & He & _) | (x & w1 & es1 & es2 & He & H & _)];
    rw Hg in He; simplify_eq; [done|]. destruct x as [[gvk o] path]. cbv beta iota in H.
  apply bind_inv in H as [(e' & He & _) | ([need p] & w2 & es1 & es3 & He & H & _)];
    apply lift_inv in He as (_ & -> & _); [done|]. simpl in H.
  destruct need; simpl in H; [|by apply ret_inv in H as (? & _)].
  apply raw_objects. by eapply send_patch_err_objects.
Qed.

(** ** One group of a plan *)

Definition step_path (s : scaleStep) : string := tgFieldPath (spTarget s).

(** What scanning collects: [paths] in order, and for each raised path the
    desired value. *)
Lemma scan_group_spec g acc w x w' es :
  scan_group g acc w = (Ok x, w', es) →
  w' = w ∧ es = []
  ∧ match x with
    | inr (t, e) => val w t = Err e
    | inl sc =>
        scPaths sc = scPaths acc ++ (step_path <$> g)
        ∧ (∀ s, s ∈ g → ∃ v, val w (spTarget s) = Ok v)
        ∧ (NoDup (step_path <$> g) →
           (∀ s v, s ∈ g → val w (spTarget s) = Ok v →
              scValues sc !! step_path s = if v <? spDesired s then Some (spDesired s) else scValues acc !! step_path s)
           ∧ ∀ p, p ∉ (step_path <$> g) → scValues sc !! p = scValues acc !! p)
    end.
Proof.
  revert acc. induction g as [|s g IH]; intros acc; cbn [scan_group].
  { intros ([= ->] & -> & ->)%ret_inv. split; [done|]. split; [done|]. rewrite app_nil_r. split; [done|].
    split; [by intros ? ?%not_elem_of_nil|]. intros _. split; [by intros ? ? ?%not_elem_of_nil | done]. }
  intros H. apply bind_ok_inv in H as (r & w1 & es1 & es2 & Hc & H & ->).
  unfold try in Hc. rewrite Current_run in Hc. injection Hc as <- <- <-.
  destruct (val w (spTarget s)) as [v|e] eqn:Ev.
  2:{ apply ret_inv in H as ([= ->] & -> & ->). done. }
  apply IH in H as (-> & -> & H). split; [done|]. split; [done|].
  destruct x as [sc|[t e]]; [|done]. destruct H as (Hp & Hv & Hval). split; [|split].
  - rewrite Hp. simpl. by rewrite -app_assoc.
  - intros s' [->|?]%elem_of_cons; eauto.
  - intros Hnd. apply NoDup_cons in Hnd as [Hs Hnd]. destruct (Hval Hnd) as [Hin Hout]. split.
    + intros s' v' [->|Hs']%elem_of_cons Hv'.
      * rewrite Ev in Hv'. injection Hv' as <-. rewrite (Hout _ Hs). simpl. fold (step_path s).
        destruct (v <? spDesired s); [by rewrite lookup_insert_eq | done].
      * rewrite (Hin _ _ Hs' Hv'). simpl. fold (step_path s).
        assert (step_path s ≠ step_path s') as Hne.
        { intros Heq. apply Hs. rewrite Heq. by apply list_elem_of_fmap_2. }
        destruct (v <? spDesired s); [by rewrite lookup_insert_ne | done].
    + intros p Hp'. apply not_elem_of_cons in Hp' as [Hne Hp']. rewrite (Hout _ Hp'). simpl. fold (step_path s).
      destruct (v <? spDesired s); [by rewrite lookup_insert_ne | done].
Qed.

(** A well-formed plan: fields independent of one another and of the
    annotations, values of type [int32]. *)
Definition good_targets (ts : list Target) : Prop := pairwise apart ts ∧ Forall plain_field ts.
Definition good_steps (l : list scaleStep) : Prop :=
  good_targets (spTarget <$> l) ∧ Forall (λ s, in_i32 (spDesired s)) l.

Lemma one_object_base {A} (tgt : A → Target) g x :
  one_object tgt g → head g = Some x →
  Forall (λ y, tgAPIVersion (tgt x) = tgAPIVersion (tgt y) ∧ tgKind (tgt x) = tgKind (tgt y)
               ∧ tgKey (tgt x) = tgKey (tgt y)) g.
Proof.
  intros (x' & rest & -> & Hr) [= ->]. constructor; [done|].
  eapply Forall_impl; [exact Hr|]. intros y Hy. by apply sameScaleObject_true.
Qed.

(** Independent targets on one readable object have independent paths. *)
Lemma group_paths_apart {A} (tgt : A → Target) g w x v :
  one_object tgt g → head g = Some x → pairwise apart (tgt <$> g) → val w (tgt x) = Ok v →
  paths_apart (tgFieldPath ∘ tgt <$> g).
Proof.
  intros Ho Hx Hp (r & Hr & _)%val_Ok. pose proof (one_object_base tgt g x Ho Hx) as Hb.
  pose proof (proj1 (Forall_forall _ _) Hb) as Hb'.
  unfold paths_apart. rewrite pairwise_fmap in Hp. rewrite pairwise_fmap.
  eapply pairwise_impl; [|exact Hp]. intros y z Hy Hz Ha. simpl.
  destruct (Hb' y Hy) as (Hy1 & Hy2 & Hy3), (Hb' z Hz) as (Hz1 & Hz2 & Hz3).
  unfold raw in Hr. destruct (target_gvk (tgt x)) as [gvk|e] eqn:Hg; [|done].
  apply (Ha gvk gvk).
  - unfold target_gvk in *. by rewrite -Hy1 -Hy2.
  - unfold target_gvk in *. by rewrite -Hz1 -Hz2.
  - split; [done|]. split; [done|]. congruence.
Qed.

Lemma val_ext w a b :
  tgAPIVersion a = tgAPIVersion b → tgKind a = tgKind b → tgKey a = tgKey b → tgFieldPath a = tgFieldPath b →
  tgDefaultWhenUnset a = tgDefaultWhenUnset b → val w a = val w b.
Proof. destruct a, b; simpl. by intros -> -> -> -> ->. Qed.

Lemma moved_only_ext ts ts' w w' :
  moved_only ts w w' → (∀ t, Forall (λ b, apart b t) ts' → Forall (λ b, apart b t) ts) → moved_only ts' w w'.
Proof. intros H Hs t Hp Ha. apply H; [done|]. by apply Hs. Qed.

(** A member of a group, seen from the group's first target. *)
Definition mate (base t : Target) : Prop :=
  tgAPIVersion base = tgAPIVersion t ∧ tgKind base = tgKind t ∧ tgKey base = tgKey t.

Lemma mate_raw base t w : mate base t → raw w (at_path base (tgFieldPath t)) = raw w t.
Proof. intros (H1 & H2 & H3). by apply raw_ext. Qed.

Lemma mate_compat base t : mate base t → compat base t.
Proof. intros (H1 & H2 & _) ga gb. unfold target_gvk. rewrite H1 H2. congruence. Qed.

Lemma mates_apart base (ts : list Target) t :
  Forall (mate base) ts → Forall (λ b, apart b t) ts → Forall (λ b, apart b t) (at_path base <$> (tgFieldPath <$> ts)).
Proof.
  intros Hm Ha. rewrite !Forall_fmap. apply Forall_forall. intros b Hb. simpl.
  pose proof (proj1 (Forall_forall _ _) Hm b Hb) as (H1 & H2 & H3).
  pose proof (proj1 (Forall_forall _ _) Ha b Hb) as Hbt. by eapply apart_ext; [..|exact Hbt].
Qed.

(** Writing some paths of a group of mates, then its annotations. *)
Lemma group_write_spec base (ts : list Target) values stamp w w1 w2 :
  Forall (mate base) ts → paths_apart (tgFieldPath <$> ts) → Forall plain_field ts →
  ((ts ≠ [] ∧ ∃ es, PatchIntegers base (tgFieldPath <$> ts) values w = (Ok (), w1, es))
   ∨ (values = ∅ ∧ w1 = w)) →
  ((∃ r es, PatchAnnotations base stamp w1 = (r, w2, es)) ∨ w2 = w1) →
  (∀ t, t ∈ ts → match values !! tgFieldPath t with
                 | Some v => wrote w w2 t v
                 | None => raw w2 t = raw w t
                 end)
  ∧ ∀ t, plain_field t → compat base t → Forall (λ b, apart b t) ts → raw w2 t = raw w t.
Proof.
  intros Hm Hpa Hpl H1 H2.
  assert (∀ t, plain_field t → compat base t → raw w2 t = raw w1 t) as Hann.
  { intros t Hp Hc. destruct H2 as [(r & es & H2)| ->]; [by eapply PatchAnnotations_frame | done]. }
  assert (∀ t, t ∈ ts → raw w2 t = raw w1 t) as Hts.
  { intros t Ht. apply Hann; [by apply (proj1 (Forall_forall _ _) Hpl)|].
    by apply mate_compat, (proj1 (Forall_forall _ _) Hm). }
  destruct H1 as [(Hne & es & H1)|[-> ->]].
  - apply PatchIntegers_spec in H1 as [Hv Hmo]; [|by destruct ts|done]. split.
    + intros t Ht. specialize (Hv (tgFieldPath t) (list_elem_of_fmap_2 _ _ _ Ht)).
      pose proof (proj1 (Forall_forall _ _) Hm t Ht) as Hmt.
      destruct (values !! tgFieldPath t) as [v|].
      * unfold wrote in *. rewrite !(mate_raw base t) // in Hv. by rewrite (Hts t Ht).
      * rewrite !(mate_raw base t) // in Hv. by rewrite (Hts t Ht).
    + intros t Hp Hc Ha. rewrite (Hann t Hp Hc). apply Hmo; [done|]. by apply mates_apart.
  - split; [intros t Ht; rewrite lookup_empty; by apply Hts|]. intros t Hp Hc Ha. by apply Hann.
Qed.

(** A target apart from one mate is compatible with the base. *)
Lemma mate_apart_compat base b t : mate base b → apart b t → compat base t.
Proof. intros (E1 & E2 & E3) Ha. by apply (compat_ext b base t); [..|apply apart_compat]. Qed.

(** The field of [s] was raised if it was below the desired value. *)
Definition raised (w w' : W) (s : scaleStep) : Prop :=
  ∃ v, val w (spTarget s) = Ok v ∧ changed_to w w' (spTarget s) (v <? spDesired s) (spDesired s).

(** The effect of a successful group on the world, and on no other field. *)
Lemma apply_group_spec pn label g s0 w m sc w' es :
  one_object spTarget g → head g = Some s0 → good_steps g →
  apply_group pn (spTarget s0) label g w = (Ok (m, sc, None), w', es) →
  (∀ s, s ∈ g → raised w w' s) ∧ moved_only (spTarget <$> g) w w'.
Proof.
  intros Ho Hs0 [[Hpw Hpl] Hd] H. unfold apply_group in H.
  apply bind_ok_inv in H as (x & w1 & es1 & es2 & Hscan & H & _).
  apply scan_group_spec in Hscan as (-> & -> & Hscan).
  destruct x as [scn|[t e]]; [|by apply ret_inv in H as (? & _)].
  destruct Hscan as (Hpaths & Hvals & Hmap). simpl in Hpaths.
  assert (s0 ∈ g) as Hin0 by (destruct g; simplify_eq/=; left).
  destruct (Hvals s0 Hin0) as [v0 Hv0].
  pose proof (group_paths_apart spTarget g w s0 v0 Ho Hs0 Hpw Hv0) as Hpa.
  destruct (Hmap (proj1 (paths_apart_spec _ Hpa))) as [Hin _].
  assert (Forall (mate (spTarget s0)) (spTarget <$> g)) as Hm.
  { rewrite Forall_fmap. by apply one_object_base. }
  assert ((tgFieldPath <$> (spTarget <$> g)) = (step_path <$> g)) as Hpeq by (by rewrite -list_fmap_compose).
  apply bind_ok_inv in H as ([[m1 sc1] err1] & w1 & es3 & es4 & Hp & H & _). cbv beta iota zeta in H.
  assert (err1 = None) as -> by (destruct err1; [by apply ret_inv in H as (? & _) | done]).
  assert ((∃ es', PatchIntegers (spTarget s0) (step_path <$> g) (scValues scn) w = (Ok (), w1, es'))
          ∨ (scValues scn = ∅ ∧ w1 = w)) as Hint.
  { destruct (decide (scValues scn = ∅)); [apply ret_inv in Hp as (_ & -> & _); by right|]. left.
    apply bind_ok_inv in Hp as (r & w2 & es5 & es6 & Ht & Hp & _).
    unfold try in Ht. destruct (PatchIntegers _ _ _ w) as [[r' w''] es''] eqn:Epi. injection Ht as <- <- <-.
    rewrite Hpaths in Epi. destruct r' as [[]|e]; [|by apply ret_inv in Hp as (? & _)].
    exists es''. rewrite Epi. apply bind_ok_inv in Hp as (u & w3 & es7 & es8 & Htell & Hp & _).
    apply ret_inv in Hp as (_ & -> & _).
    destruct (scRaised scn); [by injection Htell as _ <- _ | by apply ret_inv in Htell as (_ & -> & _)]. }
  assert ((∃ es', PatchAnnotations (spTarget s0) (scStamp scn) w1 = (Ok (), w', es')) ∨ w' = w1) as Hann.
  { destruct (decide (scStamp scn = ∅)); [apply ret_inv in H as (_ & -> & _); by right|]. left.
    apply bind_ok_inv in H as (r & w2 & es5 & es6 & Ht & H & _).
    unfold try in Ht. destruct (PatchAnnotations _ _ w1) as [[r' w''] es''] eqn:Epi. injection Ht as <- <- <-.
    destruct r' as [[]|e]; [|by apply ret_inv in H as (? & _)].
    exists es''. by apply ret_inv in H as (_ & -> & _). }
  rewrite -Hpeq in Hint.
  destruct (group_write_spec (spTarget s0) (spTarget <$> g) (scValues scn) (scStamp scn) w w1 w') as [Hw Hmo]; try done.
  - by rewrite Hpeq.
  - destruct Hint as [Hi|Hi]; [left; split; [by destruct g | done] | by right].
  - destruct Hann as [[es' Ha]|Ha]; [left; by exists (Ok ()), es' | by right].
  - split.
    2:{ intros t Hpt Ha. apply Hmo; [done| |done]. apply (mate_apart_compat _ (spTarget s0)); [done|].
        apply (proj1 (Forall_forall _ _) Ha). by apply list_elem_of_fmap_2. }
    intros s Hs. destruct (Hvals s Hs) as [v Hv]. exists v. split; [done|].
    specialize (Hw (spTarget s) (list_elem_of_fmap_2 _ _ _ Hs)). fold (step_path s) in Hw.
    rewrite (Hin s v Hs Hv) lookup_empty in Hw.
    destruct (v <? spDesired s) eqn:E; [|exact Hw]. zify_bool.
    apply (wrote_exact _ _ _ _ v Hw Hv). lia.
Qed.

(** ** A whole plan *)

Lemma good_steps_app l1 l2 :
  good_steps (l1 ++ l2) ↔ good_steps l1 ∧ good_steps l2
    ∧ ∀ s1 s2, s1 ∈ l1 → s2 ∈ l2 → apart (spTarget s1) (spTarget s2).
Proof.
  unfold good_steps, good_targets. rewrite fmap_app pairwise_app !Forall_app. split.
  - intros [[(H1 & H2 & H3) [H4 H5]] [H6 H7]]. do 2 (split; [done|]). intros s1 s2 Hs1 Hs2.
    apply H3; by apply list_elem_of_fmap_2.
  - intros ([[H1 H4] H6] & [[H2 H5] H7] & H3). do 2 (split; [|done]). split; [done|]. split; [done|].
    intros x y (s1 & -> & ?)%list_elem_of_fmap (s2 & -> & ?)%list_elem_of_fmap. by apply H3.
Qed.

Lemma good_step_plain l s : good_steps l → s ∈ l → plain_field (spTarget s).
Proof.
  intros [[_ H] _] Hs. rewrite Forall_fmap in H. exact (proj1 (Forall_forall _ _) H s Hs).
Qed.

(** Values of fields outside the moved ones persist. *)
Lemma moved_only_val ts w w' t v :
  moved_only ts w w' → plain_field t → Forall (λ b, apart b t) ts → val w t = Ok v → val w' t = Ok v.
Proof. intros Hm Hp Ha. apply val_raw. by apply Hm. Qed.

Lemma moved_only_val_inv ts w w' t v :
  moved_only ts w w' → plain_field t → Forall (λ b, apart b t) ts → val w' t = Ok v → val w t = Ok v.
Proof. intros Hm Hp Ha. apply val_raw. symmetry. by apply Hm. Qed.

Lemma apply_groups_spec pn gs applied scaled w sc w' es :
  Forall (one_object spTarget) gs → good_steps (concat gs) →
  apply_groups pn gs applied scaled w = (Ok (sc, None), w', es) →
  (∀ s, s ∈ concat gs → raised w w' s) ∧ moved_only (spTarget <$> concat gs) w w'.
Proof.
  revert applied scaled w es. induction gs as [|g gs IH]; intros applied scaled w es Ho Hg H.
  { apply ret_inv in H as (_ & -> & _). split; [by intros ? ?%not_elem_of_nil | apply moved_only_refl]. }
  apply Forall_cons in Ho as [Ho Hos]. destruct Ho as (s0 & rest & -> & Hrest).
  set (g := s0 :: rest) in *. cbn [concat] in Hg |- *. apply good_steps_app in Hg as (Hg1 & Hg2 & Hap).
  cbn [apply_groups] in H. subst g. cbv beta iota in H.
  apply bind_ok_inv in H as ([[m r] err] & w1 & es1 & es2 & Hgr & H & _). cbv beta iota zeta in H.
  destruct err as [e|].
  { apply bind_ok_inv in H as (? & ? & ? & ? & _ & H & _). by apply ret_inv in H as (? & _). }
  apply apply_group_spec in Hgr as [Hr1 Hm1]; [|by exists s0, rest|done|done].
  apply IH in H as [Hr2 Hm2]; [|done|done]. split.
  - intros s [Hs|Hs]%elem_of_app.
    + destruct (Hr1 s Hs) as (v & Hv & Hv1). exists v. split; [done|].
      eapply changed_to_frame; [| |exact Hv1]; [done|]. apply Hm2; [by apply (good_step_plain (s0 :: rest))|].
      rewrite Forall_fmap. apply Forall_forall. intros s2 Hs2. apply apart_sym. by apply Hap.
    + destruct (Hr2 s Hs) as (v & Hv & Hv2). exists v.
      assert (raw w1 (spTarget s) = raw w (spTarget s)) as Heq.
      { apply Hm1; [by apply (good_step_plain (concat gs))|].
        rewrite Forall_fmap. apply Forall_forall. intros s1 Hs1. by apply Hap. }
      split; [by eapply val_raw|]. eapply changed_to_frame; [exact Heq| |exact Hv2]; done.
  - rewrite fmap_app. by eapply moved_only_trans.
Qed.

Lemma raised_max w w' s : raised w w' s → in_i32 (spDesired s) →
  ∃ v, val w (spTarget s) = Ok v ∧ val w' (spTarget s) = Ok (Z.max v (spDesired s)).
Proof.
  intros (v & Hv & Hc) Hd. exists v. split; [done|]. rewrite (changed_val _ _ _ _ _ _ Hc Hv Hd).
  f_equal. destruct (v <? spDesired s) eqn:E; lia.
Qed.

(** C24: applying a plan that succeeds raises capacity and never lowers it: every
    path of the plan ends at the maximum of the value it had and the desired
    one, and no other integer field of the cluster changes.  (The plan's fields
    are independent and outside metadata; see [good_steps].) *)
Theorem apply_raises p pn w sc w' es :
  good_steps (planSteps p) → apply p pn w = (Ok (sc, None), w', es) →
  (∀ s, s ∈ planSteps p → ∃ v, val w (spTarget s) = Ok v ∧ val w' (spTarget s) = Ok (Z.max v (spDesired s)))
  ∧ ∀ t, plain_field t → Forall (λ s, apart (spTarget s) t) (planSteps p) → raw w' t = raw w t.
Proof.
  intros Hg H. unfold apply in H. apply apply_groups_spec in H as [Hr Hm].
  - rewrite runs_concat in Hr, Hm. split.
    + intros s Hs. apply raised_max; [by apply Hr|]. destruct Hg as [_ Hd]. by apply (proj1 (Forall_forall _ _) Hd).
    + intros t Hp Ha. apply Hm; [done|]. by rewrite Forall_fmap.
  - apply runs_one_object.
  - by rewrite runs_concat.
Qed.

(** ** Restoring *)

Definition action_path (a : ScaleAction) : string := tgFieldPath (actionTarget a).
Definition kept (a : ScaleAction) : Prop := saSkipDownscaling a = false.
#[local] Instance kept_dec a : Decision (kept a).
Proof. unfold kept. apply _. Defined.

Definition good_actions (l : list ScaleAction) : Prop :=
  good_targets (actionTarget <$> l) ∧ Forall (λ a, in_i32 (saBaseline a)) l.

(** What restoring did to the field of [a]: nothing when it is up-only, else set
    it to the recorded baseline when it was above. *)
Definition lowered (w w' : W) (a : ScaleAction) : Prop :=
  if saSkipDownscaling a then raw w' (actionTarget a) = raw w (actionTarget a)
  else ∃ v, val w (actionTarget a) = Ok v ∧ changed_to w w' (actionTarget a) (v >? saBaseline a) (saBaseline a).

Lemma mapErr_Current_inv f t w x w' es :
  mapErr f (Current t) w = (x, w', es) →
  w' = w ∧ es = [] ∧ (∀ v, x = Ok v → val w t = Ok v).
Proof.
  unfold mapErr. rewrite Current_run. destruct (val w t) as [v|e]; intros [= <- <- <-]; naive_solver.
Qed.

(** Annotations of a mate's object. *)
Lemma stamp_frame b anns f w r w' es t :
  mapErr f (PatchAnnotations b anns) w = (r, w', es) → plain_field t → compat b t → raw w' t = raw w t.
Proof.
  unfold mapErr. destruct (PatchAnnotations b anns w) as [[r0 w0] es0] eqn:E. intros H.
  assert (w' = w0) as -> by (destruct r0; by injection H). by eapply PatchAnnotations_frame.
Qed.

Lemma compat_refl t : compat t t.
Proof. intros ga gb Ha Hb _. congruence. Qed.

Lemma good_targets_singleton t : good_targets [t] ↔ plain_field t.
Proof.
  unfold good_targets. simpl. split; [intros [_ H]; by apply Forall_cons in H as [H _]|].
  intros H. split; [by repeat split|]. by constructor.
Qed.

Lemma restoreOneAction_spec a w w' es :
  plain_field (actionTarget a) → in_i32 (saBaseline a) →
  restoreOneAction a w = (Ok (), w', es) → lowered w w' a ∧ moved_only [actionTarget a] w w'.
Proof.
  intros Hp Hb H. unfold restoreOneAction in H. cbv zeta in H.
  apply bind_ok_inv in H as (u & w1 & es1 & es2 & H1 & H2 & _).
  assert (∀ t, plain_field t → compat (actionTarget a) t → raw w' t = raw w1 t) as Hann
    by (intros t; by eapply stamp_frame).
  unfold lowered. destruct (saSkipDownscaling a); simpl in H1.
  - apply ret_inv in H1 as (_ & -> & _). split; [apply Hann; [done | apply compat_refl]|].
    intros t Ht [Ha _]%Forall_cons. by apply Hann, apart_compat.
  - apply bind_ok_inv in H1 as (v & w2 & es3 & es4 & Hc & H1 & _).
    apply mapErr_Current_inv in Hc as (-> & _ & Hv). specialize (Hv v eq_refl).
    destruct (v >? saBaseline a) eqn:E.
    + destruct u. apply mapErr_ok_inv in H1. apply patch_spec in H1 as [Hw Hmo]. split.
      * exists v. split; [done|]. rewrite E. simpl. rewrite Hann; [|done|apply compat_refl].
        apply (wrote_exact _ _ _ _ v Hw Hv). lia.
      * intros t Ht Ha. rewrite Hann; [by apply Hmo | done|].
        by apply Forall_cons in Ha as [Ha%apart_compat _].
    + apply ret_inv in H1 as (_ & -> & _). split.
      * exists v. split; [done|]. rewrite E. simpl. apply Hann; [done | apply compat_refl].
      * intros t Ht [Ha _]%Forall_cons. by apply Hann, apart_compat.
Qed.

Lemma restoreOneAction_frame a w e w' es :
  restoreOneAction a w = (Err e, w', es) → moved_only [actionTarget a] w w'.
Proof.
  intros H t Ht [Ha _]%Forall_cons. apply apart_compat in Ha as Hc.
  unfold restoreOneAction in H. cbv zeta in H.
  assert (∀ r w1 es1, (if negb (saSkipDownscaling a)
            then current ← mapErr (wrapBackendErr (actionTarget a)) (Current (actionTarget a));
                 if current >? saBaseline a
                 then mapErr (wrapBackendErr (actionTarget a)) (ScaleDown (actionTarget a) (saBaseline a))
                 else mret ()
            else mret () : M W unit) w = (r, w1, es1) → raw w1 t = raw w t) as Hfirst.
  { intros r w1 es1 H1. destruct (saSkipDownscaling a); simpl in H1; [by apply ret_inv in H1 as (_ & -> & _)|].
    apply bind_inv in H1 as [(e' & H1 & _) | (v & w2 & es3 & es4 & Hv & H1 & _)].
    { by apply mapErr_Current_inv in H1 as (-> & _). }
    apply mapErr_Current_inv in Hv as (-> & _). destruct (v >? _); [|by apply ret_inv in H1 as (_ & -> & _)].
    destruct r as [[]|e'].
    - apply mapErr_ok_inv, patch_spec in H1 as [_ Hmo]. apply Hmo; [done|]. by constructor.
    - apply mapErr_err_inv in H1 as (e2 & H1 & _). apply raw_objects. by eapply patch_err_frame. }
  apply bind_inv in H as [(e' & H1 & _) | (u & w1 & es1 & es2 & H1 & H2 & _)].
  - by eapply Hfirst.
  - rewrite (stamp_frame _ _ _ _ _ _ _ _ H2 Ht Hc). by eapply Hfirst.
Qed.

(** Scanning a group of recorded actions. *)
Lemma scan_actions_spec g paths values keys w r w' es :
  scan_actions g paths values keys w = (r, w', es) →
  w' = w ∧ es = []
  ∧ ∀ paths' values' keys', r = Ok (paths', values', keys') →
     paths' = paths ++ (action_path <$> filter kept g)
     ∧ (∀ a, a ∈ filter kept g → ∃ v, val w (actionTarget a) = Ok v)
     ∧ (NoDup (action_path <$> filter kept g) →
        (∀ a v, a ∈ filter kept g → val w (actionTarget a) = Ok v →
           values' !! action_path a = if v >? saBaseline a then Some (saBaseline a) else values !! action_path a)
        ∧ ∀ p, p ∉ (action_path <$> filter kept g) → values' !! p = values !! p).
Proof.
  revert paths values keys. induction g as [|a g IH]; intros paths values keys; cbn [scan_actions].
  { intros (-> & -> & ->)%ret_inv. split; [done|]. split; [done|]. intros ? ? ? [= <- <- <-].
    rewrite app_nil_r. split; [done|]. split; [by intros ? ?%not_elem_of_nil|]. intros _.
    split; [by intros ? ? ?%not_elem_of_nil | done]. }
  cbv zeta. rewrite filter_cons. destruct (saSkipDownscaling a) eqn:Es.
  { rewrite decide_False; [|unfold kept; congruence]. apply IH. }
  rewrite decide_True; [|done]. intros H.
  apply bind_inv in H as [(e' & H1 & ->) | (v & w1 & es1 & es2 & Hv & H & ->)].
  { apply mapErr_Current_inv in H1 as (-> & -> & _). done. }
  apply mapErr_Current_inv in Hv as (-> & -> & Hv). specialize (Hv v eq_refl).
  apply IH in H as (-> & -> & H). split; [done|]. split; [done|]. intros paths' values' keys' Hr.
  destruct (H _ _ _ Hr) as (-> & Hvals & Hmap). split; [|split].
  - simpl. by rewrite -app_assoc.
  - intros b [->|?]%elem_of_cons; eauto.
  - intros Hnd. apply NoDup_cons in Hnd as [Ha Hnd]. destruct (Hmap Hnd) as [Hin Hout].
    fold (action_path a) in Hin, Hout. split.
    + intros b vb [->|Hb]%elem_of_cons Hvb.
      * rewrite Hv in Hvb. injection Hvb as <-. rewrite (Hout _ Ha).
        destruct (v >? _); [by rewrite lookup_insert_eq | done].
      * rewrite (Hin _ _ Hb Hvb). assert (action_path a ≠ action_path b) as Hne.
        { intros Heq. apply Ha. rewrite Heq. by apply list_elem_of_fmap_2. }
        destruct (v >? saBaseline a); [by rewrite lookup_insert_ne | done].
    + intros p Hp. apply not_elem_of_cons in Hp as [Hne Hp]. rewrite (Hout _ Hp).
      destruct (v >? _); [by rewrite lookup_insert_ne | done].
Qed.

Lemma good_actions_app l1 l2 :
  good_actions (l1 ++ l2) ↔ good_actions l1 ∧ good_actions l2
    ∧ ∀ a1 a2, a1 ∈ l1 → a2 ∈ l2 → apart (actionTarget a1) (actionTarget a2).
Proof.
  unfold good_actions, good_targets. rewrite fmap_app pairwise_app !Forall_app. split.
  - intros [[(H1 & H2 & H3) [H4 H5]] [H6 H7]]. do 2 (split; [done|]). intros a1 a2 Ha1 Ha2.
    apply H3; by apply list_elem_of_fmap_2.
  - intros ([[H1 H4] H6] & [[H2 H5] H7] & H3). do 2 (split; [|done]). split; [done|]. split; [done|].
    intros x y (a1 & -> & ?)%list_elem_of_fmap (a2 & -> & ?)%list_elem_of_fmap. by apply H3.
Qed.

Lemma good_action_plain l a : good_actions l → a ∈ l → plain_field (actionTarget a).
Proof. intros [[_ H] _] Ha. rewrite Forall_fmap in H. exact (proj1 (Forall_forall _ _) H a Ha). Qed.

Lemma pairwise_sublist {A} (R : A → A → Prop) l k : l `sublist_of` k → pairwise R k → pairwise R l.
Proof.
  induction 1 as [|x l k Hs IH|x l k Hs IH]; simpl; [done| |].
  - intros [Hx Hk]. split; [|by apply IH]. apply Forall_forall. intros y Hy.
    apply (proj1 (Forall_forall _ _) Hx). by eapply elem_of_sublist.
  - intros [_ Hk]. by apply IH.
Qed.

(** In a pairwise list, elements kept and dropped by a filter are related. *)
Lemma pairwise_split {A} (R : A → A → Prop) (P : A → Prop) `{∀ x, Decision (P x)} l x y :
  (∀ a b, R a b → R b a) → pairwise R l → x ∈ filter P l → y ∈ l → ¬ P y → R x y.
Proof.
  intros Hsym. induction l as [|a l IH]; simpl; [by intros _ ?%not_elem_of_nil|].
  intros [Ha Hl] Hx Hy Hn. rewrite filter_cons in Hx. apply elem_of_cons in Hy as [->|Hy].
  - case_decide; [done|]. apply list_elem_of_filter in Hx as [_ Hx].
    by apply Hsym, (proj1 (Forall_forall _ _) Ha).
  - case_decide as Ha'; [|by apply IH]. apply elem_of_cons in Hx as [->|Hx]; [|by apply IH].
    by apply (proj1 (Forall_forall _ _) Ha).
Qed.

Lemma actions_mates g a0 :
  one_object actionTarget g → head g = Some a0 → Forall (mate (actionTarget a0)) (actionTarget <$> g).
Proof. intros Ho H0. rewrite Forall_fmap. by apply one_object_base. Qed.

Lemma kept_paths_apart g a0 w :
  one_object actionTarget g → head g = Some a0 → pairwise apart (actionTarget <$> g) →
  (∀ a, a ∈ filter kept g → ∃ v, val w (actionTarget a) = Ok v) →
  paths_apart (action_path <$> filter kept g).
Proof.
  intros Ho H0 Hpw Hvals. pose proof (one_object_base actionTarget g a0 Ho H0) as Hm.
  destruct (filter kept g) as [|b k] eqn:Ek; [done|]. rewrite -Ek.
  destruct (Hvals b ltac:(left)) as [v (r & Hr & _)%val_Ok].
  unfold paths_apart. rewrite pairwise_fmap. eapply pairwise_impl; [|
    eapply (pairwise_sublist (λ x y, apart (actionTarget x) (actionTarget y)));
      [apply sublist_filter | by rewrite -pairwise_fmap]].
  assert (∀ y, y ∈ filter kept g → tgAPIVersion (actionTarget a0) = tgAPIVersion (actionTarget y)
    ∧ tgKind (actionTarget a0) = tgKind (actionTarget y) ∧ tgKey (actionTarget a0) = tgKey (actionTarget y)) as Hmate.
  { intros y [_ Hy]%list_elem_of_filter. exact (proj1 (Forall_forall _ _) Hm y Hy). }
  intros y z Hy Hz Hyz. destruct (Hmate y Hy) as (Ey1 & Ey2 & Ey3), (Hmate z Hz) as (Ez1 & Ez2 & Ez3).
  destruct (Hmate b) as (Eb1 & Eb2 & Eb3); [rewrite Ek; left|].
  unfold raw in Hr. destruct (target_gvk (actionTarget b)) as [gvk|] eqn:Egvk; [|done]. unfold target_gvk in Egvk.
  apply (Hyz gvk gvk); unfold target_gvk; [congruence | congruence|]. split; [done|]. split; [done | congruence].
Qed.

Lemma restoreGroupedActions_spec g a0 w w' es :
  one_object actionTarget g → head g = Some a0 → good_actions g →
  restoreGroupedActions (actionTarget a0) g w = (Ok (), w', es) →
  (∀ a, a ∈ g → lowered w w' a) ∧ moved_only (actionTarget <$> g) w w'.
Proof.
  intros Ho H0 Hg H. pose proof (actions_mates g a0 Ho H0) as Hm. destruct Hg as [[Hpw Hpl] Hb].
  unfold restoreGroupedActions in H.
  apply bind_ok_inv in H as ([[paths values] keys] & w1 & es1 & es2 & Hs & H & _).
  apply scan_actions_spec in Hs as (-> & _ & Hs). destruct (Hs _ _ _ eq_refl) as (-> & Hvals & Hmap). clear Hs.
  set (k := filter kept g) in *. simpl in H. cbv beta iota in H.
  assert (k `sublist_of` g) as Hsub by apply sublist_filter.
  apply bind_ok_inv in H as (u & w1 & es3 & es4 & Hi & Ha & _).
  assert (actionTarget <$> k `sublist_of` actionTarget <$> g) as Hsubt by by apply fmap_sublist.
  assert (Forall (mate (actionTarget a0)) (actionTarget <$> k)) as Hmk.
  { apply Forall_forall. intros t Ht. apply (proj1 (Forall_forall _ _) Hm). by eapply elem_of_sublist. }
  assert (Forall plain_field (actionTarget <$> k)) as Hplk.
  { apply Forall_forall. intros t Ht. apply (proj1 (Forall_forall _ _) Hpl). by eapply elem_of_sublist. }
  assert (paths_apart (action_path <$> k)) as Hpa by (by eapply kept_paths_apart).
  destruct (Hmap (proj1 (paths_apart_spec _ Hpa))) as [Hin _].
  assert ((tgFieldPath <$> (actionTarget <$> k)) = (action_path <$> k)) as Hpeq by (by rewrite -list_fmap_compose).
  destruct (group_write_spec (actionTarget a0) (actionTarget <$> k) values (StampDeletes (uniqueStrings keys)) w w1 w')
    as [Hw Hmo]; [done | by rewrite Hpeq | done | | |].
  { case_decide as Hv; [apply ret_inv in Hi as (_ & -> & _); by right|]. left. split.
    - intros Hk%fmap_nil_inv. apply Hv. apply map_empty. intros p.
      destruct (Hmap (proj1 (paths_apart_spec _ Hpa))) as [_ Hout].
      rewrite Hout; [by rewrite lookup_empty|]. rewrite Hk. apply not_elem_of_nil.
    - destruct u. apply mapErr_ok_inv in Hi. exists es3. by rewrite Hpeq. }
  { apply mapErr_ok_inv in Ha. left. by eexists _, _. }
  split.
  - intros a Hain. unfold lowered. destruct (saSkipDownscaling a) eqn:Es.
    + pose proof (list_elem_of_fmap_2 actionTarget _ _ Hain) as Hta. apply Hmo.
      * by apply (proj1 (Forall_forall _ _) Hpl).
      * by apply mate_compat, (proj1 (Forall_forall _ _) Hm).
      * apply Forall_forall. intros t (b & -> & Hbk)%list_elem_of_fmap. rewrite pairwise_fmap in Hpw.
        apply (pairwise_split (λ x y, apart (actionTarget x) (actionTarget y)) kept g b a); try done.
        -- intros ? ?. apply apart_sym.
        -- unfold kept. congruence.
    + assert (a ∈ k) as Hak by (by apply list_elem_of_filter).
      destruct (Hvals a Hak) as [v Hv]. exists v. split; [done|].
      specialize (Hw _ (list_elem_of_fmap_2 actionTarget _ _ Hak)). fold (action_path a) in Hw.
      rewrite (Hin a v Hak Hv) lookup_empty in Hw. destruct (v >? saBaseline a) eqn:E; [|exact Hw].
      simpl. apply (wrote_exact _ _ _ _ v Hw Hv). lia.
  - intros t Hpt Hap. apply Hmo; [done| |].
    + destruct g as [|x g']; simplify_eq/=. apply Forall_cons in Hap as [Hap _]. by apply apart_compat.
    + apply Forall_forall. intros b Hbk. apply (proj1 (Forall_forall _ _) Hap). by eapply elem_of_sublist.
Qed.

(** Writing the integers of a group moves no field but its own. *)
Lemma restored_ints_frame g a0 paths values keys w es u w2 es3 t :
  one_object actionTarget g → head g = Some a0 → good_actions g →
  scan_actions g [] ∅ [] w = (Ok (paths, values, keys), w, es) →
  (if decide (values = ∅) then mret ()
   else mapErr (wrapBackendErr (actionTarget a0)) (PatchIntegers (actionTarget a0) paths values) : M W unit) w
  = (Ok u, w2, es3) →
  plain_field t → Forall (λ b, apart b t) (actionTarget <$> g) → raw w2 t = raw w t.
Proof.
  intros Ho H0 Hg Hs Hi Ht Hap. case_decide as Hv; [by apply ret_inv in Hi as (_ & -> & _)|].
  destruct u. apply mapErr_ok_inv in Hi.
  apply scan_actions_spec in Hs as (_ & _ & Hscan). destruct (Hscan _ _ _ eq_refl) as (-> & Hvals & Hmap).
  pose proof (actions_mates g a0 Ho H0) as Hm.
  assert (actionTarget <$> filter kept g `sublist_of` actionTarget <$> g) as Hsubt
    by (apply fmap_sublist, sublist_filter).
  assert (paths_apart (action_path <$> filter kept g)) as Hpa by (destruct Hg as [[Hpw _] _]; by eapply kept_paths_apart).
  simpl in Hi. apply PatchIntegers_spec in Hi as [_ Hmo]; [| |done].
  - apply Hmo; [done|].
    assert (Forall (λ b, apart b t) (actionTarget <$> filter kept g)) as Hapk.
    { apply Forall_forall. intros b Hb. apply (proj1 (Forall_forall _ _) Hap). by eapply elem_of_sublist. }
    assert (Forall (mate (actionTarget a0)) (actionTarget <$> filter kept g)) as Hmk.
    { apply Forall_forall. intros b Hb. apply (proj1 (Forall_forall _ _) Hm). by eapply elem_of_sublist. }
    assert ((action_path <$> filter kept g) = (tgFieldPath <$> (actionTarget <$> filter kept g))) as ->
      by (by rewrite -list_fmap_compose). by apply mates_apart.
  - intros Hk%fmap_nil_inv. apply Hv, map_empty. intros p.
    destruct (Hmap (proj1 (paths_apart_spec _ Hpa))) as [_ Hout].
    rewrite Hout; [by rewrite lookup_empty|]. rewrite Hk. apply not_elem_of_nil.
Qed.

(** A run that fails moves no field but its own. *)
Lemma restoreGroupedActions_frame g a0 w e w' es :
  one_object actionTarget g → head g = Some a0 → good_actions g →
  restoreGroupedActions (actionTarget a0) g w = (Err e, w', es) → moved_only (actionTarget <$> g) w w'.
Proof.
  intros Ho H0 Hg H t Ht Hap. unfold restoreGroupedActions in H.
  assert (compat (actionTarget a0) t) as Hc.
  { destruct g as [|x g']; simplify_eq/=. apply Forall_cons in Hap as [Hap _]. by apply apart_compat. }
  apply bind_inv in H as [(e' & Hs & _) | ([[paths values] keys] & w1 & es1 & es2 & Hs & H & _)].
  { by apply scan_actions_spec in Hs as (-> & _). }
  destruct (scan_actions_spec _ _ _ _ _ _ _ _ Hs) as (-> & -> & _). cbv beta iota in H.
  apply bind_inv in H as [(e' & Hi & _) | (u & w2 & es3 & es4 & Hi & Ha & _)].
  - case_decide; [by apply ret_inv in Hi as (? & _)|]. apply mapErr_err_inv in Hi as (e2 & Hi & _).
    by eapply PatchIntegers_err_frame.
  - (* the integers were written, the annotations were not *)
    rewrite (stamp_frame _ _ _ _ _ _ _ _ Ha Ht Hc). by eapply (restored_ints_frame g a0).
Qed.

Lemma restore_run_spec g w r w' es :
  one_object actionTarget g → good_actions g → restore_run g w = (r, w', es) →
  moved_only (actionTarget <$> g) w w' ∧ (r = Ok () → ∀ a, a ∈ g → lowered w w' a).
Proof.
  intros Ho Hg H. pose proof Ho as (a & rest & -> & _). destruct rest as [|b rest]; cbn [restore_run] in H.
  - assert (plain_field (actionTarget a)) as Hp by (apply (good_action_plain [a]); [done | left]).
    assert (in_i32 (saBaseline a)) as Hb by (destruct Hg as [_ Hb]; by apply Forall_cons in Hb as [Hb _]).
    destruct r as [[]|e].
    + apply restoreOneAction_spec in H as [Hl Hm]; [|done..]. split; [done|].
      intros _ c [->|[]%not_elem_of_nil]%elem_of_cons. done.
    + split; [by eapply restoreOneAction_frame | done].
  - destruct r as [[]|e].
    + apply restoreGroupedActions_spec in H as [Hl Hm]; [done..|]. done.
    + split; [|done]. by eapply restoreGroupedActions_frame.
Qed.

(** The restoration [gs] that led from [w] to [w'] with the effects [es] skipped
    the action [a]: when the runs before its own were done, the API answered that
    the object is gone, and the restoration went on with the runs after it. *)
Definition skipped (gs : list (list ScaleAction)) (w w' : W) (es : list effect) (a : ScaleAction) : Prop :=
  ∃ gs1 g gs2 w1 w2 e es1 es2 es3, gs = gs1 ++ g :: gs2 ∧ a ∈ g
    ∧ for_each restore_or_skip gs1 w = (Ok (), w1, es1)
    ∧ restore_run g w1 = (Err e, w2, es2) ∧ IsNotFound e = true
    ∧ for_each restore_or_skip gs2 w2 = (Ok (), w', es3)
    ∧ es = es1 ++ es2 ++ es3.

Lemma restore_or_skip_inv g w u w' es :
  restore_or_skip g w = (Ok u, w', es) →
  ∃ r, restore_run g w = (r, w', es) ∧ (r = Ok () ∨ ∃ e, r = Err e ∧ IsNotFound e = true).
Proof.
  unfold restore_or_skip. intros (r & w2 & es3 & es4 & Ht & Hr & ->)%bind_ok_inv. unfold try in Ht.
  destruct (restore_run g w) as [[r' w''] es''] eqn:E. injection Ht as <- <- <-. exists r'.
  destruct r' as [[]|e]; [|destruct (IsNotFound e) eqn:Ee; [|by apply lift_inv in Hr as (? & _)]];
    apply ret_inv in Hr as (_ & -> & ->); rewrite app_nil_r; eauto.
Qed.

(** Nothing is skipped where no object is gone. *)
Lemma nothing_skipped gs w w' es a :
  is_ok (res (for_each restore_run gs) w) = true → ¬ skipped gs w w' es a.
Proof.
  intros H (gs1 & g & gs2 & w1 & w2 & e & es1 & es2 & es3 & -> & _ & H1 & H2 & _).
  revert w es1 H H1. induction gs1 as [|h gs1 IH]; intros w es1; cbn [app for_each].
  - intros H (_ & <- & _)%ret_inv. unfold res in H. rewrite bind_eq H2 in H. done.
  - intros H ([] & v & es4 & es5 & (r & Hr & _)%restore_or_skip_inv & H3 & _)%bind_ok_inv.
    unfold res in H. rewrite bind_eq Hr in H. destruct r as [[]|e']; [|done].
    apply (IH v es5); [|exact H3]. unfold res. by destruct (for_each restore_run (gs1 ++ g :: gs2) v) as [[? ?] ?].
Qed.

Lemma lowered_frame w w1 w2 w3 a :
  raw w1 (actionTarget a) = raw w (actionTarget a) → raw w3 (actionTarget a) = raw w2 (actionTarget a) →
  lowered w1 w2 a → lowered w w3 a.
Proof.
  unfold lowered. intros H1 H2. destruct (saSkipDownscaling a); [congruence|].
  intros (v & Hv & Hc). exists v. split; [by eapply val_raw | by eapply changed_to_frame].
Qed.

Lemma restore_runs_spec gs w w' es :
  Forall (one_object actionTarget) gs → good_actions (concat gs) →
  for_each restore_or_skip gs w = (Ok (), w', es) →
  (∀ a, a ∈ concat gs → lowered w w' a ∨ skipped gs w w' es a) ∧ moved_only (actionTarget <$> concat gs) w w'.
Proof.
  revert w es. induction gs as [|g gs IH]; intros w es Ho Hg H; cbn [for_each] in H.
  { apply ret_inv in H as (_ & -> & _). split; [by intros ? ?%not_elem_of_nil | apply moved_only_refl]. }
  apply Forall_cons in Ho as [Ho Hos]. cbn [concat] in Hg |- *. apply good_actions_app in Hg as (Hg1 & Hg2 & Hap).
  apply bind_ok_inv in H as ([] & w1 & es1 & es2 & Hg & H & ->).
  pose proof Hg as (r & Erun & Hcase)%restore_or_skip_inv.
  apply restore_run_spec in Erun as HR; [|done..]. destruct HR as [Hm1 Hl1].
  apply IH in H as HI; [|done..]. destruct HI as [Hl2 Hm2]. split.
  - intros a [Ha|Ha]%elem_of_app.
    + destruct Hcase as [->|(e & -> & He)].
      * left. eapply lowered_frame; [| |by apply Hl1]; [done|]. apply Hm2; [by apply (good_action_plain g)|].
        rewrite Forall_fmap. apply Forall_forall. intros b Hb. apply apart_sym. by apply Hap.
      * right. exists [], g, gs, w, w1, e, [], es1, es2. done.
    + destruct (Hl2 a Ha) as [Hl|(gs1 & g' & gs2 & w3 & w4 & e & es3 & es4 & es5 & -> & Ha' & H1 & H2 & He & H3 & ->)].
      * left. eapply lowered_frame; [| |exact Hl]; [|done]. apply Hm1; [by apply (good_action_plain (concat gs))|].
        rewrite Forall_fmap. apply Forall_forall. intros b Hb. by apply Hap.
      * right. exists (g :: gs1), g', gs2, w3, w4, e, (es1 ++ es3), es4, es5. do 2 (split; [done|]). split; [|by rewrite -!app_assoc].
        cbn [for_each]. by rewrite bind_eq Hg H1.
  - rewrite fmap_app. by eapply moved_only_trans.
Qed.

(** The actions a window restores, with its namespace filled in. *)
Definition window_actions (win : EvictionGuardWindow) : list ScaleAction :=
  default_ns (mNamespace (winMeta win)) <$> ScaleActions win.

(** C25: scaling back: when restoring succeeds, every recorded action's field ends
    at the minimum of its value and the recorded baseline (an up-only action's
    is untouched), unless this very restoration skipped it, because the API
    answered that its object is gone when its turn came; it never raises a field,
    and changes no other integer field of the cluster. *)
Theorem restoreActions_lowers win w w' es :
  good_actions (window_actions win) → restoreActions win w = (Ok (), w', es) →
  (∀ a, a ∈ window_actions win → lowered w w' a ∨ skipped (runs actionTarget (window_actions win)) w w' es a)
  ∧ ∀ t, plain_field t → Forall (λ a, apart (actionTarget a) t) (window_actions win) → raw w' t = raw w t.
Proof.
  intros Hg H. unfold restoreActions in H. fold (window_actions win) in H.
  apply restore_runs_spec in H as [Hl Hm].
  - rewrite runs_concat in Hl, Hm. split; [exact Hl|]. intros t Hp Ha. apply Hm; [done|]. by rewrite Forall_fmap.
  - apply runs_one_object.
  - by rewrite runs_concat.
Qed.

(** The window that records an applied plan. *)
Definition records (win : EvictionGuardWindow) (p : scalePlan) : Prop :=
  window_actions win = step_action <$> planSteps p.

Lemma step_action_target s :
  let t := actionTarget (step_action s) in
  tgAPIVersion t = tgAPIVersion (spTarget s) ∧ tgKind t = tgKind (spTarget s) ∧ tgKey t = tgKey (spTarget s)
  ∧ tgFieldPath t = tgFieldPath (spTarget s).
Proof. unfold step_action. rewrite actionTarget_scaleAction. done. Qed.

Lemma good_steps_actions l :
  good_steps l → Forall (λ s, in_i32 (spBaseline s)) l → good_actions (step_action <$> l).
Proof.
  intros [[Hpw Hpl] _] Hb. unfold good_actions, good_targets. rewrite -list_fmap_compose pairwise_fmap !Forall_fmap.
  rewrite pairwise_fmap in Hpw. rewrite Forall_fmap in Hpl. split; [split|done].
  - eapply pairwise_impl; [|exact Hpw]. intros x y _ _ Hxy. simpl.
    destruct (step_action_target x) as (X1 & X2 & X3 & X4), (step_action_target y) as (Y1 & Y2 & Y3 & Y4).
    apply (apart_ext (spTarget x)); [done..|]. apply apart_sym.
    apply (apart_ext (spTarget y)); [done..|]. by apply apart_sym.
  - eapply Forall_impl; [exact Hpl|]. intros s Hs. unfold plain_field in *. cbn beta.
    unfold compose. by rewrite (proj2 (proj2 (proj2 (step_action_target s)))).
Qed.

(** Restoring reads the field without the catalog's default; the value it
    leaves is the baseline all the same. *)
Lemma restored_value w w1 w2 t t' b d v :
  (∀ x, raw x t' = raw x t) → in_i32 b → in_i32 d →
  val w t = Ok b → changed_to w w1 t (b <? d) d → val w1 t' = Ok v → changed_to w1 w2 t' (v >? b) b →
  val w2 t = Ok b.
Proof.
  unfold changed_to. intros Hx Hb Hd H0 H1 Hv H2. rewrite !Hx in H2. destruct (v >? b) eqn:Evb; [by apply val_set|].
  destruct (b <? d) eqn:Ebd; [|by eapply val_raw; [rewrite H2|]].
  assert (val w1 t' = Ok d) as Hvd by (apply val_set; [by rewrite Hx | done]).
  rewrite Hv in Hvd. injection Hvd as ->. lia.
Qed.

(** C12: the round trip of a disruption window: a plan whose baselines are the
    current values is applied, then the window that records it is restored; if
    both succeed, every field of the plan that is not up-only reads its original
    value again, unless the restoration skipped it because the API answered that
    its object is gone when its turn came, and no other integer field of the
    cluster changed. *)
Theorem apply_restore_roundtrip p pn win w sc w1 es1 w2 es2 :
  good_steps (planSteps p) → Forall (λ s, in_i32 (spBaseline s)) (planSteps p) →
  (∀ s, s ∈ planSteps p → val w (spTarget s) = Ok (spBaseline s)) →
  records win p →
  apply p pn w = (Ok (sc, None), w1, es1) → restoreActions win w1 = (Ok (), w2, es2) →
  (∀ s, s ∈ planSteps p → spSkipDownscaling s = false →
     val w2 (spTarget s) = Ok (spBaseline s)
     ∨ skipped (runs actionTarget (window_actions win)) w1 w2 es2 (step_action s))
  ∧ ∀ t, plain_field t → Forall (λ s, apart (spTarget s) t) (planSteps p) → raw w2 t = raw w t.
Proof.
  intros Hg Hb Hcur Hrec Hap Hres. unfold apply in Hap. apply apply_groups_spec in Hap as [Hup Hm1];
    [|apply runs_one_object | by rewrite runs_concat]. rewrite runs_concat in Hup, Hm1.
  unfold restoreActions in Hres. fold (window_actions win) in Hres.
  apply restore_runs_spec in Hres as [Hdown Hm2]; [|apply runs_one_object |].
  2:{ rewrite runs_concat Hrec. by apply good_steps_actions. }
  rewrite !runs_concat in Hdown, Hm2. rewrite Hrec in Hdown, Hm2. split.
  - intros s Hs Hskip. destruct (Hdown (step_action s) (list_elem_of_fmap_2 _ _ _ Hs)) as [Hl|Hsk];
      [left | right; by rewrite Hrec].
    unfold lowered in Hl. simpl in Hl. rewrite Hskip in Hl. destruct Hl as (v & Hv & Hc).
    destruct (step_action_target s) as (T1 & T2 & T3 & T4).
    destruct (Hup s Hs) as (b & Hb0 & Hb1). rewrite (Hcur s Hs) in Hb0. injection Hb0 as <-.
    destruct Hg as [_ Hd].
    apply (restored_value w w1 w2 (spTarget s) (actionTarget (step_action s)) _ (spDesired s) v); try done.
    + intros x. by apply raw_ext.
    + by apply (proj1 (Forall_forall _ _) Hb).
    + by apply (proj1 (Forall_forall _ _) Hd).
    + by apply Hcur.
  - intros t Hp Ha. rewrite Hm2; [|done|].
    + apply Hm1; [done|]. by rewrite Forall_fmap.
    + rewrite -list_fmap_compose Forall_fmap. eapply Forall_impl; [exact Ha|]. intros s Hs. simpl.
      destruct (step_action_target s) as (T1 & T2 & T3 & T4). by apply (apart_ext (spTarget s)).
Qed.

(** ** Planning *)

(** The baseline of a step: the recorded one, else the live value. *)
Definition baseline_of (w : W) (existing : list ScaleAction) (r : ResolvedStep) (b : Z) : Prop :=
  match findAction existing (stepKey r) (stepTarget r) with
  | Some old => b = saBaseline old
  | None => val w (stepTarget r) = Ok b
  end.

(** A planned step, for a resolved one. *)
Definition planned (w : W) (existing : list ScaleAction) (stamp : resourceStamp) (desired : Z)
  (r : ResolvedStep) (s : scaleStep) : Prop :=
  spKey s = stepKey r ∧ spTarget s = stepTarget r ∧ spSkipDownscaling s = stepSkipDownscaling r
  ∧ spDesired s = desired ∧ baseline_of w existing r (spBaseline s)
  ∧ spStamp s = foldl (λ m a, <[a := "true"]> m) (stamp_values stamp (spBaseline s) desired) (stepAnnotations r)
  ∧ spStampKeys s = uniqueStrings (stamp_keys stamp ++ stepAnnotations r).

(** The value every step of a plan is raised to. *)
Definition plan_target (p : EvictionGuardPolicy) (baseline atRisk : Z) : Z :=
  TargetReplicas baseline atRisk (SpareReplicasOrDefault p) (MaxBufferOrDefault p).

Lemma plan_steps_spec stamp p atRisk existing resolved first primary desired out w r w' es :
  plan_steps stamp p atRisk existing resolved first primary desired out w = (r, w', es) →
  w' = w ∧ es = [] ∧ ∀ pl, r = Ok pl →
    ∃ l, planSteps pl = out ++ l ∧ Forall2 (planned w existing stamp (planDesired pl)) resolved l
    ∧ (if first then match l with
                     | [] => planDesired pl = desired ∧ planPrimaryBaseline pl = primary
                     | s :: _ => planPrimaryBaseline pl = spBaseline s
                                 ∧ planDesired pl = plan_target p (spBaseline s) atRisk
                     end
       else planDesired pl = desired ∧ planPrimaryBaseline pl = primary).
Proof.
  revert first primary desired out. induction resolved as [|step rest IH]; intros first primary desired out H;
    cbn [plan_steps] in H.
  { apply ret_inv in H as (-> & -> & ->). split; [done|]. split; [done|]. intros pl [= <-]. exists [].
    rewrite app_nil_r. split; [done|]. split; [constructor|]. by destruct first. }
  apply bind_inv in H as [(e & Hb & ->) | (b & w1 & es1 & es2 & Hb & H & ->)].
  { destruct (findAction existing _ _) as [old|]; [by apply ret_inv in Hb as (? & _)|].
    rewrite Current_run in Hb. by injection Hb as _ <- <-. }
  assert (w1 = w ∧ es1 = [] ∧ baseline_of w existing step b) as (-> & -> & Hbase).
  { unfold baseline_of. destruct (findAction existing _ _) as [old|].
    - apply ret_inv in Hb as (Hb & -> & ->). by injection Hb as ->.
    - rewrite Current_run in Hb. injection Hb as Hb <- <-. done. }
  cbv zeta in H. apply IH in H as (-> & -> & Hpl). split; [done|]. split; [done|]. intros pl Hr.
  destruct (Hpl pl Hr) as (l & Hl & Hall & Hd & Hp).
  eexists (_ :: l). rewrite Hl -app_assoc. split; [reflexivity|]. split.
  - constructor; [|done]. rewrite Hd. unfold planned. cbn [spKey spTarget spSkipDownscaling spDesired spBaseline spStamp spStampKeys]. done.
  - destruct first; [|done]. split; [exact Hp | exact Hd].
Qed.

(** Planning only reads. *)
Lemma buildPlan_reads policy dep atRisk existing sticky w r w' es :
  buildPlan policy dep atRisk existing sticky w = (r, w', es) → w' = w ∧ es = [].
Proof.
  intros H. unfold buildPlan in H. destruct policy as [p|]; [|by injection H as <- <- <-].
  case_decide; [by injection H as <- <- <-|].
  apply bind_inv in H as [(e & Hb & ->) | (bs & w1 & es1 & es2 & Hb & H & ->)].
  { by apply lift_inv in Hb as (_ & -> & ->). }
  apply lift_inv in Hb as (Hb & -> & ->).
  apply bind_inv in H as [(e & Hr & ->) | (rs & w1 & es1 & es3 & Hr & H & ->)].
  { by apply lift_inv in Hr as (_ & -> & ->). }
  apply lift_inv in Hr as (Hr & -> & ->). cbv zeta in H. destruct rs as [|s rs].
  - by apply ret_inv in H as (_ & -> & ->).
  - by apply plan_steps_spec in H as (-> & -> & _).
Qed.

(** Applying always answers. *)
Lemma scan_group_ok g acc w : ∃ x, scan_group g acc w = (Ok x, w, []).
Proof.
  revert acc. induction g as [|s g IH]; intros acc; cbn [scan_group]; [by eexists|].
  unfold mbind, M_bind, try. rewrite Current_run. destruct (val w (spTarget s)) as [v|e]; [|by eexists].
  destruct (IH (MkScan (scPaths acc ++ [tgFieldPath (spTarget s)])
              (if v <? spDesired s then <[tgFieldPath (spTarget s) := spDesired s]> (scValues acc) else scValues acc)
              (spStamp s ∪ scStamp acc) (scRaised acc || (v <? spDesired s)))) as [x Hx].
  exists x. cbv zeta. by rewrite Hx.
Qed.

Definition answers {A} (m : M W A) : Prop := ∀ w, is_ok (m w).1.1 = true.

Lemma answers_ret {A} (a : A) : answers (mret a : M W A).
Proof. by intros w. Qed.
Lemma answers_tell e : answers (tell e : M W unit).
Proof. by intros w. Qed.
Lemma answers_try {A} (m : M W A) : answers (try m).
Proof. intros w. unfold try. by destruct (m w) as [[? ?] ?]. Qed.
Lemma answers_bind {A B} (m : M W A) (f : A → M W B) : answers m → (∀ a, answers (f a)) → answers (m ≫= f).
Proof.
  intros Hm Hf w. unfold mbind, M_bind. specialize (Hm w). destruct (m w) as [[[a|e] w'] es]; [|done].
  specialize (Hf a w'). by destruct (f a w') as [[r w''] es'].
Qed.

Lemma apply_group_answers pn b label g : answers (apply_group pn b label g).
Proof.
  unfold apply_group. apply answers_bind.
  { intros w. destruct (scan_group_ok g (MkScan [] ∅ ∅ false) w) as [x ->]. done. }
  intros [sc|[t e]]; [|apply answers_ret]. apply answers_bind.
  - case_decide; [apply answers_ret|]. apply answers_bind; [apply answers_try|]. intros [u|e]; [|apply answers_ret].
    apply answers_bind; [case_match; [apply answers_tell | apply answers_ret] | intros ?; apply answers_ret].
  - intros [[m s] [e|]]; [apply answers_ret|]. case_decide; [apply answers_ret|].
    apply answers_bind; [apply answers_try | intros [u|e]; apply answers_ret].
Qed.

Lemma compensate_answers gs first : answers (compensate_rev gs first : M W _).
Proof.
  revert first. induction gs as [|g gs IH]; intros first; cbn [compensate_rev]; [apply answers_ret|].
  apply answers_bind; [apply answers_try | intros r; apply IH].
Qed.

Lemma apply_answers p pn : answers (apply p pn).
Proof.
  unfold apply. generalize (runs spTarget (planSteps p)), (@nil (list scaleStep)), false.
  intros gs. induction gs as [|[|s0 g] gs IH]; intros applied scaled; cbn [apply_groups]; [apply answers_ret | apply IH|].
  apply answers_bind; [apply apply_group_answers|]. intros [[m r] [e|]]; [|apply IH].
  apply answers_bind; [apply compensate_answers | intros ?; apply answers_ret].
Qed.

(** A successful [apply]. *)
Lemma apply_spec p pn w sc w' es :
  good_steps (planSteps p) → apply p pn w = (Ok (sc, None), w', es) →
  (∀ s, s ∈ planSteps p → raised w w' s) ∧ moved_only (spTarget <$> planSteps p) w w'.
Proof.
  intros Hg H. unfold apply in H. apply apply_groups_spec in H as [Hup Hm];
    [|apply runs_one_object | by rewrite runs_concat]. by rewrite runs_concat in Hup, Hm.
Qed.

(** A successful [buildPlan]. *)
Lemma buildPlan_ok policy dep atRisk existing sticky w pl w' es :
  buildPlan policy dep atRisk existing sticky w = (Ok pl, w', es) →
  ∃ p bindings resolved, policy = Some p
    ∧ BindingsForWorkload dep policy = Ok bindings ∧ ResolveCatalog dep policy bindings = Ok resolved
    ∧ Forall2 (planned w existing (resolveStamp p dep) (planDesired pl)) resolved (planSteps pl)
    ∧ planDesired pl = plan_target p (planPrimaryBaseline pl) atRisk
    ∧ planPrimaryBaseline pl = match planSteps pl with
                               | s :: _ => spBaseline s
                               | [] => if sticky <=? 0 then deployReplicas dep else sticky
                               end.
Proof.
  intros H. unfold buildPlan in H. destruct policy as [p|]; [|done]. case_decide; [done|].
  apply bind_ok_inv in H as (bs & w1 & es1 & es2 & Hb & H & ->). apply lift_inv in Hb as (Hb & -> & ->).
  apply bind_ok_inv in H as (rs & w1 & es1 & es3 & Hr & H & ->). apply lift_inv in Hr as (Hr & -> & ->).
  cbv zeta in H. destruct rs as [|s rs].
  - apply ret_inv in H as (Hpl & -> & ->). injection Hpl as ->.
    exists p, bs, []. do 3 (split; [done|]). split; [constructor | done].
  - apply plan_steps_spec in H as (-> & -> & H).
    destruct (H pl eq_refl) as (l & Hl & Hall & Hd). simpl in Hl. exists p, bs, (s :: rs).
    do 3 (split; [done|]). rewrite Hl. split; [done|]. apply Forall2_cons_inv_l in Hall as (s0 & l0 & _ & _ & ->).
    destruct Hd as [Hp Hd]. split; [by rewrite Hp | done].
Qed.

(** C26: planning reads the cluster and changes nothing; a plan has one step per
    resolved path in catalog order, each with the baseline already recorded for
    it, else the live value (so a scaled-up value is never taken for a
    baseline), and all raised to the target computed from the first one; a
    workload whose catalog entries patch no path gets a plan without steps. *)
Theorem buildPlan_spec policy dep atRisk existing sticky w r w' es :
  buildPlan policy dep atRisk existing sticky w = (r, w', es) →
  w' = w ∧ es = [] ∧ ∀ pl, r = Ok pl →
    ∃ p bindings resolved, policy = Some p
      ∧ BindingsForWorkload dep policy = Ok bindings ∧ ResolveCatalog dep policy bindings = Ok resolved
      ∧ Forall2 (planned w existing (resolveStamp p dep) (planDesired pl)) resolved (planSteps pl)
      ∧ planDesired pl = plan_target p (planPrimaryBaseline pl) atRisk
      ∧ planPrimaryBaseline pl = match planSteps pl with
                                 | s :: _ => spBaseline s
                                 | [] => if sticky <=? 0 then deployReplicas dep else sticky
                                 end.
Proof.
  intros H. destruct (buildPlan_reads _ _ _ _ _ _ _ _ _ H) as [-> ->]. do 2 (split; [done|]).
  intros pl ->. by eapply buildPlan_ok.
Qed.

(** ** Baselines stick *)

Lemma actionKey_step s : actionKey (step_action s) = actionKey (scaleAction (spKey s) (spTarget s) 0 0 [] false).
Proof. done. Qed.

(** One baseline per key. *)
Definition consistent (l : list ScaleAction) : Prop :=
  ∀ a b, a ∈ l → b ∈ l → actionKey a = actionKey b → saBaseline a = saBaseline b.

Lemma consistent_singleton a : consistent [a].
Proof. by intros x y ->%list_elem_of_singleton ->%list_elem_of_singleton. Qed.

Lemma plan_step_baseline policy dep atRisk existing sticky w pl w' es s a :
  buildPlan policy dep atRisk existing sticky w = (Ok pl, w', es) → consistent existing →
  s ∈ planSteps pl → a ∈ existing → actionKey (step_action s) = actionKey a → spBaseline s = saBaseline a.
Proof.
  intros H Hc Hs Ha Hk. apply buildPlan_ok in H as (p & bs & rs & _ & _ & _ & Hall & _).
  apply list_elem_of_lookup in Hs as [i Hi]. destruct (Forall2_lookup_r _ _ _ _ _ Hall Hi) as (r & _ & Hp).
  destruct Hp as (Hk1 & Ht & _ & _ & Hb & _). unfold baseline_of in Hb. rewrite actionKey_step Hk1 Ht in Hk.
  destruct (findAction existing _ _) as [old|] eqn:Ef.
  - apply findAction_Some in Ef as [Hin Ho]. rewrite Hb. apply Hc; [done..|]. by rewrite Ho.
  - by destruct (findAction_None _ _ _ Ef a Ha).
Qed.

(** C21: re-planning an open window never takes a raised value for a baseline:
    when the recorded actions agree on the baseline of a key and the plan has
    steps, every action recorded before either stays as it is, or gives way to the action of a plan step with the same action key (the
    catalog key, the object's namespace and name and the path; not its
    apiVersion and kind), which is recorded with the baseline of the action it
    replaces, however far the field was raised since; and no action under that
    key has another baseline.  A plan without steps (the catalog entry was
    removed or made external) drops every record. *)
Theorem plan_keeps_baselines policy dep atRisk existing sticky w pl w' es :
  buildPlan policy dep atRisk existing sticky w = (Ok pl, w', es) → consistent existing →
  (planSteps pl ≠ [] → ∀ a, a ∈ existing →
     ((a ∈ plan_actions pl existing ∧ ∀ s, s ∈ planSteps pl → actionKey (step_action s) ≠ actionKey a)
      ∨ ∃ s, s ∈ planSteps pl ∧ actionKey (step_action s) = actionKey a ∧ spBaseline s = saBaseline a
             ∧ step_action s ∈ plan_actions pl existing)
     ∧ ∀ a', a' ∈ plan_actions pl existing → actionKey a' = actionKey a → saBaseline a' = saBaseline a)
  ∧ (planSteps pl = [] → plan_actions pl existing = []).
Proof.
  intros H Hc. unfold plan_actions. split; [|by intros ->]. intros Hne a Ha.
  assert (match planSteps pl with [] => step_action <$> planSteps pl | _ => mergeActions existing (step_action <$> planSteps pl) end
          = mergeActions existing (step_action <$> planSteps pl)) as -> by by destruct (planSteps pl).
  assert (∀ s, s ∈ planSteps pl → actionKey (step_action s) = actionKey a → spBaseline s = saBaseline a) as Hstep
    by (intros; by eapply plan_step_baseline).
  unfold mergeActions. split.
  - destruct (decide (actionKey a ∈ (actionKey <$> (step_action <$> planSteps pl)))) as [Hin|Hn].
    + right. apply list_elem_of_fmap in Hin as (b & Hb & (s & -> & Hs)%list_elem_of_fmap). exists s.
      split; [done|]. split; [done|]. split; [by apply Hstep|]. apply elem_of_app. left. by apply list_elem_of_fmap_2.
    + left. split; [apply elem_of_app; right; by apply list_elem_of_filter|].
      intros s Hs Hk. apply Hn. rewrite -Hk. by do 2 apply list_elem_of_fmap_2.
  - intros a' [(s & -> & Hs)%list_elem_of_fmap|[_ Hin]%list_elem_of_filter]%elem_of_app Hk.
    + by apply Hstep.
    + by apply Hc.
Qed.
End spec.


(** ** Witnesses *)

(** A Deployment and the minimum of its autoscaler, to be raised to five. *)
Definition web_step : scaleStep := MkScaleStep "deploy" web_target 3 5 ∅ ["note"] false.
Definition hpa_step : scaleStep := MkScaleStep "hpa" hpa_target 2 5 ∅ [] false.
Definition web_plan : scalePlan := MkPlan [web_step; hpa_step] 3 5.
Definition web_window : EvictionGuardWindow :=
  MkWindow (meta "w" "shop")
    (MkWindowSpec "p" (MkWorkloadRef "apps/v1" "Deployment" "web" "shop")
       (step_action <$> planSteps web_plan) 3 5 ["n1"] None)
    empty_window_status.

(** The two fields are on different objects. *)
Lemma web_hpa_apart : apart web_target hpa_target.
Proof. intros ga gb Ha Hb (_ & _ & H). discriminate H. Defined.

Lemma web_plan_good : good_steps (planSteps web_plan).
Proof.
  split; [split|].
  - split; [|split; [constructor|exact I]]. constructor; [exact web_hpa_apart | constructor].
  - repeat constructor; vm_compute; discriminate.
  - repeat constructor; vm_compute; discriminate.
Defined.

(** The cluster before and after the plan, and after the restoration. *)
Definition idle : Cluster := objects 3 2 10.
Definition scaled_up : Cluster := (apply web_plan "p" idle).1.2.

Lemma web_plan_applies : ∃ es, apply web_plan "p" idle = (Ok (true, None), scaled_up, es).
Proof.
  assert ((apply web_plan "p" idle).1.1 = Ok (true, None)) as H by (vm_compute; reflexivity).
  exact (ex_intro _ _ (run_of _ _ _ H)).
Qed.

Lemma apply_raises_witness :
  ∃ v, val idle (spTarget hpa_step) = Ok v ∧ val scaled_up (spTarget hpa_step) = Ok (v `max` spDesired hpa_step).
Proof.
  destruct web_plan_applies as [es H].
  refine (proj1 (apply_raises web_plan "p" idle true _ es web_plan_good H) hpa_step _). right. left.
Defined.

Lemma web_window_good : good_actions (window_actions web_window).
Proof.
  split; [split|].
  - split; [|split; [constructor|exact I]]. constructor; [exact web_hpa_apart | constructor].
  - repeat constructor; vm_compute; discriminate.
  - repeat constructor; vm_compute; discriminate.
Defined.

Definition scaled_back : Cluster := (restoreActions web_window scaled_up).1.2.

Lemma web_window_restores : ∃ es, restoreActions web_window scaled_up = (Ok (), scaled_back, es).
Proof.
  assert ((restoreActions web_window scaled_up).1.1 = Ok ()) as H by (vm_compute; reflexivity).
  exact (ex_intro _ _ (run_of _ _ _ H)).
Qed.

(** Both objects are there. *)
Lemma web_none_skipped w' es a : ¬ skipped (runs actionTarget (window_actions web_window)) scaled_up w' es a.
Proof. apply nothing_skipped. vm_compute. reflexivity. Defined.

Lemma restoreActions_lowers_witness : lowered scaled_up scaled_back (step_action web_step).
Proof.
  destruct web_window_restores as [es H].
  destruct (proj1 (restoreActions_lowers web_window scaled_up _ es web_window_good H) (step_action web_step)) as [Hl|Hs].
  - left.
  - exact Hl.
  - destruct (web_none_skipped _ _ _ Hs).
Defined.

Lemma apply_restore_roundtrip_witness : val scaled_up (spTarget web_step) = Ok 5 ∧ val scaled_back (spTarget web_step) = Ok 3.
Proof.
  split; [vm_compute; reflexivity|].
  destruct web_plan_applies as [es1 H1], web_window_restores as [es2 H2].
  destruct (proj1 (apply_restore_roundtrip web_plan "p" web_window idle true _ es1 _ es2
            web_plan_good ltac:(repeat constructor; vm_compute; discriminate)
            ltac:(intros s; cbn; rewrite !elem_of_cons; intros [->|[->|[]%not_elem_of_nil]]; vm_compute; reflexivity)
            eq_refl H1 H2) web_step ltac:(left) eq_refl) as [Hv|Hs].
  - exact Hv.
  - destruct (web_none_skipped _ _ _ Hs).
Defined.

Definition plan_policy : EvictionGuardPolicy :=
  simple_policy "p" [("deploy", MkCatalogEntry "apps/v1" "Deployment" [MkBackendPatch "spec.replicas" ""] false None)]
    None.
Definition plan_deployment : Deployment :=
  MkDeployment (MkMeta "web" "shop" ∅ {[ ScaleBackendAnnotation := "deploy" ]} None 1 [] [] 1) (Some 3) (Some any_selector) ∅.

Lemma buildPlan_spec_witness :
  ∃ pl, (buildPlan (Some plan_policy) (Some plan_deployment) 2 [] 0 idle).1.1 = Ok pl
        ∧ planDesired pl = plan_target plan_policy 3 2.
Proof.
  eexists. split; [vm_compute; reflexivity|].
  destruct (buildPlan_spec (Some plan_policy) (Some plan_deployment) 2 [] 0 idle _ _ _ (run_of _ _ _ eq_refl))
    as (_ & _ & H).
  destruct (H _ ltac:(vm_compute; reflexivity)) as (p & bs & rs & [= <-] & _ & _ & _ & Hd & Hp).
  rewrite Hd. reflexivity.
Defined.

(** The live value is 5, the recorded baseline 3. *)
Lemma plan_keeps_baselines_witness :
  ∃ pl, (buildPlan (Some plan_policy) (Some plan_deployment) 2 [step_action web_step] 0 scaled_up).1.1 = Ok pl
        ∧ planSteps pl ≠ [] ∧ ∀ a', a' ∈ plan_actions pl [step_action web_step] →
            actionKey a' = actionKey (step_action web_step) → saBaseline a' = 3.
Proof.
  eexists. split; [vm_compute; reflexivity|]. split; [discriminate|].
  apply (proj1 (plan_keeps_baselines (Some plan_policy) (Some plan_deployment) 2 [step_action web_step] 0 scaled_up
           _ _ _ (run_of _ _ _ eq_refl) (consistent_singleton _)) ltac:(discriminate) (step_action web_step)).
  left.
Defined.
