(* ===== verification/Frame.v ===== *)
(** * What touching capacity leaves alone

    Planning, applying, restoring and stamping reach the cluster through patches
    of unstructured objects only: every relation between states that such a
    patch respects is respected by all of plan.go.  The clients instantiate it
    with "the windows are as they were" and "the pods are as they were". *)
From S2P Require Import Prelude GoStrings GoTime Meta Api Kube Fields ScaleActions Plan PlanSpec.

Section frame.
Context {Obj W : Type} `{L : KubeLib} `{C : Client Obj W}.
Context (R : W → W → Prop) `{!PreOrder R} (R_patch : ∀ g k p w, R w (patchUnstructured g k p w).2).

Lemma PatchObject_frame g k p : keeps R (PatchObject g k p : M W unit).
Proof. apply keeps_write. intros w. apply R_patch. Qed.

Lemma PatchAnnotations_keeps t anns : keeps R (PatchAnnotations t anns : M W unit).
Proof.
  unfold PatchAnnotations, send_patch. case_decide; [apply keeps_ret, _|].
  apply keeps_bind; [apply _|apply keeps_lift, _|]. intros g. apply keeps_bind; [apply _|apply keeps_mapErr, keeps_reads, _|].
  intros o. cbv zeta. case_decide; [apply keeps_ret, _ | apply keeps_mapErr, PatchObject_frame].
Qed.

Lemma get_frame t : keeps R (get t : M W _).
Proof. unfold get. keeps_tac. Qed.

Lemma Current_frame t : keeps R (Current t : M W _).
Proof. intros w. unfold final. rewrite PlanSpec.Current_run. reflexivity. Qed.

Lemma patch_keeps t v : keeps R (patch t v : M W unit).
Proof.
  unfold patch, send_patch. apply keeps_bind; [apply _|apply get_frame|]. intros [[g o] path].
  destruct (already _ _ _); [apply keeps_ret, _|]. apply keeps_bind; [apply _|apply keeps_lift, _|]. intros p.
  apply keeps_mapErr, PatchObject_frame.
Qed.

Lemma PatchIntegers_frame b paths values : keeps R (PatchIntegers b paths values : M W unit).
Proof.
  unfold PatchIntegers, send_patch. destruct paths as [|p0 paths]; [apply keeps_ret, _|].
  apply keeps_bind; [apply _|apply get_frame|]. intros [[g o] path]. apply keeps_bind; [apply _|apply keeps_lift, _|].
  intros [need p]. destruct (negb _); [apply keeps_ret, _ | apply keeps_mapErr, PatchObject_frame].
Qed.

Lemma scan_actions_frame g paths values keys : keeps R (scan_actions g paths values keys : M W _).
Proof.
  revert paths values keys. induction g as [|x g IH]; intros; cbn [scan_actions]; [apply keeps_ret, _|]. cbv zeta.
  destruct (saSkipDownscaling x); [apply IH|]. apply keeps_bind; [apply _|apply keeps_mapErr, Current_frame | intros v; apply IH].
Qed.

Lemma restore_run_frame l : keeps R (restore_run l : M W unit).
Proof.
  destruct l as [|a [|b l]]; cbn [restore_run]; [apply keeps_ret, _| |].
  - unfold restoreOneAction. cbv zeta. apply keeps_bind; [apply _| |intros ?; apply keeps_mapErr, PatchAnnotations_keeps].
    destruct (negb _); [|apply keeps_ret, _]. apply keeps_bind; [apply _|apply keeps_mapErr, Current_frame|].
    intros v. destruct (_ >? _)%Z; [apply keeps_mapErr, patch_keeps | apply keeps_ret, _].
  - unfold restoreGroupedActions. apply keeps_bind; [apply _|apply scan_actions_frame|].
    intros [[paths values] keys]. apply keeps_bind; [apply _| |intros ?; apply keeps_mapErr, PatchAnnotations_keeps].
    case_decide; [apply keeps_ret, _ | apply keeps_mapErr, PatchIntegers_frame].
Qed.

Lemma restoreActions_frame win : keeps R (restoreActions win : M W unit).
Proof.
  unfold restoreActions. apply keeps_for_each; [apply _|]. intros l _. unfold restore_or_skip.
  apply keeps_bind; [apply _|apply keeps_try, restore_run_frame|intros [u|e]; keeps_tac].
Qed.

Lemma stampCooldown_frame policy dep win until : keeps R (stampCooldown policy dep win until : M W unit).
Proof.
  unfold stampCooldown. cbv zeta. destruct (negb _); [apply keeps_ret, _|].
  apply keeps_for_each; [apply _|]. intros a _. apply PatchAnnotations_keeps.
Qed.

Lemma buildPlan_frame policy dep n existing sticky : keeps R (buildPlan policy dep n existing sticky : M W _).
Proof.
  intros w. unfold final. destruct (buildPlan policy dep n existing sticky w) as [[r w'] es] eqn:E.
  by apply buildPlan_reads in E as [-> _].
Qed.

Lemma scan_group_frame g acc : keeps R (scan_group g acc : M W _).
Proof. intros w. unfold final. by destruct (scan_group_ok g acc w) as [x ->]. Qed.

Lemma apply_group_frame pn base label g : keeps R (apply_group pn base label g : M W _).
Proof.
  unfold apply_group. apply keeps_bind; [apply _|apply scan_group_frame|]. intros [sc|[t e]]; [|apply keeps_ret, _].
  apply keeps_bind; [apply _| |].
  - case_decide; [apply keeps_ret, _|]. apply keeps_bind; [apply _|apply keeps_try, PatchIntegers_frame|].
    intros [u|e]; [|apply keeps_ret, _]. apply keeps_bind; [apply _| |intros ?; apply keeps_ret, _].
    destruct (scRaised sc); [apply keeps_tell, _ | apply keeps_ret, _].
  - intros [[m raised] [e|]]; [apply keeps_ret, _|]. case_decide; [apply keeps_ret, _|].
    apply keeps_bind; [apply _|apply keeps_try, PatchAnnotations_keeps | intros [u|e]; apply keeps_ret, _].
Qed.

Lemma compensate_frame gs first : keeps R (compensate_rev gs first : M W _).
Proof.
  revert first. induction gs as [|g gs IH]; intros first; cbn [compensate_rev]; [apply keeps_ret, _|].
  apply keeps_bind; [apply _|apply keeps_try, restore_run_frame | intros r; apply IH].
Qed.

Lemma apply_frame p pn : keeps R (apply p pn : M W _).
Proof.
  unfold apply. generalize (runs spTarget (planSteps p)) (@nil (list scaleStep)) false.
  intros gs. induction gs as [|[|s0 g] gs IH]; intros applied scaled; cbn [apply_groups]; [apply keeps_ret, _ | apply IH|].
  apply keeps_bind; [apply _|apply apply_group_frame|]. intros [[m raised] [e|]]; [|apply IH].
  apply keeps_bind; [apply _|apply compensate_frame | intros ?; apply keeps_ret, _].
Qed.
End frame.
