(* ===== verification/Observe.v ===== *)
(** * internal/controller: events and the per-workload gauges

    events.go, names.go and the metric helpers of policy_controller.go.  A
    recorder may be missing, in which case no event is recorded. *)
From S2P Require Import Prelude GoStrings GoTime Meta Api Kube Naming.

#[local] Open Scope Z_scope.

(** What an event regards. *)
Definition window_ref (win : EvictionGuardWindow) : EventRef := MkEventRef "EvictionGuardWindow" (win_key win).
Definition policy_ref (p : EvictionGuardPolicy) : EventRef := MkEventRef "EvictionGuardPolicy" (NN "" (polName p)).
Definition deployment_ref (d : Deployment) : EventRef := MkEventRef "Deployment" (mKey (dMeta d)).

(** [sortedKeys]: the keys of a set, in order. *)
Definition sortedKeys (m : gset string) : list string := sort_strings (elements m).

Section observe.
Context {W : Type}.

(** [emitf]; the note is formatted by the caller. *)
Definition emitf (Recorder : bool) (regarding : EventRef) (eventtype reason note : string) : M W unit :=
  if negb Recorder then mret () else tell (EventEmitted regarding eventtype reason note).

Definition setWorkloadPlanMetrics (policy ns workload : string) (atRisk desired baseline : Z) : M W unit :=
  _ ← tell (GaugeSet AtRiskPods [policy; ns; workload] atRisk);
  _ ← tell (GaugeSet DesiredReplicas [policy; ns; workload] desired);
  let spare := i32 (desired - baseline) in
  let spare := if spare <? 0 then 0 else spare in
  tell (GaugeSet CurrentSpare [policy; ns; workload] spare).

(** The series of a workload, in the order they are deleted. *)
Definition plan_series : list metric :=
  [AtRiskPods; DesiredReplicas; CurrentSpare; SpareNotReady; CapacityApplyError].

Definition clearWorkloadPlanMetrics (policy ns workload : string) : M W unit :=
  for_each (λ m, tell (SeriesDelete m [policy; ns; workload])) plan_series.

(** ** Lemmas *)

Lemma tell_run e (w : W) : tell e w = (Ok (), w, [e]).
Proof. done. Qed.

Lemma emitf_run Recorder regarding ty reason note w :
  emitf Recorder regarding ty reason note w
  = (Ok (), w, if Recorder then [EventEmitted regarding ty reason note] else []).
Proof. by destruct Recorder. Qed.

Lemma clearWorkloadPlanMetrics_run policy ns workload w :
  clearWorkloadPlanMetrics policy ns workload w
  = (Ok (), w, (λ m, SeriesDelete m [policy; ns; workload]) <$> plan_series).
Proof. done. Qed.

Lemma setWorkloadPlanMetrics_run policy ns workload atRisk desired baseline w :
  in_i32 (desired - baseline) →
  setWorkloadPlanMetrics policy ns workload atRisk desired baseline w
  = (Ok (), w, [GaugeSet AtRiskPods [policy; ns; workload] atRisk;
                GaugeSet DesiredReplicas [policy; ns; workload] desired;
                GaugeSet CurrentSpare [policy; ns; workload] (Z.max 0 (desired - baseline))]).
Proof.
  intros H. unfold setWorkloadPlanMetrics. cbv zeta. rewrite i32_id; [|done].
  unfold mbind, M_bind, tell. simpl. do 4 f_equal. destruct (_ <? 0) eqn:E; zify_bool; f_equal; lia.
Qed.

Lemma sortedKeys_spec m : StronglySorted String.le (sortedKeys m) ∧ NoDup (sortedKeys m) ∧ ∀ x, x ∈ sortedKeys m ↔ x ∈ m.
Proof.
  unfold sortedKeys. split; [apply sort_strings_sorted|]. split; [apply sort_strings_NoDup, NoDup_elements|].
  intros x. by rw elem_of_sort_strings elem_of_elements.
Qed.
End observe.
