(* ===== verification/WindowController.v ===== *)
(** * internal/controller/window_controller.go: the window reconciler

    One reconcile of an EvictionGuardWindow: it reads the window, its policy and
    its Deployment, counts the pods still at risk, takes the step of
    [decideWindowStep] and writes.  [win] is the object the code mutates: it is
    threaded through, and a successful patch or status update replaces it by the
    server's answer, as the client does.

    [Recorder] says whether an event recorder is configured; log lines are left
    out. *)
From S2P Require Import Evictgate.
From S2P Require Import Prelude GoStrings GoTime Meta Api Kube Filters Signals Fields WindowPhase ScaleActions.
From S2P Require Import Spare Plan Observe Fake.

#[local] Open Scope Z_scope.

Record CtrlResult := MkCtrl { RequeueAfter : Duration }.
Definition ctrl_done : CtrlResult := MkCtrl 0.

Definition windowMetricBackend (win : EvictionGuardWindow) : string :=
  match ScaleActions win with
  | [] => "unknown"
  | actions => Join ((λ a, if negb (str_eqb (saKey a) "") then saKey a else saKind a) <$> actions) ","
  end.

Definition openRequeue (policy : option EvictionGuardPolicy) (win : EvictionGuardWindow) (now : Time) : CtrlResult :=
  let d := maxWindowRequeue policy (Some win) now in
  if (0 <? d) && (d <? requeueOpen) then MkCtrl d else MkCtrl requeueOpen.

(** [win] without, or with, the window finalizer. *)
Definition unfinalized `{KubeLib} (win : EvictionGuardWindow) : EvictionGuardWindow :=
  with_meta (λ m, set_finalizers (RemoveFinalizer (mFinalizers m) WindowFinalizer) m) win.
Definition finalized `{KubeLib} (win : EvictionGuardWindow) : EvictionGuardWindow :=
  with_meta (λ m, set_finalizers (AddFinalizer (mFinalizers m) WindowFinalizer) m) win.
Definition has_finalizer `{KubeLib} (win : EvictionGuardWindow) : bool :=
  ContainsFinalizer (mFinalizers (winMeta win)) WindowFinalizer.

Section window.
Context {Obj W : Type} `{L : KubeLib} `{C : Client Obj W}.
Context (registry : Registry) (Recorder : bool).

Definition clear_metrics (win : EvictionGuardWindow) : M W unit :=
  clearWorkloadPlanMetrics (wsPolicyName (winSpec win)) (wrNamespace (wsTarget (winSpec win)))
    (wrName (wsTarget (winSpec win))).

(** [return client.IgnoreNotFound(err)] *)
Definition ignore_nf (m : M W unit) : M W unit :=
  r ← try m;
  match r with
  | Ok _ => mret ()
  | Err e => match IgnoreNotFound e with None => mret () | Some e => throw e end
  end.

(** The finalizer block of [deleteClosedWindow] and [scaleBackAndUnfinalize]. *)
Definition drop_finalizer (win : EvictionGuardWindow) : M W unit :=
  if has_finalizer win then _ ← PatchWindow win (unfinalized win); mret () else mret ().

Definition deleteClosedWindow (win : EvictionGuardWindow) : M W CtrlResult :=
  _ ← clear_metrics win;
  _ ← drop_finalizer win;
  _ ← ignore_nf (DeleteWindow (win_key win));
  mret ctrl_done.

Fixpoint still_loop (flt : specFilter) (policy : EvictionGuardPolicy) (names still : list string) (w : W)
  : result (list string) :=
  match names with
  | [] => Ok still
  | name :: rest =>
      match getNode name w with
      | Err e => if IsNotFound e then still_loop flt policy rest still w else Err e
      | Ok n =>
          match Matches flt (Some n) with
          | Err e => Err e
          | Ok false => still_loop flt policy rest still w
          | Ok true =>
              still_loop flt policy rest
                (if Vulnerable registry n (Some policy) then still ++ [name] else still) w
          end
      end
  end.

Definition stillVulnerable (win : EvictionGuardWindow) (policy : EvictionGuardPolicy) (w : W)
  : result (list string) :=
  flt ← FromSpec (psNodeFilter (polSpec policy));
  still_loop flt policy (wsVulnerableNodes (winSpec win)) [] w.

(** Returns the window as the patch left it. *)
Definition abortCooldown (win : EvictionGuardWindow) (policy : EvictionGuardPolicy) (dep : option Deployment)
  : M W EvictionGuardWindow :=
  match wsWindowUntil (winSpec win) with
  | None => mret win
  | Some _ =>
      win ← PatchWindow win (with_spec (set_until None) win);
      _ ← stampCooldown policy dep win zero_time;
      mret win
  end.

Definition scaleBackAndUnfinalize (win : EvictionGuardWindow) : M W CtrlResult :=
  _ ← ignore_nf (restoreActions win);
  _ ← clear_metrics win;
  _ ← drop_finalizer win;
  mret ctrl_done.

Definition scaleBackIfAllowed (win : EvictionGuardWindow) : M W unit :=
  r ← try (restoreActions win);
  match r with
  | Err e =>
      _ ← tell (CounterInc ScaleActionsTotal [wsPolicyName (winSpec win); "down"; windowMetricBackend win; "error"]);
      throw e
  | Ok _ =>
      _ ← tell (CounterInc ScaleActionsTotal [wsPolicyName (winSpec win); "down"; windowMetricBackend win; "ok"]);
      _ ← clear_metrics win;
      emitf Recorder (window_ref win) "Normal" reasonScaledBack
        ("restored capacity to baseline " +:+ FormatInt (wsBaseline (winSpec win)))
  end.

Definition scaleBackAndClose (win : EvictionGuardWindow) : M W CtrlResult := scaleBackAndUnfinalize win.

(** Returns the window as the update left it. *)
Definition writeStatus (win : EvictionGuardWindow) (dep : option Deployment) (phase : WindowPhase) (msg : string)
  : M W EvictionGuardWindow :=
  x ← reads (spareCounts win dep);
  let '(ready, safe) := (x : Z * Z) in
  t ← now;
  let old := winStatus win in
  let '(win1, gauge, transitioned) := applySpareStatus win ready safe t in
  _ ← tell gauge;
  let blocked := capacityAppliedBlocked win1 in
  let msg := if blocked && (str_eqb msg msgWaitingSpare || str_eqb msg msgNodesVulnerable)
             then applyErrorMessage msg win1 else msg in
  let counts := "(safeReady=" +:+ FormatInt safe +:+ " baseline=" +:+ FormatInt (wsBaseline (winSpec win1)) +:+ ")" in
  _ ← if transitioned then
        _ ← if wtSpareReady (winStatus win1) && negb (wtSpareReady old)
            then emitf Recorder (window_ref win1) "Normal" reasonSpareReady
                   ("spare capacity Ready off vulnerable nodes " +:+ counts)
            else mret ();
        if negb (wtSpareReady (winStatus win1))
        then emitf Recorder (window_ref win1) "Normal" reasonSpareWait
               ("waiting for Ready pods off vulnerable nodes " +:+ counts)
        else mret ()
      else mret ();
  if bool_decide (wtPhase (winStatus win1) = phase) && str_eqb (wtMessage (winStatus win1)) msg
     && negb transitioned && (wtReadyReplicas old =? ready) && (wtSafeReadyReplicas old =? safe)
  then mret win1
  else UpdateWindowStatus (with_status (λ s, set_message msg (set_phase phase s)) win1).

(** ForcedCool is stamped as soon as maxWindow runs out. *)
Definition stamp_forced (win : EvictionGuardWindow) (policy : EvictionGuardPolicy) (forceCool : bool)
  : M W EvictionGuardWindow :=
  if forceCool && negb (wtForcedCool (winStatus win)) then
    let win := with_status (set_forced true) win in
    _ ← emitf Recorder (window_ref win) "Warning" reasonMaxWindow
          ("Open longer than maxWindow (" +:+ Duration_String (MaxWindowOrDefault policy) +:+ "); forcing cooldown");
    _ ← tell (CounterInc MaxWindowExceeded
                [polName policy; mNamespace (winMeta win); wrName (wsTarget (winSpec win))]);
    UpdateWindowStatus win
  else mret win.

(** The [switch] of [Reconcile]. *)
Definition take_step (win : EvictionGuardWindow) (policy : EvictionGuardPolicy) (dep : option Deployment)
  (forceCool : bool) (until now : Time) (dec : windowPhaseDecision) : M W CtrlResult :=
  match pdStep dec with
  | stepStayOpenVulnerable | stepStayOpenWaitingSpare =>
      win ← (if pdAbortCooldown dec then abortCooldown win policy dep else mret win);
      win ← writeStatus win dep (pdPhase dec) (pdMessage dec);
      mret (openRequeue (Some policy) win now)
  | stepBeginScaleBack =>
      _ ← scaleBackIfAllowed win;
      let coolUntil := Add now (scaleBackAfter policy dep) in
      win ← PatchWindow win (with_spec (set_until (Some coolUntil)) win);
      _ ← stampCooldown policy dep win coolUntil;
      let coolMsg := coolingMessage forceCool (wtForcedCool (winStatus win)) in
      _ ← writeStatus win dep WindowPhaseCooling coolMsg;
      mret (MkCtrl (Sub coolUntil now))
  | stepStayCooling =>
      _ ← writeStatus win dep (pdPhase dec) (pdMessage dec);
      mret (MkCtrl (Sub until now))
  | stepClose =>
      win ← writeStatus win dep (pdPhase dec) (pdMessage dec);
      if pdRetainClosed dec then mret ctrl_done else deleteClosedWindow win
  end.

(** [Reconcile] of a window whose policy and target exist. *)
Definition reconcile_live (win : EvictionGuardWindow) (policy : EvictionGuardPolicy) (dep : option Deployment)
  : M W CtrlResult :=
  if bool_decide (wtPhase (winStatus win) = WindowPhaseClosed) && wtForcedCool (winStatus win) then
    still ← reads (stillVulnerable win policy);
    match still with
    | [] => deleteClosedWindow win
    | _ => mret (MkCtrl requeueForcedCoolTombstone)
    end
  else
    risk ← reads (liveAtRiskPods registry (Some win) (Some policy) dep);
    let liveAtRisk := fst risk in
    t ← now;
    let forceCool := maxWindowExceeded (Some policy) (Some win) t in
    win ← stamp_forced win policy forceCool;
    safeReady ← (if negb forceCool && (liveAtRisk =? 0)
                 then x ← reads (spareCounts win dep); mret (snd x)
                 else mret (wsBaseline (winSpec win)));
    let until := match wsWindowUntil (winSpec win) with Some u => u | None => zero_time end in
    take_step win policy dep forceCool until t
      (decideWindowStep (PhaseInput liveAtRisk forceCool (wtForcedCool (winStatus win)) safeReady
                           (wsBaseline (winSpec win)) until t)).

(** The target Deployment: [None] when it is gone, [Some None] for a target of
    another kind. *)
Definition fetch_target (win : EvictionGuardWindow) : M W (option (option Deployment)) :=
  let t := wsTarget (winSpec win) in
  if str_eqb (wrKind t) "" || str_eqb (wrKind t) "Deployment" then
    r ← try (reads (getDeployment (NN (wrNamespace t) (wrName t))));
    match r with
    | Ok dep => mret (Some (Some dep))
    | Err e => if IsNotFound e then mret None else throw e
    end
  else mret (Some None).

(** [WindowReconciler.Reconcile] *)
Definition window_Reconcile (req : NamespacedName) : M W CtrlResult :=
  r ← try (reads (getWindow req));
  match r with
  | Err e => match IgnoreNotFound e with None => mret ctrl_done | Some e => throw e end
  | Ok win =>
      if negb (tsIsZero (mDeletionTimestamp (winMeta win))) then scaleBackAndUnfinalize win
      else if negb (has_finalizer win) then
        _ ← PatchWindow win (finalized win); mret ctrl_done
      else
        p ← try (reads (getPolicy (wsPolicyName (winSpec win))));
        match p with
        | Err e => if IsNotFound e then scaleBackAndClose win else throw e
        | Ok policy =>
            d ← fetch_target win;
            match d with
            | None => scaleBackAndClose win
            | Some dep => reconcile_live win policy dep
            end
        end
  end.

(** [mapNode] of [SetupWithManager]: a node wakes the windows that list it. *)
Definition mapNode (name : string) (w : W) : list NamespacedName :=
  match listWindowsBy IndexWindowVulnerableNode name w with
  | Err _ => []
  | Ok l => window_requests l
  end.
End window.
