(* ===== verification/WindowSpec.v ===== *)
(** * Correctness of the window reconciler

    What one reconcile of WindowController.v may do to the cluster: when it
    scales back, when it arms the cooldown, when it lets go of a window, and what
    a window owes before it does. *)
From S2P Require Import Evictgate.
From S2P Require Import Prelude GoStrings GoTime Meta Api Kube Filters Signals Fields WindowPhase ScaleActions.
From S2P Require Import Naming Spare Plan Observe WindowController Fake.

#[local] Open Scope Z_scope.

(** ** What an effect does *)

(** A patch of annotations only: a stamp. *)
Definition annotation_patch (p : jobj) : Prop := ∃ m, p = {[ "metadata" := JObj {[ "annotations" := JObj m ]} ]}.

(** A patch of something else than annotations: a change of capacity. *)
Definition scales (e : effect) : Prop :=
  match e with PatchObjectE _ _ p _ => ¬ annotation_patch p | _ => False end.

(** A write to the API server's windows. *)
Definition writes_window (e : effect) : Prop :=
  match e with
  | CreateWindowE _ _ | PatchWindowE _ _ _ | UpdateWindowStatusE _ _ | DeleteWindowE _ _ => True
  | _ => False
  end.

(** Any write to the API server. *)
Definition writes_api (e : effect) : Prop :=
  match e with
  | PatchPolicyE _ _ _ | UpdatePolicyStatusE _ _ | PatchObjectE _ _ _ _ => True
  | e => writes_window e
  end.

(** Arms the cooldown: sets [windowUntil], to an instant that it did not hold. *)
Definition arms `{KubeLib} (e : effect) : Prop :=
  match e with
  | PatchWindowE b x _ => wsWindowUntil (winSpec x) ≠ None ∧ wsWindowUntil (winSpec x) ≠ wsWindowUntil (winSpec b)
  | _ => False
  end.

(** Lets go of a window: deletes it, or takes its finalizer away. *)
Definition releases `{KubeLib} (e : effect) : Prop :=
  match e with
  | PatchWindowE b x _ => has_finalizer b = true ∧ has_finalizer x = false
  | DeleteWindowE _ _ => True
  | _ => False
  end.

Section spec.
Context {Obj W : Type} `{L : KubeLib} `{C : Client Obj W}.
Context (registry : Registry) (Recorder : bool).

Abbreviation window_run := (window_Reconcile registry Recorder).
Abbreviation live_run := (reconcile_live registry Recorder).

(** ** What the parts do *)

Lemma emits_lift_bind {A B} P (x : result A) (f : A → M W B) :
  (∀ a, x = Ok a → emits P (f a)) → emits P (lift x ≫= f).
Proof.
  intros H w. unfold effects, mbind, M_bind, lift. destruct x as [a|e]; [|constructor]. specialize (H a eq_refl w).
  unfold effects in H. by destruct (f a w) as [[? ?] ?].
Qed.

(** Stamping patches annotations, and nothing else. *)
Lemma PatchAnnotations_emits (P : effect → Prop) t anns :
  (∀ g p ok, target_gvk t = Ok g → annotation_patch p → P (PatchObjectE g (tgKey t) p ok)) →
  emits P (PatchAnnotations t anns : M W unit).
Proof.
  intros H. unfold PatchAnnotations. case_decide; [apply emits_ret|]. apply emits_lift_bind. intros g Hg.
  emits_tac. apply H; [done | by eexists].
Qed.

Lemma Current_emits P t : emits P (Current t : M W Z).
Proof. unfold Current, get. emits_tac. Qed.

Lemma get_bind_emits {B} (P : effect → Prop) t (f : GroupVersionKind * Obj * list string → M W B) :
  (∀ g o path, target_gvk t = Ok g → emits P (f (g, o, path))) → emits P (get t ≫= f).
Proof.
  intros H w. unfold effects. rewrite bind_eq. destruct (get t w) as [[r w'] es] eqn:E.
  assert (es = []) as -> by by destruct (get_total t w) as [r' Hr']; rewrite Hr' in E; injection E.
  destruct r as [[[g o] path]|e]; [|constructor]. apply get_ok_inv in E as (g' & o' & Hx & [Hg _] & _).
  injection Hx as -> -> ->. specialize (H g' o' (splitFieldPath (tgFieldPath t)) Hg w'). unfold effects in H.
  by destruct (f _ w') as [[? ?] ?].
Qed.

Lemma PatchIntegers_emits (P : effect → Prop) b paths values :
  (∀ g p ok, target_gvk b = Ok g → P (PatchObjectE g (tgKey b) p ok)) → emits P (PatchIntegers b paths values : M W unit).
Proof. intros H. unfold PatchIntegers. case_match; [apply emits_ret|]. apply get_bind_emits. intros g o path Hg. emits_tac. by apply H. Qed.

Lemma patch_emits (P : effect → Prop) t v :
  (∀ g p ok, target_gvk t = Ok g → P (PatchObjectE g (tgKey t) p ok)) → emits P (patch t v : M W unit).
Proof. intros H. unfold patch. apply get_bind_emits. intros g o path Hg. emits_tac. by apply H. Qed.

Lemma stampCooldown_emits (P : effect → Prop) policy dep win until :
  (∀ g k p ok, annotation_patch p → P (PatchObjectE g k p ok)) →
  emits P (stampCooldown policy dep win until : M W unit).
Proof.
  intros H. unfold stampCooldown. cbv zeta. destruct (negb _); [apply emits_ret|].
  apply emits_for_each. intros a _. apply PatchAnnotations_emits. auto.
Qed.

Lemma scan_actions_emits P g paths values keys : emits P (scan_actions g paths values keys : M W _).
Proof.
  revert paths values keys. induction g as [|a g IH]; intros; cbn [scan_actions]; [apply emits_ret|].
  cbv zeta. destruct (saSkipDownscaling a); [apply IH|].
  apply emits_bind; [apply emits_mapErr, Current_emits | intros v; apply IH].
Qed.

(** Restoring patches the objects of the actions, and nothing else. *)
Lemma restore_run_emits (P : effect → Prop) l :
  (∀ a g p ok, a ∈ l → target_gvk (actionTarget a) = Ok g → P (PatchObjectE g (tgKey (actionTarget a)) p ok)) →
  emits P (restore_run l : M W unit).
Proof.
  intros H. destruct l as [|a [|b l]]; cbn [restore_run]; [apply emits_ret| |].
  - assert (∀ g p ok, target_gvk (actionTarget a) = Ok g → P (PatchObjectE g (tgKey (actionTarget a)) p ok)) as Ha
      by (intros; apply H; [left | done]).
    unfold restoreOneAction. cbv zeta. apply emits_bind; [|intros _; apply emits_mapErr, PatchAnnotations_emits; auto].
    destruct (negb _); [|apply emits_ret]. apply emits_bind; [apply emits_mapErr, Current_emits|].
    intros v. case_match; [|apply emits_ret]. by apply emits_mapErr, patch_emits.
  - assert (∀ g p ok, target_gvk (actionTarget a) = Ok g → P (PatchObjectE g (tgKey (actionTarget a)) p ok)) as Ha
      by (intros; apply H; [left | done]).
    unfold restoreGroupedActions. apply emits_bind; [apply scan_actions_emits|]. intros [[paths values] keys].
    apply emits_bind; [|intros _; apply emits_mapErr, PatchAnnotations_emits; auto].
    case_decide; [apply emits_ret | by apply emits_mapErr, PatchIntegers_emits].
Qed.

Lemma restoreActions_emits (P : effect → Prop) win :
  (∀ g k p ok, P (PatchObjectE g k p ok)) → emits P (restoreActions win : M W unit).
Proof.
  intros H. unfold restoreActions. apply emits_for_each. intros l _. unfold restore_or_skip.
  apply emits_bind; [by apply emits_try, restore_run_emits | intros []; emits_tac].
Qed.

Lemma clear_metrics_emits (P : effect → Prop) win : (∀ m l, P (SeriesDelete m l)) → emits P (clear_metrics win : M W unit).
Proof. intros H. unfold clear_metrics, clearWorkloadPlanMetrics. emits_tac. Qed.

Lemma emitf_emits (P : effect → Prop) g ty reason note :
  (∀ g ty reason note, P (EventEmitted g ty reason note)) → emits P (emitf Recorder g ty reason note : M W unit).
Proof. intros H. unfold emitf. emits_tac. Qed.

(** Writing the status sends events, one gauge and at most a status update, with
    the phase it was given. *)
Lemma writeStatus_emits (P : effect → Prop) win dep phase msg :
  (∀ g ty reason note, P (EventEmitted g ty reason note)) → (∀ m l v, P (GaugeSet m l v)) →
  (∀ x ok, wtPhase (winStatus x) = phase → P (UpdateWindowStatusE x ok)) →
  emits P (writeStatus Recorder win dep phase msg : M W _).
Proof.
  intros H1 H2 H3. unfold writeStatus. apply emits_bind; [apply emits_reads|]. intros [ready safe].
  apply emits_bind; [apply emits_now|]. intros t. cbv zeta.
  destruct (applySpareStatus win ready safe t) as [[win1 gauge] flip] eqn:E.
  assert (∃ m l v, gauge = GaugeSet m l v) as (m & l & v & ->).
  { unfold applySpareStatus in E. injection E as _ <- _. by do 3 eexists. }
  apply emits_bind; [by apply emits_tell|]. intros _. apply emits_bind.
  - destruct flip; [|apply emits_ret]. apply emits_bind; [case_match; [by apply emitf_emits | apply emits_ret]|].
    intros _. case_match; [by apply emitf_emits | apply emits_ret].
  - intros _. case_match; [apply emits_ret | apply emits_write; intros ok; by apply H3].
Qed.

Lemma deleteClosedWindow_emits (P : effect → Prop) win :
  (∀ m l, P (SeriesDelete m l)) → (∀ x ok, P (PatchWindowE x (unfinalized x) ok)) → (∀ k ok, P (DeleteWindowE k ok)) →
  emits P (deleteClosedWindow win : M W _).
Proof.
  intros H1 H2 H3. unfold deleteClosedWindow. apply emits_bind; [by apply clear_metrics_emits|]. intros _.
  apply emits_bind; [unfold drop_finalizer; emits_tac|]. intros _.
  apply emits_bind; [|intros _; apply emits_ret]. unfold ignore_nf. emits_tac.
Qed.

(** ** The runs of a reconcile *)

(** The window owes a scale-back and its finalizer is on the way out. *)
Definition leaving (win : EvictionGuardWindow) (w : W) : Prop :=
  tsIsZero (mDeletionTimestamp (winMeta win)) = false
  ∨ (∃ e, getPolicy (wsPolicyName (winSpec win)) w = Err e ∧ IsNotFound e = true)
  ∨ (let t := wsTarget (winSpec win) in
     str_eqb (wrKind t) "" || str_eqb (wrKind t) "Deployment" = true
     ∧ ∃ e, getDeployment (NN (wrNamespace t) (wrName t)) w = Err e ∧ IsNotFound e = true).

(** The target of a window, when reading it succeeds. *)
Definition target_is (win : EvictionGuardWindow) (w : W) (dep : option Deployment) : Prop :=
  let t := wsTarget (winSpec win) in
  if str_eqb (wrKind t) "" || str_eqb (wrKind t) "Deployment"
  then ∃ d, dep = Some d ∧ getDeployment (NN (wrNamespace t) (wrName t)) w = Ok d
  else dep = None.

Inductive window_case (req : NamespacedName) (w : W) (run : result CtrlResult * W * list effect) : Prop :=
| case_silent : run.1.2 = w → run.2 = [] → window_case req w run
| case_leaving win : getWindow req w = Ok win → leaving win w →
    scaleBackAndUnfinalize win w = run → window_case req w run
| case_guard win r ok : getWindow req w = Ok win → tsIsZero (mDeletionTimestamp (winMeta win)) = true →
    has_finalizer win = false → run = (r, (patchWindow win (finalized win) w).2, [PatchWindowE win (finalized win) ok]) →
    window_case req w run
| case_live win policy dep : getWindow req w = Ok win → tsIsZero (mDeletionTimestamp (winMeta win)) = true →
    has_finalizer win = true → getPolicy (wsPolicyName (winSpec win)) w = Ok policy → target_is win w dep →
    live_run win policy dep w = run → window_case req w run.

Lemma window_Reconcile_cases req w : window_case req w (window_run req w).
Proof.
  unfold window_Reconcile. rewrite bind_try_reads.
  destruct (getWindow req w) as [win|e] eqn:Ew.
  2:{ destruct (IgnoreNotFound e); by apply case_silent. }
  destruct (tsIsZero _) eqn:Ed; cbn [negb].
  2:{ eapply case_leaving; [done | by left | done]. }
  destruct (has_finalizer win) eqn:Ef; cbn [negb].
  2:{ unfold PatchWindow, write, mbind, M_bind. destruct (patchWindow win (finalized win) w) as [[y|e] w'] eqn:Ep;
        (eapply case_guard; [done..|]; by rewrite Ep). }
  rewrite bind_try_reads. destruct (getPolicy _ w) as [policy|e] eqn:Ep.
  2:{ destruct (IsNotFound e) eqn:Ee; [eapply case_leaving; [done | right; left; eauto | done] | by apply case_silent]. }
  unfold fetch_target. cbv zeta. destruct (_ || _) eqn:Ek.
  - rewrite bind_eq bind_try_reads. destruct (getDeployment _ w) as [d|e] eqn:Eg.
    + cbn [mret M_ret]. eapply (case_live _ _ _ win policy (Some d)); [done..| |].
      * unfold target_is. rewrite Ek. eauto.
      * unfold mret, M_ret. by destruct (live_run _ _ _ _) as [[? ?] ?].
    + destruct (IsNotFound e) eqn:Ee; [|by apply case_silent].
      eapply (case_leaving _ _ _ win); [done | right; right; eauto|].
      unfold mret, M_ret, scaleBackAndClose. by destruct (scaleBackAndUnfinalize _ _) as [[? ?] ?] eqn:E.
  - rewrite bind_ret. eapply (case_live _ _ _ win policy None); [done..| |done]. unfold target_is. by rewrite Ek.
Qed.

(** The stamp either does nothing, or is one status update before anything else. *)
Lemma stamp_forced_cases win policy force w r w' es :
  stamp_forced Recorder win policy force w = (r, w', es) →
  (force && negb (wtForcedCool (winStatus win)) = false ∧ r = Ok win ∧ w' = w ∧ es = [])
  ∨ (force = true ∧ wtForcedCool (winStatus win) = false
     ∧ updateWindowStatus (with_status (set_forced true) win) w = (r, w')
     ∧ ∃ pre, es = pre ++ [UpdateWindowStatusE (with_status (set_forced true) win) (is_ok r)]
              ∧ Forall (λ e, ¬ writes_api e) pre).
Proof.
  unfold stamp_forced. destruct (force && _) eqn:E; [|intros H; apply ret_inv in H as (-> & -> & ->); by left].
  apply andb_true_iff in E as [-> Hf]. apply negb_true_iff in Hf. intros H. right. split; [done|]. split; [done|].
  cbv zeta in H. apply bind_inv in H as [(e & He & _) | (u & w1 & es1 & es2 & H1 & H & ->)].
  { rewrite emitf_run in He. by destruct Recorder. }
  rewrite emitf_run in H1. injection H1 as _ <- <-.
  apply bind_inv in H as [(e & He & _) | (u' & w1 & es1 & es3 & H1 & H & ->)]; [done|].
  injection H1 as _ <- <-. unfold UpdateWindowStatus, write in H.
  destruct (updateWindowStatus _ w) as [y w2] eqn:Eu. injection H as <- <- <-. split; [done|].
  eexists (_ ++ [_]). rewrite -app_assoc. split; [reflexivity|]. apply Forall_app. split; [|by repeat constructor; intros []].
  destruct Recorder; repeat constructor. by intros [].
Qed.

Definition until_of (win : EvictionGuardWindow) : Time :=
  match wsWindowUntil (winSpec win) with Some u => u | None => zero_time end.

(** The decision of a live window. *)
Definition decision (win : EvictionGuardWindow) (risk safe : Z) (force : bool) (t : Time) : windowPhaseDecision :=
  decideWindowStep (PhaseInput risk force (wtForcedCool (winStatus win)) safe (wsBaseline (winSpec win))
                      (until_of win) t).

Inductive live_case (win : EvictionGuardWindow) (policy : EvictionGuardPolicy) (dep : option Deployment) (w : W)
  (run : result CtrlResult * W * list effect) : Prop :=
| live_silent : run.1.2 = w → run.2 = [] → live_case win policy dep w run
| live_tombstone : wtPhase (winStatus win) = WindowPhaseClosed → wtForcedCool (winStatus win) = true →
    stillVulnerable registry win policy w = Ok [] → deleteClosedWindow win w = run → live_case win policy dep w run
| live_unforced risk nodes safe : liveAtRiskPods registry (Some win) (Some policy) dep w = Ok (risk, nodes) →
    maxWindowExceeded (Some policy) (Some win) (clock w) = false →
    (if risk =? 0 then ∃ ready, spareCounts win dep w = Ok (ready, safe) else safe = wsBaseline (winSpec win)) →
    take_step Recorder win policy dep false (until_of win) (clock w) (decision win risk safe false (clock w)) w = run →
    live_case win policy dep w run
| live_forced risk nodes r w1 es1 : liveAtRiskPods registry (Some win) (Some policy) dep w = Ok (risk, nodes) →
    maxWindowExceeded (Some policy) (Some win) (clock w) = true →
    stamp_forced Recorder win policy true w = (r, w1, es1) →
    match r with
    | Err e => run = (Err e, w1, es1)
    | Ok win1 => ∃ r2 w2 es2,
        take_step Recorder win1 policy dep true (until_of win1) (clock w)
          (decision win1 risk (wsBaseline (winSpec win1)) true (clock w)) w1 = (r2, w2, es2)
        ∧ run = (r2, w2, es1 ++ es2)
    end → live_case win policy dep w run.

Lemma reconcile_live_cases win policy dep w : live_case win policy dep w (live_run win policy dep w).
Proof.
  unfold reconcile_live. destruct (_ && _) eqn:Ec.
  { apply andb_true_iff in Ec as [Ec%bool_decide_eq_true Ef].
    destruct (stillVulnerable registry win policy w) as [still|e] eqn:Es.
    - rewrite (bind_reads_ok _ _ _ _ Es). destruct still; [by apply live_tombstone | by apply live_silent].
    - rewrite (bind_reads_err _ _ _ _ Es). by apply live_silent. }
  destruct (liveAtRiskPods registry (Some win) (Some policy) dep w) as [[risk nodes]|e] eqn:Er.
  2:{ rewrite (bind_reads_err _ _ _ _ Er). by apply live_silent. }
  rewrite (bind_reads_ok _ _ _ _ Er) bind_now. cbv zeta. cbn [fst].
  destruct (maxWindowExceeded _ _ _) eqn:Em.
  - destruct (stamp_forced Recorder win policy true w) as [[r w1] es1] eqn:Es.
    eapply live_forced; [done..|]. destruct r as [win1|e].
    + rewrite bind_eq Es. cbn [negb andb]. rewrite bind_ret. fold (until_of win1). unfold decision.
      destruct (take_step _ _ _ _ _ _ _ _ _) as [[r2 w2] es2]. by do 3 eexists.
    + by rewrite bind_eq Es.
  - change (stamp_forced Recorder win policy false) with (mret win : M W EvictionGuardWindow). rewrite bind_ret.
    cbn [negb andb]. destruct (risk =? 0) eqn:E0.
    + rewrite bind_eq. destruct (spareCounts win dep w) as [[ready safe]|e] eqn:Esp.
      * rewrite (bind_reads_ok _ _ _ _ Esp). unfold mret, M_ret. cbn [snd].
        eapply (live_unforced _ _ _ _ _ risk nodes safe); [done..| |]; [rewrite E0; eauto|].
        fold (until_of win). unfold decision. by destruct (take_step _ _ _ _ _ _ _ _ _) as [[r2 w2] es2].
      * rewrite (bind_reads_err _ _ _ _ Esp). by apply live_silent.
    + rewrite bind_ret. eapply (live_unforced _ _ _ _ _ risk nodes); [done..| |done]. by rewrite E0.
Qed.

(** ** Steps *)

Lemma abortCooldown_emits (P : effect → Prop) win policy dep :
  (∀ g k p ok, annotation_patch p → P (PatchObjectE g k p ok)) →
  (∀ x ok, P (PatchWindowE x (with_spec (set_until None) x) ok)) →
  emits P (abortCooldown win policy dep : M W _).
Proof.
  intros H1 H2. unfold abortCooldown. case_match; [|apply emits_ret].
  apply emits_bind; [apply emits_write; intros ok; apply H2|]. intros y.
  apply emits_bind; [by apply stampCooldown_emits | intros _; apply emits_ret].
Qed.

Lemma scaleBackIfAllowed_emits (P : effect → Prop) win :
  (∀ g k p ok, P (PatchObjectE g k p ok)) → (∀ m l, P (SeriesDelete m l)) → (∀ m l, P (CounterInc m l)) →
  (∀ g ty reason note, P (EventEmitted g ty reason note)) →
  emits P (scaleBackIfAllowed Recorder win : M W _).
Proof.
  intros H1 H2 H3 H4. unfold scaleBackIfAllowed. apply emits_bind; [by apply emits_try, restoreActions_emits|].
  intros [u|e]; (apply emits_bind; [by apply emits_tell|]; intros _); [|apply emits_throw].
  apply emits_bind; [by apply clear_metrics_emits|]. intros _. by apply emitf_emits.
Qed.

(** A step other than the scale-back patches annotations at most. *)
Lemma take_step_emits (P : effect → Prop) win policy dep force until t dec :
  (∀ g k p ok, pdStep dec = stepBeginScaleBack ∨ annotation_patch p → P (PatchObjectE g k p ok)) →
  (∀ m l, P (SeriesDelete m l)) → (∀ m l, P (CounterInc m l)) → (∀ m l v, P (GaugeSet m l v)) →
  (∀ g ty reason note, P (EventEmitted g ty reason note)) →
  (∀ x ok, wtPhase (winStatus x) = pdPhase dec ∨ wtPhase (winStatus x) = WindowPhaseCooling → P (UpdateWindowStatusE x ok)) →
  (∀ x u ok, (pdStep dec = stepBeginScaleBack ∧ u = Some (Add t (scaleBackAfter policy dep))) ∨ u = None →
     P (PatchWindowE x (with_spec (set_until u) x) ok)) →
  (pdStep dec = stepClose → pdRetainClosed dec = false →
     (∀ x ok, P (PatchWindowE x (unfinalized x) ok)) ∧ ∀ k ok, P (DeleteWindowE k ok)) →
  emits P (take_step Recorder win policy dep force until t dec : M W _).
Proof.
  intros Hobj Hdel Hinc Hset Hev Hup Hpatch Hclose. unfold take_step.
  assert (∀ x d ph msg, ph = pdPhase dec ∨ ph = WindowPhaseCooling → emits P (writeStatus Recorder x d ph msg : M W _)) as Hws
    by (intros x d ph msg Hph; apply writeStatus_emits; [done..|]; intros y ok Hy; apply Hup; by rewrite Hy).
  assert (∀ x, emits P (abortCooldown x policy dep : M W _)) as Hab.
  { intros x. apply abortCooldown_emits; [intros; apply Hobj; by right | intros; apply Hpatch; by right]. }
  destruct (pdStep dec) eqn:Es.
  1, 2: (apply emits_bind; [case_match; [apply Hab | apply emits_ret]|]; intros x;
         apply emits_bind; [by apply Hws; left | intros ?; apply emits_ret]).
  - apply emits_bind; [apply scaleBackIfAllowed_emits; auto|]. intros _. cbv zeta.
    apply emits_bind; [apply emits_write; intros ok; apply Hpatch; by left|]. intros x.
    apply emits_bind; [apply stampCooldown_emits; auto|]. intros _.
    apply emits_bind; [by apply Hws; right | intros ?; apply emits_ret].
  - apply emits_bind; [by apply Hws; left | intros ?; apply emits_ret].
  - apply emits_bind; [by apply Hws; left|]. intros x. destruct (pdRetainClosed dec) eqn:Er; [apply emits_ret|].
    destruct (Hclose eq_refl eq_refl). by apply deleteClosedWindow_emits.
Qed.

Lemma stamp_forced_only P win policy force w r w' es :
  stamp_forced Recorder win policy force w = (r, w', es) →
  (∀ e, ¬ writes_api e → P e) → (∀ ok, P (UpdateWindowStatusE (with_status (set_forced true) win) ok)) → Forall P es.
Proof.
  intros [(_ & _ & _ & ->)|(_ & _ & _ & pre & -> & Hpre)]%stamp_forced_cases H1 H2; [constructor|].
  apply Forall_app. split; [by eapply Forall_impl | by repeat constructor].
Qed.

Lemma liveAtRiskPods_nonneg win policy dep w n nodes :
  liveAtRiskPods registry win policy dep w = Ok (n, nodes) → 0 <= n.
Proof.
  destruct win as [win|], policy as [p|], dep as [d|]; unfold liveAtRiskPods; try (intros [= <- <-]; lia).
  destruct (FromSpec _) as [flt|]; [|done]. cbn [mbind result_bind].
  destruct (listWorkloadPods (Some d) w) as [pods|]; [|done]. cbn [mbind result_bind].
  destruct (count_at_risk _ flt p w pods ∅ ∅ 0) as [[k dying]|] eqn:Ec; [|done]. intros [= <- _].
  apply count_at_risk_spec in Ec as [-> _]; [simpl; lia | by intros ? ? ?%lookup_empty_Some].
Qed.

(** The reconciler may scale back: the window is past its maximum, or nothing is
    at risk and the safe Ready pods cover the baseline. *)
Definition may_scale_back (win : EvictionGuardWindow) (policy : EvictionGuardPolicy) (dep : option Deployment)
  (w : W) : Prop :=
  maxWindowExceeded (Some policy) (Some win) (clock w) = true
  ∨ ∃ nodes ready safe, liveAtRiskPods registry (Some win) (Some policy) dep w = Ok (0, nodes)
      ∧ spareCounts win dep w = Ok (ready, safe) ∧ wsBaseline (winSpec win) <= safe.

Lemma unforced_may_scale_back win policy dep w risk nodes safe :
  liveAtRiskPods registry (Some win) (Some policy) dep w = Ok (risk, nodes) →
  (if risk =? 0 then ∃ ready, spareCounts win dep w = Ok (ready, safe) else safe = wsBaseline (winSpec win)) →
  may_wind_down (PhaseInput risk false (wtForcedCool (winStatus win)) safe (wsBaseline (winSpec win)) (until_of win) (clock w)) →
  may_scale_back win policy dep w.
Proof.
  intros Hr Hs [?|[H1 H2]]; [done|]. cbn in H1, H2. pose proof (liveAtRiskPods_nonneg _ _ _ _ _ _ Hr) as H0.
  assert (risk = 0) as -> by lia. destruct Hs as [ready Hs]. right. by exists nodes, ready, safe.
Qed.

(** The step of a live reconcile: what it was decided from, and where it starts. *)
Definition stepped (win : EvictionGuardWindow) (policy : EvictionGuardPolicy) (dep : option Deployment) (w : W)
  (win1 : EvictionGuardWindow) (risk safe : Z) (force : bool) (w1 : W) : Prop :=
  (∃ nodes, liveAtRiskPods registry (Some win) (Some policy) dep w = Ok (risk, nodes))
  ∧ maxWindowExceeded (Some policy) (Some win) (clock w) = force
  ∧ (win1 = win ∧ w1 = w ∧ (force = true → wtForcedCool (winStatus win) = true)
     ∨ (force = true ∧ wtForcedCool (winStatus win) = false
        ∧ updateWindowStatus (with_status (set_forced true) win) w = (Ok win1, w1)))
  ∧ (if force then safe = wsBaseline (winSpec win1)
     else if risk =? 0 then ∃ ready, spareCounts win dep w = Ok (ready, safe) else safe = wsBaseline (winSpec win)).

(** Where an effect of a live reconcile comes from. *)
Lemma reconcile_live_effect win policy dep w r w' es e :
  live_run win policy dep w = (r, w', es) → e ∈ es →
  (wtPhase (winStatus win) = WindowPhaseClosed ∧ wtForcedCool (winStatus win) = true
   ∧ stillVulnerable registry win policy w = Ok [] ∧ deleteClosedWindow win w = (r, w', es))
  ∨ (¬ writes_api e ∨ ∃ ok, e = UpdateWindowStatusE (with_status (set_forced true) win) ok)
  ∨ ∃ win1 risk safe force w1 es1 es2, stepped win policy dep w win1 risk safe force w1
      ∧ take_step Recorder win1 policy dep force (until_of win1) (clock w)
          (decision win1 risk safe force (clock w)) w1 = (r, w', es2)
      ∧ es = es1 ++ es2 ∧ e ∈ es2.
Proof.
  intros H He.
  destruct (reconcile_live_cases win policy dep w) as [_ Hc|Hp Hf Hst Hc|risk nodes safe Hr Hm Hsafe Hc|risk nodes r1 w1 es1 Hr Hm Hst Hc];
    rewrite H in Hc.
  - simpl in Hc. subst. by apply not_elem_of_nil in He.
  - by left.
  - right. right. exists win, risk, safe, false, w, [], es. split; [|done].
    split; [eauto|]. split; [done|]. split; [by left | done].
  - assert (Forall (λ e, ¬ writes_api e ∨ ∃ ok, e = UpdateWindowStatusE (with_status (set_forced true) win) ok) es1) as Hes1
      by (eapply stamp_forced_only; [exact Hst | by left | eauto]).
    assert (e ∈ es1 → ¬ writes_api e ∨ ∃ ok, e = UpdateWindowStatusE (with_status (set_forced true) win) ok) as Hes
      by (apply (proj1 (Forall_forall _ _) Hes1)).
    destruct r1 as [win1|err]; [|injection Hc as -> -> ->; right; left; by apply Hes].
    destruct Hc as (r2 & w2 & es2 & Hstep & Heq). injection Heq as -> -> ->.
    apply elem_of_app in He as [He|He]; [right; left; by apply Hes|]. right. right.
    exists win1, risk, (wsBaseline (winSpec win1)), true, w1, es1, es2. split; [|done].
    split; [eauto|]. split; [done|]. split; [|done].
    destruct (stamp_forced_cases _ _ _ _ _ _ _ Hst) as [(Hf & [= ->] & -> & _)|(_ & Hf & Hu & _)]; [|right; eauto].
    left. do 2 (split; [done|]). intros _. by destruct (wtForcedCool _).
Qed.

(** A step at an effect, from the decision. *)
Lemma stepped_may_scale_back win policy dep w win1 risk safe force w1 :
  stepped win policy dep w win1 risk safe force w1 →
  may_wind_down (PhaseInput risk force (wtForcedCool (winStatus win1)) safe (wsBaseline (winSpec win1)) (until_of win1) (clock w)) →
  may_scale_back win policy dep w.
Proof.
  intros ((nodes & Hr) & Hm & Hw & Hs) Hmay. destruct force; [by left|].
  destruct Hw as [(-> & -> & _)|[? _]]; [|done]. by eapply unforced_may_scale_back.
Qed.

(** C1: capacity comes down only when it is safe: if a reconcile sends a patch of
    anything but annotations, then the window is being deleted, or its policy
    or Deployment is gone, or it is past maxWindow, or no pod is at risk and
    the safe Ready pods cover the baseline. *)
Theorem window_scales_back_safely req w r w' es e :
  window_run req w = (r, w', es) → e ∈ es → scales e →
  ∃ win, getWindow req w = Ok win
    ∧ (leaving win w
       ∨ ∃ policy dep, getPolicy (wsPolicyName (winSpec win)) w = Ok policy ∧ target_is win w dep
                       ∧ may_scale_back win policy dep w).
Proof.
  intros Hrun He Hs. destruct (window_Reconcile_cases req w) as [_ H|win Hw Hl _|win r' ok Hw _ _ H|win policy dep Hw Hd Hf Hp Ht H];
    try rewrite Hrun in H.
  - simpl in H. subst. by apply not_elem_of_nil in He.
  - exists win. split; [done | by left].
  - injection H as _ _ ->. by apply list_elem_of_singleton in He as ->.
  - exists win. split; [done|]. right. exists policy, dep. do 2 (split; [done|]).
    destruct (reconcile_live_effect _ _ _ _ _ _ _ _ H He) as [(_ & _ & _ & Hc)|[[Hn|(ok & ->)]|Hstep]];
      [| by destruct Hn; destruct e | done |].
    { exfalso. revert Hs. refine (emits_elem (λ e, ¬ scales e) _ _ _ _ _ _ _ Hc He).
      by apply deleteClosedWindow_emits; intros; intros []. }
    destruct Hstep as (win1 & risk & safe & force & w1 & es1 & es2 & Hctx & Hrun2 & -> & Hin).
    eapply stepped_may_scale_back; [exact Hctx|]. apply begin_scale_back.
    fold (decision win1 risk safe force (clock w)).
    destruct (decide (pdStep (decision win1 risk safe force (clock w)) = stepBeginScaleBack)) as [|Hn]; [done|].
    exfalso. revert Hs. refine (emits_elem (λ e, ¬ scales e) _ _ _ _ _ _ _ Hrun2 Hin).
    apply take_step_emits; try (by intros; intros []).
    + intros g k p ok [?|Hp']; [done | by intros []].
    + by split; intros; intros [].
Qed.

(** ** Arming the cooldown *)

(** Restoring looks at the namespace and the recorded actions only. *)
Lemma restoreActions_ext win win' :
  winMeta win = winMeta win' → winSpec win = winSpec win' →
  (restoreActions win : M W unit) = restoreActions win'.
Proof. intros Hm Hs. unfold restoreActions, ScaleActions. by rewrite Hm Hs. Qed.

(** Only the scale-back step arms, after its restore. *)
Lemma take_step_arms win policy dep force until t dec w r w' es e :
  take_step Recorder win policy dep force until t dec w = (r, w', es) → e ∈ es → arms e →
  pdStep dec = stepBeginScaleBack
  ∧ ∃ w1 es1 es2, restoreActions win w = (Ok (), w1, es1) ∧ es = es1 ++ es2 ∧ e ∈ es2
      ∧ ∃ b ok, e = PatchWindowE b (with_spec (set_until (Some (Add t (scaleBackAfter policy dep)))) b) ok.
Proof.
  intros H He Ha.
  assert (pdStep dec = stepBeginScaleBack
          ∧ ∃ b ok, e = PatchWindowE b (with_spec (set_until (Some (Add t (scaleBackAfter policy dep)))) b) ok) as [Hd Hb].
  { revert Ha. refine (emits_elem (λ e, arms e → pdStep dec = stepBeginScaleBack
      ∧ ∃ b ok, e = PatchWindowE b (with_spec (set_until (Some (Add t (scaleBackAfter policy dep)))) b) ok) _ _ _ _ _ _ _ H He).
    apply take_step_emits; try (by intros).
    - intros x u ok [[Hd ->] | ->]; [intros _; eauto | by intros [[] _]].
    - intros Hc _. split; [|done]. intros x ok [H1 H2]. by destruct H2. }
  split; [done|]. unfold take_step in H. rewrite Hd in H.
  apply bind_inv in H as [(err & Hsb & _) | (u & w1 & es1 & es2 & Hsb & H & ->)].
  { exfalso. revert Ha. refine (emits_elem (λ e, ¬ arms e) _ _ _ _ _ _ _ Hsb He).
    by apply scaleBackIfAllowed_emits; intros; intros []. }
  assert (e ∉ es1) as Hn.
  { intros Hin. revert Ha. refine (emits_elem (λ e, ¬ arms e) _ _ _ _ _ _ _ Hsb Hin).
    by apply scaleBackIfAllowed_emits; intros; intros []. }
  unfold scaleBackIfAllowed in Hsb. apply bind_ok_inv in Hsb as (res & w2 & es3 & es4 & Hr & Hsb & ->).
  unfold try in Hr. destruct (restoreActions win w) as [[r' w2'] es3'] eqn:Er. injection Hr as <- <- <-.
  destruct r' as [[]|err]; [|by apply bind_ok_inv in Hsb as (? & ? & ? & ? & _ & ? & _)].
  exists w2', es3', (es4 ++ es2). split; [done|]. split; [by rewrite -app_assoc|]. split; [|done].
  apply elem_of_app in He as [He|He]; [done|]. apply elem_of_app. by right.
Qed.

Context {AL : AnswerLaws C}.

Lemma stepped_spec win policy dep w win1 risk safe force w1 :
  stepped win policy dep w win1 risk safe force w1 → winMeta win1 = winMeta win ∧ winSpec win1 = winSpec win.
Proof.
  intros (_ & _ & [(-> & _)|(_ & _ & Hu)] & _); [done|]. by apply status_answer in Hu as (-> & -> & _).
Qed.

Lemma stepped_objects {WL : WindowLaws C} win policy dep w win1 risk safe force w1 g k :
  stepped win policy dep w win1 risk safe force w1 → getUnstructured g k w1 = getUnstructured g k w.
Proof.
  intros (_ & _ & [(_ & -> & _)|(_ & _ & Hu)] & _); [done|].
  pose proof (update_status_objects (with_status (set_forced true) win) w g k) as H. by rewrite Hu in H.
Qed.

(** Where a cooldown is armed. *)
Lemma window_arms req w r w' es e :
  window_run req w = (r, w', es) → e ∈ es → arms e →
  ∃ win policy dep w0 w1 es0 es1 es2, getWindow req w = Ok win
    ∧ getPolicy (wsPolicyName (winSpec win)) w = Ok policy ∧ target_is win w dep
    ∧ (WindowLaws C → ∀ g k, getUnstructured g k w0 = getUnstructured g k w)
    ∧ restoreActions win w0 = (Ok (), w1, es1)
    ∧ es = es0 ++ es1 ++ es2 ∧ e ∈ es2
    ∧ ∃ b ok, e = PatchWindowE b (with_spec (set_until (Some (Add (clock w) (scaleBackAfter policy dep)))) b) ok.
Proof.
  intros Hrun He Ha. destruct (window_Reconcile_cases req w) as [_ H|win Hw Hl H|win r' ok Hw _ _ H|win policy dep Hw Hd Hf Hp Ht H];
    try rewrite Hrun in H.
  - simpl in H. subst. by apply not_elem_of_nil in He.
  - exfalso. revert Ha. refine (emits_elem (λ e, ¬ arms e) _ _ _ _ _ _ _ H He).
    unfold scaleBackAndUnfinalize, ignore_nf, drop_finalizer.
    apply emits_bind; [apply emits_bind; [by apply emits_try, restoreActions_emits; intros; intros []|]; intros []; emits_tac|].
    intros _. apply emits_bind; [by apply clear_metrics_emits; intros; intros []|]. intros _. emits_tac.
    intros [H1 H2]. by destruct H2.
  - injection H as _ _ ->. apply list_elem_of_singleton in He as ->. destruct Ha as [Ha1 Ha2]. by destruct Ha2.
  - destruct (reconcile_live_effect _ _ _ _ _ _ _ _ H He) as [(_ & _ & _ & Hc)|[[Hn|(ok & ->)]|Hstep]];
      [| by destruct Hn; destruct e | done |].
    { exfalso. revert Ha. refine (emits_elem (λ e, ¬ arms e) _ _ _ _ _ _ _ Hc He).
      apply deleteClosedWindow_emits; intros; intros []; done. }
    destruct Hstep as (win1 & risk & safe & force & w1 & es1 & es2 & Hctx & Hrun2 & -> & Hin).
    destruct (take_step_arms _ _ _ _ _ _ _ _ _ _ _ _ Hrun2 Hin Ha) as (_ & w2 & es3 & es4 & Hr & -> & Hin2 & Hb).
    destruct (stepped_spec _ _ _ _ _ _ _ _ _ Hctx) as [Hm Hs].
    exists win, policy, dep, w1, w2, es1, es3, es4. do 3 (split; [done|]). split; [intros; by eapply stepped_objects|].
    rewrite -(restoreActions_ext win1 win); done.
Qed.

(** C16: the cooldown is armed only after the capacity was given back: a reconcile
    that sets [windowUntil] restored the window's recorded actions successfully
    before, from the objects as they were when it started if nobody else wrote
    to them, and the cooldown ends [scaleBackAfter] from now. *)
Theorem cooldown_after_scale_back req w r w' es e :
  window_run req w = (r, w', es) → e ∈ es → arms e →
  ∃ win policy dep w0 w1 es0 es1 es2, getWindow req w = Ok win
    ∧ getPolicy (wsPolicyName (winSpec win)) w = Ok policy ∧ target_is win w dep
    ∧ (WindowLaws C → ∀ g k, getUnstructured g k w0 = getUnstructured g k w)
    ∧ restoreActions win w0 = (Ok (), w1, es1)
    ∧ es = es0 ++ es1 ++ es2 ∧ e ∈ es2
    ∧ ∃ b ok, e = PatchWindowE b (with_spec (set_until (Some (Add (clock w) (scaleBackAfter policy dep)))) b) ok.
Proof. apply window_arms. Qed.

(** ** Letting go *)

Lemma restoreActions_not_releases win w r w' es e :
  restoreActions win w = (r, w', es) → e ∈ es → ¬ releases e.
Proof. intros H He. refine (emits_elem (λ e, ¬ releases e) _ _ _ _ _ _ _ H He). by apply restoreActions_emits; intros; intros []. Qed.

Lemma scaleBackAndUnfinalize_releases win w r w' es e :
  scaleBackAndUnfinalize win w = (r, w', es) → e ∈ es → releases e →
  ∃ r1 w1 es1 es2, restoreActions win w = (r1, w1, es1) ∧ (r1 = Ok () ∨ ∃ err, r1 = Err err ∧ IsNotFound err = true)
    ∧ es = es1 ++ es2 ∧ e ∈ es2.
Proof.
  intros H He Hr. unfold scaleBackAndUnfinalize in H.
  destruct (restoreActions win w) as [[r1 w1] es1] eqn:Er.
  assert (e ∉ es1) as Hn by (intros Hin; by eapply restoreActions_not_releases).
  assert ((ignore_nf (restoreActions win) w)
          = (match r1 with Ok _ => Ok () | Err err => if IsNotFound err then Ok () else Err err end, w1, es1)) as Hi.
  { unfold ignore_nf. rewrite bind_eq. unfold try. rewrite Er. unfold IgnoreNotFound.
    destruct r1 as [[]|err]; [|destruct (IsNotFound err)]; cbn; by rewrite app_nil_r. }
  rewrite bind_eq Hi in H. destruct r1 as [[]|err].
  - cbv iota in H. case_run H as r2 w2 es2. injection H as <- <- <-. exists (Ok ()), w1, es1, es2.
    split; [done|]. split; [by left|]. split; [done|]. by apply elem_of_app in He as [?|?].
  - destruct (IsNotFound err) eqn:Ee; [|by injection H as <- <- <-].
    cbv iota in H. case_run H as r2 w2 es2. injection H as <- <- <-. exists (Err err), w1, es1, es2.
    split; [done|]. split; [eauto|]. split; [done|]. by apply elem_of_app in He as [?|?].
Qed.

Lemma take_step_releases win policy dep force until t dec w r w' es e :
  take_step Recorder win policy dep force until t dec w = (r, w', es) → e ∈ es → releases e →
  pdStep dec = stepClose ∧ pdRetainClosed dec = false.
Proof.
  intros H He. refine (emits_elem (λ e, releases e → pdStep dec = stepClose ∧ pdRetainClosed dec = false) _ _ _ _ _ _ _ H He).
  apply take_step_emits; try (by intros).
  intros x u ok _ [H1 H2]. unfold has_finalizer in H1, H2. simpl in H2. congruence.
Qed.

(** A window that may be deleted: a force-cooled one whose nodes are clear, or
    an unforced one whose cooldown ran out with nothing at risk. *)
Definition finished (win : EvictionGuardWindow) (policy : EvictionGuardPolicy) (dep : option Deployment) (w : W) : Prop :=
  (wtPhase (winStatus win) = WindowPhaseClosed ∧ wtForcedCool (winStatus win) = true
   ∧ stillVulnerable registry win policy w = Ok [])
  ∨ (wtForcedCool (winStatus win) = false ∧ maxWindowExceeded (Some policy) (Some win) (clock w) = false
     ∧ (∃ u, wsWindowUntil (winSpec win) = Some u ∧ u <= clock w)
     ∧ may_scale_back win policy dep w).

(** C10: a window is let go of only when nothing is owed: a reconcile that deletes
    a window or removes its finalizer either restored its capacity first (its
    deletion was asked for, or its policy or Deployment is gone), or finds it
    finished: closed after maxWindow with no vulnerable node left, or unforced,
    with an expired cooldown and nothing at risk. *)
Theorem window_release_safe req w r w' es e :
  window_run req w = (r, w', es) → e ∈ es → releases e →
  ∃ win, getWindow req w = Ok win
    ∧ ((leaving win w ∧ ∃ r1 w1 es1 es2, restoreActions win w = (r1, w1, es1)
          ∧ (r1 = Ok () ∨ ∃ err, r1 = Err err ∧ IsNotFound err = true) ∧ es = es1 ++ es2 ∧ e ∈ es2)
       ∨ ∃ policy dep, getPolicy (wsPolicyName (winSpec win)) w = Ok policy ∧ target_is win w dep
                       ∧ finished win policy dep w).
Proof.
  intros Hrun He Hr. destruct (window_Reconcile_cases req w) as [_ H|win Hw Hl H|win r' ok Hw _ Hf H|win policy dep Hw Hd Hf Hp Ht H];
    try rewrite Hrun in H.
  - simpl in H. subst. by apply not_elem_of_nil in He.
  - exists win. split; [done|]. left. split; [done|]. by eapply scaleBackAndUnfinalize_releases.
  - injection H as _ _ ->. apply list_elem_of_singleton in He as ->. destruct Hr as [Hr _]. congruence.
  - exists win. split; [done|]. right. exists policy, dep. do 2 (split; [done|]).
    destruct (reconcile_live_effect _ _ _ _ _ _ _ _ H He) as [(Hc & Hfc & Hs & _)|[[Hn|(ok & ->)]|Hstep]];
      [by left | by destruct Hn; destruct e | done |].
    destruct Hstep as (win1 & risk & safe & force & w1 & es1 & es2 & Hctx & Hrun2 & -> & Hin).
    destruct (take_step_releases _ _ _ _ _ _ _ _ _ _ _ _ Hrun2 Hin Hr) as [Hc Hret].
    apply close_step in Hc as (Hmay & Hz & Hle & Hret'). unfold decision in Hret. rewrite Hret' in Hret. cbn in Hz, Hle, Hret.
    right. pose proof (stepped_may_scale_back _ _ _ _ _ _ _ _ _ Hctx Hmay) as Hsb.
    destruct Hctx as (_ & Hm & [(-> & _ & Hfc)|(-> & Hfc & Hu)] & _).
    + split; [done|]. unfold until_of in Hz, Hle. destruct (wsWindowUntil _) as [u|]; [|done].
      destruct force; [by rewrite Hfc in Hret|]. split; [done|]. split; [eauto | done].
    + apply status_answer in Hu as (_ & _ & Hu & _). rewrite Hu in Hret. done.
Qed.

(** ** maxWindow *)

Lemma window_Reconcile_live req w win policy dep :
  getWindow req w = Ok win → tsIsZero (mDeletionTimestamp (winMeta win)) = true → has_finalizer win = true →
  getPolicy (wsPolicyName (winSpec win)) w = Ok policy → target_is win w dep →
  window_run req w = live_run win policy dep w.
Proof.
  intros Hw Hd Hf Hp Ht. unfold window_Reconcile. rewrite bind_try_reads Hw Hd Hf. cbn [negb].
  rewrite bind_try_reads Hp. unfold fetch_target. unfold target_is in Ht. destruct (_ || _).
  - destruct Ht as (d & -> & Hg). rewrite bind_eq bind_try_reads Hg. unfold mret, M_ret.
    by destruct (live_run _ _ _ _) as [[? ?] ?].
  - subst. by rewrite bind_ret.
Qed.


(** But only when its pods could be counted: while that fails, nothing is
    written, however long the window has been open. *)
Lemma risk_error_blocks req w win policy dep e :
  getWindow req w = Ok win → tsIsZero (mDeletionTimestamp (winMeta win)) = true → has_finalizer win = true →
  getPolicy (wsPolicyName (winSpec win)) w = Ok policy → target_is win w dep →
  bool_decide (wtPhase (winStatus win) = WindowPhaseClosed) && wtForcedCool (winStatus win) = false →
  liveAtRiskPods registry (Some win) (Some policy) dep w = Err e → window_run req w = (Err e, w, []).
Proof.
  intros Hw Hd Hf Hp Ht Hc Hr. rewrite (window_Reconcile_live _ _ win policy dep) //.
  unfold reconcile_live. by rewrite Hc (bind_reads_err _ _ _ _ Hr).
Qed.


(** ** Targets that are gone *)

(** A window whose policy or Deployment is gone is scaled back but never
    closed or deleted by the reconciler: it drops the finalizer and leaves the
    status as it is. *)
Theorem gone_not_closed req w win r w' es e :
  getWindow req w = Ok win → leaving win w → window_run req w = (r, w', es) → e ∈ es →
  match e with DeleteWindowE _ _ | UpdateWindowStatusE _ _ | CreateWindowE _ _ => False | _ => True end.
Proof.
  intros Hw Hl Hrun He.
  set (P e := match e with DeleteWindowE _ _ | UpdateWindowStatusE _ _ | CreateWindowE _ _ => False | _ => True end).
  assert (emits P (scaleBackAndUnfinalize win : M W _)) as HP.
  { unfold scaleBackAndUnfinalize, ignore_nf, drop_finalizer.
    apply emits_bind; [apply emits_bind; [by apply emits_try, restoreActions_emits|]; intros []; emits_tac|].
    intros _. apply emits_bind; [by apply clear_metrics_emits|]. intros _. emits_tac. }
  destruct (window_Reconcile_cases req w) as [_ H|win' Hw' _ H|win' r' ok Hw' _ _ H|win' policy dep Hw' Hd _ Hp Ht _];
    try rewrite Hrun in H.
  - simpl in H. subst. by apply not_elem_of_nil in He.
  - rewrite Hw in Hw'. injection Hw' as <-. exact (emits_elem P _ _ _ _ _ _ HP H He).
  - injection H as _ _ ->. by apply list_elem_of_singleton in He as ->.
  - rewrite Hw in Hw'. injection Hw' as <-. exfalso. destruct Hl as [Hl|[(e' & Hl & Hn)|(Hk & e' & Hl & Hn)]]; [congruence..|].
    unfold target_is in Ht. rewrite Hk in Ht. destruct Ht as (d & _ & Hg). congruence.
Qed.
End spec.

(** ** Witnesses: the life of a window *)

(** The Deployment was raised from 3 to 5 replicas; its pods have left the
    cordoned node. *)
Definition life_window : EvictionGuardWindow :=
  MkWindow (MkMeta (WindowName "p" "shop" "web") "shop" ∅ ∅ None 1 [WindowFinalizer] [] 1)
    (MkWindowSpec "p" (MkWorkloadRef "apps/v1" "Deployment" "web" "shop")
       [scaleAction "deploy" web_target 3 5 [] false] 3 5 ["n1"] None)
    (MkWindowStatus WindowPhaseOpen (Some 1) false 3 1 "" false []).
Definition life_key : NamespacedName := win_key life_window.
Definition life_cluster (pods : list Pod) (deps : list Deployment) (t : Time) : Cluster :=
  MkCluster pods [cordoned] [] deps [] {[ "p" := gate_policy ]} {[ life_key := life_window ]}
    (clObjects (objects 5 2 10)) [] t.

Definition safe_pods : list Pod := [ready_pod "web-a" "n2"; ready_pod "web-b" "n2"; ready_pod "web-c" "n3"].
Definition risky_pods : list Pod := ready_pod "web-d" "n1" :: safe_pods.

Abbreviation reconcile := (window_Reconcile init_registry true life_key).

(** Nothing is at risk any more: the reconcile scales back and arms. *)
Definition at_rest : Cluster := life_cluster safe_pods [shop_dep] 10.
Definition cooling : Cluster := final reconcile at_rest.
(** The cooldown is over. *)
Definition cooled : Cluster := set_now (Hour + 10) cooling.

Example life_scaled_back : res (Current web_target) cooling = Ok 3.
Proof. vm_compute. reflexivity. Qed.
Example life_cooling : ((wtPhase ∘ winStatus) <$> clWindows cooling !! life_key) = Some WindowPhaseCooling.
Proof. vm_compute. reflexivity. Qed.
Example life_over : clWindows (final reconcile cooled) !! life_key = None.
Proof. vm_compute. reflexivity. Qed.

(** The [i]-th effect of a run. *)
Definition nth_effect (i : nat) (es : list effect) : effect := default (DeleteWindowE life_key false) (es !! i).

Lemma nth_effect_elem i es : (i < length es)%nat → nth_effect i es ∈ es.
Proof.
  intros Hi. unfold nth_effect. destruct (lookup_lt_is_Some_2 es i Hi) as [e He].
  rewrite He. by eapply list_elem_of_lookup_2.
Qed.

Example life_effects : length (effects reconcile at_rest) = 12%nat.
Proof. vm_compute. reflexivity. Qed.

(** A patch that leaves the metadata alone changes capacity. *)
Lemma scales_test e :
  match e with PatchObjectE _ _ p _ => bool_decide (p !! "metadata" = None) | _ => false end = true → scales e.
Proof.
  destruct e; try done. simpl. intros H%bool_decide_eq_true (m & ->). by rewrite lookup_singleton_eq in H.
Qed.

(** The scale-back, the arming of the cooldown, and the release. *)
Definition scale_effect : effect := nth_effect 0 (effects reconcile at_rest).
Definition arm_effect : effect := nth_effect 8 (effects reconcile at_rest).
Definition release_effect : effect := nth_effect 8 (effects reconcile cooled).

Lemma window_scales_back_safely_witness :
  scales scale_effect
  ∧ ∃ win, getWindow life_key at_rest = Ok win
    ∧ (leaving win at_rest
       ∨ ∃ policy dep, getPolicy (wsPolicyName (winSpec win)) at_rest = Ok policy ∧ target_is win at_rest dep
                       ∧ may_scale_back init_registry win policy dep at_rest).
Proof.
  assert (scales scale_effect) as Hs.
  { apply scales_test. vm_compute. reflexivity. }
  split; [exact Hs|].
  refine (window_scales_back_safely init_registry true life_key at_rest _ _ _ scale_effect (run_of _ _ _ eq_refl) _ Hs).
  apply nth_effect_elem. vm_compute. lia.
Defined.

Lemma cooldown_after_scale_back_witness :
  ∃ win w0 w1 es1, getWindow life_key at_rest = Ok win ∧ restoreActions win w0 = (Ok (), w1, es1).
Proof.
  destruct (cooldown_after_scale_back init_registry true life_key at_rest _ _ _ arm_effect (run_of _ _ _ eq_refl))
    as (win & policy & dep & w0 & w1 & es0 & es1 & es2 & Hw & _ & _ & _ & Hr & _).
  - apply nth_effect_elem. vm_compute. lia.
  - vm_compute. split; discriminate.
  - exists win, w0, w1, es1. split; [exact Hw | exact Hr].
Defined.

Lemma window_release_safe_witness :
  releases release_effect ∧ ∃ win, getWindow life_key cooled = Ok win.
Proof.
  assert (releases release_effect) as Hr by (vm_compute; exact I).
  split; [exact Hr|].
  destruct (window_release_safe init_registry true life_key cooled _ _ _ release_effect (run_of _ _ _ eq_refl))
    as (win & Hw & _).
  - apply nth_effect_elem. vm_compute. lia.
  - exact Hr.
  - exists win. exact Hw.
Defined.

(** Pods stay on the cordoned node past maxWindow. *)
Definition overdue : Cluster := life_cluster risky_pods [shop_dep] (24 * Hour).


(** ** The Deployment is deleted *)

Definition orphaned : Cluster := life_cluster [] [] 10.

Lemma orphaned_leaving : leaving life_window orphaned.
Proof. right. right. split; [reflexivity|]. eexists. split; vm_compute; reflexivity. Qed.

Lemma gone_not_closed_witness :
  match scale_effect with DeleteWindowE _ _ | UpdateWindowStatusE _ _ | CreateWindowE _ _ => False | _ => True end.
Proof.
  refine (gone_not_closed init_registry true life_key orphaned life_window _ _ _ (nth_effect 0 (effects reconcile orphaned))
            _ orphaned_leaving (run_of _ _ _ eq_refl) _).
  - vm_compute. reflexivity.
  - apply nth_effect_elem. vm_compute. lia.
Defined.

(** The cluster after [n] reconciles of the window. *)
Definition after (n : nat) : Cluster := Nat.iter n (final reconcile) orphaned.

Lemma orphan_cycle : Nat.iter (2 + 2) (final reconcile) orphaned = Nat.iter 2 (final reconcile) orphaned.
Proof. vm_cast_no_check (eq_refl (Nat.iter 2 (final reconcile) orphaned)). Qed.

(** The window as one reconcile leaves it, and as the next does. *)
Lemma orphan_states k :
  (k < 4)%nat → clWindows (after k) !! life_key = Some (if Nat.even k then life_window else unfinalized life_window).
Proof.
  intros Hk. destruct k as [|[|[|[|k]]]]; [| | | |lia]; vm_compute; reflexivity.
Qed.

(** A window whose Deployment was deleted never closes: after any number of
    reconciles it is stored as it was at first, Open, but for the finalizer,
    which one reconcile removes and the next adds back. *)
Lemma orphan_never_closes n :
  clWindows (after n) !! life_key = Some life_window ∨ clWindows (after n) !! life_key = Some (unfinalized life_window).
Proof.
  destruct (iter_cycle (final reconcile) orphaned 2 2 n ltac:(lia) orphan_cycle) as (k & Hk & H).
  unfold after. rewrite H. fold (after k). rewrite (orphan_states k Hk). destruct (Nat.even k); [by left | by right].
Qed.
