(* ===== verification/PolicyController.v ===== *)
(** * internal/controller/policy_controller.go: the policy reconciler

    One reconcile of an EvictionGuardPolicy: find the vulnerable nodes its filter
    matches, the protected workloads with pods there that it owns, open or
    refresh a window for each of them within the concurrency cap, raise their
    capacity, clear the windows of the others, and report.

    [policy], [win] and [plan] are the objects the code mutates, threaded
    through; [int32] counters wrap.  [Recorder] says whether an event recorder is
    configured; log lines are left out. *)
From S2P Require Import Evictgate.
From S2P Require Import Prelude GoStrings GoTime Meta Api Kube Capacity Naming Filters Signals PolicyOwn Workload.
From S2P Require Import WindowPhase ScaleActions Plan Observe WindowController.

#[local] Open Scope Z_scope.

Definition reasonScaledUp : string := "ScaledUp".
Definition reasonPolicyReady : string := "Ready".
Definition reasonPolicyError : string := "ReconcileError".
Definition reasonWindowOpened : string := "WindowOpened".
Definition reasonWindowsCapped : string := "WindowsCapped".
Definition reasonScaleUpFailed : string := "ScaleUpFailed".

Record workloadState := MkWorkload {
  wlDeploy : Deployment;
  wlAtRisk : Z;
  wlNodes : gset string
}.

Definition wl_ns (s : workloadState) : string := mNamespace (dMeta (wlDeploy s)).
Definition wl_name (s : workloadState) : string := mName (dMeta (wlDeploy s)).

Definition workloadProtected (dep : option Deployment) (pod : option Pod) : bool :=
  match pod with
  | None => false
  | Some p =>
      if negb (str_eqb (mget (mLabels (podMeta p)) ProtectedLabel) "true") then false
      else match dep with
           | None => false
           | Some d => str_eqb (mget (dTemplateLabels d) ProtectedLabel) "true"
           end
  end.

Definition workloadRef (dep : Deployment) : WorkloadReference :=
  MkWorkloadRef "apps/v1" "Deployment" (mName (dMeta dep)) (mNamespace (dMeta dep)).

(** A placeholder opened while the cap was reached. *)
Definition isDeferredWindow (win : option EvictionGuardWindow) : bool :=
  match win with
  | Some x => str_eqb (mget (mLabels (winMeta x)) DeferredLabel) "true"
  | None => false
  end.

Definition sortedWorkloadKeys (m : gmap string workloadState) : list string :=
  sort_strings ((map_to_list m).*1).

(** [ns/name] *)
Definition dep_key (d : Deployment) : string := mNamespace (dMeta d) +:+ "/" +:+ mName (dMeta d).

(** The caches and the result of [collectWorkloads]. *)
Record collection := MkCollection {
  ccNs : gmap string labels;
  ccOwner : gmap string (option Deployment);
  ccOwns : gmap string bool;
  ccOut : gmap string workloadState
}.

(** The name of the first controlling ReplicaSet. *)
Fixpoint first_rs (refs : list OwnerReference) : string :=
  match refs with
  | [] => ""
  | o :: rest => if str_eqb (orKind o) "ReplicaSet" && is_controller o then orName o else first_rs rest
  end.

(** [st.atRisk++; st.nodes[n] = struct{}{}] *)
Definition add_at_risk (out : gmap string workloadState) (key : string) (dep : Deployment) (node : string)
  : gmap string workloadState :=
  let st := match out !! key with Some st => st | None => MkWorkload dep 0 ∅ end in
  <[key := MkWorkload (wlDeploy st) (i32 (wlAtRisk st + 1)) ({[node]} ∪ wlNodes st)]> out.

Section policy.
Context {Obj W : Type} `{L : KubeLib} `{C : Client Obj W}.
Context (registry : Registry) (Recorder : bool).

Definition ownerDeploymentCached (pod : Pod) (cache : gmap string (option Deployment)) (w : W)
  : result (option Deployment * gmap string (option Deployment)) :=
  let rsName := first_rs (mOwnerReferences (podMeta pod)) in
  if str_eqb rsName "" then Ok (None, cache)
  else
    let key := mNamespace (podMeta pod) +:+ "/" +:+ rsName in
    match cache !! key with
    | Some dep => Ok (dep, cache)
    | None => dep ← OwnerDeployment (Some pod) w; Ok (dep, <[key := dep]> cache)
    end.

Definition namespaceLabels (nsName : string) (cache : gmap string labels) (w : W)
  : result (labels * gmap string labels) :=
  match cache !! nsName with
  | Some cached => Ok (cached, cache)
  | None => set ← NamespaceLabels nsName w; Ok (set, <[nsName := set]> cache)
  end.

(** The ownership decision, computed once per Deployment. *)
Definition ownsCached (policy : EvictionGuardPolicy) (all : list (option EvictionGuardPolicy)) (dep : Deployment)
  (podNs : string) (c : collection) (w : W) : result (bool * collection) :=
  match ccOwns c !! dep_key dep with
  | Some owns => Ok (owns, c)
  | None =>
      x ← namespaceLabels podNs (ccNs c) w;
      let owns := Owns (Some policy) (Some dep) x.1 all in
      Ok (owns, MkCollection x.2 (ccOwner c) (<[dep_key dep := owns]> (ccOwns c)) (ccOut c))
  end.

(** One pod of one vulnerable node. *)
Definition collect_pod (policy : EvictionGuardPolicy) (all : list (option EvictionGuardPolicy)) (node : string)
  (pod : Pod) (c : collection) (w : W) : result collection :=
  if bool_decide (mDeletionTimestamp (podMeta pod) ≠ None) then Ok c
  else
    x ← ownerDeploymentCached pod (ccOwner c) w;
    let c := MkCollection (ccNs c) x.2 (ccOwns c) (ccOut c) in
    match x.1 with
    | None => Ok c
    | Some dep =>
        if negb (workloadProtected (Some dep) (Some pod)) then Ok c
        else
          y ← ownsCached policy all dep (mNamespace (podMeta pod)) c w;
          let c := y.2 in
          if negb y.1 then Ok c
          else Ok (MkCollection (ccNs c) (ccOwner c) (ccOwns c) (add_at_risk (ccOut c) (dep_key dep) dep node))
    end.

Fixpoint collect_pods (policy : EvictionGuardPolicy) (all : list (option EvictionGuardPolicy)) (node : string)
  (pods : list Pod) (c : collection) (w : W) : result collection :=
  match pods with
  | [] => Ok c
  | pod :: rest => c ← collect_pod policy all node pod c w; collect_pods policy all node rest c w
  end.

(** The pods of a node, by the field index. *)
Definition podsOnNode (nodeName : string) (w : W) : result (list Pod) := listPodsOnNode nodeName w.

Fixpoint collect_nodes (policy : EvictionGuardPolicy) (all : list (option EvictionGuardPolicy))
  (nodes : list Node) (c : collection) (w : W) : result collection :=
  match nodes with
  | [] => Ok c
  | n :: rest =>
      pods ← podsOnNode (mName (nMeta n)) w;
      c ← collect_pods policy all (mName (nMeta n)) pods c w;
      collect_nodes policy all rest c w
  end.

Definition collectWorkloads (policy : EvictionGuardPolicy) (vulnerable : list Node) (w : W)
  : result (gmap string workloadState) :=
  items ← listPolicies w;
  c ← collect_nodes policy (map Some items) vulnerable (MkCollection ∅ ∅ ∅ ∅) w;
  Ok (ccOut c).

(** The loop over the cluster's nodes: the matched ones, and of those the
    vulnerable ones. *)
Fixpoint classify_nodes (flt : specFilter) (policy : EvictionGuardPolicy) (nodes matched vulnerable : list Node)
  : result (list Node * list Node) :=
  match nodes with
  | [] => Ok (matched, vulnerable)
  | n :: rest =>
      ok ← Matches flt (Some n);
      if negb ok then classify_nodes flt policy rest matched vulnerable
      else classify_nodes flt policy rest (matched ++ [n])
             (if Vulnerable registry n (Some policy) then vulnerable ++ [n] else vulnerable)
  end.

Definition window_name_of (policy : EvictionGuardPolicy) (s : workloadState) : NamespacedName :=
  NN (wl_ns s) (WindowName (polName policy) (wl_ns s) (wl_name s)).

(** [PolicyReconciler.getWindow]: [None] when there is none. *)
Definition policyGetWindow (policy : EvictionGuardPolicy) (s : workloadState) (w : W)
  : result (option EvictionGuardWindow) :=
  match getWindow (window_name_of policy s) w with
  | Err e => if IsNotFound e then Ok None else Err e
  | Ok win => Ok (Some win)
  end.

(** The windows' counter: active and not a placeholder. *)
Fixpoint count_active (l : list EvictionGuardWindow) (n : Z) : Z :=
  match l with
  | [] => n
  | win :: rest => count_active rest (if IsActive win && negb (isDeferredWindow (Some win)) then i32 (n + 1) else n)
  end.

Definition countActiveWindows (policy : EvictionGuardPolicy) (w : W) : result Z :=
  l ← listWindowsBy IndexWindowPolicyName (polName policy) w;
  Ok (count_active l 0).

(** A new window for a workload. *)
Definition new_window (policy : EvictionGuardPolicy) (s : workloadState) (deferred : bool) (actions : list ScaleAction)
  (baseline scaledTo : Z) (nodeNames : list string) : EvictionGuardWindow :=
  let labels := <[PolicyLabel := polName policy]> (<[WorkloadNameLabel := wl_name s]>
                  (<[WorkloadNamespaceLabel := wl_ns s]> ∅)) in
  MkWindow
    (MkMeta (nnName (window_name_of policy s)) (wl_ns s)
       (if deferred then <[DeferredLabel := "true"]> labels else labels) ∅ None zero_time [] [] 0)
    (MkWindowSpec (polName policy) (workloadRef (wlDeploy s)) actions baseline scaledTo nodeNames None)
    empty_window_status.

(** Finalizer, owner reference, [Create]. *)
Definition create_window (policy : EvictionGuardPolicy) (win : EvictionGuardWindow) : M W EvictionGuardWindow :=
  let win := finalized win in
  win ← mapErr (λ e, WrapError "ownerref: " e "") (lift (SetControllerReference policy win));
  CreateWindow win.

Definition set_plan (actions : list ScaleAction) (baseline scaledTo : Z) (nodeNames : list string)
  (s : EvictionGuardWindowSpec) : EvictionGuardWindowSpec :=
  MkWindowSpec (wsPolicyName s) (wsTarget s) actions baseline scaledTo nodeNames None.

Definition set_label (k v : string) (win : EvictionGuardWindow) : EvictionGuardWindow :=
  with_meta (λ m, set_labels (<[k := v]> (mLabels m)) m) win.
Definition drop_label (k : string) (win : EvictionGuardWindow) : EvictionGuardWindow :=
  with_meta (λ m, set_labels (delete k (mLabels m)) m) win.

(** [if win.Status.F != v { win.Status.F = v; statusDirty = true }] *)
Definition dirty_phase (p : WindowPhase) (x : EvictionGuardWindow * bool) : EvictionGuardWindow * bool :=
  if negb (bool_decide (wtPhase (winStatus x.1) = p)) then (with_status (set_phase p) x.1, true) else x.
Definition dirty_message (m : string) (x : EvictionGuardWindow * bool) : EvictionGuardWindow * bool :=
  if negb (str_eqb (wtMessage (winStatus x.1)) m) then (with_status (set_message m) x.1, true) else x.
Definition dirty_scale_time (t : Time) (x : EvictionGuardWindow * bool) : EvictionGuardWindow * bool :=
  match wtLastScaleTime (winStatus x.1) with
  | None => (with_status (set_last_scale (Some t)) x.1, true)
  | Some _ => x
  end.

Definition deferred_msg : string :=
  "deferred: waiting for maxConcurrentWindows slot; eviction fail-opens after maxWindow".

(** The update half of [ensureDeferredWindow]. *)
Definition refresh_deferred (win : EvictionGuardWindow) (baseline : Z) (nodeNames : list string) : M W unit :=
  win ← PatchWindow win (with_spec (set_plan [] baseline baseline nodeNames) (set_label DeferredLabel "true" win));
  t1 ← now;
  let x := dirty_scale_time t1 (dirty_message deferred_msg (dirty_phase WindowPhaseOpen (win, false))) in
  t2 ← now;
  let '(win, gauge, flip) := applyCapacityApplied x.1 None t2 in
  _ ← tell gauge;
  if x.2 || flip then _ ← UpdateWindowStatus win; mret () else mret ().

(** The creation half. *)
Definition open_deferred (policy : EvictionGuardPolicy) (s : workloadState) (baseline : Z) (nodeNames : list string)
  : M W unit :=
  win ← create_window policy (new_window policy s true [] baseline baseline nodeNames);
  t ← now;
  let win := with_status (λ st, set_last_scale (Some t) (set_message deferred_msg (set_phase WindowPhaseOpen st))) win in
  let '(win, gauge, _) := applyCapacityApplied win None t in
  _ ← tell gauge;
  win ← UpdateWindowStatus win;
  emitf Recorder (policy_ref policy) "Normal" reasonWindowOpened
    ("opened deferred window " +:+ mNamespace (winMeta win) +:+ "/" +:+ mName (winMeta win) +:+ " for "
     +:+ wl_name s +:+ " (waiting for slot)").

(** The window of a workload; [None] when there is none. *)
Definition lookup_window (policy : EvictionGuardPolicy) (s : workloadState) : M W (option EvictionGuardWindow) :=
  r ← try (reads (getWindow (window_name_of policy s)));
  match r with
  | Ok win => mret (Some win)
  | Err e => if IsNotFound e then mret None else throw e
  end.

(** [holdMaxWindow], for a window that exists. *)
Definition held_back (policy : EvictionGuardPolicy) (win : option EvictionGuardWindow) : M W bool :=
  match win with
  | None => mret false
  | Some _ => t ← now; mret (holdMaxWindow (Some policy) win t)
  end.

Definition ensureDeferredWindow (policy : EvictionGuardPolicy) (s : workloadState) : M W unit :=
  win ← lookup_window policy s;
  held ← held_back policy win;
  if (held : bool) then mret ()
  else
    _ ← tell (GaugeSet AtRiskPods [polName policy; wl_ns s; wl_name s] (wlAtRisk s));
    let nodeNames := sortedKeys (wlNodes s) in
    match win with
    | None => open_deferred policy s (deployReplicas (Some (wlDeploy s))) nodeNames
    | Some win =>
        let baseline := if 0 <? wsBaseline (winSpec win) then wsBaseline (winSpec win)
                        else deployReplicas (Some (wlDeploy s)) in
        refresh_deferred win baseline nodeNames
    end.

(** What a window says it opened for. *)
Definition open_message (p : scalePlan) : string :=
  match planSteps p with
  | [] => "opened window for external scaler (no capacity patches)"
  | _ => "scaled up ahead of node disruption"
  end.

(** The window exists, with the plan recorded, before capacity moves. *)
Definition record_window (policy : EvictionGuardPolicy) (s : workloadState) (win : option EvictionGuardWindow)
  (actions : list ScaleAction) (plan : scalePlan) (nodeNames : list string) : M W EvictionGuardWindow :=
  match win with
  | None =>
      win ← create_window policy
              (new_window policy s false actions (planPrimaryBaseline plan) (planDesired plan) nodeNames);
      _ ← emitf Recorder (policy_ref policy) "Normal" reasonWindowOpened
            ("opened window " +:+ mNamespace (winMeta win) +:+ "/" +:+ mName (winMeta win) +:+ " for " +:+ wl_name s);
      mret win
  | Some win =>
      PatchWindow win
        (with_spec (set_plan actions (planPrimaryBaseline plan) (planDesired plan) nodeNames)
           (drop_label DeferredLabel win))
  end.

(** The status after [apply], and the error to return. *)
Definition report_apply (win : EvictionGuardWindow) (openMsg : string) (applyErr : option error) : M W unit :=
  t ← now;
  let openMsg := match applyErr with
                 | Some e => "capacity apply failed; eviction fail-opens after maxWindow: " +:+ Error_string e
                 | None => openMsg
                 end in
  let x := dirty_message openMsg (dirty_scale_time t (dirty_phase WindowPhaseOpen (win, false))) in
  let '(win, gauge, flip) := applyCapacityApplied x.1 applyErr t in
  _ ← tell gauge;
  _ ← if x.2 || flip then
        r ← try (UpdateWindowStatus win);
        match r, applyErr with
        | Ok _, _ => mret ()
        | Err e, Some a => throw (WrapError ("window status after apply error: " +:+ Error_string e +:+ "; apply: ") a "")
        | Err e, None => throw e
        end
      else mret ();
  match applyErr with Some a => throw a | None => mret () end.

Definition ensureWindow (policy : EvictionGuardPolicy) (s : workloadState) : M W unit :=
  win ← lookup_window policy s;
  held ← held_back policy win;
  if (held : bool) then mret ()
  else
    let existingActions := match win with Some x => ScaleActions x | None => [] end in
    let stickyBaseline := match win with Some x => wsBaseline (winSpec x) | None => 0 end in
    let nodeNames := sortedKeys (wlNodes s) in
    _ ← tell (GaugeSet AtRiskPods [polName policy; wl_ns s; wl_name s] (wlAtRisk s));
    plan ← buildPlan (Some policy) (Some (wlDeploy s)) (wlAtRisk s) existingActions stickyBaseline;
    _ ← setWorkloadPlanMetrics (polName policy) (wl_ns s) (wl_name s) (wlAtRisk s) (planDesired plan)
          (planPrimaryBaseline plan);
    let actions := plan_actions plan existingActions in
    win ← record_window policy s win actions plan nodeNames;
    x ← apply plan (polName policy);
    let '(scaled, applyErr) := (x : bool * option error) in
    _ ← match applyErr with
        | None =>
            if scaled then
              emitf Recorder (deployment_ref (wlDeploy s)) "Normal" reasonScaledUp
                ("policy " +:+ Quote (polName policy) +:+ " scaled replicas to " +:+ FormatInt (planDesired plan)
                 +:+ " (baseline " +:+ FormatInt (planPrimaryBaseline plan) +:+ ") ahead of disruption on nodes ["
                 +:+ Join nodeNames " " +:+ "]")
            else mret ()
        | Some _ => mret ()
        end;
    report_apply win (open_message plan) applyErr.

Definition publishWorkloadMetrics (policy : EvictionGuardPolicy) (s : workloadState) : M W unit :=
  win ← lookup_window policy s;
  let existing := match win with Some x => ScaleActions x | None => [] end in
  let stickyBaseline := match win with Some x => wsBaseline (winSpec x) | None => 0 end in
  plan ← buildPlan (Some policy) (Some (wlDeploy s)) (wlAtRisk s) existing stickyBaseline;
  setWorkloadPlanMetrics (polName policy) (wl_ns s) (wl_name s) (wlAtRisk s) (planDesired plan)
    (planPrimaryBaseline plan).

(** ** Clearing *)

(** [nodesStillVulnerable]: the first one is enough. *)
Fixpoint any_vulnerable (flt : specFilter) (policy : EvictionGuardPolicy) (names : list string) (w : W) : result bool :=
  match names with
  | [] => Ok false
  | name :: rest =>
      match getNode name w with
      | Err e => if IsNotFound e then any_vulnerable flt policy rest w else Err e
      | Ok n =>
          match Matches flt (Some n) with
          | Err e => Err e
          | Ok ok => if ok && Vulnerable registry n (Some policy) then Ok true
                     else any_vulnerable flt policy rest w
          end
      end
  end.

Definition nodesStillVulnerable (policy : EvictionGuardPolicy) (names : list string) (w : W) : result bool :=
  match names with
  | [] => Ok false
  | _ => flt ← FromSpec (psNodeFilter (polSpec policy)); any_vulnerable flt policy names w
  end.

(** One window of [syncClearedWindows]. *)
Definition sync_window (policy : EvictionGuardPolicy) (active : gmap string workloadState) (win : EvictionGuardWindow)
  : M W unit :=
  let t := wsTarget (winSpec win) in
  match active !! (wrNamespace t +:+ "/" +:+ wrName t) with
  | Some _ => mret ()
  | None =>
      _ ← tell (GaugeSet AtRiskPods [polName policy; wrNamespace t; wrName t] 0);
      match wsVulnerableNodes (winSpec win) with
      | [] => mret ()
      | names =>
          dying ← reads (nodesStillVulnerable policy names);
          if (dying : bool) then mret ()
          else _ ← PatchWindow win (with_spec (set_vulnerable []) win); mret ()
      end
  end.

Definition syncClearedWindows (policy : EvictionGuardPolicy) (active : gmap string workloadState) : M W unit :=
  l ← reads (listWindowsBy IndexWindowPolicyName (polName policy));
  for_each (sync_window policy active) l.

(** ** Deletion and status *)

Definition without_policy_finalizer (p : EvictionGuardPolicy) : EvictionGuardPolicy :=
  MkPolicy (set_finalizers (RemoveFinalizer (mFinalizers (polMeta p)) PolicyFinalizer) (polMeta p)) (polSpec p) (polStatus p).
Definition with_policy_finalizer (p : EvictionGuardPolicy) : EvictionGuardPolicy :=
  MkPolicy (set_finalizers (AddFinalizer (mFinalizers (polMeta p)) PolicyFinalizer) (polMeta p)) (polSpec p) (polStatus p).
Definition policy_has_finalizer (p : EvictionGuardPolicy) : bool :=
  ContainsFinalizer (mFinalizers (polMeta p)) PolicyFinalizer.

Definition cleanup (policy : EvictionGuardPolicy) : M W CtrlResult :=
  l ← reads (listWindowsBy IndexWindowPolicyName (polName policy));
  match l with
  | _ :: _ =>
      _ ← for_each (λ x, ignore_nf (DeleteWindow (win_key x))) l;
      mret (MkCtrl requeuePolicyCleanup)
  | [] =>
      if policy_has_finalizer policy
      then _ ← PatchPolicy policy (without_policy_finalizer policy); mret ctrl_done
      else mret ctrl_done
  end.

Definition status_conditions (conds : list Condition) (deferred : Z) (recErr : option error) (t : Time) : list Condition :=
  let msg := if 0 <? deferred
             then "watching filtered nodes; " +:+ FormatInt deferred +:+ " workload(s) waiting for a window slot"
             else "watching filtered nodes" in
  let ready := match recErr with
               | None => MkCondition reasonPolicyReady ConditionTrue 0 t reasonPolicyReady msg
               | Some e => MkCondition reasonPolicyReady ConditionFalse 0 t reasonPolicyError (Error_string e)
               end in
  let auth := match recErr with
              | Some e =>
                  if isMissingBackendRBAC e
                  then MkCondition ConditionBackendsAuthorized ConditionFalse 0 t ReasonMissingRBAC (Error_string e)
                  else MkCondition ConditionBackendsAuthorized ConditionTrue 0 t ReasonAuthorized "catalog backend access ok"
              | None => MkCondition ConditionBackendsAuthorized ConditionTrue 0 t ReasonAuthorized "catalog backend access ok"
              end in
  SetStatusCondition (SetStatusCondition conds ready) auth.

Definition updateStatus (policy : EvictionGuardPolicy) (matched vuln windows deferred : Z) (recErr : option error)
  : M W CtrlResult :=
  t ← now;
  let st := MkPolicyStatus (mGeneration (polMeta policy)) matched vuln windows deferred
              (status_conditions (plConditions (polStatus policy)) deferred recErr t) in
  _ ← UpdatePolicyStatus (MkPolicy (polMeta policy) (polSpec policy) st);
  mret (if 0 <? deferred then MkCtrl requeueDeferred else ctrl_done).

(** ** Reconcile *)

(** The counters of the loop over the workloads. *)
Record sweep := MkSweep { swActive : Z; swDeferred : Z; swErrs : list error }.

(** One workload: defer it, or open its window. *)
Definition sweep_one (policy : EvictionGuardPolicy) (windowCap : Z) (s : workloadState) (a : sweep) : M W sweep :=
  win ← reads (policyGetWindow policy s);
  let held := match win with Some x => IsActive x | None => false end in
  let waiting := negb held || isDeferredWindow win in
  if waiting && (0 <? windowCap) && (windowCap <=? swActive a) then
    let deferred := i32 (swDeferred a + 1) in
    r ← try (ensureDeferredWindow policy s);
    match r with
    | Err e =>
        mret (MkSweep (swActive a) deferred
                (swErrs a ++ [WrapError (wl_ns s +:+ "/" +:+ wl_name s +:+ " deferred: ") e ""]))
    | Ok _ => _ ← try (publishWorkloadMetrics policy s); mret (MkSweep (swActive a) deferred (swErrs a))
    end
  else
    r ← try (ensureWindow policy s);
    match r with
    | Err e =>
        _ ← tell (CounterInc ScaleActionsTotal
                    [polName policy; "up"; backendLabel (Some (wlDeploy s)) (Some policy); "error"]);
        _ ← emitf Recorder (deployment_ref (wlDeploy s)) "Warning" reasonScaleUpFailed (Error_string e);
        _ ← emitf Recorder (policy_ref policy) "Warning" reasonScaleUpFailed
              ("scale-up " +:+ wl_ns s +:+ "/" +:+ wl_name s +:+ " failed: " +:+ Error_string e);
        mret (MkSweep (swActive a) (swDeferred a)
                (swErrs a ++ [WrapError (wl_ns s +:+ "/" +:+ wl_name s +:+ ": ") e ""]))
    | Ok _ => mret (MkSweep (if waiting then i32 (swActive a + 1) else swActive a) (swDeferred a) (swErrs a))
    end.

Fixpoint sweep_all (policy : EvictionGuardPolicy) (windowCap : Z) (l : list workloadState) (a : sweep) : M W sweep :=
  match l with
  | [] => mret a
  | s :: rest => a ← sweep_one policy windowCap s a; sweep_all policy windowCap rest a
  end.

(** The workloads in key order. *)
Definition sorted_workloads (m : gmap string workloadState) : list workloadState :=
  omap (λ k, m !! k) (sortedWorkloadKeys m).

(** [workloadErr] *)
Definition summarize (errs : list error) : option error :=
  match errs with
  | [] => None
  | [e] => Some e
  | e :: _ => Some (WrapError (FormatInt (Z.of_nat (length errs)) +:+ " workloads failed scale-up; first: ") e "")
  end.

(** [Reconcile] after the loop over the workloads. *)
Definition finish_reconcile (policy : EvictionGuardPolicy) (matched vulnerable windowCap : Z)
  (workloads : gmap string workloadState) (a : sweep) : M W CtrlResult :=
  _ ← if 0 <? swDeferred a then
        emitf Recorder (policy_ref policy) "Normal" reasonWindowsCapped
          (FormatInt (swDeferred a) +:+ " workload(s) waiting for a window slot (active " +:+ FormatInt (swActive a)
           +:+ ", maxConcurrentWindows " +:+ FormatInt windowCap +:+ ")")
      else mret ();
  _ ← tell (GaugeSet DeferredWorkloads [polName policy] (swDeferred a));
  _ ← syncClearedWindows policy workloads;
  active ← reads (countActiveWindows policy);
  let workloadErr := summarize (swErrs a) in
  res ← updateStatus policy (i32 matched) (i32 vulnerable) active (swDeferred a) workloadErr;
  mret (match workloadErr with
        | Some _ => MkCtrl requeueDeferred
        | None => if 0 <? swDeferred a then MkCtrl requeueDeferred else res
        end).

(** [Reconcile] of a policy that is not being deleted, with its filter. *)
Definition reconcile_policy (policy : EvictionGuardPolicy) (flt : specFilter) : M W CtrlResult :=
  nodes ← reads listNodes;
  x ← lift (classify_nodes flt policy nodes [] []);
  let matched := Z.of_nat (length x.1) in
  let vulnerable := Z.of_nat (length x.2) in
  _ ← tell (GaugeSet MatchedNodes [polName policy] matched);
  _ ← tell (GaugeSet VulnerableNodes [polName policy] vulnerable);
  workloads ← reads (collectWorkloads policy x.2);
  active ← reads (countActiveWindows policy);
  let windowCap := MaxConcurrentWindowsOrDefault policy in
  a ← sweep_all policy windowCap (sorted_workloads workloads) (MkSweep active 0 []);
  finish_reconcile policy matched vulnerable windowCap workloads a.

(** [PolicyReconciler.Reconcile] *)
Definition policy_Reconcile (req : NamespacedName) : M W CtrlResult :=
  r ← try (reads (getPolicy (nnName req)));
  match r with
  | Err e => match IgnoreNotFound e with None => mret ctrl_done | Some e => throw e end
  | Ok policy =>
      if negb (tsIsZero (mDeletionTimestamp (polMeta policy))) then cleanup policy
      else if negb (policy_has_finalizer policy) then
        _ ← PatchPolicy policy (with_policy_finalizer policy); mret ctrl_done
      else
        match FromSpec (psNodeFilter (polSpec policy)) with
        | Err e => _ ← updateStatus policy 0 0 0 0 (Some e); throw e
        | Ok flt => reconcile_policy policy flt
        end
  end.
End policy.
