(* ===== verification/PolicySpec.v ===== *)
(** * Correctness of the policy reconciler

    What the parts of one reconcile of PolicyController.v may do to the cluster:
    capacity is raised only under a window that records how to give it back, a
    workload that can be protected is, the concurrency cap, and when a window
    or a policy is let go of. *)
From S2P Require Import Evictgate.
From S2P Require Import Prelude GoStrings GoTime Meta Api Kube Capacity Naming Filters Signals PolicyOwn Workload.
From S2P Require Import Fields WindowPhase ScaleActions Plan PlanSpec Observe WindowController WindowSpec PolicyController Fake.

#[local] Open Scope Z_scope.

Section spec.
Context {Obj W : Type} `{L : KubeLib} `{C : Client Obj W}.
Context (registry : Registry) (Recorder : bool).

Abbreviation quiet := (Forall (λ e, ¬ writes_api e)).

(** ** Reports: metrics and events *)

(** A program that only reports: it answers, leaves the cluster as it is and
    writes nothing to the API server. *)
Definition talks (m : M W unit) : Prop := ∀ w, ∃ es, m w = (Ok (), w, es) ∧ quiet es.

Lemma talks_ret : talks (mret ()).
Proof. intros w. by exists []. Qed.
Lemma talks_tell e : ¬ writes_api e → talks (tell e).
Proof. intros H w. exists [e]. split; [done | by repeat constructor]. Qed.
Lemma talks_bind m (k : unit → M W unit) : talks m → (∀ u, talks (k u)) → talks (m ≫= k).
Proof.
  intros Hm Hk w. destruct (Hm w) as (es & E & Hq), (Hk () w) as (es' & E' & Hq').
  exists (es ++ es'). rewrite bind_eq E E'. split; [done | by apply Forall_app].
Qed.
Lemma talks_emitf g ty reason note : talks (emitf Recorder g ty reason note).
Proof. unfold emitf. destruct Recorder; [by apply talks_tell; intros [] | apply talks_ret]. Qed.
Lemma talks_metrics p ns n a d b : talks (setWorkloadPlanMetrics p ns n a d b).
Proof. unfold setWorkloadPlanMetrics. repeat (apply talks_bind; [by apply talks_tell; intros []|]; intros ?). by apply talks_tell; intros []. Qed.

Lemma bind_talks {B} m (k : unit → M W B) w r w' es :
  talks m → (m ≫= k) w = (r, w', es) → ∃ pre post, quiet pre ∧ k () w = (r, w', post) ∧ es = pre ++ post.
Proof.
  intros Hm. destruct (Hm w) as (pre & E & Hq). rewrite bind_eq E.
  destruct (k () w) as [[r1 w1] es1] eqn:Ek. intros [= <- <- <-]. by exists pre, es1.
Qed.

Lemma bind_tell {B} e (k : unit → M W B) w r w' es :
  (tell e ≫= k) w = (r, w', es) → ∃ post, k () w = (r, w', post) ∧ es = e :: post.
Proof.
  rewrite bind_eq tell_run. destruct (k () w) as [[r1 w1] es1]. intros [= <- <- <-]. by exists es1.
Qed.

(** ** Recording a window *)

(** The write that records a workload's window: a new window with the finalizer,
    or a patch of the one that is there. *)
Definition records_window (policy : EvictionGuardPolicy) (s : workloadState) (w : W) (e : effect)
  (x : EvictionGuardWindow) (ok : bool) : Prop :=
  let key := window_name_of policy s in
  (∃ err, getWindow key w = Err err ∧ IsNotFound err = true
     ∧ e = CreateWindowE x ok ∧ win_key x = key ∧ has_finalizer x = true)
  ∨ ∃ b, getWindow key w = Ok b ∧ e = PatchWindowE b x ok ∧ win_key x = win_key b.

Lemma records_window_writes policy s w e x ok : records_window policy s w e x ok → ¬ scales e.
Proof. by intros [(? & _ & _ & -> & _)|(? & _ & -> & _)] []. Qed.

(** What [lookup_window] answers. *)
Definition window_is (policy : EvictionGuardPolicy) (s : workloadState) (w : W) (win : option EvictionGuardWindow) : Prop :=
  match win with
  | Some x => getWindow (window_name_of policy s) w = Ok x
  | None => ∃ e, getWindow (window_name_of policy s) w = Err e ∧ IsNotFound e = true
  end.

Lemma lookup_window_run policy s w :
  ∃ r, lookup_window policy s w = (r, w, []) ∧ ∀ win, r = Ok win → window_is policy s w win.
Proof.
  unfold lookup_window. rewrite bind_try_reads. destruct (getWindow _ w) as [x|e] eqn:E.
  - eexists. split; [done|]. by intros win [= <-].
  - destruct (IsNotFound e) eqn:En; eexists; (split; [done|]); intros win [= <-]. by exists e.
Qed.

Lemma held_back_run policy win w :
  held_back policy win w
  = (Ok match win with Some _ => holdMaxWindow (Some policy) win (clock w) | None => false end, w, []).
Proof. by destruct win. Qed.

Lemma lookup_window_bind {B} policy s (k : option EvictionGuardWindow → M W B) w r w' es :
  (lookup_window policy s ≫= k) w = (r, w', es) →
  (∃ e, r = Err e ∧ w' = w ∧ es = []) ∨ ∃ win, window_is policy s w win ∧ k win w = (r, w', es).
Proof.
  destruct (lookup_window_run policy s w) as (r0 & Hr0 & Hwin). rewrite bind_eq Hr0.
  destruct r0 as [win|e]; [|intros [= <- <- <-]; left; eauto]. intros H. right. exists win. split; [by apply Hwin|].
  by destruct (k win w) as [[? ?] ?].
Qed.

Context {AL : AnswerLaws C}.
Context {LL : KubeLibLaws L}.

Lemma create_window_run policy x w r w' es :
  create_window policy x w = (r, w', es) →
  (w' = w ∧ es = [] ∧ is_ok r = false)
  ∨ ∃ y, createWindow y w = (r, w') ∧ es = [CreateWindowE y (is_ok r)]
      ∧ winSpec y = winSpec x ∧ win_key y = win_key x ∧ mLabels (winMeta y) = mLabels (winMeta x) ∧ has_finalizer y = true.
Proof.
  unfold create_window. intros H. apply bind_inv in H as [(e & He & ->) | (y & w1 & es1 & es2 & Hy & H & ->)].
  { apply mapErr_err_inv in He as (e' & He & _). apply lift_inv in He as (_ & -> & ->). by left. }
  apply mapErr_ok_inv, lift_inv in Hy as (Hy & -> & ->). right. exists y.
  unfold CreateWindow, write in H. destruct (createWindow y w) as [r1 w1]. injection H as <- <- <-.
  destruct (owner_reference _ _ _ (eq_sym Hy)) as (Hs & _ & Hk & Hl & Hf). do 2 (split; [done|]).
  split; [by rewrite Hs|]. split; [by rewrite /win_key Hk|]. split; [by rewrite Hl|].
  unfold has_finalizer. rewrite Hf. apply contains_add.
Qed.

(** [record_window] fails before it writes, or its first action is the write. *)
Lemma record_window_run policy s win actions plan nodes w r w' es :
  window_is policy s w win → record_window Recorder policy s win actions plan nodes w = (r, w', es) →
  (w' = w ∧ es = [] ∧ is_ok r = false)
  ∨ ∃ x e evs, records_window policy s w e x (is_ok r) ∧ es = e :: evs ∧ quiet evs ∧ (is_ok r = false → evs = [])
      ∧ wsActions (winSpec x) = actions ∧ wsBaseline (winSpec x) = planPrimaryBaseline plan
      ∧ wsScaledTo (winSpec x) = planDesired plan ∧ wsVulnerableNodes (winSpec x) = nodes
      ∧ wsWindowUntil (winSpec x) = None ∧ isDeferredWindow (Some x) = false
      ∧ (WindowLaws C → ∀ g k, getUnstructured g k w' = getUnstructured g k w).
Proof.
  destruct win as [b|]; cbn [window_is]; unfold record_window.
  - intros Hb. unfold PatchWindow, write. set (x := with_spec _ _). intros H.
    destruct (patchWindow b x w) as [r1 w1] eqn:Ep. injection H as <- <- <-. right.
    exists x, (PatchWindowE b x (is_ok r1)), []. split; [right; by exists b|]. do 2 (split; [done|]).
    do 6 (split; [done|]). split; [|intros WL g k; pose proof (patch_window_objects b x w g k) as H; by rewrite Ep in H].
    unfold isDeferredWindow, mget. simpl. by rewrite lookup_delete_eq.
  - intros (e & He & Hn) H.
    apply bind_inv in H as [(err & Hc & ->) | (y & w1 & es1 & es2 & Hc & H & ->)];
      apply create_window_run in Hc as [(-> & -> & Hc)|(z & Hz & -> & Hs & Hk & Hl & Hf)]; [by left| |done|]; right.
    + exists z, (CreateWindowE z false), []. split; [left; by exists e|]. do 3 (split; [done|]). rewrite Hs. do 5 (split; [done|]).
      split; [|intros WL g k; pose proof (create_window_objects z w g k) as Ho; by rewrite Hz in Ho].
      unfold isDeferredWindow, mget. by rewrite Hl.
    + unfold emitf in H. exists z, (CreateWindowE z true), es2. rewrite Hs.
      assert (r = Ok y ∧ w' = w1 ∧ quiet es2) as (-> & -> & Hq).
      { destruct Recorder; simpl in H; injection H as <- <- <-; (split; [done|]); (split; [done|]); repeat constructor. by intros []. }
      split; [left; by exists e|]. do 2 (split; [done|]). do 6 (split; [done|]).
      split; [|intros WL g k; pose proof (create_window_objects z w g k) as Ho; by rewrite Hz in Ho].
      unfold isDeferredWindow, mget. by rewrite Hl.
Qed.

(** ** The status after an apply *)

(** Programs that touch the windows' status at most. *)
Definition status_only (e : effect) : Prop := ¬ writes_api e ∨ ∃ x ok, e = UpdateWindowStatusE x ok.

Lemma status_only_scales e : status_only e → ¬ scales e.
Proof. intros [Hn|(x & ok & ->)]; [|by intros []]. intros Hs. apply Hn. by destruct e. Qed.

Lemma applyCapacityApplied_gauge win err t win' g flip :
  applyCapacityApplied win err t = (win', g, flip) → ∃ m l v, g = GaugeSet m l v.
Proof. unfold applyCapacityApplied. intros [= _ <- _]. by do 3 eexists. Qed.

Lemma report_apply_emits (win : EvictionGuardWindow) msg err : emits status_only (report_apply win msg err : M W unit).
Proof.
  unfold report_apply. apply emits_bind; [apply emits_now|]. intros t. cbv zeta.
  destruct (applyCapacityApplied _ err t) as [[win' gauge] flip] eqn:Ha.
  apply applyCapacityApplied_gauge in Ha as (m & l & v & ->).
  apply emits_bind; [apply emits_tell; left; by intros []|]. intros _.
  apply emits_bind; [|intros _; case_match; emits_tac].
  case_match; [|apply emits_ret]. apply emits_bind; [apply emits_try, emits_write; intros ok; right; eauto|].
  intros [u|e]; emits_tac.
Qed.

Lemma report_apply_ok win msg err w u w' es : report_apply win msg err w = (Ok u, w', es) → err = None.
Proof.
  unfold report_apply. intros H. apply bind_ok_inv in H as (t & w1 & es1 & es2 & _ & H & _). cbv zeta in H.
  destruct (applyCapacityApplied _ err t) as [[win' gauge] flip]. apply bind_ok_inv in H as (? & ? & ? & ? & _ & H & _).
  apply bind_ok_inv in H as (? & ? & ? & ? & _ & H & _). by destruct err.
Qed.

(** Writing windows moves no object. *)
Definition same_objects (w w' : W) : Prop := ∀ g k, getUnstructured g k w' = getUnstructured g k w.

#[local] Instance same_objects_preorder : PreOrder same_objects.
Proof. split; [by intros w g k | intros w1 w2 w3 H1 H2 g k; by rewrite H2]. Qed.

Lemma report_apply_objects {WL : WindowLaws C} win msg err : keeps same_objects (report_apply win msg err : M W unit).
Proof.
  unfold report_apply. apply keeps_bind; [apply _|apply keeps_now, _|]. intros t. cbv zeta.
  destruct (applyCapacityApplied _ err t) as [[win' gauge] flip].
  apply keeps_bind; [apply _|apply keeps_tell, _|]. intros _.
  apply keeps_bind; [apply _| |intros _; case_match; keeps_tac].
  case_match; [|apply keeps_ret, _]. apply keeps_bind; [apply _|apply keeps_try, keeps_write|].
  { intros w0 g k. apply update_status_objects. }
  intros [u|e]; keeps_tac.
Qed.

(** ** One workload *)

(** What an [ensureWindow] that got as far as its window did: plan, record, and
    only then apply. *)
Record ensured (policy : EvictionGuardPolicy) (s : workloadState) (w : W) (r : result unit) (w' : W) (es : list effect)
  (win : option EvictionGuardWindow) (plan : scalePlan) (x : EvictionGuardWindow) (ok : bool) : Prop := {
  en_window : window_is policy s w win;
  en_free : match win with Some _ => holdMaxWindow (Some policy) win (clock w) = false | None => True end;
  en_plan : buildPlan (Some policy) (Some (wlDeploy s)) (wlAtRisk s)
              (match win with Some b => ScaleActions b | None => [] end)
              (match win with Some b => wsBaseline (winSpec b) | None => 0 end) w = (Ok plan, w, []);
  en_actions : wsActions (winSpec x) = plan_actions plan (match win with Some b => ScaleActions b | None => [] end);
  en_baseline : wsBaseline (winSpec x) = planPrimaryBaseline plan;
  en_nodes : wsVulnerableNodes (winSpec x) = sortedKeys (wlNodes s);
  en_until : wsWindowUntil (winSpec x) = None;
  en_slot : isDeferredWindow (Some x) = false;
  en_run : ∃ pre rec post w1, records_window policy s w rec x ok ∧ es = pre ++ rec :: post ∧ quiet pre
      ∧ (WindowLaws C → same_objects w w1)
      ∧ if ok then ∃ ev sc err w2 esa esr, quiet ev ∧ apply plan (polName policy) w1 = (Ok (sc, err), w2, esa)
               ∧ post = ev ++ esa ++ esr ∧ Forall status_only esr ∧ (WindowLaws C → same_objects w2 w') ∧ (r = Ok () → err = None)
        else is_ok r = false ∧ post = [] ∧ w' = w1
}.

Lemma ensureWindow_cases policy s w r w' es :
  ensureWindow Recorder policy s w = (r, w', es) →
  (w' = w ∧ quiet es
   ∧ (r = Ok () → ∃ win, getWindow (window_name_of policy s) w = Ok win ∧ holdMaxWindow (Some policy) (Some win) (clock w) = true))
  ∨ ∃ win plan x ok, ensured policy s w r w' es win plan x ok.
Proof.
  unfold ensureWindow. intros H. apply lookup_window_bind in H as [(e & -> & -> & ->)|(win & Hwin & H)]; [by left|].
  rewrite bind_eq held_back_run in H. cbv zeta in H. destruct (match win with Some _ => _ | None => false end) eqn:Eh.
  { injection H as <- <- <-. left. split; [done|]. split; [constructor|]. intros _.
    destruct win as [x|]; [|done]. exists x. by split. }
  match type of H with context [match ?x with (_, _) => _ end] => destruct x as [[r1 w1] es1] eqn:Hrun end.
  injection H as -> -> ->. cbn [app].
  apply bind_talks in Hrun as (pre1 & post1 & Hq1 & H & ->); [|by apply talks_tell; intros []].
  apply bind_inv in H as [(e & Hp & ->)|(plan & w2 & es2 & es3 & Hp & H & ->)]; pose proof (buildPlan_reads _ _ _ _ _ _ _ _ _ Hp) as [-> ->].
  { left. rewrite app_nil_r. by split. }
  apply bind_talks in H as (pre2 & post2 & Hq2 & H & ->); [|apply talks_metrics].
  assert (quiet (pre1 ++ pre2)) as Hq by by apply Forall_app.
  assert (match win with Some _ => holdMaxWindow (Some policy) win (clock w) = false | None => True end) as Hfree by by destruct win.
  apply bind_inv in H as [(e & Hr & ->)|(win1 & w3 & es4 & es5 & Hr & H & ->)];
    (apply record_window_run in Hr as [(-> & -> & Hr)|(x & rec & evs & Hrec & -> & Hev & Herr & Ha & Hb & Hs & Hn & Hu & Hd & Ho)]; [| |exact Hwin]); [| |done|].
  - left. rewrite app_nil_r. by split.
  - right. exists win, plan, x, false. split; [done..|]. rewrite (Herr eq_refl).
    exists (pre1 ++ pre2), rec, [], w'. rewrite -app_assoc. by repeat split.
  - right. exists win, plan, x, true. split; [done..|]. exists (pre1 ++ pre2), rec, (evs ++ es5), w3.
    split; [done|]. split; [by rewrite -app_assoc|]. do 2 (split; [done|]).
    pose proof (apply_answers plan (polName policy) w3) as Hans.
    apply bind_inv in H as [(e & Happ & _)|([sc err] & w4 & esa & es6 & Happ & H & ->)]; rewrite Happ in Hans; [done|].
    assert (talks (match err with
        | Some _ => mret ()
        | None => if sc then emitf Recorder (deployment_ref (wlDeploy s)) "Normal" reasonScaledUp
                ("policy " +:+ Quote (polName policy) +:+ " scaled replicas to " +:+ FormatInt (planDesired plan)
                 +:+ " (baseline " +:+ FormatInt (planPrimaryBaseline plan) +:+ ") ahead of disruption on nodes ["
                 +:+ Join (sortedKeys (wlNodes s)) " " +:+ "]") else mret () end)) as Ht.
    { destruct err; [apply talks_ret|]. destruct sc; [apply talks_emitf | apply talks_ret]. }
    apply (bind_talks _ _ _ _ _ _ Ht) in H as (pre3 & post3 & Hq3 & H & ->).
    exists evs, sc, err, w4, esa, (pre3 ++ post3). do 3 (split; [done|]). split.
    { apply Forall_app. split; [by eapply Forall_impl; [exact Hq3|]; left|].
      apply Forall_forall. intros e. by apply (emits_elem _ _ _ _ _ _ _ (report_apply_emits _ _ _) H). }
    split; [intros WL; by eapply keeps_run; [apply report_apply_objects | exact H]|].
    intros ->. by eapply report_apply_ok.
Qed.
(** ** Applying *)

(** Applying patches the objects of the plan's steps and counts. *)
Lemma apply_group_emits (P : effect → Prop) pn s0 label g :
  (∀ v p ok, target_gvk (spTarget s0) = Ok v → P (PatchObjectE v (tgKey (spTarget s0)) p ok)) → (∀ m l, P (CounterInc m l)) →
  emits P (apply_group pn (spTarget s0) label g : M W _).
Proof.
  intros H Hc. unfold apply_group. apply emits_bind.
  { intros w. unfold effects. by destruct (scan_group_ok g (MkScan [] ∅ ∅ false) w) as [x ->]. }
  intros [sc|[t e]]; [|apply emits_ret]. apply emits_bind.
  - case_decide; [apply emits_ret|]. apply emits_bind; [by apply emits_try, PatchIntegers_emits|].
    intros [u|e]; [|apply emits_ret]. apply emits_bind; [|intros ?; apply emits_ret].
    case_match; [by apply emits_tell | apply emits_ret].
  - intros [[m raised] [e|]]; [apply emits_ret|]. case_decide; [apply emits_ret|].
    apply emits_bind; [apply emits_try, PatchAnnotations_emits; auto | intros [u|e]; apply emits_ret].
Qed.

Lemma compensate_emits (P : effect → Prop) gs first :
  (∀ (g : list scaleStep) st v p ok, g ∈ gs → st ∈ g → target_gvk (spTarget st) = Ok v → P (PatchObjectE v (tgKey (spTarget st)) p ok)) →
  emits P (compensate_rev gs first : M W _).
Proof.
  revert first. induction gs as [|g gs IH]; intros first H; cbn [compensate_rev]; [apply emits_ret|].
  apply emits_bind; [|intros r; apply IH; intros; eapply H; [by right | done..]].
  apply emits_try, restore_run_emits. intros a v p ok (st & -> & Hst)%list_elem_of_fmap.
  rewrite /step_action actionTarget_scaleAction. intros Hv. by eapply H; [left|..].
Qed.

Lemma apply_groups_emits (P : effect → Prop) pn (l : list scaleStep) (gs applied : list (list scaleStep)) scaled :
  (∀ st v p ok, st ∈ l → target_gvk (spTarget st) = Ok v → P (PatchObjectE v (tgKey (spTarget st)) p ok)) → (∀ m l, P (CounterInc m l)) →
  (∀ (g : list scaleStep) st, g ∈ gs ++ applied → st ∈ g → st ∈ l) → emits P (apply_groups pn gs applied scaled : M W _).
Proof.
  intros H Hc. revert applied scaled. induction gs as [|[|s0 g] gs IH]; intros applied scaled Hl; cbn [apply_groups].
  - apply emits_ret.
  - apply IH. intros g st Hg. apply Hl. by right.
  - apply emits_bind; [apply apply_group_emits; [|done]; intros; apply H; [by eapply Hl; left | done]|].
    intros [[m raised] err]. set (applied' := if m then applied ++ [s0 :: g] else applied).
    assert (∀ (g' : list scaleStep) st, g' ∈ gs ++ applied' → st ∈ g' → st ∈ l) as Hl'.
    { intros g' st Hg. apply Hl. subst applied'. destruct m; set_solver. }
    destruct err as [e|]; [|by apply IH]. apply emits_bind; [|intros ?; apply emits_ret].
    apply compensate_emits. intros g' st v p ok Hg Hst Hv. apply H; [|done]. apply (Hl' g'); [|done].
    apply elem_of_app. right. by rewrite elem_of_reverse in Hg.
Qed.

Lemma apply_emits (P : effect → Prop) p pn :
  (∀ st v q ok, st ∈ planSteps p → target_gvk (spTarget st) = Ok v → P (PatchObjectE v (tgKey (spTarget st)) q ok)) → (∀ m l, P (CounterInc m l)) →
  emits P (apply p pn : M W _).
Proof.
  intros H Hc. apply (apply_groups_emits P pn (planSteps p)); [done..|]. intros g st Hg Hst.
  rewrite app_nil_r in Hg. rewrite -(runs_concat spTarget (planSteps p)). apply list_elem_of_In, in_concat.
  exists g. by split; apply list_elem_of_In.
Qed.
(** ** Traces in which capacity moves under a recorded window only *)

(** A successful write of window [x]. *)
Definition wrote_window (e : effect) (x : EvictionGuardWindow) : Prop :=
  e = CreateWindowE x true ∨ ∃ b, e = PatchWindowE b x true.

(** [x] records how to restore the object a patch is sent to. *)
Definition covers (x : EvictionGuardWindow) (e : effect) : Prop :=
  match e with
  | PatchObjectE g k _ _ => ∃ a, a ∈ wsActions (winSpec x) ∧ target_gvk (actionTarget a) = Ok g ∧ tgKey (actionTarget a) = k
  | _ => False
  end.

(** Every change of capacity comes after the successful write of an armed-for-
    nothing window that covers it. *)
Definition guarded (es : list effect) : Prop :=
  ∀ i e, es !! i = Some e → scales e →
    ∃ j rec x, (j < i)%nat ∧ es !! j = Some rec ∧ wrote_window rec x ∧ covers x e
      ∧ wsWindowUntil (winSpec x) = None ∧ isDeferredWindow (Some x) = false.

Lemma guarded_quiet es : (∀ e, e ∈ es → ¬ scales e) → guarded es.
Proof. intros H i e Hi Hs. by destruct (H e (list_elem_of_lookup_2 _ _ _ Hi)). Qed.

Lemma guarded_app es1 es2 : guarded es1 → guarded es2 → guarded (es1 ++ es2).
Proof.
  intros H1 H2 i e Hi Hs. apply lookup_app_Some in Hi as [Hi|[Hle Hi]].
  - destruct (H1 i e Hi Hs) as (j & rec & x & Hj & Hr & Hx). exists j, rec, x. split; [done|].
    split; [by apply lookup_app_l_Some | done].
  - destruct (H2 _ e Hi Hs) as (j & rec & x & Hj & Hr & Hx). exists (length es1 + j)%nat, rec, x.
    split; [lia|]. split; [|done]. rewrite lookup_app_r; [|lia]. by rewrite Nat.add_comm Nat.add_sub.
Qed.

(** A record, then what it covers. *)
Lemma guarded_record pre rec x post :
  (∀ e, e ∈ pre → ¬ scales e) → ¬ scales rec → wrote_window rec x → wsWindowUntil (winSpec x) = None →
  isDeferredWindow (Some x) = false → (∀ e, e ∈ post → scales e → covers x e) → guarded (pre ++ rec :: post).
Proof.
  intros Hpre Hrec Hw Hu Hd Hpost i e Hi Hs. apply lookup_app_Some in Hi as [Hi|[Hle Hi]].
  { by destruct (Hpre e (list_elem_of_lookup_2 _ _ _ Hi)). }
  apply lookup_cons_Some in Hi as [[_ <-]|[Hi Hl]]; [done|]. apply list_elem_of_lookup_2 in Hl.
  exists (length pre), rec, x. split; [lia|]. split; [by apply list_lookup_middle|]. split; [done|]. split; [by apply Hpost | done].
Qed.

(** The merge keeps the plan's steps. *)
Lemma plan_actions_steps p existing st : st ∈ planSteps p → step_action st ∈ plan_actions p existing.
Proof.
  unfold plan_actions. intros H. apply (list_elem_of_fmap_2 step_action) in H. destruct (planSteps p); [done|].
  unfold mergeActions. apply elem_of_app. by left.
Qed.

Lemma quiet_scales es : quiet es → ∀ e, e ∈ es → ¬ scales e.
Proof. intros H e He Hs. apply (proj1 (Forall_forall _ _) H e He). by destruct e. Qed.

Lemma ensureWindow_guards policy s w : guarded (effects (ensureWindow Recorder policy s) w).
Proof.
  unfold effects. destruct (ensureWindow Recorder policy s w) as [[r w'] es] eqn:H. simpl.
  apply ensureWindow_cases in H as [(_ & Hq & _)|(win & plan & x & ok & [])]; [by apply guarded_quiet, quiet_scales|].
  destruct en_run0 as (pre & rec & post & w1 & Hrec & -> & Hq & _ & Hok).
  pose proof (records_window_writes _ _ _ _ _ _ Hrec) as Hns. destruct ok.
  - destruct Hok as (ev & sc & err & w2 & esa & esr & Hev & Happ & -> & Hst & _).
    apply (guarded_record _ _ x); [by apply quiet_scales | done | | done | done|].
    { destruct Hrec as [(? & _ & _ & -> & _)|(b & _ & -> & _)]; [by left | right; by exists b]. }
    intros e [He|[He|He]%elem_of_app]%elem_of_app Hs.
    + by destruct (quiet_scales _ Hev e He).
    + revert Hs. refine (emits_elem (λ e, scales e → covers x e) _ _ _ _ _ _ _ Happ He).
      apply apply_emits; [|by intros ? ? []]. intros st v q ok Hin Hv _. exists (step_action st).
      rewrite en_actions0. split; [by apply plan_actions_steps | by rewrite /step_action actionTarget_scaleAction].
    + by destruct (status_only_scales e (proj1 (Forall_forall _ _) Hst e He)).
  - destruct Hok as (_ & -> & _). apply guarded_quiet. intros e [He| ->%list_elem_of_singleton]%elem_of_app; [|done].
    by eapply quiet_scales.
Qed.

(** ** What the rest of the reconcile sends *)

Lemma emits_silent {A} P (m : M W A) : (∀ w, (m w).2 = []) → emits P m.
Proof. intros H w. unfold effects. rewrite H. constructor. Qed.

Lemma buildPlan_emits P policy dep n existing sticky : emits P (buildPlan policy dep n existing sticky : M W _).
Proof.
  apply emits_silent. intros w. destruct (buildPlan _ _ _ _ _ w) as [[r w'] es] eqn:E.
  by apply buildPlan_reads in E as [_ ->].
Qed.

Lemma create_window_emits (P : effect → Prop) policy x :
  (∀ y ok, winSpec y = winSpec x → mLabels (winMeta y) = mLabels (winMeta x) → P (CreateWindowE y ok)) →
  emits P (create_window policy x : M W _).
Proof.
  intros H w. unfold effects. destruct (create_window policy x w) as [[r w'] es] eqn:E. simpl.
  apply create_window_run in E as [(_ & -> & _)|(y & _ & -> & Hs & _ & Hl & _)]; [constructor|].
  constructor; [by apply H | constructor].
Qed.

Lemma emits_emitf (P : effect → Prop) g ty reason note :
  (∀ g ty reason note, P (EventEmitted g ty reason note)) → emits P (emitf Recorder g ty reason note : M W unit).
Proof. intros H. unfold emitf. emits_tac. Qed.

Lemma lookup_window_emits P policy s : emits P (lookup_window policy s : M W _).
Proof. apply emits_silent. intros w. by destruct (lookup_window_run policy s w) as (r & -> & _). Qed.

Lemma metrics_emits (P : effect → Prop) p ns n a d b :
  (∀ m l v, P (GaugeSet m l v)) → emits P (setWorkloadPlanMetrics p ns n a d b : M W unit).
Proof. intros H. unfold setWorkloadPlanMetrics. emits_tac; apply H. Qed.

Lemma publishWorkloadMetrics_emits (P : effect → Prop) policy s :
  (∀ m l v, P (GaugeSet m l v)) → emits P (publishWorkloadMetrics policy s : M W unit).
Proof.
  intros H. unfold publishWorkloadMetrics. apply emits_bind; [apply lookup_window_emits|]. intros win.
  apply emits_bind; [apply buildPlan_emits|]. intros pl. by apply metrics_emits.
Qed.

(** A placeholder is never written as a slot, and records no action. *)
Definition placeholder (x : EvictionGuardWindow) : Prop :=
  isDeferredWindow (Some x) = true ∧ wsActions (winSpec x) = [] ∧ wsScaledTo (winSpec x) = wsBaseline (winSpec x).

Lemma ensureDeferredWindow_emits (P : effect → Prop) policy s :
  (∀ m l v, P (GaugeSet m l v)) → (∀ g ty reason note, P (EventEmitted g ty reason note)) →
  (∀ x ok, placeholder x → P (CreateWindowE x ok)) → (∀ b x ok, placeholder x → P (PatchWindowE b x ok)) →
  (∀ x ok, P (UpdateWindowStatusE x ok)) →
  emits P (ensureDeferredWindow Recorder policy s : M W unit).
Proof.
  intros Hg He Hc Hp Hu. unfold ensureDeferredWindow. apply emits_bind; [apply lookup_window_emits|]. intros win.
  apply emits_bind; [by apply emits_silent; intros w; rewrite held_back_run|]. intros held.
  destruct held; [apply emits_ret|]. apply emits_bind; [by apply emits_tell|]. intros _. cbv zeta.
  destruct win as [b|].
  - unfold refresh_deferred. apply emits_bind.
    { apply emits_write. intros ok. apply Hp. split; [|done]. unfold isDeferredWindow, mget. simpl. by rewrite lookup_insert_eq. }
    intros y. apply emits_bind; [apply emits_now|]. intros t1. apply emits_bind; [apply emits_now|]. intros t2. cbv zeta.
    destruct (applyCapacityApplied _ None t2) as [[win' gauge] flip] eqn:Ha.
    apply applyCapacityApplied_gauge in Ha as (m & l & v & ->). apply emits_bind; [by apply emits_tell|]. intros _.
    case_match; [|apply emits_ret]. apply emits_bind; [by apply emits_write | intros ?; apply emits_ret].
  - unfold open_deferred. apply emits_bind.
    { apply create_window_emits. intros y ok Hs Hl. apply Hc. unfold placeholder, isDeferredWindow, mget. by rewrite Hl Hs. }
    intros y. apply emits_bind; [apply emits_now|]. intros t. cbv zeta.
    destruct (applyCapacityApplied _ None t) as [[win' gauge] flip] eqn:Ha.
    apply applyCapacityApplied_gauge in Ha as (m & l & v & ->). apply emits_bind; [by apply emits_tell|]. intros _.
    apply emits_bind; [by apply emits_write|]. intros z. by apply emits_emitf.
Qed.

Lemma sync_window_emits (P : effect → Prop) policy active win :
  (∀ m l v, P (GaugeSet m l v)) → (∀ ok, P (PatchWindowE win (with_spec (set_vulnerable []) win) ok)) →
  emits P (sync_window registry policy active win : M W unit).
Proof.
  intros Hg Hp. unfold sync_window. case_match; [apply emits_ret|]. apply emits_bind; [by apply emits_tell|].
  intros _. case_match; [apply emits_ret|]. apply emits_bind; [apply emits_reads|]. intros dying.
  destruct dying; [apply emits_ret|]. apply emits_bind; [by apply emits_write | intros ?; apply emits_ret].
Qed.

Lemma updateStatus_emits (P : effect → Prop) policy a b c d e :
  (∀ p ok, P (UpdatePolicyStatusE p ok)) → emits P (updateStatus policy a b c d e : M W _).
Proof. intros H. unfold updateStatus. emits_tac; apply H. Qed.

(** What a reconcile sends beside what [ensureWindow] does. *)
Definition side (e : effect) : Prop :=
  match e with
  | GaugeSet _ _ _ | CounterInc _ _ | EventEmitted _ _ _ _ | UpdateWindowStatusE _ _ | UpdatePolicyStatusE _ _ => True
  | CreateWindowE x _ => placeholder x
  | PatchWindowE b x _ => placeholder x ∨ x = with_spec (set_vulnerable []) b
  | _ => False
  end.

Lemma deferred_side policy s : emits side (ensureDeferredWindow Recorder policy s : M W unit).
Proof. apply ensureDeferredWindow_emits; try done. by left. Qed.

Lemma finish_reconcile_side policy n m cap workloads a : emits side (finish_reconcile registry Recorder policy n m cap workloads a : M W _).
Proof.
  unfold finish_reconcile. apply emits_bind; [case_match; [by apply emits_emitf | apply emits_ret]|].
  intros _. apply emits_bind; [by apply emits_tell|]. intros _. apply emits_bind.
  { unfold syncClearedWindows. apply emits_bind; [apply emits_reads|]. intros l. apply emits_for_each. intros win _.
    apply sync_window_emits; [done | by right]. }
  intros _. apply emits_bind; [apply emits_reads|]. intros k. apply emits_bind; [|intros ?; apply emits_ret].
  by apply updateStatus_emits.
Qed.

(** Properties of traces that the side effects have and concatenation keeps. *)
Section traces.
Context (Tr : list effect → Prop) (Tr_nil : Tr []) (Tr_app : ∀ es1 es2, Tr es1 → Tr es2 → Tr (es1 ++ es2)).
Context (Tr_side : ∀ e, side e → Tr [e]).

Definition traces {A} (m : M W A) : Prop := ∀ w, Tr (effects m w).

Lemma traces_side {A} (m : M W A) : emits side m → traces m.
Proof.
  intros H w. specialize (H w). induction H as [|e es He _ IH]; [done|]. apply (Tr_app [e]); [by apply Tr_side | done].
Qed.

Lemma traces_bind {A B} (m : M W A) (f : A → M W B) : traces m → (∀ a, traces (f a)) → traces (m ≫= f).
Proof.
  intros Hm Hf w. unfold effects. rewrite bind_eq. specialize (Hm w). unfold effects in Hm.
  destruct (m w) as [[[a|e] w'] es]; [|done]. specialize (Hf a w'). unfold effects in Hf.
  destruct (f a w') as [[r w''] es']. by apply Tr_app.
Qed.

Lemma traces_try {A} (m : M W A) : traces m → traces (try m).
Proof. intros Hm w. specialize (Hm w). unfold effects, try in *. by destruct (m w) as [[r w'] es]. Qed.

Context (policy : EvictionGuardPolicy) (Hens : ∀ s, traces (ensureWindow Recorder policy s)).

Lemma sweep_all_traces windowCap l a : traces (sweep_all Recorder policy windowCap l a).
Proof.
  revert a. induction l as [|s l IH]; intros a; cbn [sweep_all]; [apply traces_side, emits_ret|].
  apply traces_bind; [|apply IH]. unfold sweep_one. apply traces_bind; [apply traces_side, emits_reads|].
  intros win. cbv zeta. case_match.
  - apply traces_side. apply emits_bind; [apply emits_try, deferred_side|].
    intros [u|e]; [|apply emits_ret]. apply emits_bind; [|intros ?; apply emits_ret].
    by apply emits_try, publishWorkloadMetrics_emits.
  - apply traces_bind; [by apply traces_try|].
    intros [u|e]; apply traces_side; [apply emits_ret|].
    apply emits_bind; [by apply emits_tell|]. intros _.
    do 2 (apply emits_bind; [by apply emits_emitf|]; intros _). apply emits_ret.
Qed.

Lemma reconcile_policy_traces flt : traces (reconcile_policy registry Recorder policy flt).
Proof.
  unfold reconcile_policy. apply traces_bind; [apply traces_side, emits_reads|]. intros nodes.
  apply traces_bind; [apply traces_side, emits_lift|]. intros x. cbv zeta.
  do 2 (apply traces_bind; [by apply traces_side, emits_tell|]; intros _).
  do 2 (apply traces_bind; [apply traces_side, emits_reads|]; intros ?).
  apply traces_bind; [apply sweep_all_traces|]. intros a'. apply traces_side, finish_reconcile_side.
Qed.
End traces.

(** C8: capacity never goes up, or down, without a record: in a reconcile of a
    policy every patch of a workload's or an autoscaler's fields comes after a
    window was written (created, or patched) that has no cooldown armed, is not
    a placeholder, and records an action on the very object that is patched; so
    if the operator dies in between, the window's finalizer and its maxWindow
    clock still bring the object back. *)
Theorem scale_up_recorded req w i e :
  effects (policy_Reconcile registry Recorder req) w !! i = Some e → scales e →
  ∃ j rec x, (j < i)%nat ∧ effects (policy_Reconcile registry Recorder req) w !! j = Some rec
    ∧ wrote_window rec x ∧ covers x e ∧ wsWindowUntil (winSpec x) = None ∧ isDeferredWindow (Some x) = false.
Proof.
  assert (∀ {A} (m : M W A), emits (λ e, ¬ scales e) m → guarded (effects m w)) as Hq.
  { intros A m Hm. apply guarded_quiet. intros e'. specialize (Hm w). by apply (proj1 (Forall_forall _ _) Hm). }
  revert i e. fold (guarded (effects (policy_Reconcile registry Recorder req) w)). unfold policy_Reconcile, effects.
  rewrite bind_try_reads. destruct (getPolicy _ w) as [policy|err]; [|apply Hq; emits_tac].
  destruct (negb (tsIsZero _)); [apply Hq; unfold cleanup, ignore_nf; emits_tac; by intros []|].
  destruct (negb _); [apply Hq; emits_tac; by intros []|].
  destruct (FromSpec _) as [flt|err]; [|apply Hq; unfold updateStatus; emits_tac; by intros []].
  apply (reconcile_policy_traces guarded); [by intros ??|apply guarded_app| |intros s w0; apply ensureWindow_guards].
  intros e He. apply guarded_quiet. intros e' ->%list_elem_of_singleton Hs. by destruct e.
Qed.

(** ** A workload that was ensured is protected *)

Lemma same_objects_val w w' t v : same_objects w w' → val w t = Ok v → val w' t = Ok v.
Proof. intros H. apply val_raw. by apply raw_objects. Qed.

(** C13: a reconcile that reports no error for a workload protected it: either its
    window is past maxWindow, force-cooled or closed, and then nothing at all
    is written; or the window was written with the nodes at risk and no
    cooldown, and every field of the plan now holds the maximum of what it held
    and the target computed from the pods at risk. *)
Theorem ensureWindow_protects {WL : WindowLaws C} {FL : FieldLaws C} policy s w w' es :
  ensureWindow Recorder policy s w = (Ok (), w', es) →
  (∃ win, getWindow (window_name_of policy s) w = Ok win ∧ holdMaxWindow (Some policy) (Some win) (clock w) = true
          ∧ w' = w ∧ Forall (λ e, ¬ writes_api e) es)
  ∨ ∃ plan rec x, rec ∈ es ∧ records_window policy s w rec x true
      ∧ wsVulnerableNodes (winSpec x) = sortedKeys (wlNodes s) ∧ wsWindowUntil (winSpec x) = None
      ∧ planDesired plan = plan_target policy (planPrimaryBaseline plan) (wlAtRisk s)
      ∧ (∀ st, st ∈ planSteps plan → spDesired st = planDesired plan ∧ step_action st ∈ wsActions (winSpec x))
      ∧ (good_steps (planSteps plan) → ∀ st, st ∈ planSteps plan →
           ∃ v, val w (spTarget st) = Ok v ∧ val w' (spTarget st) = Ok (Z.max v (spDesired st))).
Proof.
  intros [(-> & Hq & Hh)|(win & plan & x & ok & [])]%ensureWindow_cases.
  { left. destruct (Hh eq_refl) as (win & Hw & Hold). by exists win. }
  right. destruct en_run0 as (pre & rec & post & w1 & Hrec & -> & Hq & Ho & Hok). destruct ok; [|by destruct Hok].
  destruct Hok as (ev & sc & err & w2 & esa & esr & Hev & Happ & -> & Hst & Ho2 & Herr). rewrite (Herr eq_refl) in Happ.
  apply buildPlan_ok in en_plan0 as (p & bs & rs & [= <-] & _ & _ & Hall & Hd & _).
  specialize (Ho WL). specialize (Ho2 WL).
  exists plan, rec, x. split; [apply elem_of_app; right; left|]. do 4 (split; [done|]). split.
  - intros st Hin. split; [|rewrite en_actions0; by apply plan_actions_steps].
    apply list_elem_of_lookup in Hin as [i Hi]. by destruct (Forall2_lookup_r _ _ _ _ _ Hall Hi) as (r & _ & _ & _ & _ & ? & _).
  - intros Hg st Hin. apply apply_spec in Happ as [Hup _]; [|done].
    destruct (raised_max _ _ _ (Hup st Hin)) as (v & Hv & Hv').
    { destruct Hg as [_ Hd']. by apply (proj1 (Forall_forall _ _) Hd'). }
    exists v. split; [|by eapply same_objects_val]. eapply same_objects_val; [|exact Hv]. intros g k. by rewrite Ho.
Qed.

(** ** The cap on concurrent windows *)

(** A successful write that opens a scaling window: a window that is no
    placeholder is created, or a placeholder is promoted. *)
Definition takes_slot (e : effect) : bool :=
  match e with
  | CreateWindowE x true => negb (isDeferredWindow (Some x))
  | PatchWindowE b x true => isDeferredWindow (Some b) && negb (isDeferredWindow (Some x))
  | _ => false
  end.

(** The report of a workload whose scale-up failed. *)
Definition failed_up (e : effect) : bool :=
  match e with
  | CounterInc ScaleActionsTotal [_; dir; _; outcome] => str_eqb dir "up" && str_eqb outcome "error"
  | _ => false
  end.

Definition count (f : effect → bool) (es : list effect) : Z := Z.of_nat (length (filter (λ e, f e = true) es)).

Lemma count_app f es1 es2 : count f (es1 ++ es2) = count f es1 + count f es2.
Proof. unfold count. rw filter_app length_app. lia. Qed.
Lemma count_cons f e es : count f (e :: es) = (if f e then 1 else 0) + count f es.
Proof. unfold count. rw filter_cons. destruct (f e); simpl; lia. Qed.
Lemma count_none f es : (∀ e, e ∈ es → f e = false) → count f es = 0.
Proof.
  induction es as [|e es IH]; intros H; [done|]. rewrite count_cons H; [|by left]. rewrite IH; [done|].
  intros e' He'. apply H. by right.
Qed.
Lemma count_nonneg f es : 0 <= count f es.
Proof. unfold count. lia. Qed.
Lemma count_emits {A} f (m : M W A) w r w' es :
  emits (λ e, f e = false) m → m w = (r, w', es) → count f es = 0.
Proof. intros H E. apply count_none. intros e. by apply (emits_elem _ _ _ _ _ _ _ H E). Qed.

Lemma quiet_slots es : quiet es → count takes_slot es = 0.
Proof. intros H. apply count_none. intros e He. pose proof (proj1 (Forall_forall _ _) H e He) as Hn. by destruct e as [| | | |x []|b x []| | | | |]; try done; destruct Hn. Qed.
Lemma status_slots es : Forall status_only es → count takes_slot es = 0.
Proof.
  intros H. apply count_none. intros e He. destruct (proj1 (Forall_forall _ _) H e He) as [Hn|(x & ok & ->)]; [|done].
  by destruct e as [| | | |x []|b x []| | | | |]; try done; destruct Hn.
Qed.

Lemma placeholder_slot x ok : placeholder x → takes_slot (CreateWindowE x ok) = false ∧ ∀ b, takes_slot (PatchWindowE b x ok) = false.
Proof. intros [Hd _]. destruct ok; [|done]. cbn [takes_slot]. rewrite Hd. split; [done|]. intros b. by rewrite andb_false_r. Qed.
Lemma side_slots e : side e → takes_slot e = false.
Proof.
  destruct e as [| | | |x ok|b x ok| | | | |]; try done; [by intros [? _]%(placeholder_slot _ ok)|].
  intros [[_ H]%(placeholder_slot _ ok)| ->]; [done|]. destruct ok; [|done]. apply andb_negb_r.
Qed.

(** One workload takes one slot at most, and none when its window has one. *)
Lemma ensureWindow_slots policy s w r w' es :
  ensureWindow Recorder policy s w = (r, w', es) →
  count takes_slot es <= 1
  ∧ ∀ b, getWindow (window_name_of policy s) w = Ok b → isDeferredWindow (Some b) = false → count takes_slot es = 0.
Proof.
  intros [(_ & Hq & _)|(win & plan & x & ok & [])]%ensureWindow_cases; [by rewrite (quiet_slots _ Hq)|].
  destruct en_run0 as (pre & rec & post & w1 & Hrec & -> & Hq & _ & Hok).
  assert (count takes_slot post = 0) as Hpost.
  { destruct ok; [|by destruct Hok as (_ & -> & _)].
    destruct Hok as (ev & sc & err & w2 & esa & esr & Hev & Happ & -> & Hst & _).
    rewrite !count_app (quiet_slots _ Hev) (status_slots _ Hst).
    by rewrite (count_emits _ _ _ _ _ _ (apply_emits _ plan _ (λ st v q ok _ _, eq_refl) (λ m l, eq_refl)) Happ). }
  rewrite count_app count_cons Hpost (quiet_slots _ Hq). split; [destruct (takes_slot rec); lia|].
  intros b Hb Hd. destruct Hrec as [(err & He & _)|(b' & Hb' & -> & _)]; [congruence|].
  rewrite Hb in Hb'. injection Hb' as <-. destruct ok; [|done]. cbn [takes_slot]. by rewrite Hd.
Qed.

Lemma sweep_one_slots policy cap s a w r w' es :
  0 < cap <= max_i32 → in_i32 (swActive a) → sweep_one Recorder policy cap s a w = (r, w', es) →
  match r with
  | Ok a' => count takes_slot es <= swActive a' - swActive a + count failed_up es
             ∧ swActive a <= swActive a' <= Z.max (swActive a) cap
  | Err _ => count takes_slot es = 0
  end.
Proof.
  intros Hcap Ha. unfold sweep_one. destruct (policyGetWindow policy s w) as [win|e] eqn:Ew.
  2:{ rewrite (bind_reads_err _ _ _ _ Ew). by intros [= <- _ <-]. }
  rewrite (bind_reads_ok _ _ _ _ Ew). cbv zeta. set (held := match win with Some x => IsActive x | None => false end).
  set (waiting := negb held || isDeferredWindow win).
  assert (waiting = false → ∃ b, getWindow (window_name_of policy s) w = Ok b ∧ isDeferredWindow (Some b) = false) as Hslot.
  { subst waiting held. unfold policyGetWindow in Ew. destruct (getWindow _ w) as [b|e]; [|destruct (IsNotFound e)]; [| |done];
      injection Ew as <-; [|done]. intros [_ ?]%orb_false_iff. by exists b. }
  destruct (waiting && (0 <? cap) && (cap <=? swActive a)) eqn:Ec.
  - intros H. assert (emits (λ e, takes_slot e = false) (try (ensureDeferredWindow Recorder policy s) : M W _)) as He1.
    { apply emits_try. eapply emits_impl; [apply side_slots | apply deferred_side]. }
    assert (emits (λ e, takes_slot e = false) (try (publishWorkloadMetrics policy s) : M W _)) as He2
      by by apply emits_try, publishWorkloadMetrics_emits.
    assert (count takes_slot es = 0) as ->.
    { eapply count_emits; [|exact H]. apply emits_bind; [done|]. intros [u|e]; [|apply emits_ret].
      apply emits_bind; [done | intros ?; apply emits_ret]. }
    pose proof (count_nonneg failed_up es) as Hf. destruct r as [a'|e]; [|done].
    apply bind_ok_inv in H as (x & w1 & es1 & es2 & _ & H & _). destruct x as [u|e].
    + apply bind_ok_inv in H as (y & w2 & es3 & es4 & _ & H & _). apply ret_inv in H as (Heq & _). injection Heq as ->. simpl. lia.
    + apply ret_inv in H as (Heq & _). injection Heq as ->. simpl. lia.
  - rewrite bind_eq. unfold try. destruct (ensureWindow Recorder policy s w) as [[x w1] es1] eqn:Ee.
    destruct (ensureWindow_slots _ _ _ _ _ _ Ee) as [Hle Hz].
    assert (waiting = false → count takes_slot es1 = 0) as Hz' by (intros Hw; destruct (Hslot Hw) as (b & ? & ?); by eapply Hz).
    destruct x as [u|e].
    + intros [= <- <- <-]. rewrite app_nil_r. simpl. pose proof (count_nonneg failed_up es1). destruct waiting.
      * simpl in Ec. apply andb_false_iff in Ec as [Ec|Ec]; zify_bool; [lia|].
        rewrite i32_id; [lia|]. unfold in_i32, max_i32 in *. lia.
      * rewrite Hz'; [lia | done].
    + intros H. match type of H with context [match ?y with (_, _) => _ end] => destruct y as [[r2 w2] es2] eqn:Hrep end.
      injection H as <- _ <-. apply bind_tell in Hrep as (es3 & Hrep & ->).
      apply bind_talks in Hrep as (es4 & es5 & Hq4 & Hrep & ->); [|apply talks_emitf].
      apply bind_talks in Hrep as (es6 & es7 & Hq6 & Hrep & ->); [|apply talks_emitf].
      apply ret_inv in Hrep as (-> & _ & ->).
      rewrite !count_app !count_cons !count_app (quiet_slots _ Hq4) (quiet_slots _ Hq6). simpl.
      pose proof (count_nonneg failed_up es1). pose proof (count_nonneg failed_up es4). pose proof (count_nonneg failed_up es6).
      change (count takes_slot []) with 0. change (count failed_up []) with 0. lia.
Qed.

Lemma sweep_all_slots policy cap l a w r w' es :
  0 < cap <= max_i32 → in_i32 (swActive a) → sweep_all Recorder policy cap l a w = (r, w', es) →
  count takes_slot es <= Z.max 0 (cap - swActive a) + count failed_up es.
Proof.
  intros Hcap. revert a w r w' es. induction l as [|s l IH]; intros a w r w' es Ha H; cbn [sweep_all] in H.
  { apply ret_inv in H as (_ & _ & ->). change (count _ []) with 0. change (count failed_up []) with 0. lia. }
  apply bind_inv in H as [(e & H & ->)|(a' & w1 & es1 & es2 & H1 & H2 & ->)].
  - pose proof (sweep_one_slots _ _ _ _ _ _ _ _ Hcap Ha H) as ->. pose proof (count_nonneg failed_up es). lia.
  - pose proof (sweep_one_slots _ _ _ _ _ _ _ _ Hcap Ha H1) as [Hs [Hlo Hhi]].
    assert (in_i32 (swActive a')) as Ha' by (unfold in_i32, max_i32, min_i32 in *; lia).
    specialize (IH _ _ _ _ _ Ha' H2). rewrite !count_app. lia.
Qed.

Lemma count_active_range l n : in_i32 n → in_i32 (count_active l n).
Proof. revert n. induction l as [|x l IH]; intros n Hn; simpl; [done|]. apply IH. case_match; [apply i32_range | done]. Qed.

(** The part of a reconcile that matters is its sweep. *)
Lemma reconcile_policy_sweep policy flt w r w' es active :
  countActiveWindows policy w = Ok active → reconcile_policy registry Recorder policy flt w = (r, w', es) →
  count takes_slot es = 0
  ∨ ∃ l r1 w1 pre es1 post, sweep_all Recorder policy (MaxConcurrentWindowsOrDefault policy) l (MkSweep active 0 []) w = (r1, w1, es1)
      ∧ es = pre ++ es1 ++ post ∧ count takes_slot pre = 0 ∧ count takes_slot post = 0.
Proof.
  intros Hact. unfold reconcile_policy. destruct (listNodes w) as [nodes|e] eqn:En.
  2:{ rewrite (bind_reads_err _ _ _ _ En). intros [= _ _ <-]. by left. }
  rewrite (bind_reads_ok _ _ _ _ En). destruct (classify_nodes registry flt policy nodes [] []) as [x|e].
  2:{ intros [= _ _ <-]. by left. }
  intros H. apply bind_inv in H as [(e & Hx & _)|(x' & w1 & es1 & es2 & Hx & H & ->)]; [done|].
  apply lift_inv in Hx as (_ & -> & ->). cbv zeta in H.
  apply bind_talks in H as (pre1 & post1 & Hq1 & H & ->); [|by apply talks_tell; intros []].
  apply bind_talks in H as (pre2 & post2 & Hq2 & H & ->); [|by apply talks_tell; intros []].
  assert (count takes_slot (pre1 ++ pre2) = 0) as Hpre by by rewrite count_app (quiet_slots _ Hq1) (quiet_slots _ Hq2).
  rewrite count_app in Hpre. cbn [app].
  destruct (collectWorkloads policy x'.2 w) as [workloads|e] eqn:Ec.
  2:{ rewrite (bind_reads_err _ _ _ _ Ec) in H. injection H as _ _ <-. left. rewrite !count_app. change (count takes_slot []) with 0. lia. }
  rewrite (bind_reads_ok _ _ _ _ Ec) (bind_reads_ok _ _ _ _ Hact) in H.
  right. apply bind_inv in H as [(e & H & _)|(a & w1 & es1 & es2 & Hs & H & ->)].
  - eexists _, _, _, (pre1 ++ pre2), post2, []. split; [exact H|]. rewrite app_nil_r -app_assoc count_app. done.
  - eexists _, _, _, (pre1 ++ pre2), es1, es2. split; [exact Hs|]. rewrite -app_assoc count_app. do 2 (split; [done|]).
    refine (count_emits _ _ _ _ _ _ _ H). eapply emits_impl; [|apply finish_reconcile_side]. apply side_slots.
Qed.

(** C17: one reconcile of a policy with a cap opens no more scaling windows than the
    cap leaves room for beside the windows that are active, plus one for each
    workload whose scale-up it reports as failed: a window that was opened but
    whose apply failed does not count against the cap in that reconcile. *)
Theorem cap_respected req w r w' es policy active :
  getPolicy (nnName req) w = Ok policy → countActiveWindows policy w = Ok active →
  0 < MaxConcurrentWindowsOrDefault policy <= max_i32 →
  policy_Reconcile registry Recorder req w = (r, w', es) →
  count takes_slot es <= Z.max 0 (MaxConcurrentWindowsOrDefault policy - active) + count failed_up es.
Proof.
  intros Hp Hact Hcap. unfold policy_Reconcile. rewrite bind_try_reads Hp. pose proof (count_nonneg failed_up es) as Hnn.
  assert (in_i32 active) as Ha.
  { unfold countActiveWindows in Hact. destruct (listWindowsBy _ _ w) as [l|e]; [|done]. injection Hact as <-. by apply count_active_range. }
  intros H. assert (∀ m : M W CtrlResult, emits (λ e, takes_slot e = false) m → m w = (r, w', es) →
    count takes_slot es <= Z.max 0 (MaxConcurrentWindowsOrDefault policy - active) + count failed_up es) as Hno
    by (intros m He Hm; rewrite (count_emits _ _ _ _ _ _ He Hm); lia).
  revert H. destruct (negb (tsIsZero _)); [apply Hno; unfold cleanup, ignore_nf; emits_tac|].
  destruct (negb _); [apply Hno; emits_tac|].
  destruct (FromSpec _) as [flt|err]; [|apply Hno; unfold updateStatus; emits_tac].
  intros [H|(l & r1 & w1 & pre & es1 & post & H & -> & Hpre & Hpost)]%(reconcile_policy_sweep _ _ _ _ _ _ active); [lia| |done].
  apply sweep_all_slots in H; [|done..]. rewrite !count_app Hpre Hpost in H |- *. simpl in H.
  pose proof (count_nonneg failed_up pre). pose proof (count_nonneg failed_up post). lia.
Qed.

(** ** Clearing windows *)

(** The node is gone, does not match the filter, or carries no signal. *)
Definition node_clear (flt : specFilter) (policy : EvictionGuardPolicy) (w : W) (name : string) : Prop :=
  (∃ e, getNode name w = Err e ∧ IsNotFound e = true)
  ∨ ∃ n ok, getNode name w = Ok n ∧ Matches flt (Some n) = Ok ok ∧ ok && Vulnerable registry n (Some policy) = false.

Lemma any_vulnerable_clear flt policy names w :
  any_vulnerable registry flt policy names w = Ok false ↔ Forall (node_clear flt policy w) names.
Proof.
  induction names as [|n names IH]; cbn [any_vulnerable]; [by split|]. rw Forall_cons. rewrite -IH. unfold node_clear.
  destruct (getNode n w) as [nd|e] eqn:E.
  - destruct (Matches flt (Some nd)) as [ok|e] eqn:Em; [|split; [done|]].
    + destruct (ok && _) eqn:Eo.
      * split; [done|]. intros [[(e & He & _)|(n' & ok' & Hn & Hm & Hv)] _]; [done|]. simplify_eq.
        rewrite Em in Hm. injection Hm as ->. congruence.
      * split; [intros H; split; [right; by exists nd, ok | done] | by intros [_ ?]].
    + intros [[(e' & He & _)|(n' & ok' & Hn & Hm & Hv)] _]; [done|]. simplify_eq. congruence.
  - destruct (IsNotFound e) eqn:En.
    + split; [intros H; split; [left; by exists e | done] | by intros [_ ?]].
    + split; [done|]. intros [[(e' & He & ?)|(n' & ok' & Hn & _)] _]; congruence.
Qed.

Lemma any_vulnerable_ext flt policy names w w' :
  (∀ n, getNode n w' = getNode n w) → any_vulnerable registry flt policy names w' = any_vulnerable registry flt policy names w.
Proof. intros H. induction names as [|n names IH]; simpl; [done|]. by rewrite H IH. Qed.

Definition clears (win : EvictionGuardWindow) : effect := PatchWindowE win (with_spec (set_vulnerable []) win) true.
Definition target_key (win : EvictionGuardWindow) : string :=
  wrNamespace (wsTarget (winSpec win)) +:+ "/" +:+ wrName (wsTarget (winSpec win)).

(** The window's nodes may be forgotten. *)
Definition clearable (flt : specFilter) (policy : EvictionGuardPolicy) (active : gmap string workloadState) (w : W)
  (win : EvictionGuardWindow) : Prop :=
  active !! target_key win = None ∧ wsVulnerableNodes (winSpec win) ≠ []
  ∧ Forall (node_clear flt policy w) (wsVulnerableNodes (winSpec win)).

Lemma sync_window_run {WL : WindowLaws C} policy active flt w0 win w w' es :
  FromSpec (psNodeFilter (polSpec policy)) = Ok flt → (∀ n, getNode n w = getNode n w0) →
  sync_window registry policy active win w = (Ok (), w', es) →
  (∀ n, getNode n w' = getNode n w0)
  ∧ (∀ e, e ∈ es → writes_api e → e = clears win) ∧ (clears win ∈ es ↔ clearable flt policy active w0 win).
Proof.
  intros Hf Hn. unfold sync_window, clearable. cbv zeta. fold (target_key win).
  destruct (active !! target_key win) as [st|] eqn:Ea.
  { intros (_ & -> & ->)%ret_inv. split; [done|]. split; [by intros e ?%elem_of_nil|]. split; [by intros ?%elem_of_nil | by intros [? _]]. }
  intros (post & H & ->)%bind_tell. destruct (wsVulnerableNodes (winSpec win)) as [|n0 names] eqn:Ev.
  { apply ret_inv in H as (_ & -> & ->). split; [done|]. split; [by intros e ->%list_elem_of_singleton|].
    split; [by intros ?%list_elem_of_singleton | by intros (_ & [] & _)]. }
  apply bind_ok_inv in H as (dying & w1 & es1 & es2 & Hd & H & ->). apply reads_inv in Hd as (Hd & -> & ->).
  unfold nodesStillVulnerable in Hd. rewrite Hf in Hd. cbn [mbind result_bind] in Hd.
  rewrite (any_vulnerable_ext _ _ _ w0 w) in Hd; [|done]. destruct dying.
  - apply ret_inv in H as (_ & -> & ->). split; [done|]. split; [by intros e ->%list_elem_of_singleton|].
    split; [by intros ?%list_elem_of_singleton|]. intros (_ & _ & Hc). apply any_vulnerable_clear in Hc. by rewrite Hc in Hd.
  - apply bind_ok_inv in H as (y & w2 & es3 & es4 & Hp & H & ->). apply ret_inv in H as (_ & -> & ->).
    unfold PatchWindow, write in Hp. destruct (patchWindow win _ w) as [r1 w3] eqn:Ep. injection Hp as -> -> <-.
    split; [intros n; pose proof (patch_window_nodes win (with_spec (set_vulnerable []) win) w n) as H; rewrite Ep in H; by rewrite H|].
    split; [intros e; rw !elem_of_cons; by intros [->|[->|[]%elem_of_nil]]|].
    split; [|intros _; by right; left]. intros _. do 2 (split; [done|]). by apply any_vulnerable_clear.
Qed.

(** C28: a successful [syncClearedWindows] forgets a window's vulnerable nodes
    exactly when nothing of its workload is at risk any more and every one of
    those nodes is gone, filtered out or without a signal; it writes nothing
    else, so a miss of the pod index alone never starts a scale-back. *)
Theorem syncClearedWindows_spec {WL : WindowLaws C} policy active flt l w w' es :
  FromSpec (psNodeFilter (polSpec policy)) = Ok flt →
  listWindowsBy IndexWindowPolicyName (polName policy) w = Ok l →
  syncClearedWindows registry policy active w = (Ok (), w', es) →
  (∀ e, e ∈ es → writes_api e → ∃ win, e = clears win)
  ∧ ∀ win, clears win ∈ es ↔ win ∈ l ∧ clearable flt policy active w win.
Proof.
  intros Hf Hl H. unfold syncClearedWindows in H. rewrite (bind_reads_ok _ _ _ _ Hl) in H.
  apply (for_each_ok _ (λ w1, ∀ n, getNode n w1 = getNode n w)
    (λ win es, (∀ e, e ∈ es → writes_api e → e = clears win) ∧ (clears win ∈ es ↔ clearable flt policy active w win))) in H
    as [_ (ess & -> & Hall)]; [|by intros; eapply sync_window_run|done].
  assert (∀ e, e ∈ concat ess → writes_api e → ∃ win, e = clears win ∧ win ∈ l ∧ clearable flt policy active w win) as Hw.
  { intros e (es1 & Hin & He)%list_elem_of_In%in_concat Hwr. apply list_elem_of_In in Hin, He.
    apply list_elem_of_lookup in Hin as [i Hi]. destruct (Forall2_lookup_r _ _ _ _ _ Hall Hi) as (win & Hwin & H1 & H2).
    pose proof (H1 e He Hwr) as ->. exists win. split; [done|]. split; [by eapply list_elem_of_lookup_2 | by apply H2]. }
  split; [intros e He Hwr; destruct (Hw e He Hwr) as (win & ? & _); by exists win|].
  intros win. split.
  - intros Hin. destruct (Hw _ Hin I) as (win' & Heq & Hx). unfold clears in Heq. by injection Heq as ->.
  - intros [Hin Hc]. apply list_elem_of_lookup in Hin as [i Hi]. destruct (Forall2_lookup_l _ _ _ _ _ Hall Hi) as (es1 & Hes & _ & H2).
    apply list_elem_of_In, in_concat. exists es1. split; apply list_elem_of_In; [by eapply list_elem_of_lookup_2 | by apply H2].
Qed.

(** ** Letting go of a policy *)

Definition releases_policy (e : effect) : Prop :=
  match e with
  | PatchPolicyE b x _ => policy_has_finalizer b = true ∧ policy_has_finalizer x = false
  | _ => False
  end.

Lemma ensureWindow_keeps_policy policy s : emits (λ e, ¬ releases_policy e) (ensureWindow Recorder policy s : M W unit).
Proof.
  intros w. unfold effects. destruct (ensureWindow Recorder policy s w) as [[r w'] es] eqn:E. simpl.
  assert (∀ es, quiet es → Forall (λ e, ¬ releases_policy e) es) as Hqq.
  { intros es' Hq. eapply Forall_impl; [exact Hq|]. intros e Hn Hr. apply Hn. by destruct e. }
  apply ensureWindow_cases in E as [(_ & Hq & _)|(win & plan & x & ok & [])]; [by apply Hqq|].
  destruct en_run0 as (pre & rec & post & w1 & Hrec & -> & Hq & _ & Hok).
  apply Forall_app. split; [by apply Hqq|]. constructor.
  { by destruct Hrec as [(? & _ & _ & -> & _)|(? & _ & -> & _)]; intros []. }
  destruct ok; [|by destruct Hok as (_ & -> & _)].
  destruct Hok as (ev & sc & err & w2 & esa & esr & Hev & Happ & -> & Hst & _).
  rewrite !Forall_app. split; [by apply Hqq|]. split.
  - apply Forall_forall. intros e He. refine (emits_elem (λ e, ¬ releases_policy e) _ _ _ _ _ _ _ Happ He).
    by apply apply_emits; intros; intros [].
  - eapply Forall_impl; [exact Hst|]. intros e [Hn|(y & ok & ->)] Hr; [|done]. apply Hn. by destruct e.
Qed.

(** C27: a policy is let go of only when it is being deleted and the index lists no
    window of it any more, so no scaled-up workload is left without the policy
    its window needs; until then a reconcile of a policy being deleted does
    nothing but delete its windows, all of them when it succeeds. *)
Theorem policy_release_safe req policy l w r w' es :
  getPolicy (nnName req) w = Ok policy → listWindowsBy IndexWindowPolicyName (polName policy) w = Ok l →
  policy_Reconcile registry Recorder req w = (r, w', es) →
  (∀ e, e ∈ es → releases_policy e → tsIsZero (mDeletionTimestamp (polMeta policy)) = false ∧ l = [])
  ∧ (tsIsZero (mDeletionTimestamp (polMeta policy)) = false → l ≠ [] →
     (∀ e, e ∈ es → ∃ x ok, x ∈ l ∧ e = DeleteWindowE (win_key x) ok)
     ∧ (is_ok r = true → ∀ x, x ∈ l → ∃ ok, DeleteWindowE (win_key x) ok ∈ es)).
Proof.
  intros Hp Hl H. unfold policy_Reconcile in H. rewrite bind_try_reads Hp in H.
  destruct (tsIsZero _) eqn:Ed; cbn [negb] in H.
  - split; [|done]. intros e He Hr. exfalso. revert Hr.
    assert (∀ m : M W CtrlResult, emits (λ e, ¬ releases_policy e) m → m w = (r, w', es) → ¬ releases_policy e) as Hno
      by (intros m Hm Hrun; by apply (emits_elem _ _ _ _ _ _ _ Hm Hrun)).
    destruct (negb (policy_has_finalizer policy)) eqn:Ef; [apply (Hno _) in H; [done|]; emits_tac|].
    { intros [Hh _]. by rewrite Hh in Ef. }
    destruct (FromSpec _) as [flt|err].
    + apply (Hno _) in H; [done|]. intros w0. apply (reconcile_policy_traces (Forall (λ e, ¬ releases_policy e)));
        [constructor | by intros; apply Forall_app | | intros s w1; apply ensureWindow_keeps_policy].
      intros e' He'. constructor; [|constructor]. intros Hr. by destruct e'.
    + apply (Hno _) in H; [done|]. apply emits_bind; [|intros ?; apply emits_throw]. apply updateStatus_emits. by intros; intros [].
  - unfold cleanup in H. rewrite (bind_reads_ok _ _ _ _ Hl) in H. destruct l as [|x0 l]; [split; [by intros|done]|].
    set (l' := x0 :: l) in *. assert (emits (λ e, ∃ x ok, x ∈ l' ∧ e = DeleteWindowE (win_key x) ok)
        (for_each (λ x, ignore_nf (DeleteWindow (win_key x))) l' : M W unit)) as Hem.
    { apply emits_for_each. intros x Hx. unfold ignore_nf. apply emits_bind; [apply emits_try, emits_write; intros ok; by exists x, ok|].
      intros [u|e]; emits_tac. }
    assert (∀ e, e ∈ es → ∃ x ok, x ∈ l' ∧ e = DeleteWindowE (win_key x) ok) as Hall.
    { intros e He. refine (emits_elem (λ e, ∃ x ok, x ∈ l' ∧ e = DeleteWindowE (win_key x) ok) _ _ _ _ _ _ _ H He). apply emits_bind; [done | intros ?; apply emits_ret]. }
    split; [intros e He Hr; destruct (Hall e He) as (x & ok & _ & ->); done|]. intros _ _. split; [done|].
    intros Hok. destruct r as [c|e]; [|done]. apply bind_ok_inv in H as ([] & w1 & es1 & es2 & H & H2 & ->).
    apply ret_inv in H2 as (_ & _ & ->). rewrite app_nil_r.
    apply (for_each_ok _ (λ _, True) (λ x es, ∃ ok, DeleteWindowE (win_key x) ok ∈ es)) in H as [_ (ess & -> & Hq)]; [| |done].
    + intros x Hx. apply list_elem_of_lookup in Hx as [i Hi]. destruct (Forall2_lookup_l _ _ _ _ _ Hq Hi) as (es & Hes & ok & Hin).
      exists ok. apply list_elem_of_In, in_concat. exists es. split; apply list_elem_of_In; [by eapply list_elem_of_lookup_2 | done].
    + intros x w2 w3 es Hx _ Hrun. split; [done|]. unfold ignore_nf in Hrun.
      apply bind_ok_inv in Hrun as (r1 & w4 & es3 & es4 & Hd & _ & ->). unfold try, DeleteWindow, write in Hd.
      destruct (deleteWindow (win_key x) w2) as [r2 w5]. injection Hd as _ _ <-. exists (is_ok r2). by left.
Qed.
End spec.

(** ** A cluster: two protected workloads on a cordoned node *)

Definition catalog : list (string * BackendCatalogEntry) :=
  [("deploy", MkCatalogEntry "apps/v1" "Deployment" [MkBackendPatch "spec.replicas" ""] false None)].
Definition shop_policy : EvictionGuardPolicy := simple_policy "p" catalog (Some 1).

Definition shop_deployment (name : string) : Deployment :=
  MkDeployment (MkMeta name "shop" ∅ {[ ScaleBackendAnnotation := "deploy" ]} None 1 [] [] 1)
    (Some 3) (Some any_selector) (list_to_map protected).
Definition shop_replicaset (name : string) : ReplicaSet :=
  MkReplicaSet (owned (meta (name +:+ "-rs") "shop") (ref_to "Deployment" name)).
Definition pod_of (dep name node : string) : Pod :=
  MkPod (owned (labelled name "shop" protected) (ref_to "ReplicaSet" (dep +:+ "-rs"))) node [MkPodCondition "Ready" "True"].
Definition shop_object (name : string) (replicas : Z) : (string * string * NamespacedName) * FakeObj :=
  (obj_key deployment_gvk (NN "shop" name), MkObj (ints_of [(["spec"; "replicas"], replicas)]) ∅).

Definition shop_cluster (policy : EvictionGuardPolicy) (windows : list EvictionGuardWindow) (forbidden : list NamespacedName)
  : Cluster :=
  MkCluster [pod_of "web" "web-a" "n1"; pod_of "web" "web-b" "n2"; pod_of "api" "api-a" "n1"]
    [cordoned; MkNode (meta "n2" "") false []]
    [shop_replicaset "web"; shop_replicaset "api"] [shop_deployment "web"; shop_deployment "api"] []
    {[ "p" := policy ]} (list_to_map ((λ x, (win_key x, x)) <$> windows))
    (list_to_map [shop_object "web" 3; shop_object "api" 3]) forbidden 10.

Abbreviation policy_run := (policy_Reconcile init_registry true (NN "" "p")).

(** The cap is one: "api" is raised, "web" waits. *)
Definition shop : Cluster := shop_cluster shop_policy [] [].
Definition shop_up : Cluster := final policy_run shop.

Definition replicas_of (name : string) (c : Cluster) : result Z :=
  res (Current (MkTarget (NN "shop" name) "apps/v1" "Deployment" "spec.replicas" None)) c.
Definition window_of (name : string) (c : Cluster) : option EvictionGuardWindow :=
  clWindows c !! NN "shop" (WindowName "p" "shop" name).

Example shop_raised : replicas_of "api" shop_up = Ok 4 ∧ replicas_of "web" shop_up = Ok 3.
Proof. split; vm_compute; reflexivity. Qed.
Example shop_waits : isDeferredWindow (window_of "web" shop_up) = true ∧ isDeferredWindow (window_of "api" shop_up) = false.
Proof. split; vm_compute; reflexivity. Qed.

(** Both patches are refused: both windows are open, one more than the cap. *)
Definition shop_denied : Cluster := shop_cluster shop_policy [] [NN "shop" "web"; NN "shop" "api"].

Example cap_exceeded :
  count takes_slot (effects policy_run shop_denied) = 2
  ∧ count failed_up (effects policy_run shop_denied) = 2
  ∧ countActiveWindows shop_policy (final policy_run shop_denied) = Ok 2.
Proof. split; [|split]; vm_compute; reflexivity. Qed.

Lemma cap_respected_witness :
  count takes_slot (effects policy_run shop) <= Z.max 0 (1 - 0) + count failed_up (effects policy_run shop).
Proof.
  refine (cap_respected init_registry true (NN "" "p") shop _ _ _ shop_policy 0 _ _ _ (run_of _ _ _ eq_refl)).
  - vm_compute. reflexivity.
  - vm_compute. reflexivity.
  - vm_compute. split; [reflexivity | discriminate].
Defined.

(** The patch that raises "api". *)
Lemma scale_up_recorded_witness :
  ∃ i e j rec x, effects policy_run shop !! i = Some e ∧ scales e ∧ (j < i)%nat
    ∧ effects policy_run shop !! j = Some rec ∧ wrote_window rec x ∧ covers x e.
Proof.
  assert (∃ e, effects policy_run shop !! 8%nat = Some e ∧ scales e) as (e & He & Hs).
  { eexists. split; [vm_compute; reflexivity|]. apply scales_test. vm_compute. reflexivity. }
  destruct (scale_up_recorded init_registry true (NN "" "p") shop 8 e He Hs) as (j & rec & x & Hj & Hrec & Hw & Hc & _).
  exists 8%nat, e, j, rec, x. split; [exact He|]. split; [exact Hs|]. split; [exact Hj|]. split; [exact Hrec|]. split; [exact Hw | exact Hc].
Defined.

Definition web_state : workloadState := MkWorkload (shop_deployment "web") 1 {[ "n1" ]}.

Lemma shop_web_ensured : ∃ es, ensureWindow true shop_policy web_state shop
  = (Ok (), final (ensureWindow true shop_policy web_state) shop, es).
Proof.
  assert ((ensureWindow true shop_policy web_state shop).1.1 = Ok ()) as H by (vm_compute; reflexivity).
  exact (ex_intro _ _ (run_of _ _ _ H)).
Qed.

Lemma ensureWindow_protects_witness :
  ∃ plan rec x, records_window shop_policy web_state shop rec x true
      ∧ (good_steps (planSteps plan) → ∀ st, st ∈ planSteps plan →
           ∃ v, val shop (spTarget st) = Ok v
                ∧ val (final (ensureWindow true shop_policy web_state) shop) (spTarget st) = Ok (Z.max v (spDesired st))).
Proof.
  destruct shop_web_ensured as [es H].
  destruct (ensureWindow_protects true shop_policy web_state shop _ es H) as [(win & Hw & _)|(plan & rec & x & _ & Hr & _ & _ & _ & _ & Hup)].
  - exfalso. vm_compute in Hw. discriminate.
  - exists plan, rec, x. split; [exact Hr | exact Hup].
Defined.

(** The node was uncordoned, and no pod of "api" is at risk. *)
Definition api_window : EvictionGuardWindow :=
  MkWindow (labelled (WindowName "p" "shop" "api") "shop" [(PolicyLabel, "p")])
    (MkWindowSpec "p" (workloadRef (shop_deployment "api")) [] 3 4 ["n2"; "gone"] None) empty_window_status.
Definition shop_clear : Cluster := shop_cluster shop_policy [api_window] [].

Lemma syncClearedWindows_spec_witness :
  clears api_window ∈ effects (syncClearedWindows init_registry shop_policy ∅) shop_clear.
Proof.
  refine (proj2 (proj2 (syncClearedWindows_spec init_registry shop_policy ∅ match_all [api_window] shop_clear _ _ _ _ (run_of _ _ _ _)) api_window) _).
  - vm_compute. reflexivity.
  - vm_compute. reflexivity.
  - vm_compute. reflexivity.
  - split; [left|]. split; [vm_compute; reflexivity|]. split; [discriminate|]. apply any_vulnerable_clear. vm_compute. reflexivity.
Defined.

(** The policy is being deleted while a window of it is there. *)
Definition leaving_policy : EvictionGuardPolicy :=
  MkPolicy (MkMeta "p" "" ∅ ∅ (Some 5) 1 [PolicyFinalizer] [] 1) (polSpec shop_policy) (polStatus shop_policy).

Lemma policy_release_safe_witness :
  ∃ ok, DeleteWindowE (win_key api_window) ok ∈ effects policy_run (shop_cluster leaving_policy [api_window] []).
Proof.
  refine (proj2 (proj2 (policy_release_safe init_registry true (NN "" "p") leaving_policy [api_window]
            (shop_cluster leaving_policy [api_window] []) _ _ _ _ _ (run_of _ _ _ eq_refl)) _ _) _ api_window _).
  - vm_compute. reflexivity.
  - vm_compute. reflexivity.
  - reflexivity.
  - discriminate.
  - vm_compute. reflexivity.
  - left.
Defined.
