(* ===== verification/Collect.v ===== *)
(** * Correctness of collectWorkloads: the caches are invisible

    [collectWorkloads] remembers, for one reconcile, the Deployment of each
    ReplicaSet, the labels of each namespace and the ownership decision of each
    Deployment.  Under what Kubernetes guarantees of names and controllers it
    computes what the loop without caches does, and that loop counts exactly
    the pods at risk. *)
From S2P Require Import Evictgate.
From S2P Require Import Prelude GoStrings GoTime Meta Api Kube Capacity Naming Filters Signals PolicyOwn Workload.
From S2P Require Import PolicyController Fake.

#[local] Open Scope Z_scope.

(** ** Keys *)

Definition no_slash (s : string) : Prop := "/"%char ∉ chars s.

Lemma slash_key_inj a b c d : no_slash a → no_slash c → a +:+ "/" +:+ b = c +:+ "/" +:+ d → a = c ∧ b = d.
Proof.
  intros Ha Hc H. apply (f_equal chars) in H. rewrite !chars_app in H.
  pose proof (cut_chars_app _ _ (chars b) Ha) as H1. pose proof (cut_chars_app _ _ (chars d) Hc) as H2.
  change (chars "/") with ["/"%char] in H. cbn [app] in H. rewrite H H2 in H1. injection H1 as H1 H3.
  split; [by rewrite -(of_chars_chars a) -(of_chars_chars c) H1 | by rewrite -(of_chars_chars b) -(of_chars_chars d) H3].
Qed.

(** Of the references that control a pod, at most one is to a ReplicaSet. *)
Fixpoint one_controller (refs : list OwnerReference) : Prop :=
  match refs with
  | [] => True
  | o :: rest => if str_eqb (orKind o) "ReplicaSet" && is_controller o then first_rs rest = "" else one_controller rest
  end.

Section collect.
Context {Obj W : Type} `{L : KubeLib} `{C : Client Obj W}.

(** Objects are stored under their keys, and names have no slash. *)
Class KeyLaws : Prop := {
  deployment_key k w d : getDeployment k w = Ok d → mKey (dMeta d) = k
}.

Definition good_pod (p : Pod) : Prop :=
  one_controller (mOwnerReferences (podMeta p)) ∧ no_slash (mNamespace (podMeta p))
  ∧ ∀ o, o ∈ mOwnerReferences (podMeta p) → orName o ≠ "".

(** ** The loop without caches *)

(** The Deployment of a pod at risk the policy answers for. *)
Definition at_risk (policy : EvictionGuardPolicy) (all : list (option EvictionGuardPolicy)) (pod : Pod) (w : W)
  : result (option Deployment) :=
  if bool_decide (mDeletionTimestamp (podMeta pod) ≠ None) then Ok None
  else
    dep ← OwnerDeployment (Some pod) w;
    match dep with
    | None => Ok None
    | Some d =>
        if negb (workloadProtected (Some d) (Some pod)) then Ok None
        else
          ls ← NamespaceLabels (mNamespace (podMeta pod)) w;
          Ok (if Owns (Some policy) (Some d) ls all then Some d else None)
    end.

(** The pods at risk, each as its node and its Deployment, in the order they are
    met. *)
Fixpoint pod_hits (policy : EvictionGuardPolicy) (all : list (option EvictionGuardPolicy)) (node : string)
  (pods : list Pod) (w : W) : result (list (string * Deployment)) :=
  match pods with
  | [] => Ok []
  | p :: rest =>
      dep ← at_risk policy all p w;
      hits ← pod_hits policy all node rest w;
      Ok (match dep with Some d => (node, d) :: hits | None => hits end)
  end.

Fixpoint node_hits (policy : EvictionGuardPolicy) (all : list (option EvictionGuardPolicy)) (nodes : list Node) (w : W)
  : result (list (string * Deployment)) :=
  match nodes with
  | [] => Ok []
  | n :: rest =>
      pods ← listPodsOnNode (mName (nMeta n)) w;
      h1 ← pod_hits policy all (mName (nMeta n)) pods w;
      h2 ← node_hits policy all rest w;
      Ok (h1 ++ h2)
  end.

(** What is known of a workload from its hits. *)
Definition summary (hits : list (string * Deployment)) : option workloadState :=
  match hits with
  | [] => None
  | (_, d) :: _ => Some (MkWorkload d (i32 (Z.of_nat (length hits))) (list_to_set hits.*1))
  end.

Definition note (out : gmap string workloadState) (h : string * Deployment) : gmap string workloadState :=
  add_at_risk out (dep_key h.2) h.2 h.1.

(** ** The caches *)

(** What the ReplicaSet of a name leads to. *)
Definition owner_via (ns rsName : string) (w : W) : result (option Deployment) :=
  match getReplicaSet (NN ns rsName) w with
  | Err e => ignore_not_found e
  | Ok rs => match owner_of_rs w ns (mOwnerReferences (rsMeta rs)) with Some r => r | None => Ok None end
  end.

Lemma owner_of_pod_none w ns refs :
  first_rs refs = "" → (∀ o, o ∈ refs → orName o ≠ "") → owner_of_pod w ns refs = Ok None.
Proof.
  induction refs as [|o refs IH]; intros H Hn; simpl in *; [done|].
  destruct (str_eqb (orKind o) "ReplicaSet" && is_controller o) eqn:E.
  - by destruct (Hn o ltac:(left)).
  - rewrite -negb_andb E. simpl. apply IH; [done|]. intros o' Ho'. apply Hn. by right.
Qed.

Lemma owner_by_rs w pod :
  good_pod pod →
  OwnerDeployment (Some pod) w
  = (if str_eqb (first_rs (mOwnerReferences (podMeta pod))) "" then Ok None
     else owner_via (mNamespace (podMeta pod)) (first_rs (mOwnerReferences (podMeta pod))) w).
Proof.
  intros (H1 & _ & Hn). unfold OwnerDeployment. revert H1 Hn. generalize (mNamespace (podMeta pod)) as ns.
  generalize (mOwnerReferences (podMeta pod)) as refs. intros refs ns.
  induction refs as [|o refs IH]; intros H1 Hn; simpl in *; [done|].
  assert (∀ o', o' ∈ refs → orName o' ≠ "") as Hn' by (intros o' Ho'; apply Hn; by right).
  rewrite -negb_andb. destruct (str_eqb (orKind o) "ReplicaSet" && is_controller o) eqn:E; simpl; [|by apply IH].
  rewrite (proj2 (str_eqb_false _ _) (Hn o ltac:(left))). unfold owner_via.
  destruct (getReplicaSet _ w) as [rs|e]; [|done]. destruct (owner_of_rs _ _ _); [done|]. by apply owner_of_pod_none.
Qed.

Context {KL : KeyLaws}.

Lemma found_deployment w pod d : OwnerDeployment (Some pod) w = Ok (Some d) →
  mNamespace (dMeta d) = mNamespace (podMeta pod) ∧ getDeployment (mKey (dMeta d)) w = Ok d.
Proof.
  intros (n & rs & m & _ & _ & _ & H)%OwnerDeployment_chain. pose proof (deployment_key _ _ _ H) as Hk.
  split; [by injection Hk | by rewrite Hk].
Qed.

(** Of two Deployments found with one key there is only one. *)
Lemma found_unique w p1 p2 d1 d2 :
  good_pod p1 → good_pod p2 → OwnerDeployment (Some p1) w = Ok (Some d1) → OwnerDeployment (Some p2) w = Ok (Some d2) →
  dep_key d1 = dep_key d2 → d1 = d2 ∧ mNamespace (podMeta p1) = mNamespace (podMeta p2).
Proof.
  intros (_ & S1 & _) (_ & S2 & _) [N1 G1]%found_deployment [N2 G2]%found_deployment Hk.
  apply slash_key_inj in Hk as [Hn Hm]; [|by rewrite N1|by rewrite N2].
  split; [|congruence]. unfold mKey in G1, G2. rewrite Hn Hm in G1. congruence.
Qed.

Context (policy : EvictionGuardPolicy) (all : list (option EvictionGuardPolicy)) (w : W).

Definition owners_ok (m : gmap string (option Deployment)) : Prop :=
  ∀ pod dep, good_pod pod → first_rs (mOwnerReferences (podMeta pod)) ≠ "" →
    m !! (mNamespace (podMeta pod) +:+ "/" +:+ first_rs (mOwnerReferences (podMeta pod))) = Some dep →
    OwnerDeployment (Some pod) w = Ok dep.
Definition labels_ok (m : gmap string labels) : Prop := ∀ ns ls, m !! ns = Some ls → NamespaceLabels ns w = Ok ls.
Definition owns_ok (m : gmap string bool) : Prop :=
  ∀ pod d b, good_pod pod → OwnerDeployment (Some pod) w = Ok (Some d) → m !! dep_key d = Some b →
    ∃ ls, NamespaceLabels (mNamespace (podMeta pod)) w = Ok ls ∧ b = Owns (Some policy) (Some d) ls all.

(** Every entry of the caches is what would be computed again. *)
Definition caches_ok (c : collection) : Prop := owners_ok (ccOwner c) ∧ labels_ok (ccNs c) ∧ owns_ok (ccOwns c).

Lemma ownerDeploymentCached_ok pod m :
  good_pod pod → owners_ok m →
  match OwnerDeployment (Some pod) w with
  | Err e => ownerDeploymentCached pod m w = Err e
  | Ok dep => ∃ m', ownerDeploymentCached pod m w = Ok (dep, m') ∧ owners_ok m'
  end.
Proof.
  intros Hp Hm. unfold ownerDeploymentCached. cbv zeta.
  destruct (str_eqb (first_rs _) "") eqn:E; [rewrite (owner_by_rs w pod Hp) E; by exists m|].
  apply str_eqb_false in E. destruct (m !! _) as [dep|] eqn:Ec; [rewrite (Hm pod dep Hp E Ec); by exists m|].
  destruct (OwnerDeployment (Some pod) w) as [dep|e] eqn:Eo; [|done]. cbn [mbind result_bind].
  eexists. split; [done|]. intros pod' dep' Hp' E' Hl. apply lookup_insert_Some in Hl as [[Hk <-]|[_ Hl]]; [|by apply (Hm pod')].
  rewrite -Eo (owner_by_rs w pod Hp) (owner_by_rs w pod' Hp').
  apply slash_key_inj in Hk as [Hns Hrs]; [by rewrite Hns Hrs|apply Hp | apply Hp'].
Qed.

Lemma namespaceLabels_ok ns m :
  labels_ok m →
  match NamespaceLabels ns w with
  | Err e => namespaceLabels ns m w = Err e
  | Ok ls => ∃ m', namespaceLabels ns m w = Ok (ls, m') ∧ labels_ok m'
  end.
Proof.
  intros Hm. unfold namespaceLabels. destruct (m !! ns) as [ls|] eqn:E; [rewrite (Hm _ _ E); by exists m|].
  destruct (NamespaceLabels ns w) as [ls|e] eqn:En; [|done]. cbn [mbind result_bind]. eexists. split; [done|].
  intros ns' ls' [[<- <-]|[_ Hl]]%lookup_insert_Some; [done | by apply Hm].
Qed.

Lemma ownsCached_ok pod d c :
  good_pod pod → OwnerDeployment (Some pod) w = Ok (Some d) → caches_ok c →
  match NamespaceLabels (mNamespace (podMeta pod)) w with
  | Err e => ownsCached policy all d (mNamespace (podMeta pod)) c w = Err e
  | Ok ls => ∃ c', ownsCached policy all d (mNamespace (podMeta pod)) c w = Ok (Owns (Some policy) (Some d) ls all, c')
                   ∧ caches_ok c' ∧ ccOut c' = ccOut c
  end.
Proof.
  intros Hp Ho (H1 & H2 & H3). unfold ownsCached. destruct (ccOwns c !! dep_key d) as [b|] eqn:E.
  { destruct (H3 pod d b Hp Ho E) as (ls & -> & ->). by exists c. }
  pose proof (namespaceLabels_ok (mNamespace (podMeta pod)) (ccNs c) H2) as Hn.
  destruct (NamespaceLabels _ w) as [ls|e] eqn:En; [|by rewrite Hn]. destruct Hn as (m' & -> & Hm'). cbn [mbind result_bind].
  eexists. split; [done|]. split; [|done]. split; [done|]. split; [done|]. cbn.
  intros pod' d' b Hp' Ho' [[Hk <-]|[_ Hl]]%lookup_insert_Some; [|by apply (H3 pod')].
  destruct (found_unique _ _ _ _ _ Hp Hp' Ho Ho' Hk) as [<- Hns]. exists ls. by rewrite -Hns.
Qed.

Lemma collect_pod_ok node pod c :
  good_pod pod → caches_ok c →
  match at_risk policy all pod w with
  | Err e => collect_pod policy all node pod c w = Err e
  | Ok dep => ∃ c', collect_pod policy all node pod c w = Ok c' ∧ caches_ok c'
                    ∧ ccOut c' = match dep with Some d => note (ccOut c) (node, d) | None => ccOut c end
  end.
Proof.
  intros Hp Hc. unfold at_risk, collect_pod. case_bool_decide; [by exists c|].
  destruct Hc as (H1 & H2 & H3). pose proof (ownerDeploymentCached_ok pod (ccOwner c) Hp H1) as Ho.
  destruct (OwnerDeployment (Some pod) w) as [dep|e] eqn:Eo; [|by rewrite Ho]. destruct Ho as (m' & -> & Hm').
  cbn [mbind result_bind fst snd]. assert (caches_ok (MkCollection (ccNs c) m' (ccOwns c) (ccOut c))) as Hc' by done.
  destruct dep as [d|]; [|by eexists]. destruct (negb (workloadProtected _ _)); [by eexists|].
  pose proof (ownsCached_ok pod d _ Hp Eo Hc') as Hw.
  destruct (NamespaceLabels _ w) as [ls|e]; [|by rewrite Hw]. destruct Hw as (c2 & -> & Hc2 & Hout).
  cbn [mbind result_bind fst snd]. cbn in Hout. destruct (Owns _ _ _ _); cbn [negb].
  - eexists. split; [done|]. split; [done|]. cbn. by rewrite Hout.
  - by exists c2.
Qed.

Lemma collect_pods_ok node pods c :
  Forall good_pod pods → caches_ok c →
  match pod_hits policy all node pods w with
  | Err e => collect_pods policy all node pods c w = Err e
  | Ok hits => ∃ c', collect_pods policy all node pods c w = Ok c' ∧ caches_ok c' ∧ ccOut c' = foldl note (ccOut c) hits
  end.
Proof.
  intros Hp. revert c. induction Hp as [|p pods Hp _ IH]; intros c Hc; cbn [pod_hits collect_pods]; [by exists c|].
  pose proof (collect_pod_ok node p c Hp Hc) as H1. destruct (at_risk policy all p w) as [dep|e]; [|by rewrite H1].
  destruct H1 as (c1 & -> & Hc1 & Ho1). cbn [mbind result_bind]. specialize (IH c1 Hc1).
  destruct (pod_hits _ _ _ _ w) as [hits|e]; [|by rewrite IH]. destruct IH as (c2 & -> & Hc2 & Ho2).
  exists c2. split; [done|]. split; [done|]. rewrite Ho2 Ho1. by destruct dep.
Qed.

Lemma collect_nodes_ok nodes c :
  (∀ n pods, n ∈ nodes → listPodsOnNode (mName (nMeta n)) w = Ok pods → Forall good_pod pods) → caches_ok c →
  match node_hits policy all nodes w with
  | Err e => collect_nodes policy all nodes c w = Err e
  | Ok hits => ∃ c', collect_nodes policy all nodes c w = Ok c' ∧ caches_ok c' ∧ ccOut c' = foldl note (ccOut c) hits
  end.
Proof.
  revert c. induction nodes as [|n nodes IH]; intros c Hp Hc; cbn [node_hits collect_nodes]; [by exists c|]. unfold podsOnNode.
  destruct (listPodsOnNode _ w) as [pods|e] eqn:El; [|done]. cbn [mbind result_bind].
  pose proof (collect_pods_ok (mName (nMeta n)) pods c (Hp n pods ltac:(left) El) Hc) as H1.
  destruct (pod_hits _ _ _ _ w) as [h1|e]; [|by rewrite H1]. destruct H1 as (c1 & -> & Hc1 & Ho1). cbn [mbind result_bind].
  specialize (IH c1 (λ n' pods' Hn', Hp n' pods' ltac:(by right)) Hc1).
  destruct (node_hits _ _ _ w) as [h2|e]; [|by rewrite IH]. destruct IH as (c2 & -> & Hc2 & Ho2).
  exists c2. split; [done|]. split; [done|]. by rewrite Ho2 Ho1 foldl_app.
Qed.

(** ** Counting *)

Lemma i32_succ z : i32 (i32 z + 1) = i32 (z + 1).
Proof.
  unfold i32. replace ((z + 2147483648) mod 4294967296 - 2147483648 + 1 + 2147483648)%Z
    with ((z + 2147483648) mod 4294967296 + 1)%Z by lia.
  rewrite Z.add_mod_idemp_l; [|done]. do 2 f_equal. lia.
Qed.

Lemma summary_snoc hits n d :
  summary (hits ++ [(n, d)])
  = Some match summary hits with
         | Some st => MkWorkload (wlDeploy st) (i32 (wlAtRisk st + 1)) ({[n]} ∪ wlNodes st)
         | None => MkWorkload d (i32 1) {[n]}
         end.
Proof.
  destruct hits as [|[n0 d0] hits]; simpl; [by rewrite right_id_L|]. do 2 f_equal.
  - rewrite i32_succ length_app. simpl. f_equal. lia.
  - change (list_fmap _ _ fst ?l) with (l.*1). rewrite fmap_app list_to_set_app_L. simpl. rewrite right_id_L. set_solver.
Qed.

Lemma tally hits k : foldl note ∅ hits !! k = summary (filter (λ h, dep_key h.2 = k) hits).
Proof.
  induction hits as [|[n d] hits IH] using rev_ind; [done|]. rewrite foldl_app filter_app. cbn [foldl].
  unfold note at 1, add_at_risk. cbn [fst snd]. destruct (decide (dep_key d = k)) as [<-|Hne].
  - rewrite lookup_insert_eq filter_cons_True // filter_nil summary_snoc IH. f_equal.
    destruct (summary _) as [st|]; [done|]. f_equal. by rewrite right_id_L.
  - rewrite lookup_insert_ne // IH filter_cons_False // filter_nil app_nil_r. done.
Qed.
End collect.

(** [collectWorkloads] against the loop without caches. *)
Lemma collectWorkloads_exact {Obj W} `{L : KubeLib} `{C : Client Obj W} `{!KeyLaws} policy vulnerable w items :
  listPolicies w = Ok items →
  (∀ n pods, n ∈ vulnerable → listPodsOnNode (mName (nMeta n)) w = Ok pods → Forall good_pod pods) →
  match node_hits policy (map Some items) vulnerable w with
  | Err e => collectWorkloads policy vulnerable w = Err e
  | Ok hits => ∃ out, collectWorkloads policy vulnerable w = Ok out
                      ∧ ∀ k, out !! k = summary (filter (λ h, dep_key h.2 = k) hits)
  end.
Proof.
  intros Hl Hp. unfold collectWorkloads. rewrite Hl. cbn [mbind result_bind].
  assert (caches_ok policy (map Some items) w (MkCollection ∅ ∅ ∅ ∅)) as Hc by
    (split; [|split]; [intros ? ? _ _ He|intros ? ? He|intros ? ? ? _ _ He]; by rewrite lookup_empty in He).
  pose proof (collect_nodes_ok policy (map Some items) w vulnerable _ Hp Hc) as Hn.
  destruct (node_hits _ _ _ w) as [hits|e]; [|by rewrite Hn]. destruct Hn as (c & -> & _ & Ho). exists (ccOut c).
  split; [done|]. intros k. rewrite Ho. apply tally.
Qed.

(** C23: the caches of [collectWorkloads] are invisible and its counts exact: on pods
    with at most one controlling ReplicaSet it fails exactly when the loop
    without caches fails, with the same error, and else answers, for every
    Deployment, how many pods of it are at risk ([int32]) and on which of the
    vulnerable nodes. *)
Theorem collectWorkloads_spec {Obj W} `{L : KubeLib} `{C : Client Obj W} `{!KeyLaws} policy vulnerable w items :
  listPolicies w = Ok items →
  (∀ n pods, n ∈ vulnerable → listPodsOnNode (mName (nMeta n)) w = Ok pods → Forall good_pod pods) →
  match node_hits policy (map Some items) vulnerable w with
  | Err e => collectWorkloads policy vulnerable w = Err e
  | Ok hits => ∃ out, collectWorkloads policy vulnerable w = Ok out
                      ∧ ∀ k, out !! k = summary (filter (λ h, dep_key h.2 = k) hits)
  end.
Proof. apply collectWorkloads_exact. Qed.

(** ** Witness *)

#[export] Instance FakeClient_key_laws : KeyLaws (C := FakeClient).
Proof.
  split. simpl. intros k c d. unfold found. destruct (find _ _) as [x|] eqn:E; [|done]. intros [= <-].
  apply find_some in E as [_ E]. by apply bool_decide_eq_true in E.
Qed.

(** Two pods of one Deployment on a cordoned node, one on another. *)
Definition risky_pod (name node : string) : Pod :=
  MkPod (owned (labelled name "shop" protected) (ref_to "ReplicaSet" "web-rs")) node [].
Definition risky_cluster : Cluster :=
  MkCluster [risky_pod "web-a" "n1"; risky_pod "web-b" "n2"; risky_pod "web-c" "n1"] [cordoned]
    [MkReplicaSet (owned (meta "web-rs" "shop") (ref_to "Deployment" "web"))] [shop_dep] []
    {[ "p" := gate_policy ]} ∅ ∅ [] 0.

Lemma risky_good p : p ∈ clPods risky_cluster → good_pod p.
Proof.
  intros Hp. assert (∃ name node, p = risky_pod name node) as (name & node & ->).
  { cbn in Hp. repeat (apply elem_of_cons in Hp as [->|Hp]; [by do 2 eexists|]). by apply elem_of_nil in Hp. }
  split; [reflexivity|]. split; [apply (bool_decide_unpack _); vm_compute; exact I|].
  cbn. by intros o ->%list_elem_of_singleton.
Qed.

Lemma collectWorkloads_spec_witness :
  ∃ out, collectWorkloads gate_policy [cordoned] risky_cluster = Ok out
         ∧ out !! "shop/web" = Some (MkWorkload shop_dep 2 {[ "n1" ]}).
Proof.
  pose proof (collectWorkloads_spec gate_policy [cordoned] risky_cluster [gate_policy] eq_refl) as H.
  assert (∃ hits, node_hits gate_policy [Some gate_policy] [cordoned] risky_cluster = Ok hits) as [hits Hh]
    by (eexists; vm_compute; reflexivity).
  assert (∀ n pods, n ∈ [cordoned] → listPodsOnNode (mName (nMeta n)) risky_cluster = Ok pods → Forall good_pod pods) as Hg.
  { intros n pods _ [= <-]. apply Forall_forall. intros p [_ Hp]%list_elem_of_filter. by apply risky_good. }
  specialize (H Hg). cbn [map] in H. rewrite Hh in H. destruct H as (out & Ho & Hk). exists out. split; [exact Ho|].
  rewrite Hk. vm_compute in Hh. injection Hh as <-. vm_compute. reflexivity.
Defined.
