(* ===== verification/Enqueue.v ===== *)
(** * internal/controller: which events wake the policy reconciler

    enqueue.go (the policies a node or a pod concerns) and the predicates of
    policy_controller.go (the events that are let through).  An event is
    filtered by a predicate, then mapped to requests: the theorems say that
    together they lose no change a reconcile would act on, and where they do. *)
From S2P Require Import Evictgate.
From S2P Require Import Prelude GoStrings GoTime Meta Api Kube Capacity Naming Filters Signals PolicyOwn Workload.
From S2P Require Import PolicyController Collect Fake.

#[local] Open Scope Z_scope.

(** ** Objects and events *)

(** A [client.Object], as far as the type assertions tell it apart. *)
Inductive Object := NodeObject (n : Node) | PodObject (p : Pod) | OtherObject.

(** [obj.( *corev1.Node)], nil when it fails. *)
Definition as_node (o : Object) : option Node := match o with NodeObject n => Some n | _ => None end.
Definition as_pod (o : Object) : option Pod := match o with PodObject p => Some p | _ => None end.

(** [reconcile.Request] of a cluster-scoped object. *)
Definition policy_request (p : EvictionGuardPolicy) : NamespacedName := NN "" (polName p).

(** The requests added to a work queue, in order. *)
Definition enqueuePolicies (q reqs : list NamespacedName) : list NamespacedName := foldl (λ q r, q ++ [r]) q reqs.

(** ** Predicates *)

Definition is_set (t : option Time) : bool := match t with Some _ => true | None => false end.

Definition deletionTimestampSet (a b : ObjectMeta) : bool :=
  if negb (is_set (mDeletionTimestamp a)) && is_set (mDeletionTimestamp b) then true
  else if is_set (mDeletionTimestamp a) && negb (is_set (mDeletionTimestamp b)) then true
  else false.

(** The comparison of two string maps: their sizes, then the entries of the
    first; a missing entry of the second reads as the empty string. *)
Definition entries_differ (b : strmap) (l : list (string * string)) : bool :=
  existsb (λ kv, negb (str_eqb (mget b kv.1) kv.2)) l.
Definition maps_differ (a b : strmap) : bool :=
  if negb (bool_decide (size a = size b)) then true else entries_differ b (map_to_list a).

Fixpoint taints_differ (a b : list Taint) : bool :=
  match a, b with
  | x :: a, y :: b => if bool_decide (x ≠ y) then true else taints_differ a b
  | _, _ => false
  end.

Definition taintsOrLabelsChanged (a b : Node) : bool :=
  if negb (Bool.eqb (nUnschedulable a) (nUnschedulable b)) then true
  else if negb (bool_decide (length (nTaints a) = length (nTaints b))) then true
  else if taints_differ (nTaints a) (nTaints b) then true
  else if maps_differ (mLabels (nMeta a)) (mLabels (nMeta b)) then true
  else maps_differ (mAnnotations (nMeta a)) (mAnnotations (nMeta b)).

Definition podMembershipChanged (a b : Pod) : bool :=
  if negb (str_eqb (podNodeName a) (podNodeName b)) then true
  else if maps_differ (mLabels (podMeta a)) (mLabels (podMeta b)) then true
  else deletionTimestampSet (podMeta a) (podMeta b).

(** [predicate.Funcs] *)
Record Funcs := MkFuncs {
  CreateFunc : Object → bool;
  UpdateFunc : Object → Object → bool;
  DeleteFunc : Object → bool
}.

Definition nodeDisruptionPredicate : Funcs :=
  MkFuncs (λ o, match as_node o with Some _ => true | None => false end)
    (λ old new, match as_node old, as_node new with
                | Some a, Some b => taintsOrLabelsChanged a b
                | _, _ => false
                end)
    (λ _, true).

Definition podPolicyPredicate : Funcs :=
  MkFuncs (λ o, match as_pod o with Some _ => true | None => false end)
    (λ old new, match as_pod old, as_pod new with
                | Some a, Some b => podMembershipChanged a b
                | _, _ => false
                end)
    (λ _, true).

(** ** Mappings *)

Section enqueue.
Context {Obj W : Type} `{L : KubeLib} `{C : Client Obj W}.
Context (registry : Registry).

(** One policy of the loop of [policiesForNode]. *)
Definition policy_concerns (node : Node) (onlyVulnerable : bool) (p : EvictionGuardPolicy) : bool :=
  match FromSpec (psNodeFilter (polSpec p)) with
  | Err _ => false
  | Ok f =>
      match Matches f (Some node) with
      | Err _ | Ok false => false
      | Ok true => if onlyVulnerable && negb (Vulnerable registry node (Some p)) then false else true
      end
  end.

Fixpoint concerned (node : Node) (onlyVulnerable : bool) (l : list EvictionGuardPolicy) : list NamespacedName :=
  match l with
  | [] => []
  | p :: rest =>
      if policy_concerns node onlyVulnerable p then policy_request p :: concerned node onlyVulnerable rest
      else concerned node onlyVulnerable rest
  end.

Definition policiesForNode (node : option Node) (onlyVulnerable : bool) (w : W) : list NamespacedName :=
  match node with
  | None => []
  | Some n => match listPolicies w with Err _ => [] | Ok l => concerned n onlyVulnerable l end
  end.

Definition policiesForObject (obj : Object) (w : W) : list NamespacedName :=
  match as_node obj with None => [] | Some n => policiesForNode (Some n) false w end.

Definition policiesForNodeUpdate (oldN newN : option Node) (w : W) : list NamespacedName :=
  dedup_by nnName ∅ (policiesForNode oldN false w ++ policiesForNode newN false w).

(** [nodePolicyHandler] *)
Definition handler_Create (q : list NamespacedName) (o : Object) (w : W) := enqueuePolicies q (policiesForObject o w).
Definition handler_Delete (q : list NamespacedName) (o : Object) (w : W) := enqueuePolicies q (policiesForObject o w).
Definition handler_Generic (q : list NamespacedName) (o : Object) (w : W) := enqueuePolicies q (policiesForObject o w).
Definition handler_Update (q : list NamespacedName) (old new : Object) (w : W) :=
  enqueuePolicies q (policiesForNodeUpdate (as_node old) (as_node new) w).

Definition mapPodToPolicies (obj : Object) (w : W) : list NamespacedName :=
  match as_pod obj with
  | None => []
  | Some pod =>
      if str_eqb (podNodeName pod) "" then []
      else match getNode (podNodeName pod) w with
           | Err _ => []
           | Ok node => policiesForNode (Some node) true w
           end
  end.

(** ** Mappings: what is enqueued *)

Lemma enqueuePolicies_app q reqs : enqueuePolicies q reqs = q ++ reqs.
Proof.
  unfold enqueuePolicies. revert q. induction reqs as [|r reqs IH]; intros q; simpl; [by rewrite app_nil_r|].
  by rewrite IH -app_assoc.
Qed.

(** The policy's filter matches the node, and the node is vulnerable for it if
    that is asked. *)
Definition concerns (p : EvictionGuardPolicy) (n : Node) (onlyVulnerable : bool) : Prop :=
  ∃ f, FromSpec (psNodeFilter (polSpec p)) = Ok f ∧ Matches f (Some n) = Ok true
       ∧ (onlyVulnerable = true → Vulnerable registry n (Some p) = true).

Lemma policy_concerns_spec n b p : policy_concerns n b p = true ↔ concerns p n b.
Proof.
  unfold policy_concerns, concerns. destruct (FromSpec _) as [f|e]; [|by split; [|intros (? & ? & _)]].
  destruct (Matches f (Some n)) as [[]|e] eqn:Em.
  - destruct (Vulnerable registry n (Some p)) eqn:Ev, b; cbn [negb andb]; try (split; [by intros _; exists f | done]).
    split; [done|]. intros (f' & _ & _ & H). by specialize (H eq_refl).
  - split; [done|]. intros (f' & [= <-] & H & _). congruence.
  - split; [done|]. intros (f' & [= <-] & H & _). congruence.
Qed.

Lemma elem_of_concerned n b l r : r ∈ concerned n b l ↔ ∃ p, p ∈ l ∧ r = policy_request p ∧ concerns p n b.
Proof.
  induction l as [|p l IH]; cbn [concerned]; [by split; [intros ?%elem_of_nil | intros (? & ?%elem_of_nil & _)]|].
  assert (r ∈ concerned n b (p :: l) ↔ (r = policy_request p ∧ concerns p n b) ∨ r ∈ concerned n b l) as Hc.
  { cbn [concerned]. rewrite -policy_concerns_spec. destruct (policy_concerns n b p); [rewrite elem_of_cons; tauto|].
    split; [by right | by intros [[_ ?]|?]]. }
  cbn [concerned] in Hc. rewrite Hc IH. setoid_rewrite elem_of_cons. naive_solver.
Qed.

Lemma elem_of_policiesForNode n b w l r :
  listPolicies w = Ok l → r ∈ policiesForNode (Some n) b w ↔ ∃ p, p ∈ l ∧ r = policy_request p ∧ concerns p n b.
Proof. intros Hl. unfold policiesForNode. rewrite Hl. apply elem_of_concerned. Qed.

(** ** Predicates: what an event that is dropped leaves as it was *)

(** No entry is the empty string. *)
Definition no_empty (m : strmap) : Prop := map_Forall (λ _ v, v ≠ "") m.

Lemma entries_differ_false b l : entries_differ b l = false ↔ Forall (λ kv, mget b kv.1 = kv.2) l.
Proof.
  induction l as [|[k v] l IH]; simpl; [by split|]. rewrite orb_false_iff negb_false_iff str_eqb_true IH.
  by rewrite Forall_cons.
Qed.

(** On maps without empty entries the comparison is equality. *)
Lemma maps_differ_false a b : no_empty a → maps_differ a b = false ↔ a = b.
Proof.
  intros Ha. unfold maps_differ. split.
  - case_bool_decide as Hs; [|done]. cbn [negb]. intros H%entries_differ_false. rewrite Forall_forall in H.
    apply map_subseteq_size_eq; [|by rewrite Hs]. apply map_subseteq_spec. intros k v Hk.
    specialize (H (k, v) (proj2 (elem_of_map_to_list a k v) Hk)). cbn in H. unfold mget in H.
    pose proof (Ha k v Hk) as Hv. cbn in Hv. by destruct (b !! k); simplify_eq/=.
  - intros <-. rewrite bool_decide_true; [|done]. cbn [negb]. apply entries_differ_false, Forall_forall.
    intros [k v] Hk%elem_of_map_to_list. cbn. unfold mget. by rewrite Hk.
Qed.

Lemma taints_differ_false a b : length a = length b → taints_differ a b = false ↔ a = b.
Proof.
  revert b. induction a as [|x a IH]; intros [|y b] Hl; simpl in *; try done. case_bool_decide as Hxy; [by split; [|intros [= ]]|].
  assert (x = y) as -> by (destruct (decide (x = y)); [done | by destruct Hxy]). rewrite IH; [|lia]. split; [by intros -> | by intros [= ->]].
Qed.

(** An update of a node that is dropped changed nothing the operator looks at. *)
Lemma taintsOrLabelsChanged_false a b :
  no_empty (mLabels (nMeta a)) → no_empty (mAnnotations (nMeta a)) →
  taintsOrLabelsChanged a b = false ↔
    nUnschedulable a = nUnschedulable b ∧ nTaints a = nTaints b
    ∧ mLabels (nMeta a) = mLabels (nMeta b) ∧ mAnnotations (nMeta a) = mAnnotations (nMeta b).
Proof.
  intros Hl Ha. unfold taintsOrLabelsChanged. destruct (Bool.eqb _ _) eqn:Eu; cbn [negb].
  2:{ split; [done|]. intros [H _]. apply eqb_false_iff in Eu. done. }
  apply eqb_prop in Eu. case_bool_decide as Ht; cbn [negb]; [|split; [done | by intros (_ & H & _); rewrite H in Ht]].
  destruct (taints_differ _ _) eqn:Et.
  { split; [done|]. intros (_ & H & _). apply (taints_differ_false _ _ Ht) in H. congruence. }
  apply (taints_differ_false _ _ Ht) in Et. destruct (maps_differ (mLabels _) _) eqn:El.
  { split; [done|]. intros (_ & _ & H & _). apply (maps_differ_false _ _ Hl) in H. congruence. }
  apply (maps_differ_false _ _ Hl) in El. rewrite (maps_differ_false _ _ Ha). tauto.
Qed.

(** A detector that looks at the taints, labels, annotations and the
    unschedulable flag of a node. *)
Definition local_detector (d : Detector) : Prop :=
  ∀ a b, nUnschedulable a = nUnschedulable b → nTaints a = nTaints b → mLabels (nMeta a) = mLabels (nMeta b) →
    mAnnotations (nMeta a) = mAnnotations (nMeta b) → detVulnerable d a = detVulnerable d b.

Lemma init_registry_local : map_Forall (λ _ d, local_detector d) init_registry.
Proof.
  unfold init_registry, Register. repeat (apply map_Forall_insert_2; [intros a b Hu Ht Hl Ha; cbn; by rewrite ?Hu ?Ht ?Hl ?Ha|]).
  intros k d Hk. by rewrite lookup_empty in Hk.
Qed.

Context (Hlocal : map_Forall (λ _ d, local_detector d) registry).

Lemma Vulnerable_ext a b p :
  nUnschedulable a = nUnschedulable b → nTaints a = nTaints b → mLabels (nMeta a) = mLabels (nMeta b) →
  mAnnotations (nMeta a) = mAnnotations (nMeta b) → Vulnerable registry a (Some p) = Vulnerable registry b (Some p).
Proof.
  intros Hu Ht Hl Ha. unfold Vulnerable.
  assert (∀ wanted, any_fires registry a wanted = any_fires registry b wanted) as Hf.
  { induction wanted as [|n wanted IH]; simpl; [done|]. destruct (registry !! n) as [d|] eqn:Ed; [|done].
    by rewrite (Hlocal n d Ed a b Hu Ht Hl Ha) IH. }
  unfold IsVulnerable. rewrite Hf. destruct (any_fires _ _ _); [done|].
  induction (psCustomSignals (polSpec p)) as [|s l IH]; simpl; [done|]. unfold customMatches. by rewrite Ht Hl Ha IH.
Qed.

Lemma Matches_ext f a b :
  mName (nMeta a) = mName (nMeta b) → nTaints a = nTaints b → mLabels (nMeta a) = mLabels (nMeta b) →
  Matches f (Some a) = Matches f (Some b).
Proof. intros Hn Ht Hl. unfold Matches, matches_labels. by rewrite Hn Ht Hl. Qed.

(** The node is one a policy protects pods from. *)
Definition disrupts (p : EvictionGuardPolicy) (n : Node) : Prop := concerns p n true.

(** C29: no change of a node is lost: if an update makes a policy find the node
    disrupting, or stop doing so, then the predicate lets the event through and
    the handler enqueues the policy (once), provided that the old node has no
    label or annotation with an empty value. *)
Theorem node_update_wakes old new w l p q :
  mName (nMeta old) = mName (nMeta new) → no_empty (mLabels (nMeta old)) → no_empty (mAnnotations (nMeta old)) →
  listPolicies w = Ok l → p ∈ l → ¬ (disrupts p old ↔ disrupts p new) →
  UpdateFunc nodeDisruptionPredicate (NodeObject old) (NodeObject new) = true
  ∧ ∃ reqs, handler_Update q (NodeObject old) (NodeObject new) w = q ++ reqs
            ∧ policy_request p ∈ reqs ∧ NoDup reqs.
Proof.
  intros Hn Hl Ha Hlist Hp Hd. split.
  - cbn. destruct (taintsOrLabelsChanged old new) eqn:E; [done|]. exfalso. apply Hd.
    apply taintsOrLabelsChanged_false in E as (Hu & Ht & Hls & Han); [|done..].
    unfold disrupts, concerns. setoid_rewrite (Vulnerable_ext old new p Hu Ht Hls Han).
    by setoid_rewrite (λ f, Matches_ext f old new Hn Ht Hls).
  - exists (policiesForNodeUpdate (Some old) (Some new) w). split; [apply enqueuePolicies_app|].
    unfold policiesForNodeUpdate. split; [|apply (NoDup_fmap_1 nnName), dedup_by_NoDup].
    assert (policy_request p ∈ policiesForNode (Some old) false w ++ policiesForNode (Some new) false w) as Hin.
    { rewrite elem_of_app !(elem_of_policiesForNode _ _ _ l) //.
      destruct (decide (policy_concerns old true p = true)) as [Ho|Ho]; [left|right];
        exists p; (split; [done|]); (split; [done|]).
      - apply policy_concerns_spec in Ho as (f & H1 & H2 & _). by exists f.
      - destruct (decide (policy_concerns new true p = true)) as [Hnw|Hnw].
        + apply policy_concerns_spec in Hnw as (f & H1 & H2 & _). by exists f.
        + destruct Hd. unfold disrupts. by rewrite -!policy_concerns_spec. }
    assert (∀ r, r ∈ policiesForNode (Some old) false w ++ policiesForNode (Some new) false w → r = NN "" (nnName r)) as Hns.
    { intros r. rewrite elem_of_app !(elem_of_policiesForNode _ _ _ l) //. by intros [(p' & _ & -> & _)|(p' & _ & -> & _)]. }
    assert (polName p ∈ nnName <$> dedup_by nnName ∅ (policiesForNode (Some old) false w ++ policiesForNode (Some new) false w)) as Hk.
    { apply dedup_by_keys. split; [|done]. by apply (list_elem_of_fmap_2 nnName) in Hin. }
    apply list_elem_of_fmap in Hk as (r & Hr & Hin'). pose proof (elem_of_dedup_by _ _ _ _ Hin') as [Hr' _].
    unfold policy_request. rewrite Hr. by rewrite -(Hns r Hr').
Qed.

(** ** Pods *)

(** A pod event that passes the predicate wakes a policy exactly when the
    policy's filter matches the pod's node and finds it vulnerable. *)
Theorem pod_events_wake pod n w l p :
  podNodeName pod ≠ "" → getNode (podNodeName pod) w = Ok n → listPolicies w = Ok l → p ∈ l →
  NoDup (polName <$> l) → policy_request p ∈ mapPodToPolicies (PodObject pod) w ↔ disrupts p n.
Proof.
  intros Hnn Hn Hl Hp Hnd. unfold mapPodToPolicies. cbn [as_pod]. rewrite (proj2 (str_eqb_false _ _) Hnn) Hn.
  rewrite (elem_of_policiesForNode _ _ _ l) //. split; [|intros H; by exists p].
  intros (p' & Hp' & Heq & H). injection Heq as Heq. assert (p = p') as ->; [|done].
  apply list_elem_of_lookup in Hp as [i Hi]. apply list_elem_of_lookup in Hp' as [j Hj].
  assert (i = j) as ->; [|congruence]. apply (NoDup_lookup (polName <$> l) i j (polName p)); [done|by rewrite list_lookup_fmap Hi|].
  by rewrite list_lookup_fmap Hj Heq.
Qed.

(** An update of a pod that the predicate drops changed nothing a reconcile
    would see: the pod is on the same node and at risk for the same Deployment
    as before, if its owners and namespace did not change and none of its
    labels was the empty string. *)
Theorem pod_update_dropped a b policy all w :
  UpdateFunc podPolicyPredicate (PodObject a) (PodObject b) = false → no_empty (mLabels (podMeta a)) →
  mNamespace (podMeta a) = mNamespace (podMeta b) → mOwnerReferences (podMeta a) = mOwnerReferences (podMeta b) →
  podNodeName a = podNodeName b ∧ at_risk policy all a w = at_risk policy all b w.
Proof.
  cbn. unfold podMembershipChanged. intros H Hl Hns Ho. destruct (str_eqb (podNodeName a) _) eqn:En; [|done].
  apply str_eqb_true in En. cbn [negb] in H. destruct (maps_differ _ _) eqn:El; [done|].
  apply maps_differ_false in El; [|done]. split; [done|]. unfold at_risk, OwnerDeployment, workloadProtected. rewrite El Hns Ho.
  unfold deletionTimestampSet in H.
  assert (bool_decide (mDeletionTimestamp (podMeta a) ≠ None) = bool_decide (mDeletionTimestamp (podMeta b) ≠ None)) as ->; [|done].
  apply bool_decide_ext. by destruct (mDeletionTimestamp (podMeta a)), (mDeletionTimestamp (podMeta b)).
Qed.
End enqueue.

(** ** Witnesses *)

Definition calm : Node := MkNode (meta "n1" "") false [].

Lemma calm_not_disrupting : ¬ (disrupts init_registry gate_policy calm ↔ disrupts init_registry gate_policy cordoned).
Proof. unfold disrupts. rewrite -!policy_concerns_spec. vm_compute. intros [_ H]. by specialize (H eq_refl). Qed.

Lemma node_update_wakes_witness :
  UpdateFunc nodeDisruptionPredicate (NodeObject calm) (NodeObject cordoned) = true
  ∧ ∃ reqs, handler_Update init_registry [] (NodeObject calm) (NodeObject cordoned) risky_cluster = [] ++ reqs
            ∧ NN "" "p" ∈ reqs ∧ NoDup reqs.
Proof.
  refine (node_update_wakes init_registry init_registry_local calm cordoned risky_cluster [gate_policy] gate_policy []
            eq_refl _ _ eq_refl _ calm_not_disrupting).
  - intros k v Hk. by rewrite lookup_empty in Hk.
  - intros k v Hk. by rewrite lookup_empty in Hk.
  - left.
Defined.

Lemma pod_events_wake_witness :
  NN "" "p" ∈ mapPodToPolicies init_registry (PodObject (risky_pod "web-a" "n1")) risky_cluster.
Proof.
  refine (proj2 (pod_events_wake init_registry (risky_pod "web-a" "n1") cordoned risky_cluster [gate_policy] gate_policy _ _ _ _ _) _).
  - discriminate.
  - vm_compute. reflexivity.
  - vm_compute. reflexivity.
  - left.
  - apply NoDup_singleton.
  - apply policy_concerns_spec. vm_compute. reflexivity.
Defined.

Definition ready_risky_pod : Pod :=
  MkPod (podMeta (risky_pod "web-a" "n1")) "n1" [MkPodCondition "Ready" "True"].

Lemma pod_update_dropped_witness :
  UpdateFunc podPolicyPredicate (PodObject (risky_pod "web-a" "n1")) (PodObject ready_risky_pod) = false
  ∧ at_risk gate_policy [Some gate_policy] (risky_pod "web-a" "n1") risky_cluster
    = at_risk gate_policy [Some gate_policy] ready_risky_pod risky_cluster.
Proof.
  assert (UpdateFunc podPolicyPredicate (PodObject (risky_pod "web-a" "n1")) (PodObject ready_risky_pod) = false) as H
    by (vm_compute; reflexivity).
  split; [exact H|].
  refine (proj2 (pod_update_dropped (risky_pod "web-a" "n1") ready_risky_pod gate_policy [Some gate_policy] risky_cluster H _ eq_refl eq_refl)).
  apply (bool_decide_unpack _). vm_compute. exact I.
Defined.

(** ** Where an update is lost

    An empty-valued label of the old object hides a new label from the
    comparison: the sizes agree, and the missing entry reads as "". *)

Definition spot_filter : NodeFilter :=
  MkNodeFilter (Some (MkSelector ∅ [Requirement "spot" "Exists" []])) None [] "" [] [] [] [].
Definition spot_policy : EvictionGuardPolicy :=
  MkPolicy (polMeta gate_policy)
    (MkPolicySpec spot_filter None None None None None ∅ None None no_stamp [] []) (polStatus gate_policy).
Definition relabelled (label : string) : Node := MkNode (labelled "n1" "" [(label, "")]) true [].

(** A node that enters a policy's filter by a change of an empty-valued label is
    not noticed: the event is dropped although the policy now finds the node
    disrupting. *)
Theorem node_update_missed :
  disrupts init_registry spot_policy (relabelled "spot")
  ∧ ¬ disrupts init_registry spot_policy (relabelled "worker")
  ∧ UpdateFunc nodeDisruptionPredicate (NodeObject (relabelled "worker")) (NodeObject (relabelled "spot")) = false.
Proof.
  unfold disrupts. rewrite -!policy_concerns_spec. vm_compute. by repeat split.
Qed.

(** The same of a pod: it becomes protected and at risk, unnoticed. *)
Definition pod_with (labels : list (string * string)) : Pod :=
  MkPod (owned (labelled "web-a" "shop" labels) (ref_to "ReplicaSet" "web-rs")) "n1" [].

Theorem pod_update_missed :
  at_risk gate_policy [Some gate_policy] (pod_with protected) risky_cluster = Ok (Some shop_dep)
  ∧ at_risk gate_policy [Some gate_policy] (pod_with [("x", "")]) risky_cluster = Ok None
  ∧ UpdateFunc podPolicyPredicate (PodObject (pod_with [("x", "")])) (PodObject (pod_with protected)) = false.
Proof. vm_compute. by repeat split. Qed.
