(* ===== verification/Lifecycle.v ===== *)
(** * The life of a window: a specification and its refinement

    What the window controller promises, as a transition system on what others
    see of a window (its phase, its cooldown, whether it was forced, whether its
    finalizer holds it): which write is allowed in which state, and when the
    capacity may move.  The theorem says that every reconcile of
    WindowController.v, whatever fails in it, follows it. *)
From S2P Require Import Evictgate.
From S2P Require Import Prelude GoStrings GoTime Meta Api Kube Filters Signals Fields WindowPhase ScaleActions.
From S2P Require Import Naming Spare Plan PlanSpec Frame Observe WindowController WindowSpec Fake.

#[local] Open Scope Z_scope.

(** ** The specification *)

Record life := Life {
  lfPhase : WindowPhase;
  lfUntil : option Time;
  lfForced : bool;
  lfHeld : bool
}.

(** What a reconcile knows of the world when it starts. *)
Record env := Env {
  evNow : Time;
  evAfter : Duration;      (* the cooldown of the workload *)
  evForce : bool;          (* the window outlived maxWindow *)
  evCalm : bool;           (* nothing at risk, enough safe Ready pods *)
  evLeaving : Prop;        (* deletion asked for, or policy or target gone *)
  evClear : Prop           (* no listed node is vulnerable any more *)
}.

Definition armed (s : life) : bool := match lfUntil s with Some u => negb (IsZero u) | None => false end.
Definition may (E : env) : Prop := evForce E || evCalm E = true.

(** Not a write to the API server, or a stamp. *)
Definition neutral (e : effect) : Prop :=
  ¬ writes_api e ∨ ∃ g k p ok, e = PatchObjectE g k p ok ∧ annotation_patch p.

Section lifecycle.
Context `{L : KubeLib}.

(** What a window shows. *)
Definition shows (win : EvictionGuardWindow) : life :=
  Life (wtPhase (winStatus win)) (wsWindowUntil (winSpec win)) (wtForcedCool (winStatus win)) (has_finalizer win).

(** The writes allowed in a state. *)
Inductive allowed (E : env) (s : life) : effect → Prop :=
| al_neutral e : neutral e → allowed E s e
| al_hold b x ok : lfHeld s = false → has_finalizer x = true → wsWindowUntil (winSpec x) = lfUntil s →
    allowed E s (PatchWindowE b x ok)
| al_force x ok : evForce E = true → lfForced s = false → wtForcedCool (winStatus x) = true →
    wtPhase (winStatus x) = lfPhase s → allowed E s (UpdateWindowStatusE x ok)
| al_disarm b x ok : ¬ may E → wsWindowUntil (winSpec x) = None → has_finalizer x = lfHeld s →
    allowed E s (PatchWindowE b x ok)
| al_open x ok : ¬ may E → lfUntil s = None → wtPhase (winStatus x) = WindowPhaseOpen →
    wtForcedCool (winStatus x) = lfForced s → allowed E s (UpdateWindowStatusE x ok)
| al_scale g k p ok : evLeaving E ∨ (may E ∧ armed s = false) → allowed E s (PatchObjectE g k p ok)
| al_arm b x ok : may E → armed s = false → wsWindowUntil (winSpec x) = Some (Add (evNow E) (evAfter E)) →
    has_finalizer x = lfHeld s → allowed E s (PatchWindowE b x ok)
| al_cool x ok : may E → is_Some (lfUntil s) → wtPhase (winStatus x) = WindowPhaseCooling →
    wtForcedCool (winStatus x) = lfForced s → allowed E s (UpdateWindowStatusE x ok)
| al_close x ok u : may E → lfUntil s = Some u → IsZero u = false → u <= evNow E →
    wtPhase (winStatus x) = WindowPhaseClosed → wtForcedCool (winStatus x) = lfForced s → allowed E s (UpdateWindowStatusE x ok)
| al_release b x ok : evLeaving E ∨ (lfPhase s = WindowPhaseClosed ∧ (lfForced s = false ∨ evClear E)) →
    has_finalizer x = false → wsWindowUntil (winSpec x) = lfUntil s → allowed E s (PatchWindowE b x ok)
| al_delete k ok : lfPhase s = WindowPhaseClosed → lfForced s = false ∨ evClear E → lfHeld s = false →
    allowed E s (DeleteWindowE k ok).

(** What a write that succeeds changes. *)
Definition play1 (s : life) (e : effect) : life :=
  match e with
  | PatchWindowE b x true =>
      Life (lfPhase s) (patched_until (wsWindowUntil (winSpec b)) (wsWindowUntil (winSpec x)) (lfUntil s)) (lfForced s) (has_finalizer x)
  | UpdateWindowStatusE x true => Life (wtPhase (winStatus x)) (lfUntil s) (wtForcedCool (winStatus x)) (lfHeld s)
  | _ => s
  end.

(** Every write of the trace is allowed in the state it is made in. *)
Fixpoint follows (E : env) (s : life) (es : list effect) : Prop :=
  match es with
  | [] => True
  | e :: es => allowed E s e ∧ follows E (play1 s e) es
  end.

Lemma follows_app E s es1 es2 : follows E s (es1 ++ es2) ↔ follows E s es1 ∧ follows E (foldl play1 s es1) es2.
Proof. revert s. induction es1 as [|e es1 IH]; intros s; simpl; [tauto|]. rewrite IH. tauto. Qed.

(** The cooldown that a reconcile arms, as it is stored: in whole seconds, and
    not at all if that is what is stored already. *)
Definition armed_until (E : env) (s : life) : option Time :=
  patched_until (lfUntil s) (Some (Add (evNow E) (evAfter E))) (lfUntil s).

Lemma armed_until_new E s :
  armed s = false → whole_second (Add (evNow E) (evAfter E)) ≠ zero_time →
  armed_until E s = Some (whole_second (Add (evNow E) (evAfter E))).
Proof.
  unfold armed, armed_until, patched_until. intros Ha Hz. case_decide as H; [|done]. destruct (lfUntil s) as [u|]; [|done].
  exfalso. apply negb_false_iff, Z.eqb_eq in Ha. subst u. cbn in H. by injection H.
Qed.

Lemma armed_until_some E s : is_Some (armed_until E s).
Proof. unfold armed_until, patched_until. case_decide as H; [|by eexists]. destruct (lfUntil s); [by eexists | done]. Qed.

(** The state a window is in after a reconcile that succeeds. *)
Definition next_life (E : env) (s : life) : life :=
  let forced := lfForced s || evForce E in
  if negb (evForce E || evCalm E) then Life WindowPhaseOpen None forced (lfHeld s)
  else match lfUntil s with
       | Some u =>
           if IsZero u then Life WindowPhaseCooling (armed_until E s) forced (lfHeld s)
           else if Before (evNow E) u then Life WindowPhaseCooling (Some u) forced (lfHeld s)
           else Life WindowPhaseClosed (Some u) forced (lfHeld s && forced)
       | None => Life WindowPhaseCooling (armed_until E s) forced (lfHeld s)
       end.

(** ** A logic of traces *)
Section tracks.
Context {W : Type} (E : env).

(** The run follows the specification from [s], and [Q] holds of what it
    returns, of the state it leaves and of the cluster. *)
Definition tracks {A} (s : life) (m : M W A) (w : W) (Q : A → life → W → Prop) : Prop :=
  ∀ r w' es, m w = (r, w', es) → follows E s es ∧ ∀ a, r = Ok a → Q a (foldl play1 s es) w'.

Lemma tracks_bind {A B} s (m : M W A) (f : A → M W B) w Q :
  tracks s m w (λ a s1 w1, tracks s1 (f a) w1 Q) → tracks s (m ≫= f) w Q.
Proof.
  intros Hm r w' es [(e & He & ->)|(a & w1 & es1 & es2 & H1 & H2 & ->)]%bind_inv.
  - destruct (Hm _ _ _ He) as [Hf _]. by split.
  - destruct (Hm _ _ _ H1) as [Hf Hq]. destruct (Hq a eq_refl _ _ _ H2) as [Hf2 Hq2].
    rewrite follows_app foldl_app. by split.
Qed.

(** A part that is followed whatever comes next. *)
Lemma tracks_seq {B} s (m : M W unit) (f : unit → M W B) w Q :
  (∀ Q' : unit → life → W → Prop, Q' () s w → tracks s m w Q') → tracks s (f ()) w Q → tracks s (m ≫= f) w Q.
Proof. intros Hm Hf. apply tracks_bind, Hm, Hf. Qed.

Lemma tracks_ret {A} s (a : A) w Q : Q a s w → tracks s (mret a) w Q.
Proof. intros H r w' es (-> & -> & ->)%ret_inv. split; [done|]. by intros ? [= <-]. Qed.

Lemma tracks_reads {A} s (f : W → result A) w Q : (∀ a, f w = Ok a → Q a s w) → tracks s (reads f) w Q.
Proof. intros H r w' es (-> & -> & ->)%reads_inv. by split. Qed.

Lemma tracks_mono {A} s (m : M W A) w (Q Q' : A → life → W → Prop) :
  (∀ a s1 w1, Q a s1 w1 → Q' a s1 w1) → tracks s m w Q → tracks s m w Q'.
Proof. intros H Hm r w' es Hr. destruct (Hm _ _ _ Hr) as [Hf Hq]. split; [done|]. intros a Ha. by apply H, Hq. Qed.

(** A program whose effects are allowed and change nothing of the window. *)
Lemma tracks_stable {A} s (m : M W A) w (R : W → W → Prop) Q :
  emits (λ e, allowed E s e ∧ play1 s e = s) m → keeps R m → (∀ a w', R w w' → Q a s w') → tracks s m w Q.
Proof.
  intros Hm Hk HQ r w' es H. specialize (Hm w). unfold effects in Hm. rewrite H in Hm. simpl in Hm.
  assert (follows E s es ∧ foldl play1 s es = s) as [Hf ->].
  { clear H. induction Hm as [|e es [Ha Hp] _ IH]; [done|]. simpl. rewrite Hp. destruct IH. by split. }
  split; [done|]. intros a _. apply HQ. by eapply keeps_run.
Qed.
End tracks.

(** ** The parts of the reconciler *)
Section parts.
Context {Obj W : Type} `{C : Client Obj W} {AL : AnswerLaws C} {WL : WindowLaws C} {SL : WindowStoreLaws C} {LL : KubeLibLaws L}.
Context (registry : Registry) (Recorder : bool) (E : env).

Abbreviation tracks := (tracks E).

(** The windows are as they were. *)
Definition same_windows (w w' : W) : Prop := ∀ k, getWindow k w' = getWindow k w.

#[local] Instance same_windows_preorder : PreOrder same_windows.
Proof. split; [by intros w k | intros w1 w2 w3 H1 H2 k; by rewrite H2]. Qed.

(** The window the code holds is the stored one, and shows [s]. *)
Definition current (win : EvictionGuardWindow) (s : life) (w : W) : Prop :=
  getWindow (win_key win) w = Ok win ∧ shows win = s.

(** Reports and stamps leave the window alone. *)
Lemma neutral_allowed s e : neutral e → allowed E s e ∧ play1 s e = s.
Proof.
  intros H. split; [by apply al_neutral|]. destruct H as [H|(g & k & p & ok & -> & _)]; [|done].
  destruct e; try done; by destruct H.
Qed.

Lemma tracks_neutral {A} s (m : M W A) w Q :
  emits neutral m → keeps same_windows m → (∀ a w', same_windows w w' → Q a s w') → tracks s m w Q.
Proof.
  intros Hm Hk HQ. eapply tracks_stable; [|exact Hk|exact HQ]. eapply emits_impl; [|exact Hm]. apply neutral_allowed.
Qed.

Lemma tracks_tell s e w (Q : unit → life → W → Prop) : neutral e → Q () s w → tracks s (tell e) w Q.
Proof.
  intros He HQ r w' es [= <- <- <-]. destruct (neutral_allowed s e He) as [Ha Hp]. simpl. rewrite Hp. by split; [|intros [] _].
Qed.

Lemma tracks_emitf s g ty reason note w (Q : unit → life → W → Prop) : Q () s w → tracks s (emitf Recorder g ty reason note) w Q.
Proof. intros H. unfold emitf. destruct Recorder; [|by apply tracks_ret]. apply tracks_tell; [|done]. left. by intros []. Qed.

Lemma tracks_now s w (Q : Time → life → W → Prop) : Q (clock w) s w → tracks s now w Q.
Proof. intros H r w' es [= <- <- <-]. split; [done|]. by intros a [= <-]. Qed.

Lemma tracks_clear_metrics s win w (Q : unit → life → W → Prop) : Q () s w → tracks s (clear_metrics win) w Q.
Proof.
  intros H. apply (tracks_stable E s _ w eq); [|intros w0; unfold final, clear_metrics; by rewrite clearWorkloadPlanMetrics_run|by intros [] w' <-].
  apply clear_metrics_emits. intros m l. apply neutral_allowed. left. by intros [].
Qed.

(** A write of the window, and what the code holds after it. *)
Lemma tracks_PatchWindow s b x w (Q : EvictionGuardWindow → life → W → Prop) :
  (∀ ok, allowed E s (PatchWindowE b x ok)) →
  (∀ y w', patchWindow b x w = (Ok y, w') → Q y (play1 s (PatchWindowE b x true)) w') → tracks s (PatchWindow b x) w Q.
Proof.
  intros Ha HQ r w' es. unfold PatchWindow, write. destruct (patchWindow b x w) as [r1 w1] eqn:Ep. intros [= <- <- <-].
  split; [by split|]. intros y ->. by apply HQ.
Qed.

Lemma tracks_UpdateWindowStatus s x w (Q : EvictionGuardWindow → life → W → Prop) :
  (∀ ok, allowed E s (UpdateWindowStatusE x ok)) →
  (∀ y w', updateWindowStatus x w = (Ok y, w') → Q y (play1 s (UpdateWindowStatusE x true)) w') →
  tracks s (UpdateWindowStatus x) w Q.
Proof.
  intros Ha HQ r w' es. unfold UpdateWindowStatus, write. destruct (updateWindowStatus x w) as [r1 w1] eqn:Ep. intros [= <- <- <-].
  split; [by split|]. intros y ->. by apply HQ.
Qed.

Lemma patched_shows win x w y w' s :
  current win s w → win_key x = win_key win → winStatus x = winStatus win → patchWindow win x w = (Ok y, w') →
  shows y = play1 s (PatchWindowE win x true).
Proof.
  intros [Hw <-] Hk Hst Hp. destruct (patch_answer _ _ _ _ _ Hw Hk Hst Hp) as (Hs & Hst' & Hf).
  unfold shows, has_finalizer, play1. by rewrite Hs Hst' Hf.
Qed.

Lemma updated_current x w y w' s :
  shows x = s → updateWindowStatus x w = (Ok y, w') → current y s w'.
Proof.
  intros <- Hu. pose proof (update_status_stored _ _ _ _ Hu) as Hg. apply status_answer in Hu as (Hm & Hs & Hf & Hp).
  split; [by rewrite /win_key Hm|]. unfold shows, has_finalizer. by rewrite Hm Hs Hf Hp.
Qed.

(** ** The steps *)

Lemma applySpareStatus_keeps win ready safe t win1 gauge flip :
  applySpareStatus win ready safe t = (win1, gauge, flip) →
  winMeta win1 = winMeta win ∧ winSpec win1 = winSpec win ∧ wtPhase (winStatus win1) = wtPhase (winStatus win)
  ∧ wtForcedCool (winStatus win1) = wtForcedCool (winStatus win) ∧ neutral gauge.
Proof. unfold applySpareStatus. intros [= <- <- _]. do 4 (split; [done|]). left. by intros []. Qed.

Definition set_life_phase (p : WindowPhase) (s : life) : life := Life p (lfUntil s) (lfForced s) (lfHeld s).

Lemma tracks_writeStatus s win dep phase msg w (Q : EvictionGuardWindow → life → W → Prop) :
  shows win = s →
  (∀ x ok, wtPhase (winStatus x) = phase → wtForcedCool (winStatus x) = lfForced s → allowed E s (UpdateWindowStatusE x ok)) →
  (∀ y w', winMeta y = winMeta win → winSpec y = winSpec win → Q y (set_life_phase phase s) w') →
  tracks s (writeStatus Recorder win dep phase msg) w Q.
Proof.
  intros Hs Ha HQ. unfold writeStatus. apply tracks_bind, tracks_reads. intros [ready safe] _.
  apply tracks_bind, tracks_now. cbv zeta. destruct (applySpareStatus win ready safe (clock w)) as [[win1 gauge] flip] eqn:Esp.
  apply applySpareStatus_keeps in Esp as (Hm & Hsp & Hp & Hf & Hg). apply tracks_bind, tracks_tell; [done|].
  apply tracks_seq.
  { intros Q' HQ'. destruct flip; [|by apply tracks_ret]. apply tracks_seq.
    - intros Q2 HQ2. destruct (_ && _); [by apply tracks_emitf | by apply tracks_ret].
    - destruct (negb _); [by apply tracks_emitf | by apply tracks_ret]. }
  destruct (bool_decide (wtPhase (winStatus win1) = phase) && _ && _ && _ && _) eqn:Ee.
  - apply tracks_ret. repeat (apply andb_true_iff in Ee as [Ee _]). apply bool_decide_eq_true in Ee.
    assert (s = set_life_phase phase s) as Hsame by (rewrite -Hs -Ee Hp; by destruct win).
    rewrite {1}Hsame. by apply HQ.
  - apply tracks_UpdateWindowStatus; [intros ok; apply Ha; [done | by rewrite -Hs /= Hf]|].
    intros y w' (Hm' & Hs' & _)%status_answer. cbn.
    replace (Life phase _ _ _) with (set_life_phase phase s) by (rewrite /set_life_phase -Hs /= Hf; done).
    apply HQ; [by rewrite Hm' | by rewrite Hs'].
Qed.

Lemma tracks_stampCooldown s policy dep win u w (Q : unit → life → W → Prop) :
  (∀ w', same_windows w w' → Q () s w') → tracks s (stampCooldown policy dep win u) w Q.
Proof.
  intros HQ. apply tracks_neutral; [| |by intros []].
  - apply stampCooldown_emits. intros g k p ok Hp. right. by exists g, k, p, ok.
  - apply stampCooldown_frame; [apply _ | intros g k p w0 k'; apply patch_object_windows].
Qed.

Lemma tracks_abortCooldown s win policy dep w (Q : EvictionGuardWindow → life → W → Prop) :
  current win s w → ¬ may E →
  (∀ y w', shows y = Life (lfPhase s) None (lfForced s) (lfHeld s) →
     Q y (Life (lfPhase s) None (lfForced s) (lfHeld s)) w') →
  tracks s (abortCooldown win policy dep) w Q.
Proof.
  intros Hc Hmay HQ. unfold abortCooldown. destruct (wsWindowUntil (winSpec win)) as [u|] eqn:Eu.
  - apply tracks_bind, tracks_PatchWindow; [intros ok; by apply al_disarm; [| |destruct Hc as [_ <-]]|].
    intros y w' Hp. apply tracks_bind, tracks_stampCooldown. intros w2 _. apply tracks_ret.
    assert (play1 s (PatchWindowE win (with_spec (set_until None) win) true) = Life (lfPhase s) None (lfForced s) (lfHeld s)) as Hpl.
    { destruct Hc as [_ <-]. cbn. by rewrite patched_until_none. }
    rewrite Hpl. apply HQ. by rewrite (patched_shows win (with_spec (set_until None) win) w y w' s Hc eq_refl eq_refl Hp).
  - apply tracks_ret. assert (s = Life (lfPhase s) None (lfForced s) (lfHeld s)) as Hs by (destruct Hc as [_ <-]; by rewrite /shows Eu).
    rewrite {1}Hs. apply HQ. rewrite -Hs. apply Hc.
Qed.

Lemma tracks_scaleBackIfAllowed s win w (Q : unit → life → W → Prop) :
  may E → armed s = false → (∀ w', same_windows w w' → Q () s w') → tracks s (scaleBackIfAllowed Recorder win) w Q.
Proof.
  intros Hm Ha HQ. unfold scaleBackIfAllowed. apply tracks_bind.
  apply (tracks_stable E s _ w same_windows);
    [apply emits_try, restoreActions_emits; intros; split; [apply al_scale; by right | done]|apply keeps_try, restoreActions_frame; [apply _ | intros g k p w0 k'; apply patch_object_windows]|].
  intros [u|e] w' Hw; apply tracks_bind, tracks_tell; try (left; by intros []).
  - apply tracks_bind, tracks_clear_metrics. by apply tracks_emitf, HQ.
  - intros r w2 es [= <- <- <-]. by split.
Qed.

Lemma tracks_drop_finalizer s win w (Q : unit → life → W → Prop) :
  has_finalizer win = lfHeld s → wsWindowUntil (winSpec win) = lfUntil s →
  evLeaving E ∨ (lfPhase s = WindowPhaseClosed ∧ (lfForced s = false ∨ evClear E)) →
  (∀ w', Q () (Life (lfPhase s) (lfUntil s) (lfForced s) false) w') → tracks s (drop_finalizer win) w Q.
Proof.
  intros Hh Hu Hok HQ. unfold drop_finalizer. destruct (has_finalizer win) eqn:Eh.
  - assert (has_finalizer (unfinalized win) = false) as Hf by (unfold has_finalizer; cbn; apply contains_remove).
    apply tracks_bind, tracks_PatchWindow; [intros ok; by apply al_release|]. intros y w' _. apply tracks_ret.
    cbn [play1]. rewrite Hf. cbn. rewrite patched_until_same. apply HQ.
  - apply tracks_ret. assert (s = Life (lfPhase s) (lfUntil s) (lfForced s) false) as -> by (rewrite Hh; by destruct s). apply HQ.
Qed.

Lemma tracks_deleteClosedWindow s win w :
  has_finalizer win = lfHeld s → wsWindowUntil (winSpec win) = lfUntil s →
  lfPhase s = WindowPhaseClosed → lfForced s = false ∨ evClear E →
  tracks s (deleteClosedWindow win) w (λ _ s1 _, s1 = Life WindowPhaseClosed (lfUntil s) (lfForced s) false).
Proof.
  intros Hh Hu Hp Hf. unfold deleteClosedWindow. apply tracks_bind, tracks_clear_metrics.
  apply tracks_bind, tracks_drop_finalizer; [done|done|by right|]. intros w1. apply tracks_bind.
  apply (tracks_stable E _ _ w1 (λ _ _, True)); [|by intros ?|by intros; apply tracks_ret; rewrite Hp].
  unfold ignore_nf. apply emits_bind; [apply emits_try, emits_write; intros ok; split; [by apply al_delete | done]|].
  intros [u|e]; emits_tac.
Qed.

(** The decision's guards, as the specification states them. *)
Lemma tracks_take_step s win policy dep risk safe force w :
  current win s w → evAfter E = scaleBackAfter policy dep → evForce E = force →
  (force = true → lfForced s = true) →
  (may_wind_down (PhaseInput risk force (wtForcedCool (winStatus win)) safe (wsBaseline (winSpec win)) (until_of win) (evNow E))
     ↔ may E) →
  tracks s (take_step Recorder win policy dep force (until_of win) (evNow E) (decision win risk safe force (evNow E))) w
    (λ _ s1 _, s1 = next_life E s).
Proof.
  intros Hc Haft Hforce Hff Hmay. unfold take_step, decision. set (i := PhaseInput _ _ _ _ _ _ _) in *.
  pose proof Hc as [_ Hs]. assert (wsWindowUntil (winSpec win) = lfUntil s) as Hu by by rewrite -Hs.
  assert (IsZero (inWindowUntil i) = negb (armed s)) as Hz.
  { cbn. unfold until_of, armed. rewrite Hu. destruct (lfUntil s); [by rewrite negb_involutive | done]. }
  assert (lfForced s || evForce E = lfForced s) as Hfo.
  { rewrite Hforce. destruct force; [by rewrite Hff | by rewrite orb_false_r]. }
  destruct (pdStep (decideWindowStep i)) eqn:Ed.
  1, 2: destruct (stay_open i) as (Hn & Hph & Hab); [by auto|]; rewrite Hmay in Hn; rewrite Hab Hph;
    apply tracks_bind, (tracks_abortCooldown s); [done..|]; intros y w1 Hy;
    apply tracks_bind, tracks_writeStatus; [done|intros x ok Hx Hf; by apply al_open|];
    intros; apply tracks_ret; unfold next_life; rewrite Hfo;
    by apply not_true_iff_false in Hn as ->.
  - apply begin_scale_back in Ed as [Hm Hzero]. rewrite Hmay in Hm. rewrite Hz in Hzero. apply negb_true_iff in Hzero.
    apply tracks_bind, tracks_scaleBackIfAllowed; [done..|]. intros w1 Hw1. cbv zeta.
    assert (current win s w1) as Hc1 by (split; [rewrite Hw1; apply Hc | done]).
    apply tracks_bind, tracks_PatchWindow.
    { intros ok. apply al_arm; [done..|by rewrite Haft|by rewrite -Hs]. }
    intros y w2 Hp. pose proof (λ Hk Hst, patched_shows win _ w1 y w2 s Hc1 Hk Hst Hp) as Hy. specialize (Hy eq_refl eq_refl).
    apply tracks_bind, tracks_stampCooldown. intros w3 _. apply tracks_bind.
    assert (play1 s (PatchWindowE win (with_spec (set_until (Some (Add (evNow E) (scaleBackAfter policy dep)))) win) true)
            = Life (lfPhase s) (armed_until E s) (lfForced s) (lfHeld s)) as Hpl.
    { unfold armed_until. rewrite Haft -Hs. done. }
    rewrite Hpl. rewrite Hpl in Hy.
    apply tracks_writeStatus; [exact Hy|intros x ok Hx Hf; apply al_cool; [done|apply armed_until_some|done|done]|].
    intros; apply tracks_ret. unfold may in Hm. unfold next_life. rewrite Hfo Hm. cbn [negb].
    unfold armed in Hzero. destruct (lfUntil s) as [u|]; [apply negb_false_iff in Hzero; rewrite Hzero|]; done.
  - apply stay_cooling in Ed as (Hm & Hzero & Hlt & Hph). cbn in Hlt. rewrite Hmay in Hm. rewrite Hz in Hzero. apply negb_false_iff in Hzero.
    rewrite Hph. apply tracks_bind, tracks_writeStatus; [done| |].
    + intros x ok Hx Hf. apply al_cool; [done| |done|done]. unfold armed in Hzero. by destruct (lfUntil s).
    + intros; apply tracks_ret. unfold may in Hm. unfold next_life, Before. rewrite Hfo Hm. cbn [negb].
      unfold armed in Hzero. unfold until_of in Hlt. rewrite Hu in Hlt. destruct (lfUntil s) as [u|] eqn:Eu; [|done].
      apply negb_true_iff in Hzero. by rewrite Hzero (proj2 (Z.ltb_lt _ _) Hlt) /set_life_phase Eu.
  - pose proof (close_phase _ Ed) as Hph. rewrite Hph. apply close_step in Ed as (Hm & Hzero & Hle & Hret').
    rewrite Hmay in Hm. rewrite Hret'. cbn in Hle, Hzero, Hret' |- *.
    assert (∃ u, lfUntil s = Some u ∧ IsZero u = false ∧ u <= evNow E) as (u & Hlu & Hu0 & Hule).
    { unfold until_of in Hle, Hzero. rewrite Hu in Hle Hzero. destruct (lfUntil s) as [u|]; [by exists u | done]. }
    assert (next_life E s = Life WindowPhaseClosed (lfUntil s) (lfForced s) (lfHeld s && lfForced s)) as ->.
    { unfold may in Hm. unfold next_life, Before. rewrite Hfo Hm Hlu Hu0. cbn [negb].
      by rewrite (proj2 (Z.ltb_ge _ _) Hule). }
    apply tracks_bind, tracks_writeStatus; [done|intros x ok Hx Hf; by eapply al_close|].
    intros y w1 Hym Hys. assert (lfForced s = wtForcedCool (winStatus win)) as Hfs by by rewrite -Hs.
    rewrite Hfs. destruct (wtForcedCool (winStatus win)) eqn:Ef.
    + apply tracks_ret. unfold set_life_phase. by rewrite Hfs andb_true_r.
    + eapply tracks_mono; [|apply tracks_deleteClosedWindow; [by rewrite /has_finalizer Hym -Hs | by rewrite Hys -Hs | done | by left]].
      intros _ s1 _ ->. cbn. by rewrite andb_false_r Hfs.
Qed.

Lemma tracks_stamp_forced s win policy w (Q : EvictionGuardWindow → life → W → Prop) :
  let s1 := Life (lfPhase s) (lfUntil s) true (lfHeld s) in
  current win s w → evForce E = true → (∀ y w1, current y s1 w1 → Q y s1 w1) →
  tracks s (stamp_forced Recorder win policy true) w Q.
Proof.
  intros s1 Hc Hf HQ. unfold stamp_forced. cbn [andb]. pose proof Hc as [_ Hs].
  destruct (wtForcedCool (winStatus win)) eqn:Ef; cbn [negb].
  { assert (s = s1) as Heq by (rewrite /s1 -Hs /shows Ef; done). apply tracks_ret. rewrite Heq. apply HQ. by rewrite -Heq. }
  cbv zeta. apply tracks_bind, tracks_emitf, tracks_bind, tracks_tell; [left; by intros []|].
  apply tracks_UpdateWindowStatus; [intros ok; apply al_force; [done|by rewrite -Hs|done|by rewrite -Hs]|].
  intros y w' Hu. cbn [play1]. replace (Life _ _ _ _) with s1 by (by rewrite /s1 -Hs).
  apply HQ. eapply updated_current; [|exact Hu]. by rewrite /s1 -Hs.
Qed.

Lemma tracks_scaleBackAndUnfinalize s win w :
  shows win = s → evLeaving E → tracks s (scaleBackAndUnfinalize win) w (λ _ _ _, True).
Proof.
  intros Hs Hl. unfold scaleBackAndUnfinalize. apply tracks_bind.
  apply (tracks_stable E s _ w (λ _ _, True)); [|by intros ?|].
  - unfold ignore_nf. apply emits_bind; [|intros [u|e]; emits_tac].
    apply emits_try, restoreActions_emits. intros. split; [apply al_scale; by left | done].
  - intros _ w1 _. apply tracks_bind, tracks_clear_metrics. apply tracks_bind, tracks_drop_finalizer; [by rewrite -Hs..|by left|].
    intros w2. by apply tracks_ret.
Qed.
End parts.

(** ** The whole reconcile *)
Section refinement.
Context {Obj W : Type} `{C : Client Obj W} {AL : AnswerLaws C} {WL : WindowLaws C} {SL : WindowStoreLaws C} {LL : KubeLibLaws L}.
Context (registry : Registry) (Recorder : bool).

(** The target of a window, [None] when it is of another kind or gone. *)
Definition target_of (win : EvictionGuardWindow) (w : W) : option Deployment :=
  let t := wsTarget (winSpec win) in
  if str_eqb (wrKind t) "" || str_eqb (wrKind t) "Deployment"
  then match getDeployment (NN (wrNamespace t) (wrName t)) w with Ok d => Some d | Err _ => None end
  else None.

(** Nothing is at risk and the safe Ready pods cover the baseline. *)
Definition calm (win : EvictionGuardWindow) (policy : EvictionGuardPolicy) (dep : option Deployment) (w : W) : bool :=
  match liveAtRiskPods registry (Some win) (Some policy) dep w, spareCounts win dep w with
  | Ok risk, Ok spare => (risk.1 =? 0) && (wsBaseline (winSpec win) <=? spare.2)
  | _, _ => false
  end.

Definition env_with (win : EvictionGuardWindow) (policy : EvictionGuardPolicy) (dep : option Deployment) (w : W) : env :=
  Env (clock w) (scaleBackAfter policy dep) (maxWindowExceeded (Some policy) (Some win) (clock w))
    (calm win policy dep w) (leaving win w) (stillVulnerable registry win policy w = Ok []).

(** The facts of a reconcile of [win] that starts in [w]. *)
Definition env_of (win : EvictionGuardWindow) (w : W) : env :=
  match getPolicy (wsPolicyName (winSpec win)) w with
  | Ok policy => env_with win policy (target_of win w) w
  | Err _ => Env (clock w) 0 false false (leaving win w) False
  end.

Lemma target_is_of win w dep : target_is win w dep → dep = target_of win w.
Proof. unfold target_is, target_of. case_match; [by intros (d & -> & ->) | done]. Qed.

Lemma unforced_may win policy dep w risk nodes safe :
  liveAtRiskPods registry (Some win) (Some policy) dep w = Ok (risk, nodes) →
  maxWindowExceeded (Some policy) (Some win) (clock w) = false →
  (if risk =? 0 then ∃ ready, spareCounts win dep w = Ok (ready, safe) else safe = wsBaseline (winSpec win)) →
  may_wind_down (PhaseInput risk false (wtForcedCool (winStatus win)) safe (wsBaseline (winSpec win)) (until_of win) (clock w))
  ↔ may (env_with win policy dep w).
Proof.
  intros Hr Hm Hs. unfold may, may_wind_down, env_with, calm.
  cbn [evForce evCalm inForceCool inLiveAtRisk inBaseline inSafeReady]. rewrite Hm Hr. cbn [orb fst].
  pose proof (liveAtRiskPods_nonneg _ _ _ _ _ _ _ Hr) as H0. destruct (risk =? 0) eqn:E; zify_bool.
  - subst. destruct Hs as [ready ->]. cbn [andb snd]. rewrite Z.leb_le. split; [by intros [?|[_ ?]] | by right].
  - split; [intros [?|[? _]]; [done | lia]|]. by destruct (spareCounts _ _ _).
Qed.

(** Closed after maxWindow, and waiting for its nodes. *)
Definition tombstone (win : EvictionGuardWindow) : bool :=
  bool_decide (wtPhase (winStatus win) = WindowPhaseClosed) && wtForcedCool (winStatus win).

Lemma reconcile_live_tracks win policy dep w :
  let E := env_with win policy dep w in
  current win (shows win) w → tombstone win = false →
  tracks E (shows win) (reconcile_live registry Recorder win policy dep) w (λ _ s1 _, s1 = next_life E (shows win)).
Proof.
  intros E Hc Ht. unfold reconcile_live. fold (tombstone win). rewrite Ht.
  apply tracks_bind, tracks_reads. intros [risk nodes] Hr. apply tracks_bind, tracks_now. cbv zeta. cbn [fst].
  destruct (maxWindowExceeded (Some policy) (Some win) (clock w)) eqn:Em.
  - apply tracks_bind, tracks_stamp_forced; [done|done|]. intros win1 w1 Hc1. cbn [negb andb]. apply tracks_bind, tracks_ret.
    fold (until_of win1). set (s1 := Life _ _ _ _) in *.
    assert (next_life E (shows win) = next_life E s1) as ->.
    { unfold next_life, E, env_with. cbn [evForce]. by rewrite Em /= !orb_true_r. }
    apply (tracks_take_step Recorder E s1 win1 policy dep risk (wsBaseline (winSpec win1)) true w1 Hc1 eq_refl Em); [done|].
    unfold may, may_wind_down, E, env_with. cbn [evForce inForceCool]. rewrite Em. split; [done | by left].
  - apply tracks_bind. change (stamp_forced Recorder win policy false) with (mret win : M W EvictionGuardWindow).
    apply tracks_ret, tracks_bind. cbn [negb andb].
    assert (∀ safe, (if risk =? 0 then ∃ ready, spareCounts win dep w = Ok (ready, safe) else safe = wsBaseline (winSpec win)) →
      tracks E (shows win) (take_step Recorder win policy dep false (until_of win) (clock w) (decision win risk safe false (clock w))) w
        (λ _ s1 _, s1 = next_life E (shows win))) as Hstep.
    { intros safe Hs. apply (tracks_take_step Recorder E (shows win) win policy dep risk safe false w Hc eq_refl Em); [done|].
      by eapply unforced_may. }
    destruct (risk =? 0) eqn:E0.
    + apply tracks_bind, tracks_reads. intros [ready safe] Hs. apply tracks_ret. apply Hstep. by exists ready.
    + apply tracks_ret. by apply Hstep.
Qed.

Lemma reconcile_live_follows win policy dep w r w' es :
  current win (shows win) w → reconcile_live registry Recorder win policy dep w = (r, w', es) →
  follows (env_with win policy dep w) (shows win) es.
Proof.
  intros Hc H. set (E := env_with win policy dep w). destruct (tombstone win) eqn:Et.
  - assert (tracks E (shows win) (reconcile_live registry Recorder win policy dep) w (λ _ _ _, True)) as Htr;
      [|exact (proj1 (Htr _ _ _ H))].
    unfold reconcile_live. fold (tombstone win). rewrite Et. apply andb_true_iff in Et as [Hp%bool_decide_eq_true _].
    apply tracks_bind, tracks_reads. intros [|n still] Hs; [|by apply tracks_ret].
    eapply tracks_mono; [|apply tracks_deleteClosedWindow; [done|done|done|by right]]. done.
  - exact (proj1 (reconcile_live_tracks win policy dep w Hc Et _ _ _ H)).
Qed.

Lemma window_Reconcile_follows req w win :
  getWindow req w = Ok win → follows (env_of win w) (shows win) (effects (window_Reconcile registry Recorder req) w).
Proof.
  intros Hw. unfold effects. destruct (window_Reconcile registry Recorder req w) as [[r w'] es] eqn:H. cbn [snd].
  pose proof (window_key _ _ _ Hw) as Hk.
  assert (current win (shows win) w) as Hc by (split; [by rewrite /win_key Hk|done]).
  destruct (window_Reconcile_cases registry Recorder req w) as [_ Hrun|win' Hw' Hl Hrun|win' r' ok Hw' _ Hf Hrun|win' policy dep Hw' _ _ Hp Ht Hrun];
    rewrite H in Hrun; try (rewrite Hw in Hw'; injection Hw' as <-).
  - simpl in Hrun. by subst.
  - refine (proj1 (tracks_scaleBackAndUnfinalize (env_of win w) (shows win) win w eq_refl _ _ _ _ Hrun)).
    unfold env_of. by destruct (getPolicy _ w).
  - injection Hrun as _ _ ->. split; [|done]. apply al_hold; [done| |done]. unfold has_finalizer. cbn. apply contains_add.
  - unfold env_of. rewrite Hp -(target_is_of _ _ _ Ht). by eapply reconcile_live_follows.
Qed.

(** C9: the window controller refines its specification: every write a reconcile
    attempts, whether it succeeds or not and whatever failed before it, is
    allowed by the life cycle in the state the window is in at that moment:
    capacity moves only while no cooldown is armed, the phase says Cooling only
    once it is, Closed only when it ran out, Open only when it was cancelled,
    and the finalizer goes only from a Closed window or one that is leaving. *)
Theorem window_refines_lifecycle req w win r w' es :
  getWindow req w = Ok win → window_Reconcile registry Recorder req w = (r, w', es) →
  follows (env_of win w) (shows win) es.
Proof. intros Hw H. pose proof (window_Reconcile_follows req w win Hw) as Hf. unfold effects in Hf. by rewrite H in Hf. Qed.

(** ** What a reconcile that succeeds achieves *)

(** The window, its policy and its target are there, and it is no tombstone. *)
Record live_at (req : NamespacedName) (w : W) (win : EvictionGuardWindow) (policy : EvictionGuardPolicy) (dep : option Deployment) : Prop := {
  la_window : getWindow req w = Ok win;
  la_alive : tsIsZero (mDeletionTimestamp (winMeta win)) = true;
  la_held : has_finalizer win = true;
  la_policy : getPolicy (wsPolicyName (winSpec win)) w = Ok policy;
  la_target : target_is win w dep;
  la_open : tombstone win = false
}.

Lemma live_outcome req w win policy dep c w' es :
  live_at req w win policy dep → window_Reconcile registry Recorder req w = (Ok c, w', es) →
  foldl play1 (shows win) es = next_life (env_with win policy dep w) (shows win).
Proof.
  intros [Hw Hd Hf Hp Ht Hto]. rewrite (window_Reconcile_live _ _ _ _ win policy dep) //. intros H.
  assert (current win (shows win) w) as Hc by (split; [by rewrite /win_key (window_key _ _ _ Hw)|done]).
  exact (proj2 (reconcile_live_tracks win policy dep w Hc Hto _ _ _ H) c eq_refl).
Qed.

(** C22: a reconcile of a live window that reports no error leaves the window exactly
    as the specification says: Open without a cooldown while something is at
    risk or the spare pods are not Ready (unless it is forced), else Cooling
    with the cooldown armed, else Cooling, else Closed and, if it was not
    forced, without its finalizer; forced if it outlived maxWindow. *)
Theorem live_reconcile_outcome req w win policy dep c w' es :
  live_at req w win policy dep → window_Reconcile registry Recorder req w = (Ok c, w', es) →
  let E := env_with win policy dep w in
  let s := foldl play1 (shows win) es in
  lfForced s = lfForced (shows win) || evForce E
  ∧ (evForce E || evCalm E = false → lfPhase s = WindowPhaseOpen ∧ lfUntil s = None ∧ lfHeld s = true)
  ∧ (evForce E || evCalm E = true → armed (shows win) = false →
       lfPhase s = WindowPhaseCooling ∧ lfUntil s = armed_until E (shows win) ∧ lfHeld s = true
       ∧ (whole_second (Add (clock w) (scaleBackAfter policy dep)) ≠ zero_time →
            lfUntil s = Some (whole_second (Add (clock w) (scaleBackAfter policy dep)))))
  ∧ (∀ u, evForce E || evCalm E = true → lfUntil (shows win) = Some u → IsZero u = false → clock w < u →
       lfPhase s = WindowPhaseCooling ∧ lfUntil s = Some u ∧ lfHeld s = true)
  ∧ (∀ u, evForce E || evCalm E = true → lfUntil (shows win) = Some u → IsZero u = false → u <= clock w →
       lfPhase s = WindowPhaseClosed ∧ lfUntil s = Some u ∧ lfHeld s = lfForced s).
Proof.
  intros Hla H. pose proof (live_outcome _ _ _ _ _ _ _ _ Hla H) as Hn. destruct Hla as [_ _ Hh _ _ _].
  cbv zeta. rewrite Hn. clear Hn H. set (E := env_with win policy dep w). pose proof (armed_until_new E (shows win)) as Hnew.
  unfold next_life, armed, Before in *. cbn [lfUntil lfHeld shows lfForced] in *. rewrite Hh.
  destruct (evForce E || evCalm E); cbn [negb].
  - change (evNow E) with (clock w) in *. change (evAfter E) with (scaleBackAfter policy dep) in *.
    destruct (wsWindowUntil (winSpec win)) as [u|]; [destruct (IsZero u) eqn:Ez; [|destruct (clock w <? u) eqn:El]|];
      zify_bool; repeat split; intros; simplify_eq; (done || (by apply Hnew) || congruence || lia).
  - by repeat split.
Qed.

(** C14: a window that outlived maxWindow ends, whatever its pods do: two reconciles
    that report no error, the second one not before the cooldown that the first
    one armed (as stored, in whole seconds) is over, close it; it stays as a
    force-cooled tombstone. *)
Theorem forced_window_closes req w1 win1 policy1 dep1 c1 w1' es1 w2 win2 policy2 dep2 c2 w2' es2 :
  live_at req w1 win1 policy1 dep1 → maxWindowExceeded (Some policy1) (Some win1) (clock w1) = true →
  window_Reconcile registry Recorder req w1 = (Ok c1, w1', es1) →
  armed (shows win1) = false → whole_second (Add (clock w1) (scaleBackAfter policy1 dep1)) ≠ zero_time →
  live_at req w2 win2 policy2 dep2 → maxWindowExceeded (Some policy2) (Some win2) (clock w2) = true →
  window_Reconcile registry Recorder req w2 = (Ok c2, w2', es2) →
  shows win2 = foldl play1 (shows win1) es1 → whole_second (Add (clock w1) (scaleBackAfter policy1 dep1)) <= clock w2 →
  foldl play1 (shows win2) es2
  = Life WindowPhaseClosed (Some (whole_second (Add (clock w1) (scaleBackAfter policy1 dep1)))) true true.
Proof.
  intros L1 F1 H1 Ha Hz L2 F2 H2 Hs Ht. rewrite (live_outcome _ _ _ _ _ _ _ _ L2 H2) Hs (live_outcome _ _ _ _ _ _ _ _ L1 H1).
  set (E1 := env_with win1 policy1 dep1 w1). set (u1 := whole_second (Add (clock w1) (scaleBackAfter policy1 dep1))) in *.
  assert (lfHeld (shows win1) = true) as Hh by apply L1.
  assert (next_life E1 (shows win1) = Life WindowPhaseCooling (Some u1) true true) as ->.
  { pose proof (armed_until_new E1 (shows win1) Ha Hz) as Hnew. unfold armed in Ha. unfold next_life. change (evForce E1) with
      (maxWindowExceeded (Some policy1) (Some win1) (clock w1)). rewrite F1 orb_true_r Hnew Hh. cbn [negb orb].
    by destruct (lfUntil (shows win1)) as [u|]; [apply negb_false_iff in Ha; rewrite Ha|]. }
  unfold next_life, env_with, Before. cbn [evForce evNow evAfter lfUntil lfHeld lfForced]. rewrite F2. cbn [negb orb].
  assert (IsZero u1 = false) as -> by by apply Z.eqb_neq. by rewrite (proj2 (Z.ltb_ge _ _) Ht).
Qed.
End refinement.
End lifecycle.

(** ** Witnesses *)

Abbreviation life_run := (window_Reconcile init_registry true life_key).

Lemma window_refines_lifecycle_witness :
  follows (env_of init_registry life_window at_rest) (shows life_window) (effects life_run at_rest).
Proof.
  refine (window_refines_lifecycle init_registry true life_key at_rest life_window _ _ _ _ (run_of _ _ _ eq_refl)).
  vm_compute. reflexivity.
Defined.

Lemma target_is_deployment win (c : Cluster) d :
  str_eqb (wrKind (wsTarget (winSpec win))) "Deployment" = true →
  getDeployment (NN (wrNamespace (wsTarget (winSpec win))) (wrName (wsTarget (winSpec win)))) c = Ok d →
  target_is win c (Some d).
Proof. intros Hk Hd. unfold target_is. rewrite Hk orb_true_r. by exists d. Qed.

Lemma at_rest_live : live_at life_key at_rest life_window gate_policy (Some shop_dep).
Proof.
  split; [vm_compute; reflexivity | reflexivity | vm_compute; reflexivity | vm_compute; reflexivity | | vm_compute; reflexivity].
  apply target_is_deployment; vm_compute; reflexivity.
Qed.

Lemma live_reconcile_outcome_witness :
  lfPhase (foldl play1 (shows life_window) (effects life_run at_rest)) = WindowPhaseCooling.
Proof.
  refine (proj1 (proj1 (proj2 (proj2 (live_reconcile_outcome init_registry true life_key at_rest life_window gate_policy (Some shop_dep)
            _ _ _ at_rest_live (run_of _ _ (Ok _) _)))) _ _)).
  - vm_compute. reflexivity.
  - vm_compute. reflexivity.
  - vm_compute. reflexivity.
Defined.

(** Pods stay on the cordoned node for ever. *)
Definition stuck : Cluster := overdue.
Definition stuck_later : Cluster := set_now (48 * Hour) (final life_run stuck).
Definition stuck_window : EvictionGuardWindow := default life_window (clWindows stuck_later !! life_key).

Lemma stuck_live : live_at life_key stuck life_window gate_policy (Some shop_dep).
Proof.
  split; [vm_compute; reflexivity | reflexivity | vm_compute; reflexivity | vm_compute; reflexivity | | vm_compute; reflexivity].
  apply target_is_deployment; vm_compute; reflexivity.
Qed.

Lemma stuck_later_live : live_at life_key stuck_later stuck_window gate_policy (Some shop_dep).
Proof.
  split; [vm_compute; reflexivity | vm_compute; reflexivity | vm_compute; reflexivity | vm_compute; reflexivity | | vm_compute; reflexivity].
  apply target_is_deployment; vm_compute; reflexivity.
Qed.

(** The outcome of a run, when it is one. *)
Definition ok_value {A} (d : A) (r : result A) : A := match r with Ok a => a | Err _ => d end.

Definition stuck_closed : life :=
  Life WindowPhaseClosed (Some (whole_second (Add (clock stuck) (scaleBackAfter gate_policy (Some shop_dep))))) true true.
Definition stuck_result := ok_value (ctrl_done) (life_run stuck).1.1.
Definition stuck_later_result := ok_value (ctrl_done) (life_run stuck_later).1.1.

Lemma stuck_ok : (life_run stuck).1.1 = Ok stuck_result.
Proof. vm_compute. reflexivity. Qed.

Lemma stuck_later_ok : (life_run stuck_later).1.1 = Ok stuck_later_result.
Proof. vm_compute. reflexivity. Qed.

Lemma stuck_shows : shows stuck_window = foldl play1 (shows life_window) (effects life_run stuck).
Proof. vm_compute. reflexivity. Qed.

Lemma stuck_exceeded : maxWindowExceeded (Some gate_policy) (Some life_window) (clock stuck) = true.
Proof. vm_compute. reflexivity. Qed.

Lemma stuck_later_exceeded : maxWindowExceeded (Some gate_policy) (Some stuck_window) (clock stuck_later) = true.
Proof. vm_compute. reflexivity. Qed.

Lemma stuck_unarmed : armed (shows life_window) = false.
Proof. reflexivity. Qed.

Lemma stuck_wait :
  whole_second (Add (clock stuck) (scaleBackAfter gate_policy (Some shop_dep))) ≠ zero_time
  ∧ whole_second (Add (clock stuck) (scaleBackAfter gate_policy (Some shop_dep))) <= clock stuck_later.
Proof. vm_compute. split; discriminate. Qed.

Lemma forced_window_closes_witness :
  foldl play1 (shows stuck_window) (effects life_run stuck_later) = stuck_closed.
Proof.
  exact (forced_window_closes init_registry true life_key stuck life_window gate_policy (Some shop_dep) stuck_result
           (final life_run stuck) (effects life_run stuck) stuck_later stuck_window gate_policy (Some shop_dep) stuck_later_result
           (final life_run stuck_later) (effects life_run stuck_later) stuck_live stuck_exceeded (run_of life_run stuck _ stuck_ok) stuck_unarmed
           (proj1 stuck_wait) stuck_later_live stuck_later_exceeded (run_of life_run stuck_later _ stuck_later_ok) stuck_shows (proj2 stuck_wait)).
Defined.
