(* ===== verification/Metrics.v ===== *)
(** * pkg/metrics: the instruments, and that no update of one panics

    The instruments of metrics.go with their label names.  [WithLabelValues]
    panics when it is given another number of values than the instrument has
    labels, and [MustRegister] when two instruments share a name: the theorem
    follows every update the handlers make and shows that neither happens. *)
From S2P Require Import Evictgate.
From S2P Require Import Prelude GoStrings GoTime Meta Api Kube Filters Signals Fields WindowPhase ScaleActions Spare Plan PlanSpec Observe.
From S2P Require Import WindowController WindowSpec PolicyController PolicySpec Webhook Fake.

#[local] Open Scope Z_scope.

(** ** metrics.go *)

Inductive instrument := NewGaugeVec (name : string) (labels : list string) | NewCounterVec (name : string) (labels : list string).

Definition instrument_name (i : instrument) : string := match i with NewGaugeVec n _ | NewCounterVec n _ => n end.

Definition instrument_of (m : metric) : instrument :=
  match m with
  | VulnerableNodes => NewGaugeVec "evg_vulnerable_nodes" ["policy"]
  | MatchedNodes => NewGaugeVec "evg_matched_nodes" ["policy"]
  | AtRiskPods => NewGaugeVec "evg_at_risk_pods" ["policy"; "namespace"; "workload"]
  | DesiredReplicas => NewGaugeVec "evg_desired_replicas" ["policy"; "namespace"; "workload"]
  | CurrentSpare => NewGaugeVec "evg_current_spare" ["policy"; "namespace"; "workload"]
  | ScaleActionsTotal => NewCounterVec "evg_scale_actions_total" ["policy"; "direction"; "backend"; "result"]
  | SpareNotReady => NewGaugeVec "evg_spare_not_ready" ["policy"; "namespace"; "workload"]
  | CapacityApplyError => NewGaugeVec "evg_capacity_apply_error" ["policy"; "namespace"; "workload"]
  | DeferredWorkloads => NewGaugeVec "evg_deferred_workloads" ["policy"]
  | MaxWindowExceeded => NewCounterVec "evg_max_window_exceeded_total" ["policy"; "namespace"; "workload"]
  | EvictionDecisions => NewCounterVec "evg_eviction_decisions_total" ["decision"]
  end.

#[global] Instance metric_eq_dec : EqDecision metric.
Proof. solve_decision. Defined.

(** The arguments of [MustRegister], in order. *)
Definition registered : list metric :=
  [VulnerableNodes; MatchedNodes; AtRiskPods; DesiredReplicas; CurrentSpare; ScaleActionsTotal; SpareNotReady;
   CapacityApplyError; DeferredWorkloads; MaxWindowExceeded; EvictionDecisions].

(** An update that [WithLabelValues] accepts, of an instrument of its kind; a
    deletion that can match a series. *)
Definition fits (e : effect) : Prop :=
  match e with
  | GaugeSet m lvs _ => match instrument_of m with NewGaugeVec _ ls => length lvs = length ls | _ => False end
  | CounterInc m lvs => match instrument_of m with NewCounterVec _ ls => length lvs = length ls | _ => False end
  | SeriesDelete m lvs => match instrument_of m with NewGaugeVec _ ls => length lvs = length ls | _ => False end
  | _ => True
  end.

Section metrics.
Context {Obj W : Type} `{L : KubeLib} `{C : Client Obj W} (registry : Registry) (Recorder : bool).
Context {AL : AnswerLaws C} {WL : WindowLaws C} {LL : KubeLibLaws L}.

(** ** Shared parts *)

Lemma fits_emitf g ty reason note : emits fits (emitf Recorder g ty reason note : M W unit).
Proof. by apply emits_emitf. Qed.

Lemma fits_clear_metrics win : emits fits (clear_metrics win : M W unit).
Proof.
  unfold clear_metrics, clearWorkloadPlanMetrics. apply emits_for_each. intros m Hm. apply emits_tell. simpl.
  unfold plan_series in Hm. repeat (apply elem_of_cons in Hm as [->|Hm]; [done|]). by apply elem_of_nil in Hm.
Qed.

Lemma fits_restoreActions win : emits fits (restoreActions win : M W unit).
Proof. by apply restoreActions_emits. Qed.

Lemma fits_plan_metrics p ns n a d b : emits fits (setWorkloadPlanMetrics p ns n a d b : M W unit).
Proof. unfold setWorkloadPlanMetrics. by emits_tac. Qed.

Lemma capacity_gauge_fits win err t win' g flip : applyCapacityApplied win err t = (win', g, flip) → fits g.
Proof. unfold applyCapacityApplied. intros [= _ <- _]. by destruct err. Qed.

Lemma spare_gauge_fits win ready safe t win' g flip : applySpareStatus win ready safe t = (win', g, flip) → fits g.
Proof. unfold applySpareStatus. by intros [= _ <- _]. Qed.

(** ** The window reconciler *)

Lemma fits_writeStatus win dep phase msg : emits fits (writeStatus Recorder win dep phase msg : M W _).
Proof.
  unfold writeStatus. apply emits_bind; [apply emits_reads|]. intros [ready safe].
  apply emits_bind; [apply emits_now|]. intros t. cbv zeta.
  destruct (applySpareStatus win ready safe t) as [[win1 gauge] flip] eqn:E.
  apply emits_bind; [by apply emits_tell, (spare_gauge_fits _ _ _ _ _ _ _ E)|]. intros _. apply emits_bind.
  - destruct flip; [|apply emits_ret]. apply emits_bind; [case_match; [by apply fits_emitf | apply emits_ret]|].
    intros _. case_match; [by apply fits_emitf | apply emits_ret].
  - intros _. case_match; [apply emits_ret | by apply emits_write].
Qed.

Lemma fits_stamp_forced win policy b : emits fits (stamp_forced Recorder win policy b : M W _).
Proof.
  unfold stamp_forced. case_match; [|apply emits_ret]. cbv zeta. apply emits_bind; [apply fits_emitf|]. intros _.
  apply emits_bind; [by apply emits_tell|]. intros _. by apply emits_write.
Qed.

Lemma fits_scaleBackIfAllowed win : emits fits (scaleBackIfAllowed Recorder win : M W unit).
Proof.
  unfold scaleBackIfAllowed. apply emits_bind; [apply emits_try, fits_restoreActions|].
  intros [u|e]; (apply emits_bind; [by apply emits_tell|]; intros _); [|apply emits_throw].
  apply emits_bind; [apply fits_clear_metrics | intros _; apply fits_emitf].
Qed.

Lemma fits_drop_finalizer win : emits fits (drop_finalizer win : M W unit).
Proof. unfold drop_finalizer. by emits_tac. Qed.

Lemma fits_ignore_nf (m : M W unit) : emits fits m → emits fits (ignore_nf m).
Proof. intros H. unfold ignore_nf. apply emits_bind; [by apply emits_try | intros []; emits_tac]. Qed.

Lemma fits_deleteClosedWindow win : emits fits (deleteClosedWindow win : M W _).
Proof.
  unfold deleteClosedWindow. apply emits_bind; [apply fits_clear_metrics|]. intros _.
  apply emits_bind; [apply fits_drop_finalizer|]. intros _.
  apply emits_bind; [apply fits_ignore_nf; by apply emits_write | intros _; apply emits_ret].
Qed.

Lemma fits_leave win : emits fits (scaleBackAndUnfinalize win : M W _).
Proof.
  unfold scaleBackAndUnfinalize. apply emits_bind; [apply fits_ignore_nf, fits_restoreActions|]. intros _.
  apply emits_bind; [apply fits_clear_metrics|]. intros _.
  apply emits_bind; [apply fits_drop_finalizer | intros _; apply emits_ret].
Qed.

Lemma fits_stampCooldown policy dep win until : emits fits (stampCooldown policy dep win until : M W unit).
Proof. by apply stampCooldown_emits. Qed.

Lemma fits_take_step win policy dep force until t dec : emits fits (take_step Recorder win policy dep force until t dec : M W _).
Proof.
  unfold take_step. destruct (pdStep dec).
  1, 2: (apply emits_bind; [case_match; [by apply abortCooldown_emits | apply emits_ret]|]; intros x;
         apply emits_bind; [apply fits_writeStatus | intros ?; apply emits_ret]).
  - apply emits_bind; [apply fits_scaleBackIfAllowed|]. intros _. cbv zeta.
    apply emits_bind; [by apply emits_write|]. intros x.
    apply emits_bind; [apply fits_stampCooldown|]. intros _.
    apply emits_bind; [apply fits_writeStatus | intros ?; apply emits_ret].
  - apply emits_bind; [apply fits_writeStatus | intros ?; apply emits_ret].
  - apply emits_bind; [apply fits_writeStatus|]. intros x. case_match; [apply emits_ret | apply fits_deleteClosedWindow].
Qed.

Lemma fits_reconcile_live win policy dep : emits fits (reconcile_live registry Recorder win policy dep : M W _).
Proof.
  unfold reconcile_live. case_match.
  - apply emits_bind; [apply emits_reads|]. intros [|? ?]; [apply fits_deleteClosedWindow | apply emits_ret].
  - apply emits_bind; [apply emits_reads|]. intros risk. apply emits_bind; [apply emits_now|]. intros t. cbv zeta.
    apply emits_bind; [apply fits_stamp_forced|]. intros x.
    apply emits_bind; [case_match; [by emits_tac | apply emits_ret]|]. intros safe. apply fits_take_step.
Qed.

Lemma fits_window req : emits fits (window_Reconcile registry Recorder req).
Proof.
  unfold window_Reconcile. apply emits_bind; [apply emits_try, emits_reads|]. intros [win|e]; [|by emits_tac].
  case_match; [apply fits_leave|]. case_match; [by emits_tac|].
  apply emits_bind; [apply emits_try, emits_reads|]. intros [policy|e]; [|case_match; [apply fits_leave | apply emits_throw]].
  apply emits_bind; [unfold fetch_target; by emits_tac|]. intros [dep|]; [apply fits_reconcile_live | apply fits_leave].
Qed.

(** ** The policy reconciler *)

Lemma fits_report_apply win msg err : emits fits (report_apply win msg err : M W unit).
Proof.
  unfold report_apply. apply emits_bind; [apply emits_now|]. intros t. cbv zeta.
  destruct (applyCapacityApplied _ err t) as [[win' gauge] flip] eqn:Ha.
  apply emits_bind; [by apply emits_tell, (capacity_gauge_fits _ _ _ _ _ _ Ha)|]. intros _.
  apply emits_bind; [|intros _; destruct err; by emits_tac].
  match goal with |- emits _ (if ?b then _ else _) => destruct b end; [|apply emits_ret]. apply emits_bind; [by apply emits_try, emits_write | intros [u|e]; by emits_tac].
Qed.

Lemma fits_create_window policy x : emits fits (create_window policy x : M W _).
Proof. unfold create_window. by emits_tac. Qed.

Lemma fits_group pn s0 label g : emits fits (apply_group pn (spTarget s0) label g : M W _).
Proof.
  unfold apply_group. apply emits_bind.
  { apply emits_silent. intros w. by destruct (scan_group_ok g (MkScan [] ∅ ∅ false) w) as [x ->]. }
  intros [sc|[t e]]; [|apply emits_ret]. apply emits_bind.
  - case_decide; [apply emits_ret|]. apply emits_bind; [by apply emits_try, PatchIntegers_emits|].
    intros [u|e]; [|apply emits_ret]. apply emits_bind; [|intros ?; apply emits_ret].
    case_match; [by apply emits_tell | apply emits_ret].
  - intros [[m raised] [e|]]; [apply emits_ret|]. case_decide; [apply emits_ret|].
    apply emits_bind; [by apply emits_try, PatchAnnotations_emits | intros [u|e]; apply emits_ret].
Qed.

Lemma fits_apply p pn : emits fits (apply p pn : M W _).
Proof.
  unfold apply. generalize (runs spTarget (planSteps p)) (@nil (list scaleStep)) false.
  intros gs. induction gs as [|[|s0 g] gs IH]; intros applied scaled; cbn [apply_groups]; [apply emits_ret | apply IH|].
  apply emits_bind; [apply fits_group|]. intros [[m raised] [e|]]; [|apply IH].
  apply emits_bind; [by apply compensate_emits | intros ?; apply emits_ret].
Qed.

Lemma fits_ensureWindow policy s : emits fits (ensureWindow Recorder policy s : M W unit).
Proof.
  unfold ensureWindow. apply emits_bind; [apply lookup_window_emits|]. intros win.
  apply emits_bind; [apply emits_silent; intros w; by rewrite held_back_run|]. intros held.
  destruct held; [apply emits_ret|]. cbv zeta. apply emits_bind; [by apply emits_tell|]. intros _.
  apply emits_bind; [apply buildPlan_emits|]. intros pl. apply emits_bind; [apply fits_plan_metrics|]. intros _.
  apply emits_bind.
  { unfold record_window. case_match; [by apply emits_write|]. apply emits_bind; [apply fits_create_window|].
    intros y. apply emits_bind; [apply fits_emitf | intros _; apply emits_ret]. }
  intros y. apply emits_bind; [apply fits_apply|]. intros [scaled err]. apply emits_bind; [|intros _; apply fits_report_apply].
  destruct err; [apply emits_ret|]. case_match; [apply fits_emitf | apply emits_ret].
Qed.

Lemma fits_publish policy s : emits fits (publishWorkloadMetrics policy s : M W unit).
Proof.
  unfold publishWorkloadMetrics. apply emits_bind; [apply lookup_window_emits|]. intros win.
  apply emits_bind; [apply buildPlan_emits|]. intros pl. apply fits_plan_metrics.
Qed.

Lemma fits_ensureDeferredWindow policy s : emits fits (ensureDeferredWindow Recorder policy s : M W unit).
Proof.
  unfold ensureDeferredWindow. apply emits_bind; [apply lookup_window_emits|]. intros win.
  apply emits_bind; [apply emits_silent; intros w; by rewrite held_back_run|]. intros held.
  destruct held; [apply emits_ret|]. apply emits_bind; [by apply emits_tell|]. intros _. cbv zeta. destruct win as [b|].
  - unfold refresh_deferred. apply emits_bind; [by apply emits_write|]. intros y.
    do 2 (apply emits_bind; [apply emits_now|]; intros ?). cbv zeta.
    destruct (applyCapacityApplied _ _ _) as [[win' gauge] flip] eqn:Ha.
    apply emits_bind; [by apply emits_tell, (capacity_gauge_fits _ _ _ _ _ _ Ha)|]. intros _.
    case_match; [|apply emits_ret]. apply emits_bind; [by apply emits_write | intros ?; apply emits_ret].
  - unfold open_deferred. apply emits_bind; [apply fits_create_window|]. intros y.
    apply emits_bind; [apply emits_now|]. intros t. cbv zeta.
    destruct (applyCapacityApplied _ _ _) as [[win' gauge] flip] eqn:Ha.
    apply emits_bind; [by apply emits_tell, (capacity_gauge_fits _ _ _ _ _ _ Ha)|]. intros _.
    apply emits_bind; [by apply emits_write|]. intros z. apply fits_emitf.
Qed.

Lemma fits_sweep_all policy windowCap l a : emits fits (sweep_all Recorder policy windowCap l a : M W _).
Proof.
  revert a. induction l as [|s l IH]; intros a; cbn [sweep_all]; [apply emits_ret|].
  apply emits_bind; [|apply IH]. unfold sweep_one. apply emits_bind; [apply emits_reads|]. intros win. cbv zeta. case_match.
  - apply emits_bind; [apply emits_try, fits_ensureDeferredWindow|]. intros [u|e]; [|apply emits_ret].
    apply emits_bind; [apply emits_try, fits_publish | intros ?; apply emits_ret].
  - apply emits_bind; [apply emits_try, fits_ensureWindow|]. intros [u|e]; [apply emits_ret|].
    apply emits_bind; [by apply emits_tell|]. intros _.
    do 2 (apply emits_bind; [apply fits_emitf|]; intros _). apply emits_ret.
Qed.

Lemma fits_finish policy n m cap workloads a :
  emits fits (finish_reconcile registry Recorder policy n m cap workloads a : M W _).
Proof.
  unfold finish_reconcile. apply emits_bind; [case_match; [apply fits_emitf | apply emits_ret]|]. intros _.
  apply emits_bind; [by apply emits_tell|]. intros _. apply emits_bind.
  { unfold syncClearedWindows. apply emits_bind; [apply emits_reads|]. intros l. apply emits_for_each. intros win _.
    unfold sync_window. case_match; [apply emits_ret|]. apply emits_bind; [by apply emits_tell|].
    intros _. case_match; [apply emits_ret|]. apply emits_bind; [apply emits_reads|]. intros []; by emits_tac. }
  intros _. apply emits_bind; [apply emits_reads|]. intros k. apply emits_bind; [|intros ?; apply emits_ret].
  by apply updateStatus_emits.
Qed.

Lemma fits_policy req : emits fits (policy_Reconcile registry Recorder req).
Proof.
  unfold policy_Reconcile. apply emits_bind; [apply emits_try, emits_reads|]. intros [policy|e]; [|by emits_tac].
  case_match.
  { unfold cleanup. apply emits_bind; [apply emits_reads|]. intros [|x l]; [by emits_tac|].
    apply emits_bind; [|intros _; apply emits_ret]. apply emits_for_each. intros y _. apply fits_ignore_nf. by apply emits_write. }
  case_match; [by emits_tac|]. destruct (FromSpec _) as [flt|e].
  2:{ apply emits_bind; [by apply updateStatus_emits | intros ?; apply emits_throw]. }
  unfold reconcile_policy. apply emits_bind; [apply emits_reads|]. intros nodes. apply emits_bind; [apply emits_lift|]. intros x.
  cbv zeta. do 2 (apply emits_bind; [by apply emits_tell|]; intros _). do 2 (apply emits_bind; [apply emits_reads|]; intros ?).
  apply emits_bind; [apply fits_sweep_all|]. intros a'. apply fits_finish.
Qed.

Context (DecodeEviction : Request → result Eviction).

Lemma fits_eviction req : emits fits (eviction_Handle registry DecodeEviction req : M W _).
Proof.
  unfold eviction_Handle. case_match; [|apply emits_ret]. apply emits_bind; [apply emits_try, emits_reads|].
  intros [pod|e]; [|by emits_tac]. apply emits_bind; [apply emits_try, emits_reads|]. intros [r|e]; [|apply emits_ret].
  case_decide; (apply emits_bind; [by apply emits_tell | intros _; apply emits_ret]).
Qed.

(** C36: no update of an instrument panics: the instruments are registered once each
    under different names, and every gauge that a reconcile of either kind or an
    admission of an eviction sets, every counter it increments and every series
    it deletes is of an instrument of that kind, with as many label values as
    the instrument has labels, whatever the cluster answers. *)
Theorem metrics_never_panic :
  NoDup (instrument_name ∘ instrument_of <$> registered) ∧ (∀ m, m ∈ registered)
  ∧ (∀ req, emits fits (policy_Reconcile registry Recorder req))
  ∧ (∀ req, emits fits (window_Reconcile registry Recorder req))
  ∧ ∀ req, emits fits (eviction_Handle registry DecodeEviction req : M W _).
Proof.
  split; [apply (bool_decide_unpack _); vm_compute; exact I|].
  split; [intros []; apply (bool_decide_unpack _); vm_compute; exact I|].
  split; [apply fits_policy|]. split; [apply fits_window | apply fits_eviction].
Qed.
End metrics.
