(* ===== verification/Startup.v ===== *)
(** * Start-up: cmd/main.go and the registrations it triggers

    [main] as a program over the calls it makes to the manager, each of which
    may fail: building the manager, the field indexes (behind two process-wide
    [sync.Once]), the two controllers with their watches, the webhooks, the
    health checks, [Start].  What a call answers is an argument: it belongs to
    controller-runtime.  Flags arrive parsed; log lines are left out. *)
From S2P Require Import Prelude GoStrings Meta Api Kube.

(** ** The calls *)

(** The handlers behind the watches of the controllers. *)
Inductive event_handler :=
| nodePolicyHandler | mapPodToPolicies_func
| mapNode_func | workloadToWindows_func | podToWindows_func.
Inductive event_predicate := nodeDisruptionPredicate_funcs | podPolicyPredicate_funcs.
Inductive watched := WatchNode | WatchPod | WatchDeployment.

Record controller := MkController {
  ctFor : string;
  ctOwns : option string;
  ctWatches : list (watched * event_handler * option event_predicate)
}.

Inductive admission_handler := deploymentValidator | policyValidator | evictionValidator.

(** [ctrl.Options], as far as it depends on the flags. *)
Record manager_options := MkOptions {
  moMetrics : string; moProbe : string; moLeaderElection : bool;
  moWebhookServer : option (Z * string)  (* port and certificate directory *)
}.

Inductive indexed := IndexPods | IndexWindows (i : WindowIndex).

#[global] Instance indexed_eq_dec : EqDecision indexed.
Proof. unfold EqDecision, Decision. decide equality. decide equality. Defined.

Inductive call :=
| NewManager (o : manager_options)
| IndexField (i : indexed)
| CompleteController (c : controller)
| RegisterHandler (path : string) (h : admission_handler)
| AddHealthzCheck (name : string)
| AddReadyzCheck (name : string)
| StartManager.

Definition DeploymentPath : string := "/validate-apps-v1-deployment".
Definition PolicyPath : string := "/validate-eviction-guard-io-v1alpha1-evictionguardpolicy".
Definition EvictionPath : string := "/validate-core-v1-eviction".

(** ** The process *)

(** A [sync.Once] with the error its function stored. *)
Definition once_error : Type := option (option error).
Record process := MkProcess { podIndexes : once_error; windowIndexes : once_error }.
Definition fresh : process := MkProcess None None.

Definition Setup (A : Type) : Type := process → result A * process * list call.

#[export] Instance Setup_ret : MRet Setup := λ A a s, (Ok a, s, []).
#[export] Instance Setup_bind : MBind Setup := λ A B f m s,
  match m s with
  | (Ok a, s', cs) => let '(r, s'', cs') := f a s' in (r, s'', cs ++ cs')
  | (Err e, s', cs) => (Err e, s', cs)
  end.

Section startup.
(** What a call answers; [server.Register] answers nothing. *)
Context (answer : call → option error).

Definition ask (c : call) : Setup unit := λ s,
  (match answer c with Some e => Err e | None => Ok () end, s, [c]).
Definition tell_server (c : call) : Setup unit := λ s, (Ok (), s, [c]).

(** [once.Do(f)], then the stored error: [f] runs the first time only. *)
Definition once_do (get : process → once_error) (set : once_error → process → process) (f : Setup unit) : Setup unit :=
  λ s,
  match get s with
  | Some None => (Ok (), s, [])
  | Some (Some e) => (Err e, s, [])
  | None =>
      let '(r, s', cs) := f s in
      (r, set (Some (match r with Ok _ => None | Err e => Some e end)) s', cs)
  end.

Definition set_pod_indexes (x : once_error) (p : process) : process := MkProcess x (windowIndexes p).
Definition set_window_indexes (x : once_error) (p : process) : process := MkProcess (podIndexes p) x.

Definition registerPodIndexes : Setup unit :=
  once_do podIndexes set_pod_indexes (ask (IndexField IndexPods)).

Definition registerWindowIndexes : Setup unit :=
  once_do windowIndexes set_window_indexes
    (_ ← ask (IndexField (IndexWindows IndexWindowPolicyName));
     _ ← ask (IndexField (IndexWindows IndexWindowWorkload));
     ask (IndexField (IndexWindows IndexWindowVulnerableNode))).

Definition policy_controller : controller :=
  MkController "EvictionGuardPolicy" (Some "EvictionGuardWindow")
    [(WatchNode, nodePolicyHandler, Some nodeDisruptionPredicate_funcs);
     (WatchPod, mapPodToPolicies_func, Some podPolicyPredicate_funcs)].

Definition window_controller : controller :=
  MkController "EvictionGuardWindow" None
    [(WatchNode, mapNode_func, None); (WatchDeployment, workloadToWindows_func, None); (WatchPod, podToWindows_func, None)].

Definition PolicyReconciler_SetupWithManager : Setup unit :=
  _ ← registerPodIndexes;
  _ ← registerWindowIndexes;
  ask (CompleteController policy_controller).

Definition WindowReconciler_SetupWithManager : Setup unit :=
  _ ← registerWindowIndexes;
  ask (CompleteController window_controller).

Definition registerEviction : Setup unit := tell_server (RegisterHandler EvictionPath evictionValidator).

Definition webhook_SetupWithManager : Setup unit :=
  _ ← tell_server (RegisterHandler DeploymentPath deploymentValidator);
  _ ← tell_server (RegisterHandler PolicyPath policyValidator);
  registerEviction.

(** ** main *)

Record main_flags := MkFlags {
  metricsAddr : string; probeAddr : string; enableLeaderElection : bool;
  webhookEnabled : bool; webhookCertDir : string
}.

Definition default_flags : main_flags := MkFlags ":8080" ":8081" true true "".

Definition mgrOpts (f : main_flags) : manager_options :=
  MkOptions (metricsAddr f) (probeAddr f) (enableLeaderElection f)
    (if webhookEnabled f then Some (9443%Z, webhookCertDir f) else None).

(** The body of [main] once the flags are checked; an error is [os.Exit(1)]. *)
Definition setup (f : main_flags) : Setup unit :=
  _ ← ask (NewManager (mgrOpts f));
  _ ← PolicyReconciler_SetupWithManager;
  _ ← WindowReconciler_SetupWithManager;
  _ ← (if webhookEnabled f then webhook_SetupWithManager else mret ());
  _ ← ask (AddHealthzCheck "healthz");
  _ ← ask (AddReadyzCheck "ping");
  _ ← ask (AddReadyzCheck "cache");
  ask StartManager.

(** The exit code, and the calls made. *)
Definition main (f : main_flags) (s : process) : Z * list call :=
  if webhookEnabled f && str_eqb (webhookCertDir f) "" then (1%Z, [])
  else let '(r, _, cs) := setup f s in (match r with Ok _ => 0%Z | Err _ => 1%Z end, cs).

(** The "cache" check: ready once the informers have synced. *)
Definition cache_check (synced : bool) : option error :=
  if negb synced then Some (ErrorString "cache not synced") else None.

(** ** What a start does *)

(** The calls of an undisturbed start, in order. *)
Definition start_sequence (f : main_flags) : list call :=
  [NewManager (mgrOpts f); IndexField IndexPods; IndexField (IndexWindows IndexWindowPolicyName);
   IndexField (IndexWindows IndexWindowWorkload); IndexField (IndexWindows IndexWindowVulnerableNode);
   CompleteController policy_controller; CompleteController window_controller]
  ++ (if webhookEnabled f
      then [RegisterHandler DeploymentPath deploymentValidator; RegisterHandler PolicyPath policyValidator;
            RegisterHandler EvictionPath evictionValidator]
      else [])
  ++ [AddHealthzCheck "healthz"; AddReadyzCheck "ping"; AddReadyzCheck "cache"; StartManager].

Definition fails (c : call) : bool :=
  match c with RegisterHandler _ _ => false | _ => match answer c with Some _ => true | None => false end end.

(** The calls up to and including the first that fails. *)
Fixpoint until_failure (l : list call) : list call :=
  match l with [] => [] | c :: l => if fails c then [c] else c :: until_failure l end.

(** The index a call registers. *)
Definition index_of (c : call) : option indexed := match c with IndexField i => Some i | _ => None end.

(** The flags ask for webhooks and give them no certificates. *)
Definition refused (f : main_flags) : bool := webhookEnabled f && str_eqb (webhookCertDir f) "".

Lemma last_reached l c : c ∉ l → c ∈ until_failure (l ++ [c]) ↔ until_failure (l ++ [c]) = l ++ [c].
Proof.
  induction l as [|x l IH]; intros Hc; cbn [app until_failure].
  { destruct (fails c); split; (done || left). }
  apply not_elem_of_cons in Hc as [Hx Hc]. destruct (fails x).
  - rewrite list_elem_of_singleton. split; [by intros ->|]. by intros [= H]; destruct l.
  - rewrite elem_of_cons. split; [intros [?|H%(IH Hc)]; [done | by f_equal]|]. intros [= H]. right. by apply IH.
Qed.

Lemma setup_fresh f :
  let '(r, _, cs) := setup f fresh in
  cs = until_failure (start_sequence f) ∧ is_ok r = negb (existsb fails (start_sequence f)).
Proof.
  unfold setup, PolicyReconciler_SetupWithManager, WindowReconciler_SetupWithManager, registerPodIndexes,
    registerWindowIndexes, webhook_SetupWithManager, registerEviction, start_sequence.
  destruct (webhookEnabled f); cbn; unfold mbind, Setup_bind, once_do, ask, tell_server; cbn;
    repeat match goal with |- context [answer ?c] => destruct (answer c) eqn:?; cbn end; done.
Qed.

(** A start either refuses its flags (webhooks without certificates) before it
    calls anything, or makes the calls of [start_sequence] in order up to the
    first that fails, and the exit code says whether one did: each index is
    registered once although both controllers ask for the windows' indexes, the
    webhooks exactly when they are enabled, and the manager starts only after
    everything else was registered. *)
Theorem main_calls f :
  main f fresh = (if refused f then (1%Z, []) else
                  (if existsb fails (start_sequence f) then 1%Z else 0%Z, until_failure (start_sequence f)))
  ∧ (StartManager ∈ (main f fresh).2 ↔ refused f = false ∧ (main f fresh).2 = start_sequence f)
  ∧ NoDup (omap index_of (start_sequence f)).
Proof.
  assert (main f fresh = (if refused f then (1%Z, []) else
                  (if existsb fails (start_sequence f) then 1%Z else 0%Z, until_failure (start_sequence f)))) as Hm.
  { unfold main, refused. destruct (_ && _); [done|]. pose proof (setup_fresh f) as H.
    destruct (setup f fresh) as [[r s] cs]. destruct H as [-> H]. f_equal.
    by destruct (existsb fails (start_sequence f)), r. }
  split; [done|]. rewrite Hm. split.
  - destruct (refused f); cbn [snd]; [split; [by intros ?%elem_of_nil | by intros [??]]|].
    assert (∃ l, start_sequence f = l ++ [StartManager] ∧ StartManager ∉ l) as (l & -> & Hl).
    { eexists (removelast (start_sequence f)). unfold start_sequence. destruct (webhookEnabled f); (split; [reflexivity|]);
        cbn; repeat (apply not_elem_of_cons; split; [discriminate|]); apply not_elem_of_nil. }
    rewrite (last_reached l StartManager Hl). by split; [|intros [_ ?]].
  - unfold start_sequence. destruct (webhookEnabled f); apply (bool_decide_unpack _); vm_compute; exact I.
Qed.
End startup.

(** The default flags enable the webhooks and name no certificates. *)
Example defaults_refused answer : main answer default_flags fresh = (1%Z, []).
Proof. reflexivity. Qed.
