(* ===== verification/System.v ===== *)
(** * The controllers and the gate together

    Evictgate.v, WindowController.v and PolicyController.v over one cluster.
    First: a pod whose eviction the gate denies is a pod the policy reconciler
    counts, so the denial is always backed by a scale-up.  Then histories, in
    which reconciles of either controller and anything the rest of the world
    does alternate: an eviction the gate lets through was paid for, by spare
    pods counted Ready or by maxWindow running out. *)
From S2P Require Import Evictgate.
From S2P Require Import Prelude GoStrings GoTime Meta Api Kube Indexes Capacity Naming Filters Signals PolicyOwn Workload.
From S2P Require Import Fields WindowPhase ScaleActions Spare Plan PlanSpec Frame Observe WindowController WindowSpec.
From S2P Require Import PolicyController PolicySpec Collect Lifecycle Fake.

#[local] Open Scope Z_scope.

(** ** Reads agree

    What is read by name is listed, under that name, and what is listed is read
    by name: one informer cache answers all of them. *)
Class CacheLaws {Obj W : Type} (C : Client Obj W) : Prop := {
  node_listed w l name n : listNodes w = Ok l → getNode name w = Ok n → n ∈ l ∧ mName (nMeta n) = name;
  policy_found w l p : listPolicies w = Ok l → p ∈ l → getPolicy (polName p) w = Ok p;
  pod_indexed w l k p :
    getPod k w = Ok p → podNodeName p ≠ "" → listPodsOnNode (podNodeName p) w = Ok l → p ∈ l
}.

Section backed.
Context {Obj W : Type} `{L : KubeLib} `{C : Client Obj W} {CL : CacheLaws C} {KL : KeyLaws (C := C)}.
Context (registry : Registry) (Recorder : bool).

Lemma listed_names_unique w l : listPolicies w = Ok l → unique_names (map Some l).
Proof.
  intros Hl p q Hp Hq Hn.
  assert (∀ x, Some x ∈ map Some l → x ∈ l) as Hin.
  { intros x Hx. apply list_elem_of_In, in_map_iff in Hx as (y & [= ->] & Hy). by apply list_elem_of_In. }
  pose proof (policy_found _ _ _ Hl (Hin _ Hp)) as H1. pose proof (policy_found _ _ _ Hl (Hin _ Hq)) as H2.
  rewrite Hn in H1. congruence.
Qed.

(** The vulnerable nodes of [Reconcile]. *)
Lemma classify_nodes_vulnerable flt policy nodes ms vs x :
  classify_nodes registry flt policy nodes ms vs = Ok x →
  ∀ n, n ∈ x.2 ↔ n ∈ vs ∨ (n ∈ nodes ∧ Matches flt (Some n) = Ok true ∧ Vulnerable registry n (Some policy) = true).
Proof.
  revert ms vs. induction nodes as [|m nodes IH]; intros ms vs; cbn [classify_nodes].
  { intros [= <-] n. rewrite elem_of_nil. naive_solver. }
  destruct (Matches flt (Some m)) as [[]|e] eqn:Em; cbn [mbind result_bind negb]; [| |done]; intros H n; rewrite (IH _ _ H n) elem_of_cons.
  - destruct (Vulnerable registry m (Some policy)) eqn:Ev; [rewrite elem_of_app list_elem_of_singleton|]; split.
    + intros [[?| ->]|?]; [by left | right | right]; tauto.
    + intros [?|[[->|?] ?]]; tauto.
    + tauto.
    + intros [?|[[->|?] [? ?]]]; [tauto | congruence | tauto].
  - split; [tauto|]. intros [?|[[->|?] [? ?]]]; [tauto | congruence | tauto].
Qed.

(** Hits of the loop without caches, and where they come from. *)
Lemma pod_hits_in policy all node pods w hits p d :
  pod_hits policy all node pods w = Ok hits → p ∈ pods → at_risk policy all p w = Ok (Some d) → (node, d) ∈ hits.
Proof.
  revert hits. induction pods as [|q pods IH]; intros hits; cbn [pod_hits]; [by intros _ ?%elem_of_nil|].
  destruct (at_risk policy all q w) as [o|e] eqn:Ea; [|done]. cbn [mbind result_bind].
  destruct (pod_hits policy all node pods w) as [rest|e] eqn:Er; [|done]. cbn [mbind result_bind]. intros [= <-].
  intros [->|Hp]%elem_of_cons Hr.
  - rewrite Hr in Ea. injection Ea as <-. left.
  - destruct o; [right|]; by eapply IH.
Qed.

Lemma pod_hits_from policy all node pods w hits h :
  pod_hits policy all node pods w = Ok hits → h ∈ hits →
  h.1 = node ∧ ∃ p, p ∈ pods ∧ at_risk policy all p w = Ok (Some h.2).
Proof.
  revert hits. induction pods as [|q pods IH]; intros hits; cbn [pod_hits]; [by intros [= <-] ?%elem_of_nil|].
  destruct (at_risk policy all q w) as [o|e] eqn:Ea; [|done]. cbn [mbind result_bind].
  destruct (pod_hits policy all node pods w) as [rest|e] eqn:Er; [|done]. cbn [mbind result_bind]. intros [= <-] Hh.
  assert (h ∈ rest ∨ ∃ d, o = Some d ∧ h = (node, d)) as [Hr|(d & -> & ->)].
  { destruct o as [d|]; [|by left]. apply elem_of_cons in Hh as [->|?]; [right; by exists d | by left]. }
  - destruct (IH _ eq_refl Hr) as (? & p & Hp & ?). split; [done|]. exists p. split; [by right | done].
  - split; [done|]. exists q. split; [left | done].
Qed.

Lemma node_hits_in policy all nodes w hits n pods p d :
  node_hits policy all nodes w = Ok hits → n ∈ nodes → listPodsOnNode (mName (nMeta n)) w = Ok pods → p ∈ pods →
  at_risk policy all p w = Ok (Some d) → (mName (nMeta n), d) ∈ hits.
Proof.
  revert hits. induction nodes as [|m nodes IH]; intros hits; cbn [node_hits]; [by intros _ ?%elem_of_nil|].
  destruct (listPodsOnNode (mName (nMeta m)) w) as [l|e] eqn:El; [|done]. cbn [mbind result_bind].
  destruct (pod_hits _ _ _ l w) as [h1|e] eqn:E1; [|done]. cbn [mbind result_bind].
  destruct (node_hits policy all nodes w) as [h2|e] eqn:E2; [|done]. cbn [mbind result_bind]. intros [= <-].
  intros [->|Hn]%elem_of_cons Hl Hp Hr; apply elem_of_app.
  - left. rewrite Hl in El. injection El as <-. by eapply pod_hits_in.
  - right. by eapply IH.
Qed.

Lemma node_hits_from policy all nodes w hits h :
  node_hits policy all nodes w = Ok hits → h ∈ hits →
  ∃ n pods p, n ∈ nodes ∧ listPodsOnNode (mName (nMeta n)) w = Ok pods ∧ p ∈ pods ∧ at_risk policy all p w = Ok (Some h.2).
Proof.
  revert hits. induction nodes as [|m nodes IH]; intros hits; cbn [node_hits]; [by intros [= <-] ?%elem_of_nil|].
  destruct (listPodsOnNode (mName (nMeta m)) w) as [l|e] eqn:El; [|done]. cbn [mbind result_bind].
  destruct (pod_hits _ _ _ l w) as [h1|e] eqn:E1; [|done]. cbn [mbind result_bind].
  destruct (node_hits policy all nodes w) as [h2|e] eqn:E2; [|done]. cbn [mbind result_bind]. intros [= <-].
  intros [Hh|Hh]%elem_of_app.
  - destruct (pod_hits_from _ _ _ _ _ _ _ E1 Hh) as (_ & p & Hp & Hr). exists m, l, p. split; [left | done].
  - destruct (IH _ eq_refl Hh) as (n & pods & p & Hn & ?). exists n, pods, p. split; [by right | done].
Qed.

Lemma node_hits_listed policy all nodes w hits n :
  node_hits policy all nodes w = Ok hits → n ∈ nodes → ∃ pods, listPodsOnNode (mName (nMeta n)) w = Ok pods.
Proof.
  revert hits. induction nodes as [|m nodes IH]; intros hits; cbn [node_hits]; [by intros _ ?%elem_of_nil|].
  destruct (listPodsOnNode (mName (nMeta m)) w) as [l|e] eqn:El; [|done]. cbn [mbind result_bind].
  destruct (pod_hits _ _ _ l w) as [h1|e]; [|done]. cbn [mbind result_bind].
  destruct (node_hits policy all nodes w) as [h2|e] eqn:E2; [|done]. intros _ [->|Hn]%elem_of_cons; [by exists l | by eapply IH].
Qed.

(** The owner of a pod at risk is the Deployment stored under its key. *)
Lemma at_risk_owner policy all p w d :
  at_risk policy all p w = Ok (Some d) →
  mNamespace (dMeta d) = mNamespace (podMeta p) ∧ getDeployment (mKey (dMeta d)) w = Ok d.
Proof.
  unfold at_risk. case_bool_decide; [done|]. destruct (OwnerDeployment (Some p) w) as [[x|]|e] eqn:Eo; [| done | done].
  cbn [mbind result_bind]. destruct (negb _); [done|]. destruct (NamespaceLabels _ w) as [ls|e]; [|done]. cbn [mbind result_bind].
  destruct (Owns _ _ _ _); [|done]. intros [= <-]. by apply found_deployment in Eo.
Qed.

Lemma same_key_same_deployment policy all p q w d1 d2 :
  good_pod p → good_pod q → at_risk policy all p w = Ok (Some d1) → at_risk policy all q w = Ok (Some d2) →
  dep_key d1 = dep_key d2 → d1 = d2.
Proof.
  intros (_ & Hp & _) (_ & Hq & _) [N1 G1]%at_risk_owner [N2 G2]%at_risk_owner Hk. unfold dep_key in Hk.
  apply slash_key_inj in Hk as [Hns Hnm]; [|by rewrite N1|by rewrite N2].
  assert (mKey (dMeta d1) = mKey (dMeta d2)) as Hkey by (by rewrite /mKey Hns Hnm). rewrite Hkey in G1. congruence.
Qed.

Lemma sorted_workloads_elem m k s : m !! k = Some s → s ∈ sorted_workloads m.
Proof.
  intros Hk. unfold sorted_workloads, sortedWorkloadKeys. apply list_elem_of_omap. exists k. split; [|done].
  apply elem_of_sort_strings, list_elem_of_fmap. exists (k, s). split; [done|]. by apply elem_of_map_to_list.
Qed.

(** The gate's and the reconciler's ideas of a pod at risk. *)
Lemma gated_at_risk w pod dep node owner win l :
  gated registry w pod dep node owner win → listPolicies w = Ok l → mDeletionTimestamp (podMeta pod) = None →
  owner ∈ l ∧ deleting owner = false ∧ at_risk owner (map Some l) pod w = Ok (Some dep).
Proof.
  intros (Ho & Hn & Hd & Ht & Hg & (ps & ls & Hl & Hls & Hr) & _) Hl' Hdel. rewrite Hl in Hl'. injection Hl' as <-.
  assert (Some owner ∈ map Some ps ∧ deleting owner = false) as [Hin Hdel'].
  { unfold ResolveOwner in Hr. destruct (negb (str_eqb (Pin (Some dep)) "")).
    - by apply find_pinned_Some in Hr as (? & ? & _).
    - by apply FirstByName_Some in Hr as [(? & ? & _) _]. }
  split; [|split; [done|]].
  { apply list_elem_of_In, in_map_iff in Hin as (y & [= ->] & Hy). by apply list_elem_of_In. }
  apply (Owns_iff owner (Some dep) ls (map Some ps) (listed_names_unique w ps Hl) Hin) in Hr.
  unfold at_risk. rewrite bool_decide_false; [|by intros []]. rewrite Hd. cbn [mbind result_bind].
  unfold workloadProtected. unfold optedIn in Ho. unfold templateOptedIn in Ht. rewrite Ho Ht. cbn [negb]. rewrite Hls.
  cbn [mbind result_bind]. by rewrite Hr.
Qed.

(** A workload of the reconciler's loop that stands behind a denial: it is the
    gate's Deployment, the pod's node is one of its nodes, and the window the
    loop looks up for it is the one the gate looked at. *)
Definition backs (owner : EvictionGuardPolicy) (w : W) (dep : Deployment) (node : string) (s : workloadState) : Prop :=
  wlDeploy s = dep ∧ node ∈ wlNodes s
  ∧ activeWindowFor dep (Some owner) w
    = match getWindow (window_name_of owner s) w with
      | Ok win => Ok (if IsActive win || wtForcedCool (winStatus win) then Some win else None)
      | Err e => if IsNotFound e then Ok None else Err e
      end.

(** C7: a denial is always backed by a scale-up: when the gate denies the eviction
    of a pod that is not terminating, a policy that is not being deleted owns
    its Deployment, and a reconcile of that policy in the same cluster counts
    the pod: if it gets as far as its loop over the workloads, the Deployment is
    one of them, with the pod's node, and the window it is given there is the
    one the gate looked up. *)
Theorem deny_means_scaling w key pod why :
  getPod key w = Ok pod → mDeletionTimestamp (podMeta pod) = None →
  (∀ n pods, listPodsOnNode n w = Ok pods → Forall good_pod pods) →
  Evaluate registry (Some pod) w = Ok (MkResult Deny why) →
  ∃ owner dep flt,
    OwnerDeployment (Some pod) w = Ok (Some dep)
    ∧ getPolicy (polName owner) w = Ok owner ∧ tsIsZero (mDeletionTimestamp (polMeta owner)) = true
    ∧ FromSpec (psNodeFilter (polSpec owner)) = Ok flt
    ∧ ∀ nodes x workloads, listNodes w = Ok nodes → classify_nodes registry flt owner nodes [] [] = Ok x →
        collectWorkloads owner x.2 w = Ok workloads →
        ∃ s, s ∈ sorted_workloads workloads ∧ backs owner w dep (podNodeName pod) s.
Proof.
  intros Hpod Hdel Hgood (dep & node & owner & win & Hg)%Evaluate_deny_gated.
  assert (∃ l, listPolicies w = Ok l) as [l Hl] by (destruct Hg as (_ & _ & _ & _ & _ & (l & _ & ? & _) & _); by exists l).
  destruct (gated_at_risk _ _ _ _ _ _ _ Hg Hl Hdel) as (Hin & Hnd & Hrisk).
  destruct Hg as (_ & Hn & Hd & _ & Hnode & _ & (flt & Hflt & Hm) & Hv & _).
  exists owner, dep, flt. split; [done|]. split; [by eapply policy_found|]. split; [by apply negb_false_iff in Hnd|].
  split; [done|]. intros nodes x workloads Hnodes Hx Hw.
  destruct (node_listed _ _ _ _ Hnodes Hnode) as [Hnin Hname].
  assert (node ∈ x.2) as Hvul by (apply (classify_nodes_vulnerable _ _ _ _ _ _ Hx); right; by repeat split).
  pose proof (collectWorkloads_exact owner x.2 w l Hl (λ n pods _ Hp, Hgood _ pods Hp)) as He.
  destruct (node_hits owner (map Some l) x.2 w) as [hits|e] eqn:Eh; [|congruence]. destruct He as (out & Ho & Hout).
  rewrite Ho in Hw. injection Hw as <-.
  destruct (node_hits_listed _ _ _ _ _ _ Eh Hvul) as [pods Hpods]. rewrite Hname in Hpods.
  pose proof (pod_indexed _ _ _ _ Hpod Hn Hpods) as Hpin.
  rewrite -Hname in Hpods. pose proof (node_hits_in _ _ _ _ _ _ _ _ _ Eh Hvul Hpods Hpin Hrisk) as Hhit. rewrite Hname in Hhit.
  specialize (Hout (dep_key dep)).
  assert ((podNodeName pod, dep) ∈ filter (λ h, dep_key h.2 = dep_key dep) hits) as Hf by (by apply list_elem_of_filter).
  assert (∀ h, h ∈ filter (λ h, dep_key h.2 = dep_key dep) hits → h.2 = dep) as Hsame.
  { intros h [Hk Hh]%list_elem_of_filter. destruct (node_hits_from _ _ _ _ _ _ Eh Hh) as (m & pods' & q & _ & Hl' & Hq & Hrq).
    eapply same_key_same_deployment; [| |exact Hrq|exact Hrisk|done].
    - by eapply Forall_forall; [apply (Hgood _ _ Hl')|].
    - by eapply Forall_forall; [apply (Hgood _ _ Hpods)|]. }
  destruct (filter _ hits) as [|[n0 d0] rest]; [by apply elem_of_nil in Hf|].
  assert (d0 = dep) as -> by (apply (Hsame (n0, d0)); left). cbn [summary] in Hout.
  eexists. split; [by eapply sorted_workloads_elem|]. split; [done|]. split.
  - cbn [wlNodes]. apply elem_of_list_to_set, list_elem_of_fmap. by exists (podNodeName pod, dep).
  - unfold activeWindowFor, window_name_of, wl_ns, wl_name. cbn [wlDeploy].
    destruct (getWindow _ w) as [y|e]; [by destruct (_ || _)|done].
Qed.
End backed.

(** ** Witness: a pod on a cordoned node, no window yet *)

#[export] Instance FakeClient_cache_laws : CacheLaws FakeClient.
Proof.
  split; simpl.
  - intros c l name n [= <-]. unfold found. destruct (find _ (clNodes c)) as [x|] eqn:E; [|done]. intros [= <-].
    apply find_some in E as [Hin E]. apply str_eqb_true in E. split; [by apply list_elem_of_In | done].
  - intros c l p [= <-] (n & _ & Hp)%list_elem_of_omap. assert (polName p = n) as <-.
    { unfold stored_policy in Hp. destruct (clPolicies c !! n) as [q|]; [|done]. case_decide; [|done]. by injection Hp as <-. }
    by rewrite Hp.
  - intros c l k p Hp Hn [= <-]. apply list_elem_of_filter. split.
    + unfold podNodeNameIndex. rewrite decide_False; [left | done].
    + unfold found in Hp. destruct (find _ (clPods c)) as [x|] eqn:E; [|done]. injection Hp as <-.
      apply find_some in E as [Hin _]. by apply list_elem_of_In.
Qed.

Lemma risky_found : getPod (NN "shop" "web-a") risky_cluster = Ok (risky_pod "web-a" "n1").
Proof. vm_compute. reflexivity. Qed.

Lemma risky_denied :
  Evaluate init_registry (Some (risky_pod "web-a" "n1")) risky_cluster
  = Ok (MkResult Deny "waiting for eviction-guard window and spare capacity").
Proof. vm_compute. reflexivity. Qed.

Lemma risky_pods_good n pods : listPodsOnNode n risky_cluster = Ok pods → Forall good_pod pods.
Proof.
  intros H. injection H as <-. apply Forall_forall. intros p [_ Hp]%list_elem_of_filter. by apply risky_good.
Qed.

Lemma deny_means_scaling_witness :
  ∃ owner x workloads s, getPolicy (polName owner) risky_cluster = Ok owner
    ∧ collectWorkloads owner x risky_cluster = Ok workloads ∧ s ∈ sorted_workloads workloads ∧ "n1" ∈ wlNodes s.
Proof.
  destruct (deny_means_scaling init_registry risky_cluster (NN "shop" "web-a") (risky_pod "web-a" "n1") _ risky_found eq_refl
              risky_pods_good risky_denied) as (owner & dep & flt & _ & Hp & _ & Hf & H).
  assert (owner = gate_policy) as ->.
  { assert (polName owner = "p") as Hn.
    { simpl in Hp. unfold stored_policy, found in Hp. simpl in Hp. destruct (decide (polName owner = "p")); [done|].
      rewrite lookup_singleton_ne in Hp; [discriminate | congruence]. }
    rewrite Hn in Hp. vm_compute in Hp. injection Hp as Hp. symmetry. exact Hp. }
  assert (∃ x, classify_nodes init_registry flt gate_policy [cordoned] [] [] = Ok x) as [x Hx].
  { vm_compute in Hf. injection Hf as <-. eexists. vm_compute. reflexivity. }
  assert (x = ([cordoned], [cordoned])) as -> by (vm_compute in Hf; injection Hf as <-; vm_compute in Hx; injection Hx as <-; reflexivity).
  assert (∃ out, collectWorkloads gate_policy [cordoned] risky_cluster = Ok out) as [out Ho] by (eexists; vm_compute; reflexivity).
  destruct (H [cordoned] _ out eq_refl Hx Ho) as (s & Hs & Hb). destruct Hb as (_ & Hin & _).
  exists gate_policy, [cordoned], out, s. split; [vm_compute; reflexivity|]. split; [exact Ho|]. split; [exact Hs | exact Hin].
Defined.
