(* ===== verification/Writes.v ===== *)
(** * What the reconciles respect

    Frame.v for whole reconciles: a relation between states that the writes of a
    reconcile respect is respected by the reconcile.  What the two reconcilers
    write is little: patches of unstructured objects, patches of windows that
    leave the name and the policy alone (the policy reconciler's cancel a
    cooldown or leave it alone, too), updates of statuses, deletions of windows,
    patches of the policy, and new windows without a cooldown that bear the
    policy's name.  Which patches the relation has to allow is a parameter, [may],
    for what tells the two reconcilers apart: only the window reconciler arms a
    cooldown, after its restore. *)
From S2P Require Import Prelude GoStrings GoTime Meta Api Kube Indexes Naming Filters Signals PolicyOwn Workload.
From S2P Require Import Fields WindowPhase ScaleActions Spare Plan PlanSpec Frame Observe WindowController WindowSpec.
From S2P Require Import PolicyController PolicySpec.

#[local] Open Scope Z_scope.

Section writes.
Context {Obj W : Type} `{L : KubeLib} `{C : Client Obj W} {AL : AnswerLaws C} {LL : KubeLibLaws L}.
Context (registry : Registry) (Recorder : bool).
Context (R : W → W → Prop) `{!PreOrder R} (may : EvictionGuardWindow → EvictionGuardWindow → Prop).
Context (R_object : ∀ g k p w, R w (patchUnstructured g k p w).2).
Context (R_patch : ∀ b x w, win_key x = win_key b → wsPolicyName (winSpec x) = wsPolicyName (winSpec b) → may b x → R w (patchWindow b x w).2).
Context (may_light : ∀ b x, wsWindowUntil (winSpec x) = None ∨ wsWindowUntil (winSpec x) = wsWindowUntil (winSpec b) → may b x).
Context (R_status : ∀ x w, R w (updateWindowStatus x w).2).
Context (R_delete : ∀ k w, R w (deleteWindow k w).2).

Lemma writes_emitf g ty reason note : keeps R (emitf Recorder g ty reason note : M W unit).
Proof. unfold emitf. keeps_tac. Qed.

Lemma writes_patch b x :
  win_key x = win_key b → wsPolicyName (winSpec x) = wsPolicyName (winSpec b) → may b x → keeps R (PatchWindow b x : M W _).
Proof. intros Hk Hp Hm. apply keeps_write. intros w. by apply R_patch. Qed.

Lemma writes_status x : keeps R (UpdateWindowStatus x : M W _).
Proof. apply keeps_write. apply R_status. Qed.

Lemma writes_delete k : keeps R (DeleteWindow k : M W _).
Proof. apply keeps_write. apply R_delete. Qed.

Lemma writes_clear_metrics win : keeps R (clear_metrics win : M W unit).
Proof. intros w. unfold final, clear_metrics. rewrite clearWorkloadPlanMetrics_run. reflexivity. Qed.

Lemma writes_restore win : keeps R (restoreActions win : M W unit).
Proof. by apply restoreActions_frame. Qed.

Lemma writes_stamp policy dep win u : keeps R (stampCooldown policy dep win u : M W unit).
Proof. by apply stampCooldown_frame. Qed.

Ltac writes_step :=
  first
    [ apply writes_emitf | apply writes_status | apply writes_delete | apply writes_clear_metrics
    | apply writes_restore | apply writes_stamp
    | apply writes_patch; [reflexivity | reflexivity | first [apply may_light; first [left; reflexivity | right; reflexivity] | auto]]
    | keeps_step ].
Ltac writes_tac := repeat (progress cbv beta iota zeta || writes_step); try done.

(** ** The window reconciler *)

Lemma writes_drop_finalizer win : keeps R (drop_finalizer win : M W unit).
Proof. unfold drop_finalizer. writes_tac. Qed.

Lemma writes_ignore_nf (m : M W unit) : keeps R m → keeps R (ignore_nf m).
Proof. intros H. unfold ignore_nf. apply keeps_bind; [apply _|by apply keeps_try|]. intros r. writes_tac. Qed.

Lemma writes_leave win : keeps R (scaleBackAndUnfinalize win : M W _).
Proof.
  unfold scaleBackAndUnfinalize. apply keeps_bind; [apply _|apply writes_ignore_nf, writes_restore|]. intros _.
  apply keeps_bind; [apply _|apply writes_clear_metrics|]. intros _. apply keeps_bind; [apply _|apply writes_drop_finalizer|].
  intros _. writes_tac.
Qed.

Lemma writes_deleteClosed win : keeps R (deleteClosedWindow win : M W _).
Proof.
  unfold deleteClosedWindow. apply keeps_bind; [apply _|apply writes_clear_metrics|]. intros _.
  apply keeps_bind; [apply _|apply writes_drop_finalizer|]. intros _.
  apply keeps_bind; [apply _|apply writes_ignore_nf, writes_delete|]. intros _. writes_tac.
Qed.

Lemma writes_writeStatus win dep phase msg : keeps R (writeStatus Recorder win dep phase msg : M W _).
Proof. unfold writeStatus. writes_tac. Qed.

Section steps.
Context (may_arm : ∀ x u, may x (with_spec (set_until (Some u)) x)).

Lemma writes_take_step win policy dep force u t dec : keeps R (take_step Recorder win policy dep force u t dec : M W _).
Proof.
  unfold take_step, abortCooldown, scaleBackIfAllowed.
  destruct (pdStep dec); repeat (progress cbv beta iota zeta || first [apply writes_writeStatus | apply writes_deleteClosed | writes_step]).
Qed.

Lemma writes_window_Reconcile req : keeps R (window_Reconcile registry Recorder req).
Proof.
  unfold window_Reconcile, fetch_target, scaleBackAndClose, reconcile_live, stamp_forced.
  repeat (progress cbv beta iota zeta || first [apply writes_leave | apply writes_deleteClosed | apply writes_take_step | writes_step]).
Qed.

End steps.

(** ** The policy reconciler *)

Context (R_policy : ∀ b x w, R w (patchPolicy b x w).2) (R_policy_status : ∀ x w, R w (updatePolicyStatus x w).2).

Lemma writes_updateStatus policy a b c d e : keeps R (updateStatus policy a b c d e : M W _).
Proof. unfold updateStatus. writes_tac. Qed.

(** A policy that is being deleted opens no windows. *)
Lemma writes_cleanup policy : keeps R (cleanup policy : M W _).
Proof.
  unfold cleanup. apply keeps_bind; [apply _|apply keeps_reads, _|]. intros [|x l].
  - writes_tac.
  - apply keeps_bind; [apply _| |intros ?; apply keeps_ret, _]. apply keeps_for_each; [apply _|]. intros y _.
    apply writes_ignore_nf, writes_delete.
Qed.

Section opens.
Context (policy : EvictionGuardPolicy).
Context (R_create : ∀ x w, wsPolicyName (winSpec x) = polName policy → wsWindowUntil (winSpec x) = None → R w (createWindow x w).2).

Lemma writes_create_window x :
  wsPolicyName (winSpec x) = polName policy → wsWindowUntil (winSpec x) = None → keeps R (create_window policy x : M W _).
Proof.
  intros Hx Hu w. unfold final. destruct (create_window policy x w) as [[r w'] es] eqn:E. cbn.
  apply create_window_run in E as [(-> & _)|(y & Hy & _ & Hs & _)]; [reflexivity|].
  pose proof (R_create y w) as H. rewrite Hy in H. apply H; by rewrite Hs.
Qed.

Lemma writes_lookup s : keeps R (lookup_window policy s : M W _).
Proof. unfold lookup_window. writes_tac. Qed.

Lemma writes_report win msg err : keeps R (report_apply win msg err : M W _).
Proof. unfold report_apply. writes_tac. Qed.

Lemma writes_ensureWindow s : keeps R (ensureWindow Recorder policy s : M W unit).
Proof.
  unfold ensureWindow, record_window, held_back, setWorkloadPlanMetrics.
  repeat (progress cbv beta iota zeta
          || first [ apply writes_lookup | apply (buildPlan_frame _) | apply writes_create_window; [reflexivity | reflexivity]
                   | by apply apply_frame | apply writes_report | writes_step ]).
Qed.

Lemma writes_ensureDeferredWindow s : keeps R (ensureDeferredWindow Recorder policy s : M W unit).
Proof.
  unfold ensureDeferredWindow, refresh_deferred, open_deferred, held_back.
  repeat (progress cbv beta iota zeta || first [ apply writes_lookup | apply writes_create_window; [reflexivity | reflexivity] | writes_step ]).
Qed.

Lemma writes_publish s : keeps R (publishWorkloadMetrics policy s : M W unit).
Proof.
  unfold publishWorkloadMetrics, setWorkloadPlanMetrics.
  repeat (progress cbv beta iota zeta || first [ apply writes_lookup | apply (buildPlan_frame _) | writes_step ]).
Qed.

Lemma writes_sweep_all windowCap l a : keeps R (sweep_all Recorder policy windowCap l a : M W _).
Proof.
  revert a. induction l as [|s l IH]; intros a; cbn [sweep_all]; [apply keeps_ret, _|].
  apply keeps_bind; [apply _| |intros a'; apply IH]. unfold sweep_one.
  repeat (progress cbv beta iota zeta
          || first [ apply writes_ensureWindow | apply writes_ensureDeferredWindow | apply writes_publish | writes_step ]).
Qed.

Lemma writes_reconcile_policy flt : keeps R (reconcile_policy registry Recorder policy flt : M W _).
Proof.
  unfold reconcile_policy, finish_reconcile, syncClearedWindows, sync_window.
  repeat (progress cbv beta iota zeta || first [ apply writes_sweep_all | apply writes_updateStatus | writes_step ]).
Qed.
End opens.

Lemma writes_policy_Reconcile req w :
  (∀ p, getPolicy (nnName req) w = Ok p → tsIsZero (mDeletionTimestamp (polMeta p)) = true →
     ∀ x v, wsPolicyName (winSpec x) = polName p → wsWindowUntil (winSpec x) = None → R v (createWindow x v).2) →
  R w (final (policy_Reconcile registry Recorder req) w).
Proof.
  intros H. unfold policy_Reconcile, final. rewrite bind_try_reads. destruct (getPolicy _ w) as [p|e] eqn:Ep.
  2:{ by destruct (IgnoreNotFound e). }
  destruct (tsIsZero _) eqn:Ed; cbn [negb]; [|apply writes_cleanup]. specialize (H p eq_refl Ed).
  destruct (policy_has_finalizer p); cbn [negb].
  - destruct (FromSpec _) as [flt|e]; [by apply writes_reconcile_policy|]. revert w Ep H.
    intros w _ _. refine (_ : R w (final (_ ← updateStatus p 0 0 0 0 (Some e); throw e) w)).
    apply keeps_bind; [apply _ | apply writes_updateStatus | intros ?; apply keeps_throw, _].
  - refine (_ : R w (final (_ ← PatchPolicy p (with_policy_finalizer p); mret ctrl_done) w)). writes_tac.
Qed.
End writes.
