(* ===== verification/Marks.v ===== *)
(** * Marks: where the flags of a window come from

    Two flags of a window's status open the gate, SpareReady and ForcedCool.
    This file follows them through every write of either reconciler, once for all
    clients: [Marking] says what a client owes (what it stores and what it
    answers carries flags that some evidence accounts for, and its writes keep it
    so), [Course] what holds of the copy of the window that a reconcile works on.
    History.v instantiates both with whole reconciles that follow one another,
    Threads.v with reconciles that interrupt one another. *)
From S2P Require Import Evictgate.
From S2P Require Import Prelude GoStrings GoTime Meta Api Kube Indexes Naming Filters Signals PolicyOwn Workload.
From S2P Require Import Fields WindowPhase ScaleActions Spare Plan PlanSpec Frame Observe WindowController WindowSpec.
From S2P Require Import PolicyController PolicySpec.

#[local] Open Scope Z_scope.

Definition flags (x : EvictionGuardWindow) : bool * bool := (wtSpareReady (winStatus x), wtForcedCool (winStatus x)).

(** What accounts for a window's being SpareReady, and for its being forced, as
    far as a state of the client knows. *)
Record evidence (W : Type) := Evidence {
  ev_spare : W → NamespacedName → Prop;
  ev_forced : W → NamespacedName → Prop
}.
Arguments Evidence {W}.
Arguments ev_spare {W}.
Arguments ev_forced {W}.

Definition marked {W} (E : evidence W) (w : W) (x : EvictionGuardWindow) : Prop :=
  (wtSpareReady (winStatus x) = true → ev_spare E w (win_key x)) ∧ (wtForcedCool (winStatus x) = true → ev_forced E w (win_key x)).

(** Runs that keep the windows sound, and forget nothing. *)
Definition sounds {W} (sound : W → Prop) (later : W → W → Prop) (w w' : W) : Prop := sound w → sound w' ∧ later w w'.

Class Marking {Obj W : Type} (C : Client Obj W) (E : evidence W) (sound : W → Prop) (later : W → W → Prop) : Prop := {
  later_preorder :: PreOrder later;
  later_spare w w' k : later w w' → ev_spare E w k → ev_spare E w' k;
  later_forced w w' k : later w w' → ev_forced E w k → ev_forced E w' k;
  sound_stored k w x : sound w → getWindow k w = Ok x → win_key x = k ∧ marked E w x;
  sounds_object g k p w : sounds sound later w (patchUnstructured g k p w).2;
  sounds_create x w : sounds sound later w (createWindow x w).2;
  sounds_patch b x w : sounds sound later w (patchWindow b x w).2;
  sounds_delete k w : sounds sound later w (deleteWindow k w).2;
  sounds_update x w : marked E w x → sounds sound later w (updateWindowStatus x w).2;
  sounds_policy b x w : sounds sound later w (patchPolicy b x w).2;
  sounds_policy_status x w : sounds sound later w (updatePolicyStatus x w).2;
  create_unmarked x w y w' : createWindow x w = (Ok y, w') → flags y = (false, false);
  patch_marked b x w y w' : sound w → patchWindow b x w = (Ok y, w') → win_key x = win_key b →
    win_key y = win_key b ∧ marked E w' y;
  update_unchanged x w y w' : updateWindowStatus x w = (Ok y, w') → win_key y = win_key x ∧ flags y = flags x
}.

(** [y] is [x] with the spare pods reported that were counted for it. *)
Definition reports (x : EvictionGuardWindow) (ready safe : Z) (y : EvictionGuardWindow) : Prop :=
  winMeta y = winMeta x ∧ winSpec y = winSpec x
  ∧ wtReadyReplicas (winStatus y) = ready ∧ wtSafeReadyReplicas (winStatus y) = safe
  ∧ wtSpareReady (winStatus y) = (wsBaseline (winSpec x) <=? safe)
  ∧ wtForcedCool (winStatus y) = wtForcedCool (winStatus x).

(** A reconcile of a window works on a copy that it read, reports the spare pods
    of [dep] that it counts by it, and patches its cooldown. *)
Class Course {Obj W : Type} `{L : KubeLib} (C : Client Obj W) (sound : W → Prop) (later : W → W → Prop)
    (dep : option Deployment) (calm : W → W → Prop) (course : EvictionGuardWindow → W → Prop) : Prop := {
  calm_preorder :: PreOrder calm;
  calm_object g k p w : calm w (patchUnstructured g k p w).2;
  course_calm x w w' : calm w w' → course x w → course x w';
  course_report x w ready safe y : course x w → spareCounts x dep w = Ok (ready, safe) → reports x ready safe y →
    sounds sound later w (updateWindowStatus y w).2;
  course_patch x u w y w' : sound w → course x w → patchWindow x (with_spec (set_until u) x) w = (Ok y, w') → course y w'
}.

Section marks.
Context {Obj W : Type} `{L : KubeLib} `{C : Client Obj W} {AL : AnswerLaws C} {LL : KubeLibLaws L}.
Context {E : evidence W} {sound : W → Prop} {later : W → W → Prop} {MK : Marking C E sound later}.
Context (registry : Registry) (Recorder : bool).

#[local] Abbreviation marked := (marked E).
#[local] Abbreviation sounds := (sounds sound later).

#[local] Instance sounds_preorder : PreOrder sounds.
Proof.
  split; [by intros w H|]. intros w1 w2 w3 H12 H23 H1. destruct (H12 H1) as [H2 L1]. destruct (H23 H2) as [H3 L2].
  split; [done | by transitivity w2].
Qed.

Lemma marked_flags w x y : flags x = flags y → win_key x = win_key y → marked w y → marked w x.
Proof. unfold flags, Marks.marked. intros [= -> ->] ->. done. Qed.

Lemma marked_fresh w x : flags x = (false, false) → marked w x.
Proof. unfold flags, Marks.marked. intros [= -> ->]. done. Qed.

Lemma marked_later x w w' : later w w' → marked w x → marked w' x.
Proof. intros Hl [H1 H2]. split; intros H; [by eapply later_spare, H1 | by eapply later_forced, H2]. Qed.

(** ** A logic of runs that keep the windows sound *)

Definition holds {A} (m : M W A) (w : W) (Q : A → W → Prop) : Prop :=
  sound w → ∀ r w' es, m w = (r, w', es) → sound w' ∧ later w w' ∧ ∀ a, r = Ok a → Q a w'.

Lemma holds_bind {A B} (m : M W A) (f : A → M W B) w Q :
  holds m w (λ a w1, holds (f a) w1 Q) → holds (m ≫= f) w Q.
Proof.
  intros Hm Hw r w' es [(e & He & ->)|(a & w1 & es1 & es2 & H1 & H2 & ->)]%bind_inv.
  - destruct (Hm Hw _ _ _ He) as (Hs & Hl & _). done.
  - destruct (Hm Hw _ _ _ H1) as (Hs & Hl & Hq). destruct (Hq a eq_refl Hs _ _ _ H2) as (Hs' & Hl' & Hq').
    split; [done|]. split; [by transitivity w1 | done].
Qed.

Lemma holds_ret {A} (a : A) w (Q : A → W → Prop) : (sound w → Q a w) → holds (mret a) w Q.
Proof. intros HQ Hw r w' es (-> & -> & ->)%ret_inv. split_and!; [done..|]. intros ? [= <-]. by apply HQ. Qed.

Lemma holds_reads {A} (f : W → result A) w (Q : A → W → Prop) : (∀ a, f w = Ok a → sound w → Q a w) → holds (reads f) w Q.
Proof. intros HQ Hw r w' es (-> & -> & ->)%reads_inv. split_and!; [done..|]. intros a Ha. by apply HQ. Qed.

Lemma holds_now w (Q : Time → W → Prop) : (sound w → Q (clock w) w) → holds now w Q.
Proof. intros HQ Hw r w' es [= <- <- <-]. split_and!; [done..|]. intros a [= <-]. by apply HQ. Qed.

Lemma holds_throw {A} e w (Q : A → W → Prop) : holds (throw e) w Q.
Proof. by intros Hw r w' es [= <- <- <-]. Qed.

Lemma holds_try {A} (m : M W A) w (Q : result A → W → Prop) :
  holds m w (λ a w', Q (Ok a) w') → (∀ e w', later w w' → Q (Err e) w') → holds (try m) w Q.
Proof.
  intros Hm He Hw r w' es. unfold try. destruct (m w) as [[r1 w1] es1] eqn:Em. intros [= <- <- <-].
  destruct (Hm Hw _ _ _ Em) as (Hs & Hl & Hq). split_and!; [done..|]. intros a [= <-].
  destruct r1 as [b|e]; [by apply Hq | by apply He].
Qed.

(** A part that only says something. *)
Lemma holds_silent {A} (m : M W A) w (Q : A → W → Prop) : keeps eq m → (∀ a, Q a w) → holds m w Q.
Proof. intros Hm HQ Hw r w' es H. rewrite -(keeps_run _ _ _ _ _ _ Hm H). by split_and!. Qed.

(** A part whose result does not matter, under what it keeps. *)
Lemma holds_keeps {A} (R : W → W → Prop) (m : M W A) w (Q : A → W → Prop) :
  keeps sounds m → keeps R m → (∀ a w', R w w' → later w w' → Q a w') → holds m w Q.
Proof.
  intros Hs HR HQ Hw r w' es H. destruct (keeps_run _ _ _ _ _ _ Hs H Hw) as [Hw' Hl]. split_and!; [done..|].
  intros a _. apply HQ; [|done]. exact (keeps_run _ _ _ _ _ _ HR H).
Qed.

Lemma keeps_holds {A} (m : M W A) w (Q : A → W → Prop) : keeps sounds m → (∀ a w', later w w' → Q a w') → holds m w Q.
Proof. intros Hs HQ Hw r w' es H. destruct (keeps_run _ _ _ _ _ _ Hs H Hw) as [Hw' Hl]. split_and!; [done..|]. auto. Qed.

(** ... where what it keeps is what is known of a window in hand. *)
Lemma holds_skip {A} x (m : M W A) w (Q : A → W → Prop) :
  marked w x → keeps sounds m → (∀ a w', marked w' x → Q a w') → holds m w Q.
Proof. intros Hx Hs HQ. apply keeps_holds; [done|]. intros a w' Hl. by eapply HQ, marked_later. Qed.

Lemma holds_sounds {A} (m : M W A) w : holds m w (λ _ _, True) → sounds w (final m w).
Proof.
  intros Hm Hw. unfold final. destruct (m w) as [[r w'] es] eqn:Em. destruct (Hm Hw _ _ _ Em) as (? & ? & _). by split.
Qed.

Lemma holds_mono {A} (m : M W A) w (Q Q' : A → W → Prop) : (∀ a w', Q a w' → Q' a w') → holds m w Q → holds m w Q'.
Proof. intros HQ Hm Hw r w' es H. destruct (Hm Hw _ _ _ H) as (Hs & Hl & Hq). split_and!; [done..|]. eauto. Qed.

Lemma holds_write {A} (f : W → result A * W) e w (Q : A → W → Prop) :
  sounds w (f w).2 → (∀ y w', sound w → f w = (Ok y, w') → Q y w') → holds (write f e) w Q.
Proof.
  intros Hs HQ Hw r w' es. unfold write. destruct (f w) as [r1 w1] eqn:Ef. intros [= <- <- <-].
  destruct (Hs Hw) as [Hs1 Hl]. split_and!; [done..|]. intros y ->. by apply HQ.
Qed.

Lemma holds_PatchWindow b x w (Q : EvictionGuardWindow → W → Prop) :
  win_key x = win_key b →
  (∀ y w', sound w → patchWindow b x w = (Ok y, w') → win_key y = win_key b → marked w' y → Q y w') → holds (PatchWindow b x) w Q.
Proof.
  intros Hk HQ. apply holds_write; [apply sounds_patch|]. intros y w' Hw Hy.
  destruct (patch_marked _ _ _ _ _ Hw Hy Hk). by apply HQ.
Qed.

(** The last write of a run. *)
Lemma holds_last {A} (f : W → result A * W) e w : sounds w (f w).2 → holds (write f e) w (λ _ _, True).
Proof. intros Hs. by apply holds_write. Qed.

Lemma holds_UpdateWindowStatus x w (Q : EvictionGuardWindow → W → Prop) :
  marked w x → (∀ y w', sound w → updateWindowStatus x w = (Ok y, w') → win_key y = win_key x → Q y w') →
  holds (UpdateWindowStatus x) w Q.
Proof.
  intros Hx HQ. apply holds_write; [by apply sounds_update|]. intros y w' Hw Hy.
  by apply HQ; [..|apply (update_unchanged _ _ _ _ Hy)].
Qed.

(** ** The policy reconciler marks no window *)

Definition alike (x y : EvictionGuardWindow) : Prop := flags x = flags y ∧ win_key x = win_key y.

Lemma alike_marked w x y : alike x y → marked w y → marked w x.
Proof. intros [Hf Hk]. by apply marked_flags. Qed.

Lemma dirty_phase_alike p x : alike (dirty_phase p x).1 x.1.
Proof. unfold dirty_phase. by destruct (negb _). Qed.

Lemma dirty_scale_time_alike t x : alike (dirty_scale_time t x).1 x.1.
Proof. unfold dirty_scale_time. by destruct (wtLastScaleTime _). Qed.

Lemma dirty_message_alike msg x : alike (dirty_message msg x).1 x.1.
Proof. unfold dirty_message. by destruct (negb _). Qed.

Lemma capacity_alike win err t win' g flip : applyCapacityApplied win err t = (win', g, flip) → alike win' win.
Proof. unfold applyCapacityApplied. intros [= <- _ _]. done. Qed.

Lemma holds_lookup policy s w (Q : option EvictionGuardWindow → W → Prop) :
  (∀ o, (∀ b, o = Some b → marked w b) → Q o w) → holds (lookup_window policy s) w Q.
Proof.
  intros HQ Hw r w' es. destruct (lookup_window_run policy s w) as (r1 & -> & Hr). intros [= <- <- <-]. split_and!; [done..|].
  intros o ->. apply HQ. intros b ->. by eapply sound_stored, (Hr _ eq_refl).
Qed.

Lemma holds_held_back policy win w (Q : bool → W → Prop) : (∀ b, Q b w) → holds (held_back policy win) w Q.
Proof. intros HQ Hw r w' es. rewrite held_back_run. intros [= <- <- <-]. split_and!; [done..|]. auto. Qed.

Lemma holds_create_window policy x w (Q : EvictionGuardWindow → W → Prop) :
  (∀ y w', marked w' y → Q y w') → holds (create_window policy x) w Q.
Proof.
  intros HQ Hw r w' es [(-> & _ & Hr)|(y & Hy & _)]%create_window_run; [split_and!; [done..|]; by intros a ->|].
  pose proof (sounds_create y w Hw) as [Hs Hl]. rewrite Hy in Hs Hl. split_and!; [done..|]. intros a ->.
  by eapply HQ, marked_fresh, create_unmarked.
Qed.

Lemma keeps_emitf g ty reason note : keeps sounds (emitf Recorder g ty reason note : M W unit).
Proof. unfold emitf. destruct Recorder; [apply keeps_tell, _ | apply keeps_ret, _]. Qed.

Lemma keeps_plan_metrics p ns n a d b : keeps sounds (setWorkloadPlanMetrics p ns n a d b : M W unit).
Proof. unfold setWorkloadPlanMetrics. keeps_tac. Qed.

Lemma holds_record_window policy s win actions plan nodes w (Q : EvictionGuardWindow → W → Prop) :
  (∀ b, win = Some b → marked w b) → (∀ y w', marked w' y → Q y w') →
  holds (record_window Recorder policy s win actions plan nodes) w Q.
Proof.
  intros Hb HQ. unfold record_window. destruct win as [b|].
  - apply holds_PatchWindow; [done|]. intros y w' _ _ _ Hy. by apply HQ.
  - apply holds_bind, holds_create_window. intros y w1 Hy. apply holds_bind, (holds_skip y); [done | apply keeps_emitf|].
    intros _ w2 Hy2. apply holds_ret. intros _. by apply HQ.
Qed.

Lemma holds_report_apply win msg err w : marked w win → holds (report_apply win msg err) w (λ _ _, True).
Proof.
  intros Hm. unfold report_apply. apply holds_bind, holds_now. intros _. cbv zeta.
  destruct (applyCapacityApplied _ err _) as [[win' gauge] flip] eqn:Ha.
  assert (marked w win') as Hm'.
  { apply capacity_alike in Ha. eapply alike_marked, alike_marked, alike_marked, alike_marked, Hm;
      [exact Ha | apply dirty_message_alike | apply dirty_scale_time_alike | apply (dirty_phase_alike _ (win, false))]. }
  apply holds_bind, (holds_skip win'); [done | apply keeps_tell, _|]. intros _ w1 Hm1. apply holds_bind.
  match goal with |- holds (if ?b then _ else _) _ _ => destruct b end.
  - apply holds_bind, holds_try; [apply holds_UpdateWindowStatus; [done|]; intros z w2 _ _ _; apply holds_ret; intros _ |
      intros e w2 _]; destruct err; try apply holds_throw; by apply holds_ret.
  - apply holds_ret. intros _. destruct err; [apply holds_throw | by apply holds_ret].
Qed.

Lemma keeps_ensureWindow policy s : keeps sounds (ensureWindow Recorder policy s : M W unit).
Proof.
  intros w. apply holds_sounds. unfold ensureWindow. apply holds_bind, holds_lookup. intros win Hb.
  assert (∀ w1, later w w1 → ∀ b, win = Some b → marked w1 b) as Hb' by (intros w1 H b ->; by eapply marked_later, Hb).
  apply holds_bind, holds_held_back. intros [|]; [by apply holds_ret|]. cbv zeta.
  apply holds_bind, keeps_holds; [apply keeps_tell, _|]. intros _ w1 H1.
  apply holds_bind, keeps_holds; [apply (buildPlan_frame _)|]. intros pl w2 H2.
  apply holds_bind, keeps_holds; [apply keeps_plan_metrics|]. intros _ w3 H3.
  apply holds_bind, holds_record_window; [apply Hb'; transitivity w1; [done|]; by transitivity w2|]. intros y w4 Hy.
  apply holds_bind, (holds_skip y); [done | apply apply_frame; [apply _ | apply sounds_object]|]. intros [scaled err] w5 Hy5.
  apply holds_bind, (holds_skip y); [done| |].
  { destruct err; [apply keeps_ret, _|]. destruct scaled; [apply keeps_emitf | apply keeps_ret, _]. }
  intros _ w6. by apply holds_report_apply.
Qed.

Lemma keeps_ensureDeferredWindow policy s : keeps sounds (ensureDeferredWindow Recorder policy s : M W unit).
Proof.
  intros w. apply holds_sounds. unfold ensureDeferredWindow. apply holds_bind, holds_lookup. intros win Hb.
  apply holds_bind, holds_held_back. intros [|]; [by apply holds_ret|].
  apply holds_bind, keeps_holds; [apply keeps_tell, _|]. intros _ w1 _. cbv zeta. destruct win as [b|].
  - unfold refresh_deferred. apply holds_bind, holds_PatchWindow; [done|]. intros y w2 _ _ _ Hy.
    apply holds_bind, holds_now. intros _. apply holds_bind, holds_now. intros _. cbv zeta.
    destruct (applyCapacityApplied _ _ _) as [[win' gauge] flip] eqn:Ha.
    assert (marked w2 win') as Hm.
    { apply capacity_alike in Ha. eapply alike_marked, alike_marked, alike_marked, alike_marked, Hy;
        [exact Ha | apply dirty_scale_time_alike | apply dirty_message_alike | apply (dirty_phase_alike _ (y, false))]. }
    apply holds_bind, (holds_skip win'); [done | apply keeps_tell, _|]. intros _ w3 Hm3.
    match goal with |- holds (if ?b then _ else _) _ _ => destruct b end; [|by apply holds_ret].
    apply holds_bind, holds_UpdateWindowStatus; [done|]. intros z w4 _ _ _. by apply holds_ret.
  - unfold open_deferred. apply holds_bind, holds_create_window. intros y w2 Hy.
    apply holds_bind, holds_now. intros _. cbv zeta.
    destruct (applyCapacityApplied _ _ _) as [[win' gauge] flip] eqn:Ha.
    assert (marked w2 win') as Hm by (apply capacity_alike in Ha; by eapply alike_marked).
    apply holds_bind, (holds_skip win'); [done | apply keeps_tell, _|]. intros _ w3 Hm3.
    apply holds_bind, holds_UpdateWindowStatus; [done|]. intros z w4 _ _ _. apply keeps_holds; [apply keeps_emitf | done].
Qed.

Lemma keeps_publish policy s : keeps sounds (publishWorkloadMetrics policy s : M W unit).
Proof.
  unfold publishWorkloadMetrics. apply keeps_bind; [apply _| |intros win].
  { intros w. unfold final. destruct (lookup_window_run policy s w) as (r & -> & _). reflexivity. }
  apply keeps_bind; [apply _|apply (buildPlan_frame _)|]. intros pl. apply keeps_plan_metrics.
Qed.

Lemma keeps_sweep_all policy windowCap l a : keeps sounds (sweep_all Recorder policy windowCap l a : M W _).
Proof.
  revert a. induction l as [|s l IH]; intros a; cbn [sweep_all]; [apply keeps_ret, _|].
  apply keeps_bind; [apply _| |intros a'; apply IH]. unfold sweep_one.
  apply keeps_bind; [apply _|apply keeps_reads, _|]. intros win. cbv zeta.
  match goal with |- keeps _ (if ?b then _ else _) => destruct b end.
  - apply keeps_bind; [apply _|apply keeps_try, keeps_ensureDeferredWindow|]. intros [u|e]; [|apply keeps_ret, _].
    apply keeps_bind; [apply _|apply keeps_try, keeps_publish | intros ?; apply keeps_ret, _].
  - apply keeps_bind; [apply _|apply keeps_try, keeps_ensureWindow|]. intros [u|e]; [apply keeps_ret, _|].
    apply keeps_bind; [apply _|apply keeps_tell, _|]. intros _.
    do 2 (apply keeps_bind; [apply _|apply keeps_emitf|]; intros _). apply keeps_ret, _.
Qed.

Lemma keeps_updateStatus policy a b c d e : keeps sounds (updateStatus policy a b c d e : M W _).
Proof.
  unfold updateStatus. apply keeps_bind; [apply _|apply keeps_now, _|]. intros t. cbv zeta.
  apply keeps_bind; [apply _| |intros ?; apply keeps_ret, _]. apply keeps_write. intros w. apply sounds_policy_status.
Qed.

Lemma keeps_ignore_nf (m : M W unit) : keeps sounds m → keeps sounds (ignore_nf m).
Proof.
  intros H. unfold ignore_nf. apply keeps_bind; [apply _|by apply keeps_try|]. intros [u|e]; [apply keeps_ret, _|].
  destruct (IgnoreNotFound e); [apply keeps_throw, _ | apply keeps_ret, _].
Qed.

Lemma keeps_DeleteWindow k : keeps sounds (DeleteWindow k : M W unit).
Proof. apply keeps_write. intros w. apply sounds_delete. Qed.

Lemma keeps_PatchWindow b x : keeps sounds (PatchWindow b x : M W _).
Proof. apply keeps_write. intros w. apply sounds_patch. Qed.

Lemma keeps_finish policy n m cap workloads a :
  keeps sounds (finish_reconcile registry Recorder policy n m cap workloads a : M W _).
Proof.
  unfold finish_reconcile. apply keeps_bind; [apply _| |intros _].
  { destruct (0 <? swDeferred a); [apply keeps_emitf | apply keeps_ret, _]. }
  apply keeps_bind; [apply _|apply keeps_tell, _|]. intros _. apply keeps_bind; [apply _| |intros _].
  { unfold syncClearedWindows. apply keeps_bind; [apply _|apply keeps_reads, _|]. intros l.
    apply keeps_for_each; [apply _|]. intros win _. unfold sync_window. cbv zeta.
    destruct (workloads !! _); [apply keeps_ret, _|]. apply keeps_bind; [apply _|apply keeps_tell, _|]. intros _.
    destruct (wsVulnerableNodes _); [apply keeps_ret, _|]. apply keeps_bind; [apply _|apply keeps_reads, _|].
    intros []; [apply keeps_ret, _|]. apply keeps_bind; [apply _|apply keeps_PatchWindow | intros ?; apply keeps_ret, _]. }
  apply keeps_bind; [apply _|apply keeps_reads, _|]. intros k.
  apply keeps_bind; [apply _|apply keeps_updateStatus | intros ?; apply keeps_ret, _].
Qed.

Lemma keeps_PatchPolicy b x : keeps sounds (PatchPolicy b x : M W _).
Proof. apply keeps_write. intros w. apply sounds_policy. Qed.

(** A reconcile of a policy opens no gate. *)
Lemma keeps_policy_Reconcile req : keeps sounds (policy_Reconcile registry Recorder req).
Proof.
  unfold policy_Reconcile. apply keeps_bind; [apply _|apply keeps_try, keeps_reads, _|]. intros [policy|e].
  2:{ destruct (IgnoreNotFound e); [apply keeps_throw, _ | apply keeps_ret, _]. }
  destruct (negb (tsIsZero _)).
  { unfold cleanup. apply keeps_bind; [apply _|apply keeps_reads, _|]. intros [|x l].
    - destruct (policy_has_finalizer policy); [|apply keeps_ret, _].
      apply keeps_bind; [apply _|apply keeps_PatchPolicy | intros ?; apply keeps_ret, _].
    - apply keeps_bind; [apply _| |intros ?; apply keeps_ret, _]. apply keeps_for_each; [apply _|]. intros y _.
      apply keeps_ignore_nf, keeps_DeleteWindow. }
  destruct (negb (policy_has_finalizer policy)).
  { apply keeps_bind; [apply _|apply keeps_PatchPolicy | intros ?; apply keeps_ret, _]. }
  destruct (FromSpec _) as [flt|e].
  2:{ apply keeps_bind; [apply _|apply keeps_updateStatus | intros ?; apply keeps_throw, _]. }
  unfold reconcile_policy. apply keeps_bind; [apply _|apply keeps_reads, _|]. intros nodes.
  apply keeps_bind; [apply _|apply keeps_lift, _|]. intros x. cbv zeta.
  do 2 (apply keeps_bind; [apply _|apply keeps_tell, _|]; intros _).
  do 2 (apply keeps_bind; [apply _|apply keeps_reads, _|]; intros ?).
  apply keeps_bind; [apply _|apply keeps_sweep_all|]. intros a'. apply keeps_finish.
Qed.

(** ** The window reconciler marks what it has seen *)

Lemma keeps_clear_metrics win : keeps sounds (clear_metrics win : M W unit).
Proof. intros w. unfold final, clear_metrics. rewrite clearWorkloadPlanMetrics_run. reflexivity. Qed.

Lemma keeps_drop_finalizer win : keeps sounds (drop_finalizer win : M W unit).
Proof.
  unfold drop_finalizer. destruct (has_finalizer win); [|apply keeps_ret, _].
  apply keeps_bind; [apply _|apply keeps_PatchWindow | intros ?; apply keeps_ret, _].
Qed.

Lemma keeps_deleteClosedWindow win : keeps sounds (deleteClosedWindow win : M W _).
Proof.
  unfold deleteClosedWindow. apply keeps_bind; [apply _|apply keeps_clear_metrics|]. intros _.
  apply keeps_bind; [apply _|apply keeps_drop_finalizer|]. intros _.
  apply keeps_bind; [apply _|apply keeps_ignore_nf, keeps_DeleteWindow | intros _; apply keeps_ret, _].
Qed.

Lemma keeps_leave win : keeps sounds (scaleBackAndUnfinalize win : M W _).
Proof.
  unfold scaleBackAndUnfinalize.
  apply keeps_bind; [apply _|apply keeps_ignore_nf, restoreActions_frame; [apply _ | apply sounds_object]|]. intros _.
  apply keeps_bind; [apply _|apply keeps_clear_metrics|]. intros _.
  apply keeps_bind; [apply _|apply keeps_drop_finalizer | intros _; apply keeps_ret, _].
Qed.

(** ** The window reconciler on its course *)

Section course.
Context (policy : EvictionGuardPolicy) (dep : option Deployment).
Context {calm : W → W → Prop} {course : EvictionGuardWindow → W → Prop} {CO : Course C sound later dep calm course}.

Lemma calm_emitf g ty reason note : keeps calm (emitf Recorder g ty reason note : M W unit).
Proof. unfold emitf. destruct Recorder; [apply keeps_tell, _ | apply keeps_ret, _]. Qed.

Lemma emitf_silent g ty reason note : keeps eq (emitf Recorder g ty reason note : M W unit).
Proof. unfold emitf. destruct Recorder; [apply keeps_tell, _ | apply keeps_ret, _]. Qed.

Lemma calm_clear_metrics win : keeps calm (clear_metrics win : M W unit).
Proof. intros w. unfold final, clear_metrics. rewrite clearWorkloadPlanMetrics_run. reflexivity. Qed.

(** A part of the reconcile that leaves it on its course. *)
Lemma holds_on {A} x (m : M W A) w (Q : A → W → Prop) :
  course x w → keeps sounds m → keeps calm m → (∀ a w', later w w' → course x w' → Q a w') → holds m w Q.
Proof. intros Hx Hs Hc HQ. apply (holds_keeps calm); [done..|]. intros a w' Hw Hl. apply HQ; [done|]. by eapply course_calm. Qed.

Lemma holds_writeStatus x phase msg w : course x w → holds (writeStatus Recorder x dep phase msg) w (λ _ _, True).
Proof.
  intros Hx. unfold writeStatus. apply holds_bind, holds_reads. intros [ready safe] Hc Hw.
  apply holds_bind, holds_now. intros _. cbv zeta.
  destruct (applySpareStatus x ready safe _) as [[x1 gauge] flip] eqn:Ha.
  assert (reports x ready safe x1) as Hr by (unfold applySpareStatus in Ha; by injection Ha as <- _ _).
  apply holds_bind, holds_silent; [apply keeps_tell, _|]. intros _. apply holds_bind, holds_silent.
  { destruct flip; [|apply keeps_ret, _]. apply keeps_bind; [apply _| |intros _];
      match goal with |- keeps _ (if ?b then _ else _) => destruct b end; first [apply emitf_silent | apply keeps_ret, _]. }
  intros _. match goal with |- holds (if ?b then _ else _) _ _ => destruct b end; [by apply holds_ret|].
  apply holds_last. by eapply course_report.
Qed.

(** A patch that changes the cooldown only. *)
Lemma holds_patch_until x u w (Q : EvictionGuardWindow → W → Prop) :
  course x w → (∀ y w', course y w' → Q y w') → holds (PatchWindow x (with_spec (set_until u) x)) w Q.
Proof. intros Hx HQ. apply holds_PatchWindow; [done|]. intros y w' Hw Hp _ _. by eapply HQ, course_patch. Qed.

Lemma holds_stampCooldown x y u w (Q : unit → W → Prop) :
  course y w → (∀ w', course y w' → Q () w') → holds (stampCooldown policy dep x u) w Q.
Proof.
  intros Hy HQ. apply (holds_on y); [done | apply stampCooldown_frame; [apply _ | apply sounds_object]
    | apply stampCooldown_frame; [apply _ | apply calm_object] | intros [] w' _; apply HQ].
Qed.

Lemma holds_scaleBackIfAllowed x w (Q : unit → W → Prop) :
  course x w → (∀ w', course x w' → Q () w') → holds (scaleBackIfAllowed Recorder x) w Q.
Proof.
  intros Hx HQ. unfold scaleBackIfAllowed. apply holds_bind, (holds_on x); [done
    | apply keeps_try, restoreActions_frame; [apply _ | apply sounds_object]
    | apply keeps_try, restoreActions_frame; [apply _ | apply calm_object]|].
  intros r w1 _ Hx1.
  destruct r as [u|e]; apply holds_bind, (holds_on x); try done; try (apply keeps_tell; apply _); intros _ w2 _ Hx2; [|apply holds_throw].
  apply holds_bind, (holds_on x); [done | apply keeps_clear_metrics | apply calm_clear_metrics|]. intros _ w3 _ Hx3.
  apply (holds_on x); [done | apply keeps_emitf | apply calm_emitf|]. intros [] w4 _. apply HQ.
Qed.

Lemma holds_take_step x force until t dec w : course x w → holds (take_step Recorder x policy dep force until t dec) w (λ _ _, True).
Proof.
  intros Hx. unfold take_step.
  assert (∀ y ph msg w', course y w' → ∀ (k : EvictionGuardWindow → CtrlResult),
    holds (writeStatus Recorder y dep ph msg ≫= λ z, mret (k z)) w' (λ _ _, True)) as Hws.
  { intros y ph msg w' Hy k. apply holds_bind. eapply holds_mono; [|by apply holds_writeStatus]. intros z w'' _. by apply holds_ret. }
  destruct (pdStep dec).
  1, 2: (apply holds_bind; destruct (pdAbortCooldown dec); [|apply holds_ret; intros _; apply (Hws _ _ _ _ Hx)];
         unfold abortCooldown; destruct (wsWindowUntil (winSpec x)); [|apply holds_ret; intros _; apply (Hws _ _ _ _ Hx)];
         apply holds_bind, holds_patch_until; [done|]; intros y w1 Hy; apply holds_bind, (holds_stampCooldown _ y); [done|];
         intros w2 Hy2; apply holds_ret; intros _; apply (Hws _ _ _ _ Hy2)).
  - apply holds_bind, holds_scaleBackIfAllowed; [done|]. intros w1 Hx1. cbv zeta.
    apply holds_bind, holds_patch_until; [done|]. intros y w2 Hy. apply holds_bind, (holds_stampCooldown _ y); [done|].
    intros w3 Hy3. apply (Hws _ _ _ _ Hy3).
  - apply (Hws _ _ _ _ Hx).
  - apply holds_bind. eapply holds_mono; [|by apply holds_writeStatus]. intros y w' _.
    destruct (pdRetainClosed dec); [by apply holds_ret|]. by apply keeps_holds; [apply keeps_deleteClosedWindow|].
Qed.

Lemma holds_reconcile_live x0 w0 :
  course x0 w0 →
  (maxWindowExceeded (Some policy) (Some x0) (clock w0) = true → wtForcedCool (winStatus x0) = false →
     let run := updateWindowStatus (with_status (set_forced true) x0) w0 in
     sounds w0 run.2 ∧ ∀ y w', sound w0 → run = (Ok y, w') → course y w') →
  holds (reconcile_live registry Recorder x0 policy dep) w0 (λ _ _, True).
Proof.
  intros Hx Hforced. unfold reconcile_live. destruct (_ && wtForcedCool _).
  { apply holds_bind, holds_reads. intros [|n l] _ _; [by apply keeps_holds; [apply keeps_deleteClosedWindow|] | by apply holds_ret]. }
  apply holds_bind, holds_reads. intros risk _ _. apply holds_bind, holds_now. intros _. cbv zeta.
  apply holds_bind. unfold stamp_forced.
  assert (∀ x w, course x w → ∀ (f : bool),
    holds (safe ← (if f then y ← reads (spareCounts x dep); mret y.2 else mret (wsBaseline (winSpec x)));
           take_step Recorder x policy dep (maxWindowExceeded (Some policy) (Some x0) (clock w0)) (until_of x) (clock w0)
             (decideWindowStep (PhaseInput risk.1 (maxWindowExceeded (Some policy) (Some x0) (clock w0))
                                  (wtForcedCool (winStatus x)) safe (wsBaseline (winSpec x)) (until_of x) (clock w0)))) w (λ _ _, True)) as Hrest.
  { intros x w Hxw f. apply holds_bind. destruct f.
    - apply holds_bind, holds_reads. intros y _ _. apply holds_ret. intros _. by apply holds_take_step.
    - apply holds_ret. intros _. by apply holds_take_step. }
  destruct (maxWindowExceeded _ _ _ && negb _) eqn:Ef; [|by apply holds_ret; intros _; apply (Hrest _ _ Hx)].
  apply andb_true_iff in Ef as [Ef Hf]. apply negb_true_iff in Hf. destruct (Hforced Ef Hf) as [Hs Hy]. cbv zeta.
  apply holds_bind, holds_silent; [apply emitf_silent|]. intros _.
  apply holds_bind, holds_silent; [apply keeps_tell, _|]. intros _.
  apply holds_write; [exact Hs|]. intros y w3 Hw Hu. by eapply Hrest, Hy.
Qed.
End course.

(** A reconcile of a window marks that window at most, with what it saw. *)
Lemma keeps_window_Reconcile req w :
  (∀ x policy dep, sound w → getWindow req w = Ok x → getPolicy (wsPolicyName (winSpec x)) w = Ok policy → target_is x w dep →
     ∃ calm course, Course C sound later dep calm course ∧ course x w
       ∧ (maxWindowExceeded (Some policy) (Some x) (clock w) = true → wtForcedCool (winStatus x) = false →
            let run := updateWindowStatus (with_status (set_forced true) x) w in
            sounds w run.2 ∧ ∀ y w', sound w → run = (Ok y, w') → course y w')) →
  sounds w (final (window_Reconcile registry Recorder req) w).
Proof.
  intros H Hw. revert Hw. unfold final.
  destruct (window_Reconcile_cases registry Recorder req w) as [-> _|x Hx _ <-|x r ok Hx _ _ ->|x policy dep Hx _ _ Hp Ht <-].
  - done.
  - apply keeps_leave.
  - apply sounds_patch.
  - intros Hw. destruct (H x policy dep Hw Hx Hp Ht) as (calm & course & HC & Hc & Hf). revert Hw.
    apply holds_sounds. by eapply holds_reconcile_live.
Qed.
End marks.

(** ** At the gate *)

(** An eviction that the gate lets through goes by the mark of a stored window. *)
Lemma allowed_by_mark {Obj W K} `{L : KubeLib} `{C : Client Obj W} (registry : Registry) (E : evidence K) v w pod dep node owner win r :
  (∀ k x, getWindow k w = Ok x → win_key x = k ∧ marked E v x) →
  gated registry w pod dep node owner win → Evaluate registry (Some pod) w = Ok r → rDecision r = Allow →
  let k := NN (mNamespace (dMeta dep)) (WindowName (polName owner) (mNamespace (dMeta dep)) (mName (dMeta dep))) in
  ∃ x, win = Some x ∧ getWindow k w = Ok x ∧ (ev_spare E v k ∨ ev_forced E v k).
Proof.
  intros Hw Hg He Hr k. rewrite (Evaluate_at_window _ _ _ _ _ _ _ Hg) in He.
  assert (activeWindowFor dep (Some owner) w = Ok win) as Ha by apply Hg.
  destruct win as [x|]; [|unfold evaluate_window in He; by injection He as <-].
  assert (getWindow k w = Ok x) as Hx.
  { unfold activeWindowFor in Ha. fold k in Ha. destruct (getWindow k w) as [y|e]; [|by destruct (IsNotFound e)].
    destruct (_ || _); [by injection Ha as -> | done]. }
  exists x. split; [done|]. split; [done|].
  destruct (Hw _ _ Hx) as [Hk [Hs Hf]]. rewrite Hk in Hs Hf. unfold evaluate_window in He. apply activeWindowFor_open in Ha.
  destruct (wtForcedCool (winStatus x)) eqn:Ef; [right; by apply Hf|]. destruct Ha as [Ha|?]; [|done].
  rewrite (bool_decide_eq_false_2 _ Ha) in He. destruct (wtSpareReady (winStatus x)) eqn:Es; [left; by apply Hs|].
  by injection He as <-.
Qed.
