(* ===== verification/History.v ===== *)
(** * Histories: who may let a pod go

    Reconciles of both controllers, each atomic, alternate with whatever else
    happens to the cluster short of writing windows.  This file says what a
    window's flags may stand for then (Marks.v), and concludes that an eviction
    behind the gate was paid for. *)
From S2P Require Import Evictgate.
From S2P Require Import Prelude GoStrings GoTime Meta Api Kube Indexes Naming Filters Signals PolicyOwn Workload.
From S2P Require Import Fields WindowPhase ScaleActions Spare Plan PlanSpec Frame Observe WindowController WindowSpec.
From S2P Require Import PolicyController PolicySpec Fake Marks.

#[local] Open Scope Z_scope.

(** ** Laws of the status subresource

    The status of a window is written by status updates only; a window is
    created without one.  An update that is reported as failed may have been
    applied. *)
Class StatusLaws {Obj W : Type} (C : Client Obj W) : Prop := {
  create_stores x w k y : getWindow k (createWindow x w).2 = Ok y →
    getWindow k w = Ok y ∨ (win_key y = win_key x ∧ flags y = (false, false));
  create_answers x w y w' : createWindow x w = (Ok y, w') → win_key y = win_key x ∧ flags y = (false, false);
  patch_stores b x w k y : getWindow k (patchWindow b x w).2 = Ok y → ∃ y0, getWindow k w = Ok y0 ∧ flags y = flags y0;
  patch_answers b x w y w' : patchWindow b x w = (Ok y, w') → win_key x = win_key b →
    win_key y = win_key b ∧ ∃ y0, getWindow (win_key b) w = Ok y0 ∧ flags y = flags y0;
  (** A patch that takes the last finalizer of a terminating window removes it. *)
  patch_current b x w y w' : patchWindow b x w = (Ok y, w') → win_key x = win_key b →
    mFinalizers (winMeta x) = mFinalizers (winMeta b) → getWindow (win_key b) w' = Ok y;
  update_stores x w k y : getWindow k (updateWindowStatus x w).2 = Ok y →
    getWindow k w = Ok y ∨ (win_key y = win_key x ∧ flags y = flags x);
  update_answers x w y w' : updateWindowStatus x w = (Ok y, w') → flags y = flags x;
  delete_stores k' w k y : getWindow k (deleteWindow k' w).2 = Ok y → ∃ y0, getWindow k w = Ok y0 ∧ flags y = flags y0;
  policy_windows b x w k : getWindow k (patchPolicy b x w).2 = getWindow k w;
  policy_status_windows x w k : getWindow k (updatePolicyStatus x w).2 = getWindow k w
}.

(** Writing a window or a workload is not writing a pod: what the pods are is
    up to the rest of the cluster. *)
Class PodLaws {Obj W : Type} (C : Client Obj W) : Prop := {
  patch_object_pods g k p w ns sel : listPodsSelected ns sel (patchUnstructured g k p w).2 = listPodsSelected ns sel w;
  patch_window_pods b x w ns sel : listPodsSelected ns sel (patchWindow b x w).2 = listPodsSelected ns sel w;
  update_status_pods x w ns sel : listPodsSelected ns sel (updateWindowStatus x w).2 = listPodsSelected ns sel w
}.

Definition same_pods {Obj W} `{C : Client Obj W} (w w' : W) : Prop := ∀ ns sel, listPodsSelected ns sel w' = listPodsSelected ns sel w.
Definition still {Obj W} `{C : Client Obj W} (w w' : W) : Prop := (∀ k, getWindow k w' = getWindow k w) ∧ same_pods w w'.

#[export] Instance still_preorder {Obj W} `{C : Client Obj W} : PreOrder still.
Proof.
  split; [by intros w; split|]. intros w1 w2 w3 [H1 P1] [H2 P2].
  split; [intros k; by rewrite H2 | intros ns sel; by rewrite P2].
Qed.

Section flags.
Context {Obj W : Type} `{L : KubeLib} `{C : Client Obj W}.
Context {AL : AnswerLaws C} {SL : WindowStoreLaws C} {LL : KubeLibLaws L} {TL : StatusLaws C} {PL : PodLaws C}.
Context (registry : Registry) (Recorder : bool).

Lemma still_object g k p w : still w (patchUnstructured g k p w).2.
Proof. split; [intros k'; apply patch_object_windows | intros ns sel; apply patch_object_pods]. Qed.

Lemma still_emitf g ty reason note : keeps still (emitf Recorder g ty reason note : M W unit).
Proof. unfold emitf. destruct Recorder; [apply keeps_tell, _ | apply keeps_ret, _]. Qed.

Lemma still_clear_metrics win : keeps still (clear_metrics win : M W unit).
Proof. intros w. unfold final, clear_metrics. rewrite clearWorkloadPlanMetrics_run. reflexivity. Qed.

(** ** The marks of one reconcile

    Nothing else happens during a reconcile, so the evidence is fixed: which
    windows may be SpareReady, and which may be force-cooled. *)
Section marked.
Context (S1 S2 : NamespacedName → Prop).

Definition accounts : evidence W := Evidence (λ _, S1) (λ _, S2).
Definition sound (w : W) : Prop := ∀ k x, getWindow k w = Ok x → marked accounts w x.
Definition any (w w' : W) : Prop := True.

(** What a write leaves of the windows that were sound. *)
Lemma sounds_stored w w' :
  (∀ k y, getWindow k w' = Ok y → marked accounts w' y ∨ ∃ y0, getWindow k w = Ok y0 ∧ flags y = flags y0) →
  sounds sound any w w'.
Proof.
  intros H Hw. split; [|done]. intros k y Hy. destruct (H k y Hy) as [?|(y0 & H0 & Hf)]; [done|].
  apply (marked_flags _ y y0 Hf); [|by eapply Hw]. pose proof (window_key _ _ _ Hy) as Hk. pose proof (window_key _ _ _ H0) as Hk0.
  by rewrite /win_key Hk Hk0.
Qed.

Lemma sounds_same w w' : (∀ k, getWindow k w' = getWindow k w) → sounds sound any w w'.
Proof. intros H. apply sounds_stored. intros k y. rewrite H. intros Hy. right. by exists y. Qed.

#[local] Instance atomic_marking : Marking C accounts sound any.
Proof.
  split; try done.
  - intros k w x Hw Hx. split; [by apply (window_key _ _ _ Hx) | by eapply Hw].
  - intros g k p w. apply sounds_same. intros k'. apply patch_object_windows.
  - intros x w. apply sounds_stored. intros k y [H0|[_ Hf]]%create_stores; [right; by exists y | left; by apply marked_fresh].
  - intros b x w. apply sounds_stored. intros k y Hy%patch_stores. by right.
  - intros k' w. apply sounds_stored. intros k y Hy%delete_stores. by right.
  - intros x w Hx. apply sounds_stored. intros k y [H0|[Hk Hf]]%update_stores; [right; by exists y | left; by eapply marked_flags].
  - intros b x w. apply sounds_same. intros k. apply policy_windows.
  - intros x w. apply sounds_same. intros k. apply policy_status_windows.
  - intros x w y w' H. apply (create_answers _ _ _ _ H).
  - intros b x w y w' Hw H Hk. destruct (patch_answers _ _ _ _ _ H Hk) as (Hy & y0 & H0 & Hf). split; [done|].
    apply (marked_flags _ y y0 Hf); [|by eapply Hw]. rewrite Hy. by rewrite /win_key (window_key _ _ _ H0).
  - intros x w y w' H. split; [|by eapply update_answers]. apply status_answer in H as (Hm & _). by rewrite /win_key Hm.
Qed.

Section course.
Context (w0 : W) (win0 : EvictionGuardWindow) (dep : option Deployment).
Context (Hspare : ∀ ready safe, spareCounts win0 dep w0 = Ok (ready, safe) → wsBaseline (winSpec win0) <= safe → S1 (win_key win0)).

(** The window the code holds is the stored one, and counts spare pods as the
    one it started from. *)
Record on_course (x : EvictionGuardWindow) (w : W) : Prop := {
  oc_marked : marked accounts w x;
  oc_key : win_key x = win_key win0;
  oc_nodes : wsVulnerableNodes (winSpec x) = wsVulnerableNodes (winSpec win0);
  oc_baseline : wsBaseline (winSpec x) = wsBaseline (winSpec win0);
  oc_stored : getWindow (win_key x) w = Ok x;
  oc_pods : same_pods w0 w
}.

Lemma on_course_counts x w : on_course x w → spareCounts x dep w = spareCounts win0 dep w0.
Proof.
  intros [_ _ Hn _ _ Hp]. unfold spareCounts. destruct dep as [d|]; [|done]. rewrite Hn.
  destruct (LabelSelectorAsSelector _) as [sel|e]; [|done]. cbn [mbind result_bind]. by rewrite Hp.
Qed.

Lemma atomic_course : Course C sound any dep still on_course.
Proof.
  split.
  - apply _.
  - apply still_object.
  - intros x w w' [Hw Hp] [H1 H2 H3 H4 H5 H6]. split; [done..| |]; [by rewrite Hw|]. intros ns sel. by rewrite Hp.
  - intros x w ready safe y Hx Hc (Hm & Hs & _ & _ & Hsp & Hfo). apply sounds_update. destruct (oc_marked _ _ Hx) as [_ Hf].
    assert (win_key y = win_key x) as Hk by by rewrite /win_key Hm. split; rewrite Hk ?Hfo //. rewrite Hsp. intros Hle%Z.leb_le.
    change (S1 (win_key x)). rewrite (oc_key _ _ Hx). rewrite (on_course_counts _ _ Hx) in Hc. rewrite (oc_baseline _ _ Hx) in Hle.
    by eapply Hspare.
  - intros x u w y w' Hw [H1 H2 H3 H4 H5 H6] Hp. destruct (patch_answer x (with_spec (set_until u) x) _ _ _ H5 eq_refl eq_refl Hp) as (Hs & _ & _).
    destruct (patch_marked _ _ _ _ _ Hw Hp eq_refl) as [Hk Hm].
    split; [done | by rewrite Hk | by rewrite Hs | by rewrite Hs | by rewrite Hk; eapply (patch_current x (with_spec (set_until u) x)) |].
    intros ns sel. rewrite -H6. pose proof (patch_window_pods x (with_spec (set_until u) x) w ns sel) as H. by rewrite Hp in H.
Qed.

(** The window that was just read is on its course, and still when it was forced. *)
Lemma on_course_start : sound w0 → getWindow (win_key win0) w0 = Ok win0 → on_course win0 w0.
Proof. intros Hw Hx. split; [by eapply Hw | done..]. Qed.

Lemma on_course_forced w y w' :
  S2 (win_key win0) → on_course win0 w → updateWindowStatus (with_status (set_forced true) win0) w = (Ok y, w') → on_course y w'.
Proof.
  intros Hf [H1 H2 H3 H4 H5 H6] Hu. destruct (update_unchanged _ _ _ _ Hu) as [Hk Hfl].
  pose proof (status_answer _ _ _ _ Hu) as (_ & Hspec & _). change (win_key y = win_key win0) in Hk.
  split; [| by rewrite Hk | by rewrite Hspec | by rewrite Hspec | |].
  - eapply marked_flags; [exact Hfl | done|]. split; [apply H1|]. intros _. exact Hf.
  - rewrite Hk. by apply update_status_stored in Hu.
  - intros ns sel. rewrite -H6. pose proof (update_status_pods (with_status (set_forced true) win0) w ns sel) as H. by rewrite Hu in H.
Qed.
End course.

(** A reconcile of a policy opens no gate. *)
Lemma sounds_policy_Reconcile req w : sound w → sound (final (policy_Reconcile registry Recorder req) w).
Proof. intros Hw. by apply (keeps_policy_Reconcile (MK := atomic_marking) registry Recorder req w Hw). Qed.

(** A reconcile of a window marks that window at most, with what it saw. *)
Lemma sounds_window_Reconcile req w :
  (∀ x dep ready safe, getWindow req w = Ok x → target_is x w dep → spareCounts x dep w = Ok (ready, safe) →
     wsBaseline (winSpec x) <= safe → S1 req) →
  (∀ x policy, getWindow req w = Ok x → getPolicy (wsPolicyName (winSpec x)) w = Ok policy →
     maxWindowExceeded (Some policy) (Some x) (clock w) = true → S2 req) →
  sound w → sound (final (window_Reconcile registry Recorder req) w).
Proof.
  intros H1 H2 Hw. apply (keeps_window_Reconcile (MK := atomic_marking) registry Recorder req w); [|done]. clear Hw. intros x policy dep Hw Hx Hp Ht.
  pose proof (window_key _ _ _ Hx) as Hk. change (win_key x = req) in Hk.
  assert (on_course w x x w) as Hc by (apply on_course_start; by rewrite ?Hk).
  exists still, (on_course w x). split; [apply atomic_course; intros ready safe; rewrite Hk; by apply H1|]. split; [done|].
  intros Hm Hf. assert (S2 (win_key x)) as H2' by (rewrite Hk; by eapply H2). split.
  - apply (sounds_update (Marking := atomic_marking)). split; [apply Hc|]. by intros _.
  - intros y w' _ Hu. by eapply on_course_forced.
Qed.
End marked.

(** ** Histories *)

Inductive actor := PolicyController (req : NamespacedName) | WindowController (req : NamespacedName) | World.

Inductive step : actor → W → W → Prop :=
| step_policy req w : step (PolicyController req) w (final (policy_Reconcile registry Recorder req) w)
| step_window req w : step (WindowController req) w (final (window_Reconcile registry Recorder req) w)
| step_world w w' : (∀ k, getWindow k w' = getWindow k w) → step World w w'.

(** What happened, each step with the cluster it started from. *)
Inductive history (w0 : W) : list (actor * W) → W → Prop :=
| history_nil : history w0 [] w0
| history_snoc h w1 a w2 : history w0 h w1 → step a w1 w2 → history w0 (h ++ [(a, w1)]) w2.

(** An earlier reconcile of the window counted enough Ready pods of its target
    off its nodes. *)
Definition paid_spare (h : list (actor * W)) (k : NamespacedName) : Prop :=
  ∃ w1 x dep ready safe, (WindowController k, w1) ∈ h ∧ getWindow k w1 = Ok x ∧ target_is x w1 dep
    ∧ spareCounts x dep w1 = Ok (ready, safe) ∧ wsBaseline (winSpec x) <= safe.

(** An earlier reconcile of the window found it open longer than maxWindow. *)
Definition paid_time (h : list (actor * W)) (k : NamespacedName) : Prop :=
  ∃ w1 x policy, (WindowController k, w1) ∈ h ∧ getWindow k w1 = Ok x
    ∧ getPolicy (wsPolicyName (winSpec x)) w1 = Ok policy ∧ maxWindowExceeded (Some policy) (Some x) (clock w1) = true.

Lemma sound_mono (S1 S2 T1 T2 : NamespacedName → Prop) w :
  (∀ k, S1 k → T1 k) → (∀ k, S2 k → T2 k) → sound S1 S2 w → sound T1 T2 w.
Proof. intros H1 H2 Hw k x Hx. destruct (Hw k x Hx) as [Ha Hb]. split; intros H; [by apply H1, Ha | by apply H2, Hb]. Qed.

Lemma history_sound w0 h w :
  (∀ k x, getWindow k w0 = Ok x → flags x = (false, false)) → history w0 h w → sound (paid_spare h) (paid_time h) w.
Proof.
  intros H0. induction 1 as [|h w1 a w2 _ IH Hstep]; [intros k x Hx; by eapply marked_fresh, (H0 k)|].
  assert (sound (paid_spare (h ++ [(a, w1)])) (paid_time (h ++ [(a, w1)])) w1) as IH'.
  { revert IH. apply sound_mono.
    - intros k (v & x & dep & r & s & Hin & ?). exists v, x, dep, r, s. split; [apply elem_of_app; by left | done].
    - intros k (v & x & p & Hin & ?). exists v, x, p. split; [apply elem_of_app; by left | done]. }
  destruct Hstep as [req w|req w|w w' Hsame].
  - by apply sounds_policy_Reconcile.
  - revert IH'. assert ((WindowController req, w) ∈ h ++ [(WindowController req, w)]) as Hin by (apply elem_of_app; right; left).
    apply sounds_window_Reconcile.
    + intros x dep ready safe ????. exists w, x, dep, ready, safe. done.
    + intros x policy ???. exists w, x, policy. done.
  - by apply (sounds_same _ _ w w' Hsame).
Qed.

End flags.

(** ** Witness: the shop opens a window, spare pods come up, a pod may go *)

#[export] Instance FakeClient_status_laws : StatusLaws FakeClient.
Proof.
  split; simpl.
  - intros x c k y. unfold fake_create_window. destruct (clWindows c !! win_key x) eqn:E; [by left|]. simpl.
    unfold stored_window at 1. simpl. destruct (decide (win_key x = k)) as [<-|Hne].
    + rewrite lookup_insert_eq. case_decide; [|done]. intros [= <-]. by right.
    + rewrite lookup_insert_ne //. by left.
  - intros x c y c'. unfold fake_create_window. destruct (clWindows c !! win_key x); [done|]. by intros [= <- <-].
  - intros b x c k y. unfold fake_patch_window. destruct (stored_window (win_key x) c) as [old|] eqn:E; [|by eexists].
    pose proof (stored_window_key _ _ _ E) as Hk. simpl. intros H. destruct (decide (win_key x = k)) as [<-|Hne].
    + exists old. rewrite E. split; [done|]. destruct (last_finalizer _ _ _); unfold stored_window in H; simpl in H.
      * by rewrite lookup_delete_eq in H.
      * rewrite lookup_insert_eq in H. case_decide; [|done]. by injection H as <-.
    + exists y. split; [|done]. rewrite -H. f_equal. unfold stored_window. simpl.
      destruct (last_finalizer _ _ _); [by rewrite lookup_delete_ne | by rewrite lookup_insert_ne].
  - intros b x c y c'. unfold fake_patch_window. intros H Hk. rewrite Hk in H.
    destruct (stored_window (win_key b) c) as [old|] eqn:E; [|done]. injection H as <- <-.
    pose proof (stored_window_key _ _ _ E) as Hkey. split; [by rewrite merge_key|]. by exists old.
  - intros b x c y c'. unfold fake_patch_window. intros H Hk Hf. rewrite Hk in H.
    destruct (stored_window (win_key b) c) as [old|] eqn:E; [|done]. injection H as <- <-.
    pose proof (stored_window_key _ _ _ E) as Hkey. unfold last_finalizer. rewrite bool_decide_false; [|by intros []].
    unfold stored_window. simpl. rewrite lookup_insert_eq merge_key Hkey. by case_decide.
  - intros x c k y. unfold fake_update_status. destruct (stored_window (win_key x) c) as [old|]; [|by left].
    case_decide; [|by left]. simpl. unfold stored_window at 1. simpl. destruct (decide (win_key x = k)) as [<-|Hne].
    + rewrite lookup_insert_eq. case_decide; [|done]. intros [= <-]. by right.
    + rewrite lookup_insert_ne //. by left.
  - intros x c y c'. unfold fake_update_status. destruct (stored_window _ c); [|done]. case_decide; [|done]. by intros [= <- <-].
  - intros k' c k y. unfold fake_delete_window. destruct (clWindows c !! k') as [x|] eqn:E; [|by eexists]. simpl.
    unfold stored_window. simpl. destruct (mFinalizers (winMeta x)); (destruct (decide (k' = k)) as [<-|Hne];
      [rewrite ?lookup_delete_eq ?lookup_insert_eq|rewrite ?lookup_delete_ne ?lookup_insert_ne //; by eexists]); [done|].
    rewrite E. change (win_key (with_meta _ x)) with (win_key x). case_decide; [|done]. intros [= <-]. by eexists.
  - intros b x c k. unfold fake_patch_policy. by destruct (stored_policy _ c).
  - intros x c k. unfold fake_policy_status. by destruct (stored_policy _ c).
Qed.

#[export] Instance FakeClient_pod_laws : PodLaws FakeClient.
Proof.
  split; simpl.
  - intros g k p c ns sel. unfold fake_patch. case_decide; [done|]. by destruct (clObjects c !! _).
  - intros b x c ns sel. unfold fake_patch_window. by destruct (stored_window _ c).
  - intros x c ns sel. unfold fake_update_status. destruct (stored_window _ c); [|done]. by case_decide.
Qed.

Definition set_pods (l : list Pod) (c : Cluster) : Cluster :=
  MkCluster l (clNodes c) (clReplicaSets c) (clDeployments c) (clNamespaces c) (clPolicies c) (clWindows c)
    (clObjects c) (clForbidden c) (clNow c).

Definition api_key : NamespacedName := NN "shop" (WindowName "p" "shop" "api").
Abbreviation api_run := (window_Reconcile init_registry true api_key).

(** The pods asked for are up, on the other node; the window takes note. *)
Definition shop_grown : Cluster := set_pods (clPods shop_up ++ [pod_of "api" "api-b" "n2"; pod_of "api" "api-c" "n2"]) shop_up.
Definition shop_ready : Cluster := final api_run shop_grown.
Definition shop_history : list (actor * Cluster) :=
  [(PolicyController (NN "" "p"), shop); (World, shop_up); (WindowController api_key, shop_grown)].

Lemma set_pods_windows l c k : getWindow k (set_pods l c) = getWindow k c.
Proof. done. Qed.

Lemma shop_happens : history init_registry true shop shop_history shop_ready.
Proof.
  exact (history_snoc _ _ _ [(PolicyController (NN "" "p"), shop); (World, shop_up)] shop_grown (WindowController api_key) shop_ready
    (history_snoc _ _ _ [(PolicyController (NN "" "p"), shop)] shop_up World shop_grown
      (history_snoc _ _ _ [] shop (PolicyController (NN "" "p")) shop_up (history_nil _ _ _) (step_policy _ _ _ _))
      (step_world _ _ _ _ (set_pods_windows _ _)))
    (step_window _ _ _ _)).
Qed.

Definition ready_window : EvictionGuardWindow := default api_window (clWindows shop_ready !! api_key).

(** The policy, its status written. *)
Definition ready_policy : EvictionGuardPolicy := default shop_policy (clPolicies shop_ready !! "p").

Lemma api_gated :
  gated init_registry shop_ready (pod_of "api" "api-a" "n1") (shop_deployment "api") cordoned ready_policy (Some ready_window).
Proof.
  split; [vm_compute; reflexivity|]. split; [discriminate|]. split; [vm_compute; reflexivity|]. split; [vm_compute; reflexivity|].
  split; [vm_compute; reflexivity|]. split.
  { exists [ready_policy], ∅. split; [vm_compute; reflexivity|]. split; vm_compute; reflexivity. }
  split; [|split; vm_compute; reflexivity].
  assert (∃ f, FromSpec (psNodeFilter (polSpec ready_policy)) = Ok f) as [f Hf] by (eexists; vm_compute; reflexivity).
  exists f. split; [exact Hf|]. vm_compute in Hf. injection Hf as <-. vm_compute. reflexivity.
Qed.

