(* ===== verification/Relief.v ===== *)
(** * What the gate answers after a reconcile

    The window reconciler writes two flags, the gate reads them.  For a window
    with pods at risk this file follows them from one to the other: after a
    reconcile that reports no error, the gate lets a pod go exactly when the
    window outlived maxWindow, or when the reconcile counted enough Ready pods
    off the vulnerable nodes and it is the pod's turn. *)
From S2P Require Import Evictgate.
From S2P Require Import Prelude GoStrings GoTime Meta Api Kube Indexes Naming Filters Signals PolicyOwn Workload.
From S2P Require Import Fields WindowPhase ScaleActions Spare Plan PlanSpec Frame Observe WindowController WindowSpec.
From S2P Require Import PolicyController PolicySpec Lifecycle Fake Marks History.

#[local] Open Scope Z_scope.

Section relief.
Context {Obj W : Type} `{L : KubeLib} `{C : Client Obj W}.
Context {AL : AnswerLaws C} {SL : WindowStoreLaws C} {TL : StatusLaws C} {PL : PodLaws C}.
Context {LL : KubeLibLaws L}.
Context (registry : Registry) (Recorder : bool).

(** ** What holds at the end of a run that succeeds *)

Definition ends {A} (m : M W A) (w : W) (Q : A → W → Prop) : Prop := ∀ a w' es, m w = (Ok a, w', es) → Q a w'.

Lemma ends_bind {A B} (m : M W A) (f : A → M W B) w Q : ends m w (λ a w1, ends (f a) w1 Q) → ends (m ≫= f) w Q.
Proof. intros Hm a w' es (b & w1 & es1 & es2 & H1 & H2 & _)%bind_ok_inv. by eapply Hm. Qed.

Lemma ends_ret {A} (a : A) w (Q : A → W → Prop) : Q a w → ends (mret a) w Q.
Proof. by intros HQ b w' es ([= ->] & -> & _)%ret_inv. Qed.

Lemma ends_reads {A} (f : W → result A) w (Q : A → W → Prop) : (∀ a, f w = Ok a → Q a w) → ends (reads f) w Q.
Proof. intros HQ a w' es (H & -> & _)%reads_inv. by apply HQ. Qed.

Lemma ends_mono {A} (m : M W A) w (Q Q' : A → W → Prop) : (∀ a w', Q a w' → Q' a w') → ends m w Q → ends m w Q'.
Proof. intros HQ Hm a w' es H. eapply HQ, Hm, H. Qed.

Lemma ends_still {A} (m : M W A) w (Q : A → W → Prop) : keeps still m → (∀ a w', still w w' → Q a w') → ends m w Q.
Proof. intros Hk HQ a w' es H. apply HQ. by eapply keeps_run. Qed.

(** ** The flags and the conditions of a status *)

(** The flag says what the condition says: both are written together. *)
Definition agrees (s : EvictionGuardWindowStatus) : Prop :=
  wtSpareReady s = match FindStatusCondition (wtConditions s) ConditionSpareReady with
                   | Some c => str_eqb (cStatus c) ConditionTrue
                   | None => false
                   end.

(** It holds of a new status, the window reconciler's status writes establish it
    and the policy reconciler's keep it; no other write of either changes a
    status. *)
Lemma agrees_new s : wtConditions s = [] → wtSpareReady s = false → FindStatusCondition [] ConditionSpareReady = None → agrees s.
Proof. unfold agrees. by intros -> -> ->. Qed.

Lemma agrees_find s c :
  FindStatusCondition (wtConditions s) ConditionSpareReady = Some c → wtSpareReady s = str_eqb (cStatus c) ConditionTrue → agrees s.
Proof. unfold agrees. by intros ->. Qed.

Lemma applySpareStatus_agrees x ready safe now : agrees (winStatus (applySpareStatus x ready safe now).1.1).
Proof.
  unfold applySpareStatus. destruct (wsBaseline (winSpec x) <=? safe) eqn:Ew; cbn [fst winStatus with_status].
  all: match goal with |- context [SetStatusCondition ?cs ?c] => destruct (find_set_same cs c) as (c' & Hf & _ & Hs & _) end.
  all: by apply (agrees_find _ c'); [exact Hf | rewrite Hs].
Qed.

Lemma applyCapacityApplied_agrees x err now : agrees (winStatus x) → agrees (winStatus (applyCapacityApplied x err now).1.1).
Proof.
  unfold applyCapacityApplied, agrees. cbn. intros ->. rewrite find_set_other //.
  destruct err as [e|]; [|done]. repeat case_match; done.
Qed.

Lemma agrees_flags s phase msg forced :
  agrees s → agrees (set_phase phase s) ∧ agrees (set_message msg s) ∧ agrees (set_forced forced s).
Proof. done. Qed.

Section run.
Context (req : NamespacedName) (w0 : W) (x0 : EvictionGuardWindow) (dep : option Deployment).

(** The window the code holds is the stored one; it counts as the first. *)
Record stands (x : EvictionGuardWindow) (w : W) : Prop := {
  sd_stored : getWindow req w = Ok x;
  sd_nodes : wsVulnerableNodes (winSpec x) = wsVulnerableNodes (winSpec x0);
  sd_baseline : wsBaseline (winSpec x) = wsBaseline (winSpec x0);
  sd_pods : same_pods w0 w
}.

Lemma stands_still x w w' : still w w' → stands x w → stands x w'.
Proof. intros [Hw Hp] [H1 H2 H3 H4]. split; [by rewrite Hw | done..|]. intros ns sel. by rewrite Hp. Qed.

Lemma stands_counts x w : stands x w → spareCounts x dep w = spareCounts x0 dep w0.
Proof.
  intros [_ Hn _ Hp]. unfold spareCounts. destruct dep as [d|]; [|done]. rewrite Hn.
  destruct (LabelSelectorAsSelector _) as [sel|e]; [|done]. cbn [mbind result_bind]. by rewrite Hp.
Qed.

(** What a status update leaves. *)
Record relieved (forced : bool) (phase : WindowPhase) (agreed : Prop) (w : W) : Prop := {
  rl_window : ∃ z ready safe, getWindow req w = Ok z ∧ spareCounts x0 dep w0 = Ok (ready, safe)
    ∧ wtForcedCool (winStatus z) = forced ∧ wtPhase (winStatus z) = phase
    ∧ wsVulnerableNodes (winSpec z) = wsVulnerableNodes (winSpec x0)
    ∧ (agreed → wtSpareReady (winStatus z) = (wsBaseline (winSpec x0) <=? safe))
}.

Lemma ends_writeStatus x phase msg w :
  stands x w →
  ends (writeStatus Recorder x dep phase msg) w
    (λ _ w', relieved (wtForcedCool (winStatus x)) phase (agrees (winStatus x)) w').
Proof.
  intros Hx. unfold writeStatus. apply ends_bind, ends_reads. intros [ready safe] Hc. rewrite (stands_counts _ _ Hx) in Hc.
  apply ends_bind. intros t w1 es1 [= <- <- _]. cbv zeta.
  destruct (applySpareStatus x ready safe _) as [[x1 gauge] flip] eqn:Ha.
  apply ends_bind, ends_still; [apply keeps_tell, _|]. intros _ w1 Hw1. clear es1.
  apply ends_bind, ends_still.
  { destruct flip; [|apply keeps_ret, _]. apply keeps_bind; [apply _| |intros _];
      match goal with |- keeps _ (if ?b then _ else _) => destruct b end; first [apply still_emitf | apply keeps_ret, _]. }
  intros _ w2 Hw2. assert (stands x w2) as [Hst Hn Hb _] by (eapply stands_still; [by transitivity w1 | done]).
  unfold applySpareStatus in Ha. injection Ha as <- _ Hflip. rewrite Hb in Hflip |- *.
  match goal with |- ends (if ?b then _ else _) _ _ => destruct b eqn:Ee end.
  - apply ends_ret. repeat (apply andb_true_iff in Ee as [Ee ?]). apply bool_decide_eq_true in Ee.
    constructor. exists x, ready, safe. do 3 (split; [done|]). split; [exact Ee|]. split; [done|]. intros ->.
    match goal with H : negb flip = true |- _ => apply negb_true_iff in H; rewrite H in Hflip end.
    destruct (FindStatusCondition _ _) as [c|]; [|done]. apply negb_false_iff in Hflip. by apply eqb_prop in Hflip.
  - intros y w3 es. unfold UpdateWindowStatus, write. destruct (updateWindowStatus _ w2) as [r w4] eqn:Eu. intros [= -> <- _].
    pose proof (update_status_stored _ _ _ _ Eu) as Hy. cbn in Hy. pose proof (window_key _ _ _ Hst) as Hk. rewrite Hk in Hy.
    pose proof (update_answers _ _ _ _ Eu) as Hfl. apply status_answer in Eu as (_ & Hs & Hf & Hp). unfold flags in Hfl. injection Hfl as Hsr _.
    constructor. exists y, ready, safe. split; [done|]. split; [done|]. split; [by rewrite Hf|]. split; [by rewrite Hp|].
    split; [by rewrite Hs|]. intros _. by rewrite Hsr.
Qed.

Lemma ends_patch_until x u w (Q : EvictionGuardWindow → W → Prop) :
  stands x w → (∀ y w', stands y w' → winStatus y = winStatus x → Q y w') → ends (PatchWindow x (with_spec (set_until u) x)) w Q.
Proof.
  intros [Hst Hn Hb Hp] HQ y w' es. unfold PatchWindow, write. destruct (patchWindow _ _ w) as [r w1] eqn:Ep. intros [= -> <- _].
  pose proof (window_key _ _ _ Hst) as Hk.
  destruct (patch_answer x (with_spec (set_until u) x) w y w1) as (Hs & Hstat & _); [by rewrite Hk | done..|].
  apply HQ; [|done]. split; [|by rewrite Hs|by rewrite Hs|].
  - rewrite -Hk. by apply (patch_current x (with_spec (set_until u) x) w).
  - intros ns sel. rewrite -Hp. pose proof (patch_window_pods x (with_spec (set_until u) x) w ns sel) as H. by rewrite Ep in H.
Qed.

Lemma ends_stampCooldown policy x y u w (Q : unit → W → Prop) :
  stands y w → (∀ w', stands y w' → Q () w') → ends (stampCooldown policy dep x u) w Q.
Proof.
  intros Hy HQ. apply ends_still; [apply stampCooldown_frame; [apply _ | apply still_object]|].
  intros [] w' Hw. apply HQ. by eapply stands_still.
Qed.

Lemma ends_scaleBackIfAllowed x y w (Q : unit → W → Prop) :
  stands y w → (∀ w', stands y w' → Q () w') → ends (scaleBackIfAllowed Recorder x) w Q.
Proof.
  intros Hy HQ. apply ends_still; [|intros [] w' Hw; apply HQ; by eapply stands_still].
  unfold scaleBackIfAllowed. apply keeps_bind; [apply _|apply keeps_try, restoreActions_frame; [apply _ | apply still_object]|].
  intros [u|e]; (apply keeps_bind; [apply _|apply keeps_tell, _|]; intros _); [|apply keeps_throw, _].
  apply keeps_bind; [apply _|apply still_clear_metrics|]. intros _. apply still_emitf.
Qed.

(** Pods at risk: the window stays open, and its flag is brought up to date. *)
Lemma ends_step_open x policy force until t dec w :
  stands x w → pdStep dec = stepStayOpenVulnerable → pdPhase dec = WindowPhaseOpen →
  ends (take_step Recorder x policy dep force until t dec) w
    (λ _ w', relieved (wtForcedCool (winStatus x)) WindowPhaseOpen (agrees (winStatus x)) w').
Proof.
  intros Hx Hs Hp. unfold take_step. rewrite Hs Hp. apply ends_bind.
  apply (ends_mono _ _ (λ y w', stands y w' ∧ winStatus y = winStatus x)).
  { intros y w1 [Hy Hst]. apply ends_bind. eapply ends_mono; [|by apply ends_writeStatus].
    intros z w2. rewrite Hst. intros Hr. by apply ends_ret. }
  destruct (pdAbortCooldown dec); [|by apply ends_ret]. unfold abortCooldown. destruct (wsWindowUntil _); [|by apply ends_ret].
  apply ends_bind, ends_patch_until; [done|]. intros y w1 Hy Hst.
  apply ends_bind, (ends_stampCooldown policy _ y); [done|]. intros w2 Hy2. by apply ends_ret.
Qed.

(** Forced: whatever the step, the flag stays. *)
Lemma ends_step_forced x policy until t dec w :
  stands x w → wtForcedCool (winStatus x) = true → pdStep dec ∈ [stepBeginScaleBack; stepStayCooling; stepClose] →
  (pdStep dec = stepClose → pdRetainClosed dec = true) →
  ends (take_step Recorder x policy dep true until t dec) w (λ _ w', ∃ ph, relieved true ph False w').
Proof.
  intros Hx Hf Hs Hret. assert (∀ y ph msg w' (k : EvictionGuardWindow → CtrlResult),
    stands y w' → wtForcedCool (winStatus y) = true →
    ends (writeStatus Recorder y dep ph msg ≫= λ z, mret (k z)) w' (λ _ w', ∃ ph, relieved true ph False w')) as Hws.
  { intros y ph msg w' k Hy Hfy. apply ends_bind. eapply ends_mono; [|by apply ends_writeStatus].
    intros z w2 [(v & r & s & ? & ? & ? & ? & ? & _)]. apply ends_ret. exists ph. constructor. exists v, r, s.
    by rewrite -Hfy. }
  unfold take_step. destruct (pdStep dec) eqn:Es.
  1, 2: by rewrite !elem_of_cons in Hs; destruct Hs as [?|[?|[?|?%elem_of_nil]]].
  - apply ends_bind, (ends_scaleBackIfAllowed _ x); [done|]. intros w1 Hx1. cbv zeta.
    apply ends_bind, ends_patch_until; [done|]. intros y w2 Hy Hst.
    apply ends_bind, (ends_stampCooldown policy _ y); [done|]. intros w3 Hy3. apply Hws; [done | by rewrite Hst].
  - by apply Hws.
  - rewrite (Hret eq_refl). by apply Hws.
Qed.
End run.

(** ** The reconcile *)

Lemma live_relieved req w x policy dep risk nodes c w' es :
  live_at req w x policy dep → liveAtRiskPods registry (Some x) (Some policy) dep w = Ok (risk, nodes) → 0 < risk →
  agrees (winStatus x) → window_Reconcile registry Recorder req w = (Ok c, w', es) →
  let exceeded := maxWindowExceeded (Some policy) (Some x) (clock w) in
  ∃ ph agreed, relieved req w x dep (wtForcedCool (winStatus x) || exceeded) ph agreed w'
    ∧ (ph = WindowPhaseClosed → exceeded = true) ∧ (exceeded = false → agreed).
Proof.
  intros [Hw Hd Hf Hp Ht Hto] Hr H0 Hag. rewrite (window_Reconcile_live _ _ _ _ x policy dep) //. cbv zeta.
  assert (stands req w x x w) as Hx by (by split). unfold reconcile_live. fold (tombstone x). rewrite Hto.
  rewrite (bind_reads_ok _ _ _ _ Hr) bind_now. cbv zeta. cbn [fst]. destruct (maxWindowExceeded _ _ _) eqn:Em.
  - rewrite orb_true_r. intros (x1 & w1 & es1 & es2 & Hst & H & _)%bind_ok_inv. cbn [negb andb] in H. rewrite bind_ret in H.
    assert (stands req w x x1 w1 ∧ wtForcedCool (winStatus x1) = true) as [Hx1 Hf1].
    { destruct (stamp_forced_cases _ _ _ _ _ _ _ _ Hst) as [(Hn & [= ->] & -> & _)|(_ & _ & Hu & _)].
      - split; [done|]. cbn [andb] in Hn. by apply negb_false_iff in Hn.
      - pose proof (update_status_pods (with_status (set_forced true) x) w) as Hpods. rewrite Hu in Hpods.
        pose proof (update_status_stored _ _ _ _ Hu) as Hs. cbn in Hs. rewrite (window_key _ _ _ Hw) in Hs.
        apply status_answer in Hu as (Hm & Hsp & Hfo & _). split; [|done]. split; [done | by rewrite Hsp | by rewrite Hsp | done]. }
    apply (ends_step_forced req w x dep x1 policy _ _ _ w1 Hx1 Hf1) in H as [ph Hrel].
    + exists ph, False. by split.
    + by apply forced_progress.
    + intros Hc. apply close_step in Hc as (_ & _ & _ & ->). exact Hf1.
  - rewrite orb_false_r. unfold stamp_forced. cbn [andb]. rewrite bind_ret. cbn [negb andb].
    assert (risk =? 0 = false) as -> by (apply Z.eqb_neq; lia). rewrite bind_ret. intros H.
    assert (∀ safe u, let d := decideWindowStep (PhaseInput risk false (wtForcedCool (winStatus x)) safe (wsBaseline (winSpec x)) u (clock w)) in
      pdStep d = stepStayOpenVulnerable ∧ pdPhase d = WindowPhaseOpen) as Hdec.
    { intros safe u. unfold decideWindowStep. cbn [inLiveAtRisk inForceCool]. by rewrite (proj2 (Z.gtb_lt _ _) H0). }
    apply (ends_step_open req w x dep x policy) in H; [|done|by apply Hdec|by apply Hdec].
    eexists _, _. by split.
Qed.

(** ** The gate *)

(** The pod comes first of the workload's pods that wait on the window's nodes,
    or none of them waits. *)
Definition its_turn (pods : list Pod) (pod : Pod) (x : EvictionGuardWindow) : Prop :=
  (∀ p, p ∈ pods → ¬ waiting (gate_nodes pod x) p)
  ∨ (∃ p, p ∈ pods ∧ waiting (gate_nodes pod x) p ∧ mName (podMeta p) = mName (podMeta pod))
    ∧ ∀ p, p ∈ pods → waiting (gate_nodes pod x) p → String.le (mName (podMeta pod)) (mName (podMeta p)).

Lemma relieved_may_evict req w x dep forced ph agreed w' pods pod dep' owner win :
  relieved req w x dep forced ph agreed w' → (ph = WindowPhaseClosed → forced = true) → (forced = false → agreed) →
  NN (mNamespace (dMeta dep')) (WindowName (polName owner) (mNamespace (dMeta dep')) (mName (dMeta dep'))) = req →
  activeWindowFor dep' (Some owner) w' = Ok win →
  may_evict pods pod win ↔ forced = true
    ∨ (∃ ready safe, spareCounts x dep w = Ok (ready, safe) ∧ wsBaseline (winSpec x) <= safe) ∧ its_turn pods pod x.
Proof.
  intros [(z & ready & safe & Hz & Hc & Hf & Hp & Hn & Hs)] Hclosed Hag Hk Ha. unfold activeWindowFor in Ha. rewrite Hk Hz in Ha.
  assert (IsActive z || wtForcedCool (winStatus z) = true) as Hact.
  { unfold IsActive. rewrite Hp Hf. destruct ph; try done. by rewrite Hclosed. }
  rewrite Hact in Ha. injection Ha as <-. unfold may_evict, its_turn.
  assert (gate_nodes pod z = gate_nodes pod x) as Hg by (unfold gate_nodes; by rewrite Hn). split.
  - intros (y & [= <-] & [Hfo|[Hsp Ht]]); [left; congruence|]. destruct forced; [by left | right]. rewrite Hs in Hsp; [|by apply Hag].
    split; [exists ready, safe; split; [done | by apply Z.leb_le]|]. by rewrite -Hg.
  - intros [->|[(r & s & Hc' & Hle) Ht]]; exists z; (split; [done|]); [by left|]. destruct forced; [by left | right].
    rewrite Hc in Hc'. injection Hc' as <- <-. rewrite Hs; [|by apply Hag]. rewrite Hg. by split; [apply Z.leb_le|].
Qed.

(** C5: what the reconciler found is what the gate enforces: after a reconcile
    that reports no error, of a window with pods at risk, the gate decides every
    eviction behind that window, and lets the pod go exactly when the window was
    force-cooled before, or outlived maxWindow by that reconcile, or that
    reconcile counted at least the baseline of Ready pods off the vulnerable
    nodes and it is the pod's turn.  So a drain is never stuck behind a window
    whose spare is Ready or whose time is up. *)
Theorem gate_follows_reconcile req w x policy dep risk nodes c w' es pod dep' node owner win pods :
  live_at req w x policy dep → liveAtRiskPods registry (Some x) (Some policy) dep w = Ok (risk, nodes) → 0 < risk →
  agrees (winStatus x) → window_Reconcile registry Recorder req w = (Ok c, w', es) →
  gated registry w' pod dep' node owner win →
  NN (mNamespace (dMeta dep')) (WindowName (polName owner) (mNamespace (dMeta dep')) (mName (dMeta dep'))) = req →
  workload_pods dep' w' = Ok pods → (∀ p, p ∈ pods → mName (podMeta p) ≠ "") →
  ∃ r, Evaluate registry (Some pod) w' = Ok r
    ∧ (rDecision r = Allow ↔
         wtForcedCool (winStatus x) = true ∨ maxWindowExceeded (Some policy) (Some x) (clock w) = true
         ∨ (∃ ready safe, spareCounts x dep w = Ok (ready, safe) ∧ wsBaseline (winSpec x) <= safe) ∧ its_turn pods pod x).
Proof.
  intros Hla Hr H0 Hag H Hg Hk Hpods Hnames.
  destruct (live_relieved _ _ _ _ _ _ _ _ _ _ Hla Hr H0 Hag H) as (ph & agreed & Hrel & Hclosed & Hagr).
  destruct (Evaluate_decides registry w' pod dep' node owner win pods Hg Hpods Hnames) as (r & He & Hd).
  exists r. split; [done|]. rewrite Hd (relieved_may_evict _ _ _ _ _ _ _ _ pods pod dep' owner win Hrel) //.
  - rewrite orb_true_iff. tauto.
  - intros Hc. by rewrite (Hclosed Hc) orb_true_r.
  - intros [_ ?]%orb_false_iff. by apply Hagr.
  - apply Hg.
Qed.
End relief.

(** ** Three hours later the drain is let through *)

Definition late : Cluster := set_now (3 * Hour) shop_up.
Definition late_window : EvictionGuardWindow := default api_window (window_of "api" late).
Definition late_policy : EvictionGuardPolicy := default shop_policy (clPolicies late !! "p").
Definition relieved_shop : Cluster := final api_run late.
Definition relieved_window : EvictionGuardWindow := default api_window (window_of "api" relieved_shop).

Lemma late_live : live_at api_key late late_window late_policy (Some (shop_deployment "api")).
Proof.
  split; [vm_compute; reflexivity | vm_compute; reflexivity | vm_compute; reflexivity | vm_compute; reflexivity | | vm_compute; reflexivity].
  apply target_is_deployment; vm_compute; reflexivity.
Qed.

Lemma relieved_gated :
  gated init_registry relieved_shop (pod_of "api" "api-a" "n1") (shop_deployment "api") cordoned late_policy (Some relieved_window).
Proof.
  split; [vm_compute; reflexivity|]. split; [discriminate|]. split; [vm_compute; reflexivity|]. split; [vm_compute; reflexivity|].
  split; [vm_compute; reflexivity|]. split.
  { exists [late_policy], ∅. split; [vm_compute; reflexivity|]. split; vm_compute; reflexivity. }
  split; [|split; vm_compute; reflexivity].
  assert (∃ f, FromSpec (psNodeFilter (polSpec late_policy)) = Ok f) as [f Hf] by (eexists; vm_compute; reflexivity).
  exists f. split; [exact Hf|]. vm_compute in Hf. injection Hf as <-. vm_compute. reflexivity.
Qed.

Lemma gate_follows_reconcile_witness :
  ∃ r, Evaluate init_registry (Some (pod_of "api" "api-a" "n1")) relieved_shop = Ok r ∧ rDecision r = Allow.
Proof.
  assert (∃ nodes, liveAtRiskPods init_registry (Some late_window) (Some late_policy) (Some (shop_deployment "api")) late = Ok (2, nodes))
    as [nodes Hr] by (eexists; vm_compute; reflexivity).
  assert (∃ c es, api_run late = (Ok c, relieved_shop, es)) as (c & es & Hrun).
  { assert (is_ok (api_run late).1.1 = true) as H by (vm_compute; reflexivity). unfold relieved_shop, final.
    destruct (api_run late) as [[[c|e] w'] es]; [exists c, es; reflexivity | discriminate H]. }
  assert (∃ pods, workload_pods (shop_deployment "api") relieved_shop = Ok pods ∧ forallb (λ p, negb (str_eqb (mName (podMeta p)) "")) pods = true)
    as (pods & Hpods & Hn) by (eexists; split; vm_compute; reflexivity).
  destruct (gate_follows_reconcile init_registry true api_key late late_window late_policy (Some (shop_deployment "api")) 2 nodes c
              relieved_shop es (pod_of "api" "api-a" "n1") (shop_deployment "api") cordoned late_policy (Some relieved_window) pods
              late_live Hr) as (r & He & Hd).
  - lia.
  - vm_compute. reflexivity.
  - exact Hrun.
  - exact relieved_gated.
  - vm_compute. reflexivity.
  - exact Hpods.
  - intros p Hp Hnil. rewrite forallb_forall in Hn. specialize (Hn p (proj1 (list_elem_of_In _ _) Hp)). rewrite Hnil in Hn. discriminate Hn.
  - exists r. split; [exact He|]. apply Hd. right. left. vm_compute. reflexivity.
Defined.
