(* ===== verification/Ledger.v ===== *)
(** * The ledger: capacity that is owed stays on record

    While a workload's capacity is raised, a stored window says how to bring it
    back.  This file follows that record through every write of both
    controllers: the policy reconciler makes it before it raises anything, and
    from then on it is there, with no cooldown running and not closed, until a
    reconcile of the window restores it, or the operator itself drops it. *)
From S2P Require Import Evictgate.
From S2P Require Import Prelude GoStrings GoTime Meta Api Kube Indexes Naming Filters Signals PolicyOwn Workload.
From S2P Require Import Fields WindowPhase ScaleActions Spare Plan PlanSpec Frame Observe WindowController WindowSpec.
From S2P Require Import PolicyController PolicySpec Lifecycle History Fake.

#[local] Open Scope Z_scope.

(** ** Laws of the windows' storage, write by write

    A patch is a JSON merge patch of what the program changed, on the stored
    object; a write that fails may have been applied.  An object with a
    finalizer outlives its deletion. *)
Definition merged (b x y0 y : EvictionGuardWindow) : Prop :=
  wsActions (winSpec y) = (if decide (wsActions (winSpec x) = wsActions (winSpec b)) then wsActions (winSpec y0) else wsActions (winSpec x))
  ∧ wsWindowUntil (winSpec y) = patched_until (wsWindowUntil (winSpec b)) (wsWindowUntil (winSpec x)) (wsWindowUntil (winSpec y0))
  ∧ ∀ l, mLabels (winMeta y) !! l = if decide (mLabels (winMeta x) !! l = mLabels (winMeta b) !! l)
                                    then mLabels (winMeta y0) !! l else mLabels (winMeta x) !! l.

(** On the object the patch was made from, it is what the program wanted. *)
Lemma merged_current b x y : merged b x b y →
  wsActions (winSpec y) = wsActions (winSpec x)
  ∧ wsWindowUntil (winSpec y) = patched_until (wsWindowUntil (winSpec b)) (wsWindowUntil (winSpec x)) (wsWindowUntil (winSpec b))
  ∧ ∀ l, mLabels (winMeta y) !! l = mLabels (winMeta x) !! l.
Proof.
  intros (-> & -> & Hl). split; [by case_decide|]. split; [done|]. intros l. rewrite Hl. by case_decide.
Qed.

Class LedgerLaws {Obj W : Type} {L : KubeLib} (C : Client Obj W) : Prop := {
  (** A patch that leaves the finalizers alone, or of an object that is not
      being deleted, keeps the object. *)
  patch_merges b x w r w' y0 : patchWindow b x w = (r, w') → win_key x = win_key b → getWindow (win_key b) w = Ok y0 →
    mFinalizers (winMeta x) = mFinalizers (winMeta b) ∨ tsIsZero (mDeletionTimestamp (winMeta y0)) = true →
    ∃ y, getWindow (win_key b) w' = Ok y ∧ winStatus y = winStatus y0
         ∧ ((y = y0 ∧ is_ok r = false) ∨ merged b x y0 y);
  patch_elsewhere b x w k : win_key x = win_key b → k ≠ win_key b → getWindow k (patchWindow b x w).2 = getWindow k w;
  status_keeps x w y0 : getWindow (win_key x) w = Ok y0 →
    ∃ y, getWindow (win_key x) (updateWindowStatus x w).2 = Ok y ∧ winSpec y = winSpec y0
         ∧ mLabels (winMeta y) = mLabels (winMeta y0)
         ∧ (wtPhase (winStatus y) = wtPhase (winStatus y0) ∨ wtPhase (winStatus y) = wtPhase (winStatus x));
  status_elsewhere x w k : k ≠ win_key x → getWindow k (updateWindowStatus x w).2 = getWindow k w;
  create_keeps x w k y0 : getWindow k w = Ok y0 → getWindow k (createWindow x w).2 = Ok y0;
  create_stored x w y w' : createWindow x w = (Ok y, w') →
    getWindow (win_key x) w' = Ok y ∧ winSpec y = set_until (whole_second <$> wsWindowUntil (winSpec x)) (winSpec x) ∧ mLabels (winMeta y) = mLabels (winMeta x)
    ∧ wtPhase (winStatus y) = PhaseUnset;
  delete_keeps k w y0 : getWindow k w = Ok y0 → has_finalizer y0 = true →
    ∃ y, getWindow k (deleteWindow k w).2 = Ok y ∧ winSpec y = winSpec y0 ∧ winStatus y = winStatus y0
         ∧ mLabels (winMeta y) = mLabels (winMeta y0) ∧ mFinalizers (winMeta y) = mFinalizers (winMeta y0);
  delete_elsewhere k k' w : k' ≠ k → getWindow k' (deleteWindow k w).2 = getWindow k' w
}.

(** ** Runs that carry an invariant

    A run that starts with the invariant [I], or makes a record on its way, ends
    with it, unless it drops it; [Q] holds of what it returns in any case. *)
Section carries.
Context {W : Type} (I : W → Prop) (Rec Drop : effect → Prop).

Definition carries {A} (m : M W A) (w : W) (Q : A → W → Prop) : Prop :=
  ∀ r w' es, m w = (r, w', es) →
    (I w ∨ (∃ e, e ∈ es ∧ Rec e) → I w' ∨ ∃ e, e ∈ es ∧ Drop e)
    ∧ ∀ a, r = Ok a → Q a w'.

Lemma carries_bind {A B} (m : M W A) (f : A → M W B) w Q :
  carries m w (λ a w1, carries (f a) w1 Q) → carries (m ≫= f) w Q.
Proof.
  intros Hm r w' es [(e & He & ->)|(a & w1 & es1 & es2 & H1 & H2 & ->)]%bind_inv.
  - destruct (Hm _ _ _ He) as [Hi _]. by split.
  - destruct (Hm _ _ _ H1) as [Hi Hq]. destruct (Hq a eq_refl _ _ _ H2) as [Hi2 Hq2]. split; [|done].
    setoid_rewrite elem_of_app. intros Hpre.
    assert ((∃ e, e ∈ es2 ∧ Rec e) → I w' ∨ ∃ e, e ∈ es2 ∧ Drop e) as Hlater by auto.
    destruct Hpre as [Hw|(e & [He|He] & Hr)].
    1: destruct (Hi (or_introl Hw)) as [Hw1|Hd]; [destruct (Hi2 (or_introl Hw1))|]; naive_solver.
    1: destruct (Hi (or_intror (ex_intro _ e (conj He Hr)))) as [Hw1|Hd]; [destruct (Hi2 (or_introl Hw1))|]; naive_solver.
    naive_solver.
Qed.

Lemma carries_same {A} (m : M W A) w (Q : A → W → Prop) :
  (m w).1.2 = w → (m w).2 = [] → (∀ a, res m w = Ok a → Q a w) → carries m w Q.
Proof.
  intros Hw He HQ r w' es H. unfold res in HQ. rewrite H in Hw, He, HQ. cbn in Hw, He, HQ. subst. split; [|auto].
  intros [?|(e & []%elem_of_nil & _)]. by left.
Qed.

Lemma carries_ret {A} (a : A) w (Q : A → W → Prop) : Q a w → carries (mret a) w Q.
Proof. intros HQ. apply carries_same; [done..|]. by intros ? [= <-]. Qed.

Lemma carries_reads {A} (f : W → result A) w (Q : A → W → Prop) : (∀ a, f w = Ok a → Q a w) → carries (reads f) w Q.
Proof. intros HQ. by apply carries_same. Qed.

Lemma carries_throw {A} e w (Q : A → W → Prop) : carries (throw e) w Q.
Proof. by apply carries_same. Qed.

Lemma carries_mono {A} (m : M W A) w (Q Q' : A → W → Prop) : (∀ a w', Q a w' → Q' a w') → carries m w Q → carries m w Q'.
Proof. intros HQ Hm r w' es H. destruct (Hm _ _ _ H) as [Hi Hq]. split; [done | eauto]. Qed.

Lemma carries_try {A} (m : M W A) w (Q : result A → W → Prop) : carries m w (λ _ _, True) → (∀ r w', Q r w') → carries (try m) w Q.
Proof.
  intros Hm HQ r w' es. unfold try. destruct (m w) as [[r1 w1] es1] eqn:E. intros [= <- <- <-].
  destruct (Hm _ _ _ E) as [Hi _]. split; [done|]. by intros a [= <-].
Qed.

(** A part that makes no record and respects a relation that preserves [I]. *)
Lemma carries_keeps {A} (R : W → W → Prop) (m : M W A) w (Q : A → W → Prop) :
  (∀ w w', R w w' → I w → I w') → keeps R m → emits (λ e, ¬ Rec e) m → (∀ a w', R w w' → Q a w') → carries m w Q.
Proof.
  intros HR Hk Hm HQ r w' es H. pose proof (keeps_run _ _ _ _ _ _ Hk H) as Hww. split; [|intros a _; by apply HQ].
  intros [Hw|(e & He & Hr)]; [left; by eapply HR|]. by destruct (emits_elem _ _ _ _ _ _ _ Hm H He).
Qed.

(** One write. *)
Lemma carries_write {A} (f : W → result A * W) (e : bool → effect) w (Q : A → W → Prop) :
  (∀ ok, ¬ Rec (e ok)) → (I w → I (f w).2 ∨ ∃ ok, is_ok (f w).1 = ok ∧ Drop (e ok)) →
  (∀ a w', f w = (Ok a, w') → Q a w') → carries (write f e) w Q.
Proof.
  intros He Hi HQ r w' es. unfold write. destruct (f w) as [r1 w1] eqn:E. intros [= <- <- <-]. split; [|intros a ->; by apply HQ].
  intros [Hw|(e' & ->%list_elem_of_singleton & Hr)]; [|by destruct (He (is_ok r1))].
  destruct (Hi Hw) as [?|(ok & <- & Hd)]; [by left | right]. eexists. split; [left | done].
Qed.
End carries.

Lemma carries_weaken {W A} (I : W → Prop) (Rec Rec' Drop : effect → Prop) (m : M W A) w Q :
  (∀ e, Rec' e → Rec e) → carries I Rec Drop m w Q → carries I Rec' Drop m w Q.
Proof. intros H Hm r w' es Hr. destruct (Hm _ _ _ Hr) as [Hi Hq]. split; [|done]. intros Hpre. apply Hi. naive_solver. Qed.

Lemma carries_now {Obj W} `{C : Client Obj W} (I : W → Prop) Rec Drop w (Q : Time → W → Prop) :
  Q (clock w) w → carries I Rec Drop now w Q.
Proof. intros HQ. apply carries_same; [done..|]. by intros a [= <-]. Qed.

(** ** What is on record *)
Section ledger.
Context {Obj W : Type} `{L : KubeLib} `{C : Client Obj W}.
Context {AL : AnswerLaws C} {WL : WindowLaws C} {SL : WindowStoreLaws C} {LL : KubeLibLaws L} {TL : StatusLaws C} {GL : LedgerLaws C}.
Context (registry : Registry) (Recorder : bool).

(** An action on the object, among the actions of a window. *)
Definition on_object (g : GroupVersionKind) (k : NamespacedName) (a : ScaleAction) : Prop :=
  target_gvk (actionTarget a) = Ok g ∧ tgKey (actionTarget a) = k.
Definition lists (g : GroupVersionKind) (k : NamespacedName) (actions : list ScaleAction) : Prop :=
  ∃ a, a ∈ actions ∧ on_object g k a.

(** A patch of the object's capacity. *)
Definition raises (g : GroupVersionKind) (k : NamespacedName) (e : effect) : Prop :=
  scales e ∧ ∃ p ok, e = PatchObjectE g k p ok.

(** A window that owes the object: it lists it, with no cooldown armed, is not
    closed and not a placeholder, so the window reconciler has yet to restore
    it and will not let the window go before. *)
Record owes (g : GroupVersionKind) (k : NamespacedName) (x : EvictionGuardWindow) : Prop := {
  ow_lists : lists g k (wsActions (winSpec x));
  ow_until : wsWindowUntil (winSpec x) = None;
  ow_phase : wtPhase (winStatus x) ≠ WindowPhaseClosed;
  ow_slot : isDeferredWindow (Some x) = false
}.

Section record.
Context (g0 : GroupVersionKind) (k0 wk : NamespacedName).

Definition on_record (w : W) : Prop := ∃ x, getWindow wk w = Ok x ∧ owes g0 k0 x.

(** A re-plan that loses the object: the workload's catalog no longer patches
    anything, or an entry was pointed at another kind of object, under the key
    of the action it replaces. *)
Definition repointed (old new : list ScaleAction) : Prop :=
  new = [] ∨ ∃ a a', a ∈ old ∧ on_object g0 k0 a ∧ a' ∈ new ∧ actionKey a' = actionKey a ∧ ¬ on_object g0 k0 a'.
Definition forgets (e : effect) : Prop :=
  ∃ b x ok, e = PatchWindowE b x ok ∧ win_key b = wk ∧ lists g0 k0 (wsActions (winSpec b))
    ∧ ¬ lists g0 k0 (wsActions (winSpec x)) ∧ repointed (wsActions (winSpec b)) (wsActions (winSpec x)).

Abbreviation kept Rec := (carries on_record Rec forgets).

#[local] Instance on_object_dec a : Decision (on_object g0 k0 a).
Proof.
  unfold on_object. destruct (target_gvk (actionTarget a)) as [g|e]; [|right; by intros [? _]].
  destruct (decide (g = g0)) as [->|Hne]; [|right; intros [H _]; congruence].
  destruct (decide (tgKey (actionTarget a) = k0)); [left; by split | right; by intros [_ ?]].
Defined.

Lemma lists_dec l : Decision (lists g0 k0 l).
Proof.
  destruct (decide (Exists (on_object g0 k0) l)) as [H|H]; [left|right]; unfold lists; rewrite -?Exists_exists //.
Qed.

(** Re-planning keeps the object listed, unless it is re-pointed. *)
Lemma plan_actions_lists plan existing :
  lists g0 k0 existing → lists g0 k0 (plan_actions plan existing) ∨ repointed existing (plan_actions plan existing).
Proof.
  intros (a & Ha & Ho). unfold plan_actions. destruct (planSteps plan) as [|st steps]; [right; by left|].
  set (next := step_action <$> st :: steps). unfold mergeActions.
  destruct (decide (actionKey a ∈ actionKey <$> next)) as [(a' & Hk & Hin)%list_elem_of_fmap|Hn].
  - destruct (decide (on_object g0 k0 a')) as [Ho'|Hn']; [left|right; right].
    + exists a'. split; [apply elem_of_app; by left | done].
    + exists a, a'. repeat split; try done; [apply Ho | apply Ho|]. apply elem_of_app. by left.
  - left. exists a. split; [|done]. apply elem_of_app. right. by apply list_elem_of_filter.
Qed.

(** ** Writes *)

Definition same_window (w w' : W) : Prop := getWindow wk w' = getWindow wk w.

#[export] Instance same_window_preorder : PreOrder same_window.
Proof. split; [by intros w | intros w1 w2 w3 H1 H2; by rewrite /same_window H2]. Qed.

Lemma same_window_kept w w' : same_window w w' → on_record w → on_record w'.
Proof. intros H (x & Hx & Ho). exists x. by rewrite H. Qed.

Lemma same_window_object g k p w : same_window w (patchUnstructured g k p w).2.
Proof. apply patch_object_windows. Qed.

(** Patches that touch neither actions nor finalizers, arm nothing and label nothing. *)
Definition light (b x : EvictionGuardWindow) : Prop :=
  wsActions (winSpec x) = wsActions (winSpec b)
  ∧ (wsWindowUntil (winSpec x) = None ∨ wsWindowUntil (winSpec x) = wsWindowUntil (winSpec b))
  ∧ mLabels (winMeta x) = mLabels (winMeta b).

Lemma isDeferred_lookup x y : mLabels (winMeta y) !! DeferredLabel = mLabels (winMeta x) !! DeferredLabel →
  isDeferredWindow (Some y) = isDeferredWindow (Some x).
Proof. unfold isDeferredWindow, mget. by intros ->. Qed.

Lemma patch_light b x w :
  win_key x = win_key b → light b x →
  mFinalizers (winMeta x) = mFinalizers (winMeta b) ∨ (∀ y, getWindow (win_key b) w = Ok y → tsIsZero (mDeletionTimestamp (winMeta y)) = true) →
  on_record w → on_record (patchWindow b x w).2.
Proof.
  intros Hk (Ha & Hu & Hl) Hf (y0 & Hy0 & Ho). destruct (patchWindow b x w) as [r w'] eqn:Ep. cbn [snd].
  destruct (decide (wk = win_key b)) as [Heq|Hne].
  - rewrite Heq in Hy0. destruct (patch_merges b x w r w' y0 Ep Hk Hy0) as (y & Hy & Hst & Hor); [destruct Hf; auto|].
    rewrite -Heq in Hy. exists y. split; [done|]. destruct Hor as [[-> _]|(Ma & Mu & Ml)]; [done|]. destruct Ho as [H1 H2 H3 H4].
    split; [|rewrite Mu H2; by apply patched_until_light | by rewrite Hst |].
    + by rewrite Ma decide_True.
    + rewrite -H4. apply isDeferred_lookup. by rewrite Ml Hl decide_True.
  - exists y0. split; [|done]. rewrite -Hy0. pose proof (patch_elsewhere b x w wk Hk Hne) as He. by rewrite Ep in He.
Qed.

Lemma status_kept x w : wtPhase (winStatus x) ≠ WindowPhaseClosed ∨ win_key x ≠ wk → on_record w → on_record (updateWindowStatus x w).2.
Proof.
  intros Hp (y0 & Hy0 & Ho). destruct (decide (win_key x = wk)) as [Heq|Hne].
  - rewrite -Heq in Hy0. destruct (status_keeps x w y0 Hy0) as (y & Hy & Hs & Hl & Hph). rewrite Heq in Hy. exists y. split; [done|]. destruct Ho as [H1 H2 H3 H4].
    split; [by rewrite Hs | by rewrite Hs | |rewrite -H4; apply isDeferred_lookup; by rewrite Hl].
    destruct Hp as [Hp|Hp]; [|done]. destruct Hph as [->| ->]; done.
  - exists y0. split; [|done]. by rewrite status_elsewhere.
Qed.

Lemma create_kept x w : on_record w → on_record (createWindow x w).2.
Proof. intros (y0 & Hy0 & Ho). exists y0. split; [by apply create_keeps | done]. Qed.

Lemma carries_PatchWindow_light (Rec : effect → Prop) b x w (Q : EvictionGuardWindow → W → Prop) :
  (∀ b x ok, ¬ Rec (PatchWindowE b x ok)) → win_key x = win_key b → light b x → mFinalizers (winMeta x) = mFinalizers (winMeta b) →
  (∀ y w', win_key y = win_key b → Q y w') → kept Rec (PatchWindow b x) w Q.
Proof.
  intros HR Hk Hl Hf HQ. apply carries_write; [auto| |].
  - intros Hw. left. apply patch_light; auto.
  - intros y w' Hp. apply HQ. by destruct (patch_answers _ _ _ _ _ Hp Hk).
Qed.

Lemma carries_UpdateWindowStatus (Rec : effect → Prop) x w (Q : EvictionGuardWindow → W → Prop) :
  (∀ x ok, ¬ Rec (UpdateWindowStatusE x ok)) → wtPhase (winStatus x) ≠ WindowPhaseClosed ∨ win_key x ≠ wk → (∀ y w', Q y w') →
  kept Rec (UpdateWindowStatus x) w Q.
Proof. intros HR Hp HQ. apply carries_write; [auto | intros Hw; left; by apply status_kept | auto]. Qed.

(** ** The policy reconciler *)

Lemma win_key_lookup policy s w b : getWindow (window_name_of policy s) w = Ok b → win_key b = window_name_of policy s.
Proof. apply window_key. Qed.

(** Programs that say something but write no window. *)
Definition says (e : effect) : Prop :=
  match e with GaugeSet _ _ _ | CounterInc _ _ | SeriesDelete _ _ | EventEmitted _ _ _ _ => True | _ => False end.

Lemma carries_says (Rec : effect → Prop) {A} (m : M W A) w (Q : A → W → Prop) :
  (∀ e, says e → ¬ Rec e) → emits says m → keeps eq m → (∀ a, Q a w) → kept Rec m w Q.
Proof.
  intros HR Hm Hk HQ. apply (carries_keeps _ _ _ eq); [by intros ?? <- | done | | by intros a ? <-].
  eapply emits_impl; [|exact Hm]. auto.
Qed.

Lemma emitf_eq g ty reason note : keeps eq (emitf Recorder g ty reason note : M W unit).
Proof. unfold emitf. destruct Recorder; [apply keeps_tell, _ | apply keeps_ret, _]. Qed.
Lemma metrics_eq p ns n a d b : keeps eq (setWorkloadPlanMetrics p ns n a d b : M W unit).
Proof. unfold setWorkloadPlanMetrics. keeps_tac. Qed.

Lemma carries_emitf (Rec : effect → Prop) g ty reason note w (Q : unit → W → Prop) :
  (∀ e, says e → ¬ Rec e) → Q () w → kept Rec (emitf Recorder g ty reason note) w Q.
Proof. intros HR HQ. apply carries_says; [done|by apply emits_emitf|apply emitf_eq|by intros []]. Qed.
Lemma carries_metrics (Rec : effect → Prop) p ns n a d b w (Q : unit → W → Prop) :
  (∀ e, says e → ¬ Rec e) → Q () w → kept Rec (setWorkloadPlanMetrics p ns n a d b) w Q.
Proof. intros HR HQ. apply carries_says; [done|by apply metrics_emits|apply metrics_eq|by intros []]. Qed.
Lemma carries_tell (Rec : effect → Prop) e w (Q : unit → W → Prop) :
  (∀ e, says e → ¬ Rec e) → says e → Q () w → kept Rec (tell e) w Q.
Proof. intros HR He HQ. apply carries_says; [done|by apply emits_tell|apply keeps_tell, _|by intros []]. Qed.

Lemma carries_lookup (Rec : effect → Prop) policy s w (Q : option EvictionGuardWindow → W → Prop) :
  (∀ o, window_is policy s w o → Q o w) → kept Rec (lookup_window policy s) w Q.
Proof.
  intros HQ. destruct (lookup_window_run policy s w) as (r & Hr & Hw). apply carries_same; unfold res; rewrite Hr //.
  intros o Ho. by apply HQ, Hw.
Qed.

Lemma carries_held_back (Rec : effect → Prop) policy win w (Q : bool → W → Prop) :
  (∀ b, (∀ x, win = Some x → b = holdMaxWindow (Some policy) (Some x) (clock w)) → Q b w) → kept Rec (held_back policy win) w Q.
Proof.
  intros HQ. apply carries_same; unfold res; rewrite held_back_run //. intros b [= <-]. apply HQ. by intros x ->.
Qed.

Lemma carries_buildPlan (Rec : effect → Prop) policy dep n existing sticky w (Q : scalePlan → W → Prop) :
  (∀ p, Q p w) → kept Rec (buildPlan policy dep n existing sticky) w Q.
Proof.
  intros HQ. destruct (buildPlan policy dep n existing sticky w) as [[r w'] es] eqn:E.
  pose proof (buildPlan_reads _ _ _ _ _ _ _ _ _ E) as [-> ->]. apply carries_same; rewrite ?E //.
Qed.

(** A window that may be re-planned is not closed. *)
Lemma not_held policy x t : holdMaxWindow (Some policy) (Some x) t = false → wtPhase (winStatus x) ≠ WindowPhaseClosed.
Proof. unfold holdMaxWindow. destruct (wtForcedCool _); [done|]. cbn. case_bool_decide; [done|]. by intros _. Qed.

(** Recording: afterwards what the plan lists is on record. *)
Lemma carries_record_window (Rec : effect → Prop) policy s win plan nodes w (Q : EvictionGuardWindow → W → Prop) :
  let actions := plan_actions plan (match win with Some x => ScaleActions x | None => [] end) in
  (∀ e, Rec e → scales e) → window_is policy s w win →
  (∀ x, win = Some x → wtPhase (winStatus x) ≠ WindowPhaseClosed) →
  (∀ y w', (window_name_of policy s = wk → lists g0 k0 actions → on_record w') → Q y w') →
  kept Rec (record_window Recorder policy s win actions plan nodes) w Q.
Proof.
  intros actions HR Hwin Hph HQ. assert (∀ e, says e → ¬ Rec e) as Hsays by (intros e He Hr%HR; by destruct e).
  unfold record_window. destruct win as [b|].
  - cbn [window_is] in Hwin. pose proof (win_key_lookup _ _ _ _ Hwin) as Hkey. set (x := with_spec _ _).
    assert (wsActions (winSpec x) = actions ∧ wsWindowUntil (winSpec x) = None ∧ mLabels (winMeta x) !! DeferredLabel = None) as (Hxa & Hxu & Hxl).
    { split; [done|]. split; [done|]. cbn. by rewrite lookup_delete_eq. }
    assert (∀ y, merged b x b y → winStatus y = winStatus b → lists g0 k0 actions → owes g0 k0 y) as Howes.
    { intros y (Ma & Mu & Ml)%merged_current Hst Hli. split; [by rewrite Ma Hxa | by rewrite Mu Hxu patched_until_none | rewrite Hst; by apply Hph|].
      unfold isDeferredWindow, mget. by rewrite Ml Hxl. }
    apply carries_write.
    + by intros ok Hr%HR.
    + intros Hw. destruct (decide (wk = win_key b)) as [Heq|Hne].
      * destruct Hw as (y0 & Hy0 & Ho). rewrite Heq Hkey Hwin in Hy0. injection Hy0 as <-.
        destruct (patchWindow b x w) as [r w'] eqn:Ep. destruct (patch_merges b x w r w' b Ep eq_refl) as (y & Hy & Hst & Hor);
          [by rewrite Hkey | by left|]. cbn [fst snd]. destruct Hor as [[-> _]|Hm]; [left; exists b; split; [by rewrite Heq | done]|].
        destruct (lists_dec actions) as [Hli|Hnl]; [left; exists y; split; [by rewrite Heq | by apply Howes]|].
        right. eexists. split; [done|]. exists b, x, (is_ok r). split; [done|]. split; [done|]. split; [apply Ho|]. split; [by rewrite Hxa|].
        rewrite Hxa. by destruct (plan_actions_lists plan (ScaleActions b) (ow_lists _ _ _ Ho)).
      * left. destruct Hw as (y0 & Hy0 & Ho). exists y0. split; [|done]. rewrite -Hy0. by apply patch_elsewhere.
    + intros y w' Hp. apply HQ. intros Hk Hli.
      destruct (patch_merges b x w (Ok y) w' b Hp eq_refl) as (z & Hz & Hst & Hor); [by rewrite Hkey | by left|].
      destruct Hor as [[_ ?]|Hm]; [done|]. exists z. split; [by rewrite -Hk -Hkey | by apply Howes].
  - intros r w' es H. apply bind_inv in H as [(e & H & ->)|(y & w1 & es1 & es2 & H & H2 & ->)];
      apply create_window_run in H as [(-> & -> & Hc)|(z & Hz & -> & Hs & Hk & Hl & Hf)]; [| |done|].
    + split; [|done]. intros [?|(e' & []%elem_of_nil & _)]. by left.
    + split; [|done]. intros [Hw|(e' & ->%list_elem_of_singleton & Hr%HR)]; [left | done].
      pose proof (create_kept z w Hw) as H. by rewrite Hz in H.
    + assert (w' = w1 ∧ Forall says es2) as [-> Hq].
      { unfold emitf in H2. destruct Recorder; simpl in H2; injection H2 as _ <- <-; (split; [done|]); by repeat constructor. }
      split.
      * intros [Hw|(e' & [->|He]%elem_of_cons & Hr)]; [| by apply HR in Hr | ].
        -- left. pose proof (create_kept z w Hw) as H. by rewrite Hz in H.
        -- exfalso. revert Hr. apply Hsays. by apply (proj1 (Forall_forall _ _) Hq).
      * intros a _. apply HQ. intros Hn Hli. destruct (create_stored _ _ _ _ Hz) as (Hst & Hys & Hyl & Hyp). exists y.
        split; [rewrite -Hn -Hst; by rewrite Hk|]. split; rewrite ?Hys ?Hs //; [by rewrite Hyp|].
        unfold isDeferredWindow, mget. by rewrite Hyl Hl.
Qed.

Lemma dirty_open_phase x : wtPhase (winStatus (dirty_phase WindowPhaseOpen x).1) = WindowPhaseOpen.
Proof. unfold dirty_phase. by case_bool_decide. Qed.
Lemma dirty_phases m t x :
  wtPhase (winStatus (dirty_message m (dirty_scale_time t (dirty_phase WindowPhaseOpen x))).1) = WindowPhaseOpen
  ∧ wtPhase (winStatus (dirty_scale_time t (dirty_message m (dirty_phase WindowPhaseOpen x))).1) = WindowPhaseOpen.
Proof.
  pose proof (dirty_open_phase x) as H. unfold dirty_message, dirty_scale_time.
  split; repeat case_match; simplify_eq/=; done.
Qed.

Lemma capacity_phase win err t win' g flip :
  applyCapacityApplied win err t = (win', g, flip) → wtPhase (winStatus win') = wtPhase (winStatus win) ∧ says g.
Proof. unfold applyCapacityApplied. by intros [= <- <- _]. Qed.

Lemma carries_report_apply (Rec : effect → Prop) win msg err w :
  (∀ e, Rec e → scales e) → kept Rec (report_apply win msg err) w (λ _ _, True).
Proof.
  intros HR. assert (∀ e, says e → ¬ Rec e) as Hsays by (intros e He Hr%HR; by destruct e).
  unfold report_apply. apply carries_bind, carries_now. cbv zeta.
  destruct (applyCapacityApplied _ err _) as [[win' gauge] flip] eqn:Ha. apply capacity_phase in Ha as [Hp Hg].
  rewrite (proj1 (dirty_phases _ _ _)) in Hp.
  apply carries_bind, carries_tell; [done..|]. apply carries_bind.
  match goal with |- carries _ _ _ (if ?b then _ else _) _ _ => destruct b end.
  - apply carries_bind, carries_try.
    + apply carries_UpdateWindowStatus; [by intros ? ? Hr%HR | left; by rewrite Hp | done].
    + intros [u|e] w1; destruct err; try apply carries_throw; apply carries_ret; try apply carries_throw; by apply carries_ret.
  - apply carries_ret. destruct err; [apply carries_throw | by apply carries_ret].
Qed.

(** Applying under a record, or none of its patches is of the object. *)
Lemma carries_apply (Rec : effect → Prop) plan pn existing w (Q : bool * option error → W → Prop) :
  (∀ e, Rec e → raises g0 k0 e) → (lists g0 k0 (plan_actions plan existing) → (∀ e, ¬ Rec e) ∨ on_record w) → (∀ x w', Q x w') →
  kept Rec (apply plan pn) w Q.
Proof.
  intros HR Hw HQ r w' es H. split; [|auto].
  assert (keeps same_window (apply plan pn : M W _)) as Hk by (apply apply_frame; [apply _ | apply same_window_object]).
  pose proof (keeps_run _ _ _ _ _ _ Hk H) as Hs. intros [Hr|(e & He & Hr)]; [left; by eapply same_window_kept|].
  assert (lists g0 k0 (plan_actions plan existing)) as Hl.
  { destruct (HR e Hr) as (_ & p & ok & ->).
    refine (emits_elem (λ e, match e with PatchObjectE g k _ _ => g = g0 → k = k0 → lists g0 k0 (plan_actions plan existing) | _ => True end)
      _ _ _ _ _ _ _ H He eq_refl eq_refl). apply apply_emits; [|done]. intros st v q ok' Hst Hv -> Hk0.
    exists (step_action st). split; [by apply plan_actions_steps|]. by rewrite /on_object /step_action actionTarget_scaleAction. }
  destruct (Hw Hl) as [Hn|Ho]; [by destruct (Hn e) | left; by eapply same_window_kept].
Qed.

(** What one workload's window is accountable for. *)
Definition own (policy : EvictionGuardPolicy) (s : workloadState) (e : effect) : Prop :=
  window_name_of policy s = wk ∧ raises g0 k0 e.

Lemma own_scales policy s e : own policy s e → scales e.
Proof. by intros [_ [? _]]. Qed.

Lemma says_own policy s e : says e → ¬ own policy s e.
Proof. intros He Hr%own_scales. by destruct e. Qed.

Lemma carries_ensureWindow policy s w : kept (own policy s) (ensureWindow Recorder policy s) w (λ _ _, True).
Proof.
  unfold ensureWindow. apply carries_bind, carries_lookup. intros win Hwin.
  apply carries_bind, carries_held_back. intros [|] Hheld; [by apply carries_ret|]. cbv zeta.
  apply carries_bind, carries_tell; [apply says_own | done|].
  apply carries_bind, carries_buildPlan. intros plan.
  apply carries_bind, carries_metrics; [apply says_own|].
  apply carries_bind, carries_record_window; [apply own_scales | done | |].
  { intros x ->. exact (not_held _ _ _ (eq_sym (Hheld x eq_refl))). }
  intros y w1 Hy. apply carries_bind.
  apply (carries_apply _ plan (polName policy) (match win with Some x => ScaleActions x | None => [] end)).
  { by intros e [_ ?]. }
  { intros Hl. destruct (decide (window_name_of policy s = wk)) as [Hk|Hn]; [right; by apply Hy | left; by intros e [? _]]. }
  intros [scaled err] w2. apply carries_bind.
  apply (carries_mono _ _ _ _ _ (λ _ _, True)); [intros _ w3 _; apply carries_report_apply, own_scales|].
  destruct err; [by apply carries_ret|]. destruct scaled; [by apply carries_emitf; [apply says_own|] | by apply carries_ret].
Qed.

Abbreviation none := (λ _ : effect, False).

Lemma says_none e : says e → ¬ none e.
Proof. by intros _ []. Qed.

(** A placeholder is written over no window that owes. *)
Lemma carries_ensureDeferredWindow policy s w :
  (∀ b, getWindow (window_name_of policy s) w = Ok b → negb (IsActive b) || isDeferredWindow (Some b) = true) →
  kept none (ensureDeferredWindow Recorder policy s) w (λ _ _, True).
Proof.
  intros Hb. unfold ensureDeferredWindow. apply carries_bind, carries_lookup. intros win Hwin.
  apply carries_bind, carries_held_back. intros [|] _; [by apply carries_ret|]. cbv zeta.
  apply carries_bind, carries_tell; [apply says_none | done|]. destruct win as [b|].
  - cbn [window_is] in Hwin. pose proof (win_key_lookup _ _ _ _ Hwin) as Hkey. unfold refresh_deferred.
    apply carries_bind, carries_write; [by intros ? []| |].
    { intros (y0 & Hy0 & Ho). left. destruct (decide (wk = win_key b)) as [Heq|Hne].
      - rewrite Heq Hkey in Hy0. rewrite Hy0 in Hwin. injection Hwin as ->. specialize (Hb _ Hy0). destruct Ho as [_ _ Hp Hd].
        rewrite Hd orb_false_r in Hb. unfold IsActive in Hb. by destruct (wtPhase (winStatus b)).
      - exists y0. split; [|done]. rewrite -Hy0. by apply patch_elsewhere. }
    intros y w1 _. apply carries_bind, carries_now. apply carries_bind, carries_now. cbv zeta.
    destruct (applyCapacityApplied _ _ _) as [[win' gauge] flip] eqn:Ha. apply capacity_phase in Ha as [Hp Hg].
    rewrite (proj2 (dirty_phases _ _ _)) in Hp. apply carries_bind, carries_tell; [apply says_none | done|].
    match goal with |- carries _ _ _ (if ?b then _ else _) _ _ => destruct b end; [|by apply carries_ret].
    apply carries_bind, carries_UpdateWindowStatus; [by intros ? ? [] | left; by rewrite Hp|]. intros z w2. by apply carries_ret.
  - unfold open_deferred. apply carries_bind.
    assert (∀ x w, kept none (create_window policy x) w (λ _ _, True)) as Hc.
    { intros x w0 r w' es H. split; [|done]. intros [Hw|(? & _ & [])]. left.
      apply create_window_run in H as [(-> & _ & _)|(z & Hz & _)]; [done|]. pose proof (create_kept z w0 Hw) as H. by rewrite Hz in H. }
    eapply carries_mono; [|apply Hc]. intros y w1 _. apply carries_bind, carries_now. cbv zeta.
    destruct (applyCapacityApplied _ _ _) as [[win' gauge] flip] eqn:Ha. apply capacity_phase in Ha as [Hp Hg].
    apply carries_bind, carries_tell; [apply says_none | done|]. apply carries_bind, carries_UpdateWindowStatus; [by intros ? ? [] | left; by rewrite Hp|].
    intros z w2. by apply carries_emitf; [apply says_none|].
Qed.

Lemma carries_publish policy s w : kept none (publishWorkloadMetrics policy s) w (λ _ _, True).
Proof.
  unfold publishWorkloadMetrics. apply carries_bind, carries_lookup. intros win _.
  apply carries_bind, carries_buildPlan. intros p. by apply carries_metrics; [apply says_none|].
Qed.

Lemma carries_any (Rec : effect → Prop) {A} (m : M W A) w (Q : A → W → Prop) :
  kept none m w (λ _ _, True) → emits (λ e, ¬ Rec e) m → (∀ a w', Q a w') → kept Rec m w Q.
Proof.
  intros Hm He HQ r w' es H. split; [|auto]. destruct (Hm _ _ _ H) as [Hi _]. intros [?|(e & Hin & Hr)]; [by apply Hi; left|].
  by destruct (emits_elem _ _ _ _ _ _ _ He H Hin).
Qed.

Lemma carries_sweep_one policy windowCap s a w : kept (own policy s) (sweep_one Recorder policy windowCap s a) w (λ _ _, True).
Proof.
  assert (∀ {A} (m : M W A), emits side m → emits (λ e, ¬ own policy s e) m) as Hside.
  { intros A m. apply emits_impl. intros e He Hr%own_scales. by destruct e. }
  unfold sweep_one. apply carries_bind, carries_reads. intros win Hwin. cbv zeta.
  destruct (_ && _ && _) eqn:Ew.
  - apply carries_bind, carries_try.
    + apply carries_any; [|exact (Hside _ _ (deferred_side Recorder policy s))|done]. apply carries_ensureDeferredWindow. intros b Hb.
      unfold policyGetWindow in Hwin. rewrite Hb in Hwin. injection Hwin as <-.
      apply andb_true_iff in Ew as [Ew _]. by apply andb_true_iff in Ew as [Ew _].
    + intros [u|e] w1; [|by apply carries_ret]. apply carries_bind, carries_try; [|intros ? w2; by apply carries_ret].
      apply carries_any; [apply carries_publish | apply Hside; by apply publishWorkloadMetrics_emits | done].
  - apply carries_bind, carries_try; [apply carries_ensureWindow|]. intros [u|e] w1; [by apply carries_ret|].
    apply carries_bind, carries_tell; [apply says_own | done|].
    do 2 (apply carries_bind, carries_emitf; [apply says_own|]). by apply carries_ret.
Qed.

Lemma carries_sweep_all policy windowCap l a w : kept none (sweep_all Recorder policy windowCap l a) w (λ _ _, True).
Proof.
  revert a w. induction l as [|s l IH]; intros a w; cbn [sweep_all]; [by apply carries_ret|].
  apply carries_bind. eapply carries_mono; [intros a' w' _; apply IH|]. by eapply carries_weaken; [|apply carries_sweep_one].
Qed.

(** *** The rest of a reconcile *)

Lemma carries_policy_write {A} (f : W → result A * W) e w (Q : A → W → Prop) :
  (∀ w, getWindow wk (f w).2 = getWindow wk w) → (∀ a w', Q a w') → kept none (write f e) w Q.
Proof.
  intros Hf HQ. apply carries_write; [by intros ? []| |auto]. intros (x & Hx & Ho). left. exists x. by rewrite Hf.
Qed.

Lemma carries_updateStatus policy a b c d e w : kept none (updateStatus policy a b c d e) w (λ _ _, True).
Proof.
  unfold updateStatus. apply carries_bind, carries_now. cbv zeta. apply carries_bind, carries_policy_write.
  - intros w0. apply policy_status_windows.
  - intros p w1. by apply carries_ret.
Qed.

Lemma carries_for_each {A} (f : A → M W unit) l w :
  (∀ x w, x ∈ l → kept none (f x) w (λ _ _, True)) → kept none (for_each f l) w (λ _ _, True).
Proof.
  revert w. induction l as [|x l IH]; intros w Hf; cbn [for_each]; [by apply carries_ret|].
  apply carries_bind. eapply carries_mono; [|apply Hf; left]. intros _ w1 _. apply IH. intros y w2 Hy. apply Hf. by right.
Qed.

Lemma carries_finish policy n m cap workloads a w :
  kept none (finish_reconcile registry Recorder policy n m cap workloads a) w (λ _ _, True).
Proof.
  unfold finish_reconcile. apply carries_bind. apply (carries_mono _ _ _ _ _ (λ _ _, True)).
  2:{ destruct (0 <? swDeferred a); [by apply carries_emitf; [apply says_none|] | by apply carries_ret]. }
  intros _ w1 _. apply carries_bind, carries_tell; [apply says_none | done|].
  apply carries_bind. eapply (carries_mono _ _ _ _ _ (λ _ _, True)).
  2:{ unfold syncClearedWindows. apply carries_bind, carries_reads. intros l _. apply carries_for_each. intros win w2 _.
      unfold sync_window. cbv zeta. destruct (workloads !! _); [by apply carries_ret|].
      apply carries_bind, carries_tell; [apply says_none | done|]. destruct (wsVulnerableNodes _); [by apply carries_ret|].
      apply carries_bind, carries_reads. intros [] _; [by apply carries_ret|].
      apply carries_bind, carries_PatchWindow_light; [by intros ? ? ? [] | done | by split; [|split; [right|]] | done|].
      intros y w3 _. by apply carries_ret. }
  intros _ w2 _. apply carries_bind, carries_reads. intros k _. apply carries_bind.
  eapply carries_mono; [|apply carries_updateStatus]. intros c w3 _. by apply carries_ret.
Qed.

(** A reconcile of a policy that is being deleted deletes its windows: those
    with the finalizer stay. *)
Definition held_record (w : W) : Prop := ∃ x, getWindow wk w = Ok x ∧ owes g0 k0 x ∧ has_finalizer x = true.

Lemma delete_held k w : held_record w → held_record (deleteWindow k w).2.
Proof.
  intros (x & Hx & Ho & Hf). destruct (decide (wk = k)) as [<-|Hne].
  - destruct (delete_keeps wk w x Hx Hf) as (y & Hy & Hs & Hst & Hl & Hfin). exists y. split; [done|]. split.
    + destruct Ho as [H1 H2 H3 H4]. split; rewrite ?Hs ?Hst //. rewrite -H4. apply isDeferred_lookup. by rewrite Hl.
    + rewrite -Hf. unfold has_finalizer. by rewrite Hfin.
  - exists x. split; [|done]. by rewrite delete_elsewhere.
Qed.

(** The window was deleted while it had no finalizer. *)
Definition unguarded (w : W) (es : list effect) : Prop :=
  ∃ x ok, getWindow wk w = Ok x ∧ has_finalizer x = false ∧ DeleteWindowE wk ok ∈ es.

Lemma ignore_nf_keeps (R : W → W → Prop) `{!PreOrder R} (m : M W unit) : keeps R m → keeps R (ignore_nf m).
Proof.
  intros H. unfold ignore_nf. apply keeps_bind; [apply _|by apply keeps_try|]. intros [u|e]; [apply keeps_ret, _|].
  destruct (IgnoreNotFound e); [apply keeps_throw, _ | apply keeps_ret, _].
Qed.

Definition deletes_it (e : effect) : Prop := e = DeleteWindowE wk true ∨ e = DeleteWindowE wk false.
#[local] Instance deletes_it_dec e : Decision (deletes_it e).
Proof. destruct e as [| | | | | | |k []| | |]; try (right; by intros [|]); (destruct (decide (k = wk)) as [->|Hne]; [left; unfold deletes_it; auto | right; intros [H|H]; congruence]). Defined.

(** A deletion of another window. *)
Lemma delete_other k w r w' es :
  ignore_nf (DeleteWindow k) w = (r, w', es) → ¬ Exists deletes_it es → same_window w w'.
Proof.
  unfold ignore_nf. rewrite bind_eq. unfold try, DeleteWindow, write.
  pose proof (delete_elsewhere k wk w) as Hd. destruct (deleteWindow k w) as [r0 w0].
  assert (∀ r1 es1, (match r0 with Ok _ => mret () | Err e => match IgnoreNotFound e with None => mret () | Some e => throw e end end : M W unit) w0
                    = (r1, w0, es1) → es1 = []) as He.
  { intros r1 es1. destruct r0 as [u|e]; [|destruct (IgnoreNotFound e)]; by intros [= _ <-]. }
  destruct (decide (wk = k)) as [Heq|Hne]; intros H Hn.
  - exfalso. apply Hn. apply Exists_exists. exists (DeleteWindowE k (is_ok r0)).
    split; [|unfold deletes_it; rewrite Heq; destruct (is_ok r0); auto]. destruct r0 as [u|e]; [|destruct (IgnoreNotFound e)]; injection H as _ _ <-; left.
  - assert (w' = w0) as -> by (destruct r0 as [u|e]; [|destruct (IgnoreNotFound e)]; by injection H). by apply Hd.
Qed.

Lemma delete_others l w r w' es :
  for_each (λ x, ignore_nf (DeleteWindow (win_key x))) l w = (r, w', es) → ¬ Exists deletes_it es → same_window w w'.
Proof.
  revert w r w' es. induction l as [|z l IH]; intros w r w' es; cbn [for_each]; [by intros (_ & -> & _)%ret_inv|].
  intros [(e & H & _)|([] & w3 & es2 & es3 & H & H2 & ->)]%bind_inv Hn; [by eapply delete_other|].
  rewrite Exists_app in Hn. transitivity w3; [eapply delete_other; [exact H | tauto] | eapply IH; [exact H2 | tauto]].
Qed.

Lemma deletes_held l w : held_record w → held_record (final (for_each (λ x, ignore_nf (DeleteWindow (win_key x))) l : M W unit) w).
Proof.
  set (R := λ w w', held_record w → held_record w').
  assert (PreOrder R) as HP by (split; [by intros ?? | intros ????? ?; unfold R in *; auto]).
  assert (keeps R (for_each (λ x, ignore_nf (DeleteWindow (win_key x))) l : M W unit)) as Hk; [|by apply Hk].
  apply keeps_for_each; [done|]. intros z _. apply ignore_nf_keeps; [done|]. apply keeps_write. intros w0. exact (delete_held _ w0).
Qed.

Lemma cleanup_kept policy w r w' es :
  cleanup policy w = (r, w', es) → on_record w → on_record w' ∨ unguarded w es.
Proof.
  unfold cleanup. intros H (x & Hx & Ho).
  apply bind_inv in H as [(e & [_ [-> _]]%reads_inv & _)|(l & w1 & es1 & es2 & (_ & -> & ->)%reads_inv & H & ->)]; [left; by exists x|].
  cbn [app]. destruct l as [|y l].
  { left. exists x. split; [|done]. rewrite -Hx. destruct (policy_has_finalizer policy); [|by apply ret_inv in H as (_ & -> & _)].
    refine (keeps_run same_window _ _ _ _ _ _ H). apply keeps_bind; [apply _| |intros ?; apply keeps_ret, _].
    apply keeps_write. intros w0. apply policy_windows. }
  destruct (has_finalizer x) eqn:Ef.
  - left. pose proof (deletes_held (y :: l) w (ex_intro _ x (conj Hx (conj Ho Ef)))) as Hh. unfold final in Hh.
    apply bind_inv in H as [(e & H & _)|(u & w1 & es1 & es3 & H & H2 & ->)]; rewrite H in Hh; cbn in Hh.
    + destruct Hh as (z & Hz & Hoz & _). by exists z.
    + apply ret_inv in H2 as (_ & -> & _). destruct Hh as (z & Hz & Hoz & _). by exists z.
  - destruct (decide (Exists deletes_it es2)) as [Hex|Hn].
    { right. apply Exists_exists in Hex as (e & He & [->| ->]); [exists x, true | exists x, false]; done. }
    left. exists x. split; [|done]. rewrite -Hx.
    apply bind_inv in H as [(e & H & _)|(u & w1 & es1 & es3 & H & H2 & ->)]; [by eapply delete_others|].
    apply ret_inv in H2 as (_ & -> & ->). rewrite app_nil_r in Hn. by eapply delete_others.
Qed.

(** What a reconcile of a policy does to a record. *)
Lemma policy_kept req w r w' es :
  policy_Reconcile registry Recorder req w = (r, w', es) → on_record w →
  on_record w' ∨ (∃ e, e ∈ es ∧ forgets e) ∨ unguarded w es.
Proof.
  intros H Hw. assert (∀ m : M W CtrlResult, kept none m w (λ _ _, True) → m w = (r, w', es) →
    on_record w' ∨ (∃ e, e ∈ es ∧ forgets e) ∨ unguarded w es) as Hk.
  { intros m Hm Hrun. destruct (proj1 (Hm _ _ _ Hrun) (or_introl Hw)); auto. }
  revert H. unfold policy_Reconcile. rewrite bind_try_reads. destruct (getPolicy _ w) as [policy|e].
  2:{ apply Hk. destruct (IgnoreNotFound e); [apply carries_throw | by apply carries_ret]. }
  destruct (negb (tsIsZero _)); [intros [?|?]%cleanup_kept; auto|].
  destruct (negb (policy_has_finalizer policy)).
  { apply Hk. apply carries_bind, carries_policy_write; [intros w0; apply policy_windows|]. intros p w1. by apply carries_ret. }
  destruct (FromSpec _) as [flt|e].
  2:{ apply Hk. apply carries_bind. eapply carries_mono; [|apply carries_updateStatus]. intros c w1 _. apply carries_throw. }
  apply Hk. unfold reconcile_policy. apply carries_bind, carries_reads. intros nodes _.
  apply carries_bind. apply carries_same; [done..|]. intros x _. cbv zeta.
  do 2 (apply carries_bind, carries_tell; [apply says_none | done|]).
  do 2 (apply carries_bind, carries_reads; intros ? _).
  apply carries_bind. eapply carries_mono; [|apply carries_sweep_all]. intros a' w2 _. apply carries_finish.
Qed.
End record.

Abbreviation none := (λ _ : effect, False).

(** ** A raise goes on record *)

Lemma sweep_raises g k policy cap l a w r w' es e :
  sweep_all Recorder policy cap l a w = (r, w', es) → e ∈ es → raises g k e →
  ∃ wk, on_record g k wk w' ∨ ∃ e', e' ∈ es ∧ forgets g k wk e'.
Proof.
  revert a w es. induction l as [|s l IH]; intros a w es; cbn [sweep_all].
  { intros (_ & _ & ->)%ret_inv. by intros ?%elem_of_nil. }
  set (wk := window_name_of policy s). pose proof (carries_sweep_one g k wk policy cap s a w) as Hone.
  intros [(err & H & ->)|(a' & w1 & es1 & es2 & H1 & H2 & ->)]%bind_inv He Hr.
  - exists wk. apply (proj1 (Hone _ _ _ H)). right. by exists e.
  - apply elem_of_app in He as [He|He].
    + exists wk. setoid_rewrite elem_of_app.
      destruct (proj1 (Hone _ _ _ H1)) as [Hw|(e' & ? & ?)]; [right; by exists e | | right; by exists e'; auto].
      destruct (proj1 (carries_sweep_all g k wk policy cap l a' w1 _ _ _ H2) (or_introl Hw)) as [?|(e' & ? & ?)]; [by left | right; by exists e'; auto].
    + destruct (IH _ _ _ H2 He Hr) as (wk' & [?|(e' & ? & ?)]); exists wk'; [by left | right].
      exists e'. split; [|done]. apply elem_of_app. by right.
Qed.

Lemma policy_raises g k req w r w' es e :
  policy_Reconcile registry Recorder req w = (r, w', es) → e ∈ es → raises g k e →
  ∃ wk, on_record g k wk w' ∨ ∃ e', e' ∈ es ∧ forgets g k wk e'.
Proof.
  intros H He Hr. assert (∀ {A} (m : M W A) w r w' es, emits (λ e, ¬ scales e) m → m w = (r, w', es) → e ∉ es) as Hno.
  { intros A m w0 r0 w1 es0 Hm Hrun Hin. destruct Hr as [Hs _]. by apply (emits_elem _ _ _ _ _ _ _ Hm Hrun Hin). }
  revert H. unfold policy_Reconcile. rewrite bind_try_reads. destruct (getPolicy _ w) as [policy|err].
  2:{ intros H. exfalso. revert He. eapply Hno; [|exact H]. emits_tac. }
  destruct (negb (tsIsZero _)).
  { intros H. exfalso. revert He. eapply Hno; [|exact H]. unfold cleanup, ignore_nf. emits_tac; by intros []. }
  destruct (negb _). { intros H. exfalso. revert He. eapply Hno; [|exact H]. emits_tac; by intros []. }
  destruct (FromSpec _) as [flt|err].
  2:{ intros H. exfalso. revert He. eapply Hno; [|exact H]. unfold updateStatus. emits_tac; by intros []. }
  unfold reconcile_policy.
  intros [(? & [_ [_ ->]]%reads_inv & _)|(nodes & w1 & es1 & es2 & (_ & -> & ->)%reads_inv & H & ->)]%bind_inv; [by apply elem_of_nil in He|].
  apply bind_inv in H as [(? & (_ & _ & ->)%lift_inv & _)|(x & w2 & es3 & es4 & (_ & -> & ->)%lift_inv & H & ->)]; [by apply elem_of_nil in He|].
  cbv zeta in H. cbn [app] in He |- *. apply bind_tell in H as (post & H & ->). apply bind_tell in H as (post2 & H & ->).
  apply elem_of_cons in He as [->|He]; [by destruct Hr|]. apply elem_of_cons in He as [->|He]; [by destruct Hr|].
  apply bind_inv in H as [(? & [_ [_ ->]]%reads_inv & _)|(wls & w2 & es5 & es6 & (_ & -> & ->)%reads_inv & H & ->)]; [by apply elem_of_nil in He|].
  apply bind_inv in H as [(? & [_ [_ ->]]%reads_inv & _)|(act & w2 & es7 & es8 & (_ & -> & ->)%reads_inv & H & ->)]; [by apply elem_of_nil in He|].
  cbn [app] in He |- *. setoid_rewrite elem_of_cons. setoid_rewrite elem_of_cons.
  apply bind_inv in H as [(? & H & _)|(a & w2 & es9 & es10 & H & H2 & ->)].
  - destruct (sweep_raises _ _ _ _ _ _ _ _ _ _ _ H He Hr) as (wk & [?|(e' & ? & ?)]); exists wk; eauto 7.
  - apply elem_of_app in He as [He|He].
    + destruct (sweep_raises _ _ _ _ _ _ _ _ _ _ _ H He Hr) as (wk & [Hw|(e' & ? & ?)]); exists wk; setoid_rewrite elem_of_app; [|eauto 8].
      destruct (proj1 (carries_finish g k wk policy _ _ _ _ _ _ _ _ _ H2) (or_introl Hw)) as [?|(e' & ? & ?)]; eauto 8.
    + exfalso. revert He. eapply Hno; [|exact H2]. eapply emits_impl; [|apply finish_reconcile_side].
      intros e' Hs Hc. by destruct e'.
Qed.

(** ** The window reconciler *)

(** A restore that reports an error reports another one than "not found". *)
Lemma restoreActions_found win w e w' es : restoreActions win w = (Err e, w', es) → IsNotFound e = false.
Proof.
  unfold restoreActions. generalize (runs actionTarget (default_ns (mNamespace (winMeta win)) <$> ScaleActions win)) as l.
  intros l. revert w es. induction l as [|g l IH]; intros w es; cbn [for_each]; [by intros (? & _)%ret_inv|].
  intros [(e' & H & [= ->])|([] & w1 & es1 & es2 & _ & H & ->)]%bind_inv; [|by eapply IH].
  unfold restore_or_skip in H. apply bind_inv in H as [(e'' & H & _)|(r & w1 & es1 & es2 & _ & H & ->)].
  - unfold try in H. by destruct (restore_run g w) as [[? ?] ?].
  - destruct r as [u|e0]; [by apply ret_inv in H as (? & _)|]. destruct (IsNotFound e0) eqn:E; [by apply ret_inv in H as (? & _)|].
    by injection H as -> _ _.
Qed.

(** The rest of a run that has restored. *)
Definition letting_go (x : EvictionGuardWindow) : M W CtrlResult :=
  _ ← clear_metrics x; _ ← drop_finalizer x; mret ctrl_done.

Lemma letting_go_emits x : emits (λ e, ¬ scales e) (letting_go x).
Proof.
  unfold letting_go, drop_finalizer. apply emits_bind; [by apply clear_metrics_emits; intros; intros []|].
  intros _. emits_tac; by intros [].
Qed.

Lemma bind_after {A B} (m : M W A) (f : A → M W B) a w v es1 r w' es :
  m w = (Ok a, v, es1) → (m ≫= f) w = (r, w', es) → ∃ es2, f a v = (r, w', es2) ∧ es = es1 ++ es2.
Proof. intros Hm. rewrite bind_eq Hm. destruct (f a v) as [[r2 v2] es5]. intros [= <- <- <-]. by exists es5. Qed.

(** A window that is left after a restore: the run is the restore, and the rest. *)
Lemma leave_restored x w w1 es1 r w' es :
  restoreActions x w = (Ok (), w1, es1) → scaleBackAndUnfinalize x w = (r, w', es) →
  ∃ es2, letting_go x w1 = (r, w', es2) ∧ es = es1 ++ es2.
Proof.
  intros Hr. refine (bind_after (ignore_nf (restoreActions x)) (λ _, letting_go x) () w w1 es1 r w' es _). unfold ignore_nf. rewrite bind_eq. unfold try. rewrite Hr. cbn. by rewrite app_nil_r.
Qed.

(** So a window is left only restored. *)
Lemma leave_restores x w c w' es :
  scaleBackAndUnfinalize x w = (Ok c, w', es) →
  ∃ w1 es1 es2, restoreActions x w = (Ok (), w1, es1) ∧ letting_go x w1 = (Ok c, w', es2) ∧ es = es1 ++ es2.
Proof.
  intros H. destruct (restoreActions x w) as [[[[]|e] w1] es1] eqn:Er.
  - destruct (leave_restored _ _ _ _ _ _ _ Er H) as (es2 & ? & ?). by exists w1, es1, es2.
  - exfalso. revert H. unfold scaleBackAndUnfinalize, ignore_nf. rewrite bind_eq bind_eq. unfold try. rewrite Er /IgnoreNotFound.
    by rewrite (restoreActions_found _ _ _ _ _ Er).
Qed.

(** The capacity patches of a run are those of a restore of what [x] lists, made
    without an error from the objects as they were in [w]. *)
Definition restoring (x : EvictionGuardWindow) (w : W) (es : list effect) : Prop :=
  ∃ w0 w1 es0 es1 es2, same_objects w w0 ∧ restoreActions x w0 = (Ok (), w1, es1) ∧ es = es0 ++ es1 ++ es2
    ∧ Forall (λ e, ¬ scales e) (es0 ++ es2).

Lemma emits_run {A} (P : effect → Prop) (m : M W A) w r w' es : emits P m → m w = (r, w', es) → Forall P es.
Proof. intros Hm H. specialize (Hm w). unfold effects in Hm. by rewrite H in Hm. Qed.

Lemma leave_restoring x w w1 es1 r w' es :
  restoreActions x w = (Ok (), w1, es1) → scaleBackAndUnfinalize x w = (r, w', es) → restoring x w es.
Proof.
  intros Hr H. destruct (leave_restored _ _ _ _ _ _ _ Hr H) as (es2 & H2 & ->). exists w, w1, [], es1, es2.
  do 3 (split; [done|]). exact (emits_run _ _ _ _ _ _ (letting_go_emits x) H2).
Qed.

(** The step that scales back: once the restore has succeeded, nothing moves the
    capacity any more, whatever fails later. *)
Lemma take_step_restoring x policy dep force until t dec w w1 es1 r w' es :
  pdStep dec = stepBeginScaleBack → restoreActions x w = (Ok (), w1, es1) →
  take_step Recorder x policy dep force until t dec w = (r, w', es) → ∃ es2, es = es1 ++ es2 ∧ Forall (λ e, ¬ scales e) es2.
Proof.
  intros Hd Hr. unfold take_step. rewrite Hd.
  assert (try (restoreActions x) w = (Ok (Ok ()), w1, es1)) as Ht by (unfold try; by rewrite Hr).
  assert (∀ r1 w2 es2, scaleBackIfAllowed Recorder x w = (r1, w2, es2) → ∃ es3, es2 = es1 ++ es3 ∧ Forall (λ e, ¬ scales e) es3) as Hsb.
  { intros r1 w2 es2 E. destruct (bind_after _ _ _ _ _ _ _ _ _ Ht E) as (es3 & E3 & ->). exists es3. split; [done|].
    refine (emits_run _ _ _ _ _ _ _ E3). apply emits_bind; [apply emits_tell; by intros []|]. intros _.
    apply emits_bind; [by apply clear_metrics_emits; intros; intros []|]. intros _. by apply emitf_emits; intros; intros []. }
  intros [(e & E & ->)|(u & w2 & es2 & es4 & E & E2 & ->)]%bind_inv; destruct (Hsb _ _ _ E) as (es3 & -> & Hq); [by exists es3|].
  exists (es3 ++ es4). rewrite -app_assoc. split; [done|]. apply Forall_app. split; [done|]. cbv zeta in E2.
  refine (emits_run _ _ _ _ _ _ _ E2).
  apply emits_bind; [apply emits_write; by intros ? []|]. intros y.
  apply emits_bind; [apply stampCooldown_emits; intros g k p ok Hp Hs; by apply Hs|]. intros _.
  apply emits_bind; [apply writeStatus_emits; by intros; intros []|]. intros _. apply emits_ret.
Qed.

Section window.
Context (g0 : GroupVersionKind) (k0 wk : NamespacedName).

(** A run with the effects [es] settles the record: the window lists the object
    in [w], and the run restored what the window lists. *)
Definition restored (w : W) (es : list effect) : Prop :=
  ∃ x, getWindow wk w = Ok x ∧ lists g0 k0 (wsActions (winSpec x)) ∧ restoring x w es.

Abbreviation kept I := (carries I none none).

(** In what follows, [X] is what lifts every obligation: that the window is
    another one, or was restored. *)
Section run.
Context (X : Prop).

Definition owed_unless (w : W) : Prop := X ∨ on_record g0 k0 wk w.

Lemma carries_free {A} (m : M W A) w : X → kept owed_unless m w (λ _ _, True).
Proof. intros HX r w' es _. split; [|done]. intros _. left. by left. Qed.

Lemma owed_light b x w :
  win_key x = win_key b → light b x →
  mFinalizers (winMeta x) = mFinalizers (winMeta b) ∨ (∀ y, getWindow (win_key b) w = Ok y → tsIsZero (mDeletionTimestamp (winMeta y)) = true) →
  owed_unless w → owed_unless (patchWindow b x w).2.
Proof. intros Hk Hl Hf [?|Hw]; [by left | right; by apply patch_light]. Qed.

Lemma carries_quiet {A} (m : M W A) w (Q : A → W → Prop) :
  keeps (same_window wk) m → (∀ a w', Q a w') → kept owed_unless m w Q.
Proof.
  intros Hk HQ. apply (carries_keeps _ _ _ (same_window wk)); [|done| |auto].
  - intros w1 w2 Hs [?|Hw]; [by left | right; by eapply same_window_kept].
  - intros w0. apply Forall_forall. by intros ? _ [].
Qed.

Lemma carries_writeStatus x dep phase msg w (Q : EvictionGuardWindow → W → Prop) :
  phase ≠ WindowPhaseClosed ∨ X → (∀ y w', Q y w') → kept owed_unless (writeStatus Recorder x dep phase msg) w Q.
Proof.
  intros Hp HQ. unfold writeStatus. apply carries_bind, carries_reads. intros [ready safe] _.
  apply carries_bind, carries_now. cbv zeta. destruct (applySpareStatus x ready safe _) as [[win1 gauge] flip].
  apply carries_bind, carries_quiet; [apply keeps_tell, _|]. intros _ w1.
  apply carries_bind, carries_quiet.
  { destruct flip; [|apply keeps_ret, _]. apply keeps_bind; [apply _| |intros _].
    - match goal with |- keeps _ (if ?b then _ else _) => destruct b end; [|apply keeps_ret, _].
      unfold emitf. destruct Recorder; [apply keeps_tell, _ | apply keeps_ret, _].
    - match goal with |- keeps _ (if ?b then _ else _) => destruct b end; [|apply keeps_ret, _].
      unfold emitf. destruct Recorder; [apply keeps_tell, _ | apply keeps_ret, _]. }
  intros _ w2. match goal with |- carries _ _ _ (if ?b then _ else _) _ _ => destruct b end; [by apply carries_ret|].
  apply carries_write; [by intros ? []| |auto]. intros [?|Hw]; left; [by left|].
  destruct Hp as [Hp|?]; [right | by left]. by apply status_kept; [left|].
Qed.

Lemma carries_take_step x policy dep force t dec w :
  (wsWindowUntil (winSpec x) = None ∨ X) → (pdStep dec = stepBeginScaleBack → ∀ w1 es1, restoreActions x w = (Ok (), w1, es1) → X) →
  (pdStep dec = stepStayCooling ∨ pdStep dec = stepClose → wsWindowUntil (winSpec x) ≠ None) →
  (pdStep dec = stepStayOpenVulnerable ∨ pdStep dec = stepStayOpenWaitingSpare → pdPhase dec = WindowPhaseOpen) →
  kept owed_unless (take_step Recorder x policy dep force (until_of x) t dec) w (λ _ _, True).
Proof.
  intros Hu Hres Hcool Hopen. destruct Hu as [Hu|HX]; [|by apply carries_free]. unfold take_step.
  destruct (pdStep dec) eqn:Es.
  1, 2: apply carries_bind; unfold abortCooldown; rewrite Hu;
    assert (∀ y w', kept owed_unless (writeStatus Recorder y dep (pdPhase dec) (pdMessage dec) ≫= λ z, mret (openRequeue (Some policy) z t)) w' (λ _ _, True)) as Hws
      by (intros y w'; apply carries_bind, carries_writeStatus; [left; by rewrite Hopen; auto | intros z w''; by apply carries_ret]);
    destruct (pdAbortCooldown dec); apply carries_ret, Hws.
  - destruct (restoreActions x w) as [[[[]|e] wr] er] eqn:Er; [by apply carries_free; eapply Hres|]. clear Hres.
    assert (kept owed_unless (try (restoreActions x)) w (λ rr w', ∃ e, rr = Err e)) as Hk.
    { intros r1 w1 es1. unfold try. rewrite Er. intros [= <- <- <-]. split; [|intros a [= <-]; by exists e].
      intros [[?|Hw]|(? & _ & [])]; left; [by left | right]. eapply same_window_kept; [|exact Hw].
      refine (keeps_run (same_window wk) _ _ _ _ _ _ Er). apply restoreActions_frame; [apply _ | apply same_window_object]. }
    assert (kept owed_unless (scaleBackIfAllowed Recorder x) w (λ _ _, False)) as Hsb.
    { unfold scaleBackIfAllowed. apply carries_bind. eapply carries_mono; [|apply Hk]. intros r1 w1 [e1 ->].
      apply carries_bind, carries_quiet; [apply keeps_tell, _|]. intros _ w2. apply carries_throw. }
    apply carries_bind. eapply carries_mono; [|exact Hsb]. by intros ? ? [].
  - destruct Hcool; auto.
  - destruct Hcool; auto.
Qed.

(** Without a cooldown the machine neither cools nor closes. *)
Lemma carries_decided x policy dep risk safe force t w :
  wsWindowUntil (winSpec x) = None →
  (pdStep (decision x risk safe force t) = stepBeginScaleBack → ∀ w1 es1, restoreActions x w = (Ok (), w1, es1) → X) →
  kept owed_unless (take_step Recorder x policy dep force (until_of x) t (decision x risk safe force t)) w (λ _ _, True).
Proof.
  intros Hu Hres. assert (IsZero (until_of x) = true) as Hz by by rewrite /until_of Hu.
  apply carries_take_step; [by left | done | |].
  - intros [(_ & Hn & _)%stay_cooling|(_ & Hn & _)%close_step]; cbn in Hn; by rewrite Hz in Hn.
  - intros Hs. by apply stay_open in Hs as (_ & ? & _).
Qed.
End run.

(** A reconcile of another window leaves this one alone. *)
Section elsewhere.
Context (req : NamespacedName) (Hne : wk ≠ req) (w0 : W).

Abbreviation apart_from := (carries (same_window wk w0) none none).
Abbreviation keyed := (λ (y : EvictionGuardWindow) (_ : W), win_key y = req).

Lemma apart_still {A} (m : M W A) w (Q : A → W → Prop) : keeps (same_window wk) m → (∀ a w', Q a w') → apart_from m w Q.
Proof.
  intros Hk HQ. apply (carries_keeps _ _ _ (same_window wk)); [|done| |auto].
  - intros w1 w2 H12 H1. by transitivity w1.
  - intros w1. apply Forall_forall. by intros ? _ [].
Qed.

Lemma apart_emitf g ty reason note w (Q : unit → W → Prop) : (∀ w', Q () w') → apart_from (emitf Recorder g ty reason note) w Q.
Proof. intros HQ. apply apart_still; [|by intros []]. unfold emitf. destruct Recorder; [apply keeps_tell, _ | apply keeps_ret, _]. Qed.

Lemma apart_PatchWindow b x w : win_key b = req → win_key x = win_key b → apart_from (PatchWindow b x) w keyed.
Proof.
  intros Hb Hx. apply carries_write; [by intros ? []| |].
  - intros Hw. left. transitivity w; [done|]. apply patch_elsewhere; [done | by rewrite Hb].
  - intros y w' Hp. destruct (patch_answers _ _ _ _ _ Hp Hx) as [-> _]. done.
Qed.

Lemma apart_UpdateWindowStatus x w : win_key x = req → apart_from (UpdateWindowStatus x) w keyed.
Proof.
  intros Hx. apply carries_write; [by intros ? []| |].
  - intros Hw. left. transitivity w; [done|]. apply status_elsewhere. by rewrite Hx.
  - intros y w' Hp. apply status_answer in Hp as (Hm & _). by rewrite /win_key Hm.
Qed.

Lemma apart_drop_finalizer win w : win_key win = req → apart_from (drop_finalizer win) w (λ _ _, True).
Proof.
  intros Hk. unfold drop_finalizer. destruct (has_finalizer win); [|by apply carries_ret].
  apply carries_bind. eapply carries_mono; [|by apply apart_PatchWindow]. intros y w' _. by apply carries_ret.
Qed.

Lemma apart_deleteClosedWindow win w : win_key win = req → apart_from (deleteClosedWindow win) w (λ _ _, True).
Proof.
  intros Hk. unfold deleteClosedWindow. apply carries_bind, apart_still.
  { intros w1. unfold final, clear_metrics. rewrite clearWorkloadPlanMetrics_run. reflexivity. }
  intros _ w1. apply carries_bind. eapply carries_mono; [|by apply apart_drop_finalizer]. intros _ w2 _.
  apply carries_bind, apart_still; [|intros _ w3; by apply carries_ret]. apply ignore_nf_keeps; [apply _|].
  apply keeps_write. intros w3. apply delete_elsewhere. by rewrite Hk.
Qed.

Lemma apart_writeStatus x dep phase msg w : win_key x = req → apart_from (writeStatus Recorder x dep phase msg) w keyed.
Proof.
  intros Hk. unfold writeStatus. apply carries_bind, carries_reads. intros [ready safe] _.
  apply carries_bind, carries_now. cbv zeta. destruct (applySpareStatus x ready safe _) as [[win1 gauge] flip] eqn:Ha.
  apply applySpareStatus_keeps in Ha as (Hm & _). assert (win_key win1 = req) as Hk1 by by rewrite /win_key Hm.
  apply carries_bind, apart_still; [apply keeps_tell, _|]. intros _ w1. apply carries_bind.
  apply (carries_mono _ _ _ _ _ (λ _ _, True)).
  2:{ destruct flip; [|by apply carries_ret]. apply carries_bind. apply (carries_mono _ _ _ _ _ (λ _ _, True)).
      - intros _ w2 _. destruct (negb _); [by apply apart_emitf | by apply carries_ret].
      - destruct (_ && _); [by apply apart_emitf | by apply carries_ret]. }
  intros _ w2 _. match goal with |- carries _ _ _ (if ?b then _ else _) _ _ => destruct b end; [by apply carries_ret|].
  by apply apart_UpdateWindowStatus.
Qed.

Lemma stampCooldown_still policy dep x u : keeps (same_window wk) (stampCooldown policy dep x u : M W unit).
Proof. apply stampCooldown_frame; [apply _ | intros g k p w; apply same_window_object]. Qed.

Lemma restoreActions_still x : keeps (same_window wk) (restoreActions x : M W unit).
Proof. apply restoreActions_frame; [apply _ | intros g k p w; apply same_window_object]. Qed.

Lemma apart_take_step x policy dep force until t dec w :
  win_key x = req → apart_from (take_step Recorder x policy dep force until t dec) w (λ _ _, True).
Proof.
  intros Hk. unfold take_step.
  assert (∀ {A} y ph msg w' (k : EvictionGuardWindow → M W A), win_key y = req → (∀ z w'', win_key z = req → apart_from (k z) w'' (λ _ _, True)) →
    apart_from (writeStatus Recorder y dep ph msg ≫= k) w' (λ _ _, True)) as Hws.
  { intros A y ph msg w' k Hy Hz. apply carries_bind. eapply carries_mono; [|by apply apart_writeStatus]. auto. }
  destruct (pdStep dec).
  1, 2: apply carries_bind; apply (carries_mono _ _ _ _ _ keyed); [intros y w' Hy; apply Hws; [done | intros; by apply carries_ret]|];
    destruct (pdAbortCooldown dec); [|by apply carries_ret]; unfold abortCooldown; destruct (wsWindowUntil _); [|by apply carries_ret];
    apply carries_bind; eapply carries_mono; [|by apply apart_PatchWindow]; intros y w' Hy;
    apply carries_bind, apart_still; [apply stampCooldown_still|]; intros _ w2; by apply carries_ret.
  - apply carries_bind. apply (carries_mono _ _ _ _ _ (λ _ _, True)).
    2:{ unfold scaleBackIfAllowed. apply carries_bind, apart_still; [apply keeps_try, restoreActions_still|].
        intros [u|e] w1; apply carries_bind, apart_still; try (apply keeps_tell; apply _); intros _ w2; [|apply carries_throw].
        apply carries_bind, apart_still; [intros w3; unfold final, clear_metrics; rewrite clearWorkloadPlanMetrics_run; reflexivity|].
        intros _ w3. by apply apart_emitf. }
    intros _ w1 _. cbv zeta. apply carries_bind. eapply carries_mono; [|by apply apart_PatchWindow]. intros y w2 Hy.
    apply carries_bind, apart_still; [apply stampCooldown_still|]. intros _ w3. apply Hws; [done | intros; by apply carries_ret].
  - apply Hws; [done | intros; by apply carries_ret].
  - apply Hws; [done|]. intros z w' Hz. destruct (pdRetainClosed dec); [by apply carries_ret | by apply apart_deleteClosedWindow].
Qed.
End elsewhere.

Lemma window_elsewhere req w r w' es :
  wk ≠ req → window_Reconcile registry Recorder req w = (r, w', es) → same_window wk w w'.
Proof.
  intros Hne H. assert (∀ {A} (m : M W A) w1 r w' es, carries (same_window wk w) none none m w1 (λ _ _, True) → m w1 = (r, w', es) →
    same_window wk w w1 → same_window wk w w') as Hc.
  { intros A m w1 r1 w2 es1 Hm Hrun Hs. by destruct (proj1 (Hm _ _ _ Hrun) (or_introl Hs)) as [?|(? & _ & [])]. }
  destruct (window_Reconcile_cases registry Recorder req w) as [Hw _|win Hw _ Hrun|win r' ok Hw _ _ Hrun|win policy dep Hw _ _ _ _ Hrun];
    rewrite H in Hw || rewrite H in Hrun.
  - cbn in Hw. by subst.
  - pose proof (window_key _ _ _ Hw) as Hk. refine (Hc _ _ _ _ _ _ _ Hrun eq_refl). unfold scaleBackAndUnfinalize.
    apply carries_bind, apart_still; [apply ignore_nf_keeps; [apply _|apply restoreActions_still]|]. intros _ w1.
    apply carries_bind, apart_still; [intros w3; unfold final, clear_metrics; rewrite clearWorkloadPlanMetrics_run; reflexivity|].
    intros _ w2. apply carries_bind. eapply carries_mono; [|by apply (apart_drop_finalizer req)]. intros _ w3 _. by apply carries_ret.
  - pose proof (window_key _ _ _ Hw) as Hk. change (win_key win = req) in Hk. injection Hrun as _ -> _.
    apply patch_elsewhere; [done | by rewrite Hk].
  - pose proof (window_key _ _ _ Hw) as Hk. change (win_key win = req) in Hk.
    destruct (reconcile_live_cases registry Recorder win policy dep w) as [Hs _|_ _ _ Hr|risk nodes safe _ _ _ Hr|risk nodes r1 w1 es1 _ _ Hst Hr];
      rewrite Hrun in Hs || rewrite Hrun in Hr.
    + cbn in Hs. by subst.
    + by refine (Hc _ _ _ _ _ _ (apart_deleteClosedWindow req Hne w win w Hk) Hr eq_refl).
    + by refine (Hc _ _ _ _ _ _ (apart_take_step req Hne w win policy dep _ _ _ _ w Hk) Hr eq_refl).
    + assert (same_window wk w w1 ∧ ∀ win1, r1 = Ok win1 → win_key win1 = req) as [Hs1 Hk1].
      { destruct (stamp_forced_cases _ _ _ _ _ _ _ _ Hst) as [(_ & -> & -> & _)|(_ & _ & Hu & _)]; [split; [done | by intros ? [= <-]]|].
        split; [|intros win1 ->; apply status_answer in Hu as (Hm & _); by rewrite /win_key Hm].
        pose proof (status_elsewhere (with_status (set_forced true) win) w wk) as He. rewrite Hu in He. apply He.
        change (wk ≠ win_key win). by rewrite Hk. }
      destruct r1 as [win1|e]; [|by injection Hr as _ <- _]. destruct Hr as (r2 & w2 & es2 & Hr & Heq). injection Heq as _ <- _.
      by refine (Hc _ _ _ _ _ _ (apart_take_step req Hne w win1 policy dep _ _ _ _ w1 (Hk1 _ eq_refl)) Hr Hs1).
Qed.

(** A step on the way of the reconcile: it still owes, or the step restored. *)
Lemma step_restores x policy dep risk safe force t w1 r w' es :
  wsWindowUntil (winSpec x) = None → on_record g0 k0 wk w1 →
  take_step Recorder x policy dep force (until_of x) t (decision x risk safe force t) w1 = (r, w', es) →
  on_record g0 k0 wk w' ∨ ∃ w2 es1 es2, restoreActions x w1 = (Ok (), w2, es1) ∧ es = es1 ++ es2 ∧ Forall (λ e, ¬ scales e) es2.
Proof.
  intros Hu Hw Hrun.
  set (X := ∃ w2 es1 es2, restoreActions x w1 = (Ok (), w2, es1) ∧ es = es1 ++ es2 ∧ Forall (λ e, ¬ scales e) es2).
  destruct (carries_decided X x policy dep risk safe force t w1 Hu) with (r := r) (w' := w') (es := es) as [Hi _]; [|done|].
  - intros Hd w2 es1 Hr. destruct (take_step_restoring _ _ _ _ _ _ _ _ _ _ _ _ _ Hd Hr Hrun) as (es2 & ? & ?). by exists w2, es1, es2.
  - destruct Hi as [[?|?]|(? & _ & [])]; [by left; right | by right | by left].
Qed.

(** A forced stamp moves no capacity and keeps the record. *)
Lemma stamp_forced_kept x policy force w r w1 es :
  getWindow wk w = Ok x → owes g0 k0 x → stamp_forced Recorder x policy force w = (r, w1, es) →
  on_record g0 k0 wk w1 ∧ same_objects w w1 ∧ Forall (λ e, ¬ scales e) es
  ∧ ∀ win1, r = Ok win1 → winMeta win1 = winMeta x ∧ winSpec win1 = winSpec x.
Proof.
  intros Hx Ho Hst.
  assert (Forall (λ e, ¬ scales e) es) as Hes.
  { refine (emits_run _ _ _ _ _ _ _ Hst). unfold stamp_forced. destruct (force && _); [|apply emits_ret]. cbv zeta.
    apply emits_bind; [by apply emitf_emits; intros; intros []|]. intros _. emits_tac; by intros []. }
  destruct (stamp_forced_cases _ _ _ _ _ _ _ _ Hst) as [(_ & -> & -> & _)|(_ & _ & Hu & _)].
  - split; [by exists x|]. split; [done|]. split; [done|]. by intros ? [= <-].
  - pose proof (update_status_objects (with_status (set_forced true) x) w) as Hobj.
    assert (on_record g0 k0 wk (updateWindowStatus (with_status (set_forced true) x) w).2) as Hon
      by (apply status_kept; [left; apply Ho | by exists x]).
    rewrite Hu in Hon Hobj. split; [done|]. split; [intros g k; apply Hobj|]. split; [done|].
    intros win1 ->. by apply status_answer in Hu as (Hm & Hs & _).
Qed.

(** A reconcile of the window that owes: it still owes, or it was restored. *)
Lemma window_settles w r w' es :
  window_Reconcile registry Recorder wk w = (r, w', es) → on_record g0 k0 wk w → on_record g0 k0 wk w' ∨ restored w es.
Proof.
  intros H (x & Hx & Ho). pose proof (window_key _ _ _ Hx) as Hk. change (win_key x = wk) in Hk.
  assert (restoring x w es → restored w es) as Hrest by (intros ?; exists x; split_and!; [done | apply Ho | done]).
  destruct (window_Reconcile_cases registry Recorder wk w) as [Hw _|win Hw _ Hrun|win r' ok Hw Hd _ Hrun|win policy dep Hw _ _ _ _ Hrun];
    rewrite H in Hw || rewrite H in Hrun; try (rewrite Hx in Hw; injection Hw as <-).
  - cbn in Hw. subst. left. by exists x.
  - destruct (restoreActions x w) as [[[[]|e] w1] es1] eqn:Er; [right; by eapply Hrest, leave_restoring|].
    pose proof (restoreActions_found _ _ _ _ _ Er) as Hf. unfold scaleBackAndUnfinalize in Hrun.
    left. assert (ignore_nf (restoreActions x) w = (Err e, w1, es1)) as Hi.
    { unfold ignore_nf. rewrite bind_eq. unfold try. rewrite Er /IgnoreNotFound Hf. cbn. by rewrite app_nil_r. }
    rewrite bind_eq Hi in Hrun. injection Hrun as _ <- _. eapply same_window_kept; [|by exists x].
    by apply (keeps_run (same_window wk) _ _ _ _ _ (restoreActions_still x) Er).
  - injection Hrun as _ -> _. left. apply patch_light; [done | split; [done|]; split; [by right|done] | | by exists x].
    right. intros y Hy. rewrite Hk Hx in Hy. by injection Hy as <-.
  - destruct (reconcile_live_cases registry Recorder x policy dep w) as [Hs _|Hcl _ _ _|risk nodes safe _ _ _ Hr|risk nodes r1 w1 es1 _ _ Hst Hr];
      try rewrite Hrun in Hs; try rewrite Hrun in Hr.
    + cbn in Hs. subst. left. by exists x.
    + destruct Ho. done.
    + destruct (step_restores _ _ _ _ _ _ _ _ _ _ _ (ow_until _ _ _ Ho) (ex_intro _ x (conj Hx Ho)) Hr) as [?|(w2 & es1 & es2 & Hres & -> & Hq)];
        [by left | right]. apply Hrest. by exists w, w2, [], es1, es2.
    + destruct (stamp_forced_kept _ _ _ _ _ _ _ Hx Ho Hst) as (Hw1 & Hobj & Hq1 & H1).
      destruct r1 as [win1|e]; [|injection Hr as _ -> _; by left]. destruct Hr as (r2 & w2 & es2 & Hr & Heq). injection Heq as _ -> ->.
      destruct (H1 _ eq_refl) as (Hm1 & Hs1).
      destruct (step_restores _ _ _ _ _ _ _ _ _ _ _ (eq_trans (f_equal wsWindowUntil Hs1) (ow_until _ _ _ Ho)) Hw1 Hr)
        as [?|(w3 & es3 & es4 & Hres & -> & Hq)]; [by left | right]. apply Hrest. exists w1, w3, es1, es3, es4. split; [done|].
      rewrite -(restoreActions_ext win1 x Hm1 Hs1). split; [done|]. split; [done|]. by apply Forall_app.
Qed.

(** *** Repayment *)

Lemma scaleBackIfAllowed_ok x w u w' es :
  scaleBackIfAllowed Recorder x w = (Ok u, w', es) → ∃ w1 es1, restoreActions x w = (Ok (), w1, es1).
Proof.
  unfold scaleBackIfAllowed. intros (r & w1 & es1 & es2 & Hr & H & ->)%bind_ok_inv. unfold try in Hr.
  destruct (restoreActions x w) as [[[[]|e] w2] es3]; [by eauto|]. injection Hr as <- <- <-.
  by apply bind_ok_inv in H as (? & ? & ? & ? & _ & ? & _).
Qed.

(** A step taken while the window may be wound down, with no cooldown armed. *)
Lemma decided_restores x policy dep risk safe force t w c w' es :
  wsWindowUntil (winSpec x) = None →
  may_wind_down (PhaseInput risk force (wtForcedCool (winStatus x)) safe (wsBaseline (winSpec x)) (until_of x) t) →
  take_step Recorder x policy dep force (until_of x) t (decision x risk safe force t) w = (Ok c, w', es) →
  ∃ w1 es1 es2, restoreActions x w = (Ok (), w1, es1) ∧ es = es1 ++ es2 ∧ Forall (λ e, ¬ scales e) es2.
Proof.
  intros Hu Hmay H. assert (pdStep (decision x risk safe force t) = stepBeginScaleBack) as Hs.
  { apply wind_down_guards in Hmay as [H1 H2]. unfold decision, decideWindowStep. rewrite H1 H2. cbn. by rewrite /until_of Hu. }
  assert (∃ w1 es1, restoreActions x w = (Ok (), w1, es1)) as (w1 & es1 & Hr).
  { revert H. unfold take_step. rewrite Hs. intros (u & w1 & es1 & es2 & H & _)%bind_ok_inv. by eapply scaleBackIfAllowed_ok. }
  destruct (take_step_restoring _ _ _ _ _ _ _ _ _ _ _ _ _ Hs Hr H) as (es2 & ? & ?). by exists w1, es1, es2.
Qed.

(** What gives a window the right, and the duty, to give capacity back. *)
Definition due (x : EvictionGuardWindow) (w : W) : Prop :=
  tsIsZero (mDeletionTimestamp (winMeta x)) = false
  ∨ (has_finalizer x = true
     ∧ (leaving x w
        ∨ ∃ policy dep, getPolicy (wsPolicyName (winSpec x)) w = Ok policy ∧ target_is x w dep ∧ may_scale_back registry x policy dep w)).

Lemma live_repays x policy dep w c w' es :
  getWindow wk w = Ok x → owes g0 k0 x → may_scale_back registry x policy dep w →
  reconcile_live registry Recorder x policy dep w = (Ok c, w', es) → restoring x w es.
Proof.
  intros Hx Ho Hmay. pose proof Ho as [_ Hu Hp _]. unfold reconcile_live. rewrite bool_decide_false // andb_false_l.
  destruct (liveAtRiskPods registry (Some x) (Some policy) dep w) as [[risk nodes]|e] eqn:Er.
  2:{ by rewrite (bind_reads_err _ _ _ _ Er). }
  rewrite (bind_reads_ok _ _ _ _ Er) bind_now. cbv zeta. cbn [fst]. destruct (maxWindowExceeded _ _ _) eqn:Em.
  - intros (win1 & w1 & es1 & es2 & Hst & H & ->)%bind_ok_inv. cbn [negb andb] in H. rewrite bind_ret in H.
    destruct (stamp_forced_kept _ _ _ _ _ _ _ Hx Ho Hst) as (_ & Hobj & Hq1 & H1). destruct (H1 _ eq_refl) as (Hm & Hs).
    apply decided_restores in H as (w2 & es3 & es4 & H & -> & Hq); [|by rewrite Hs | by left].
    exists w1, w2, es1, es3, es4. rewrite -(restoreActions_ext win1 x Hm Hs). do 3 (split; [done|]). by apply Forall_app.
  - destruct Hmay as [?|(nodes' & ready & safe & Hr & Hsp & Hle)]; [congruence|]. rewrite Er in Hr. injection Hr as -> ->.
    unfold stamp_forced. cbn [andb]. rewrite bind_ret. cbn [negb andb Z.eqb].
    intros (safe' & w1 & es1 & es2 & Hsafe & H & ->)%bind_ok_inv. rewrite (bind_reads_ok _ _ _ _ Hsp) in Hsafe.
    apply ret_inv in Hsafe as ([= ->] & -> & ->). apply decided_restores in H as (w2 & es3 & es4 & H & -> & Hq); [|done | by right].
    by exists w, w2, [], es3, es4.
Qed.

(** C11: what is owed is paid: a successful reconcile of a window that owes an
    object restores what the window lists, as soon as the window is being
    deleted, or holds its finalizer and its policy or its Deployment is gone, it
    is past maxWindow, or nothing is at risk with enough spare pods Ready: among the reconcile's
    effects are those of a restore that reported no error, made from the objects
    as the reconcile found them, and it moves no capacity before or after. *)
Theorem capacity_repaid x w c w' es :
  window_Reconcile registry Recorder wk w = (Ok c, w', es) → getWindow wk w = Ok x → owes g0 k0 x → due x w →
  ∃ w0 w1 es0 es1 es2, same_objects w w0 ∧ restoreActions x w0 = (Ok (), w1, es1) ∧ es = es0 ++ es1 ++ es2
    ∧ Forall (λ e, ¬ scales e) (es0 ++ es2).
Proof.
  intros H Hx Ho Hdue. change (restoring x w es).
  assert (∀ c w' es, scaleBackAndUnfinalize x w = (Ok c, w', es) → restoring x w es) as Hleave.
  { intros c0 w0 es0 Hrun. destruct (leave_restores _ _ _ _ _ Hrun) as (w1 & es1 & _ & Hr & _). by eapply leave_restoring. }
  revert H. unfold window_Reconcile. rewrite bind_try_reads Hx.
  destruct (tsIsZero _) eqn:Ed; cbn [negb]; [|apply Hleave].
  destruct Hdue as [?|[Hf Hdue]]; [congruence|]. rewrite Hf. cbn [negb]. rewrite bind_try_reads.
  destruct (getPolicy _ w) as [policy|e] eqn:Ep; [|destruct (IsNotFound e); [apply Hleave | done]].
  unfold fetch_target. destruct (str_eqb _ _ || str_eqb _ _) eqn:Ek.
  - intros (d & w1 & es1 & es2 & Hd & H & ->)%bind_ok_inv. rewrite bind_try_reads in Hd.
    destruct (getDeployment _ w) as [dep|e] eqn:Edep.
    + apply ret_inv in Hd as ([= ->] & -> & ->). eapply live_repays; [done..| |exact H].
      destruct Hdue as [[?|[(e & ? & _)|(_ & e & ? & _)]]|(p' & d & Hp & Ht & Hm)]; [congruence..|].
      injection Hp as <-. unfold target_is in Ht. rewrite Ek in Ht. destruct Ht as (dep' & -> & Ht).
      assert (dep' = dep) as -> by congruence. done.
    + destruct (IsNotFound e); [|done]. apply ret_inv in Hd as ([= ->] & -> & ->). by eapply Hleave.
  - rewrite bind_ret. intros H. eapply live_repays; [done..| |exact H].
    destruct Hdue as [[?|[(e & ? & _)|(He & _)]]|(p' & d & Hp & Ht & Hm)]; [congruence..|].
    injection Hp as <-. unfold target_is in Ht. rewrite Ek in Ht. by subst.
Qed.
End window.

(** ** Along a history *)

Lemma history_split w0 h1 a w1 h2 w :
  history registry Recorder w0 (h1 ++ (a, w1) :: h2) w →
  history registry Recorder w0 h1 w1 ∧ ∃ w2, step registry Recorder a w1 w2 ∧ history registry Recorder w2 h2 w.
Proof.
  revert w. induction h2 as [|[b w3] h2 IH] using rev_ind; intros w H; inversion H as [Hn|h v c v' Hh Hs Heq]; subst.
  - by destruct h1.
  - apply app_inj_tail in Heq as [-> [= -> ->]]. split; [done|]. exists w. split; [done | constructor].
  - by destruct h1.
  - rewrite app_comm_cons app_assoc in Heq. apply app_inj_tail in Heq as [-> [= -> ->]].
    destruct (IH _ Hh) as (H0 & w2 & H1 & H2). split; [done|]. exists w2. split; [done | by econstructor].
Qed.

(** What may take an object off the record of the window [wk], in one step. *)
Inductive settled (g : GroupVersionKind) (k wk : NamespacedName) : actor * W → Prop :=
| settled_restored w : restored g k wk w (window_Reconcile registry Recorder wk w).2 → settled g k wk (WindowController wk, w)
| settled_forgotten req w e : e ∈ (policy_Reconcile registry Recorder req w).2 → forgets g k wk e →
    settled g k wk (PolicyController req, w)
| settled_unguarded req w : unguarded wk w (policy_Reconcile registry Recorder req w).2 →
    settled g k wk (PolicyController req, w).

Lemma step_settles g k wk a w w' :
  step registry Recorder a w w' → on_record g k wk w → on_record g k wk w' ∨ settled g k wk (a, w).
Proof.
  intros [req w1|req w1|w1 w2 Hs] Ho; [..|left; exact (same_window_kept g k wk _ _ (Hs wk) Ho)]; unfold final.
  - destruct (policy_Reconcile registry Recorder req w1) as [[r w2] es] eqn:E. cbn.
    destruct (policy_kept g k wk _ _ _ _ _ E Ho) as [?|[(e & He & Hf)|Hu]]; [by left | right | right].
    + eapply settled_forgotten; [by rewrite E | done].
    + apply settled_unguarded. by rewrite E.
  - destruct (window_Reconcile registry Recorder req w1) as [[r w2] es] eqn:E. cbn.
    destruct (decide (wk = req)) as [<-|Hne].
    + destruct (window_settles g k wk _ _ _ _ E Ho); [by left | right; constructor; by rewrite E].
    + left. eapply same_window_kept; [by eapply window_elsewhere | done].
Qed.

Lemma history_settles g k wk w0 h w :
  history registry Recorder w0 h w → on_record g k wk w0 → on_record g k wk w ∨ ∃ s, s ∈ h ∧ settled g k wk s.
Proof.
  intros Hh Ho. induction Hh as [|h w1 a w2 _ [IH|(s & Hs & H)] Hstep]; [by left | |].
  - destruct (step_settles _ _ _ _ _ _ Hstep IH) as [?|Hs]; [by left|]. right. exists (a, w1).
    split; [apply elem_of_app; right; left | done].
  - right. exists s. split; [apply elem_of_app; by left | done].
Qed.

(** C4: capacity that was raised is never lost track of: in every history of both
    controllers, once a policy reconcile has sent a patch that raises an
    object's capacity, there is a window that still lists the object, with no
    cooldown armed, neither closed nor a placeholder, unless since then a
    reconcile of that window restored what it lists (among its effects are those
    of a restore that reported no error, made from the objects as the reconcile
    found them, and it moved no capacity before or after), or a policy reconcile rewrote the window's actions
    without the object because the catalog had been emptied or re-pointed, or
    deleted the window while it had no finalizer. *)
Theorem capacity_on_record g k req w0 h1 w1 h2 w e :
  history registry Recorder w0 (h1 ++ (PolicyController req, w1) :: h2) w →
  e ∈ (policy_Reconcile registry Recorder req w1).2 → raises g k e →
  ∃ wk, on_record g k wk w ∨ ∃ s, s ∈ (PolicyController req, w1) :: h2 ∧ settled g k wk s.
Proof.
  intros (_ & w2 & Hs & Hh)%history_split He Hr. inversion Hs; subst. clear Hs. unfold final in Hh.
  destruct (policy_Reconcile registry Recorder req w1) as [[r w2] es] eqn:E. cbn in He, Hh.
  destruct (policy_raises g k _ _ _ _ _ _ E He Hr) as (wk & [Ho|(e' & He' & Hf)]); exists wk.
  - destruct (history_settles _ _ wk _ _ _ Hh Ho) as [?|(s & ? & ?)]; [by left | right]. exists s. split; [by right | done].
  - right. eexists. split; [left|]. eapply settled_forgotten; [by rewrite E | done].
Qed.
End ledger.

(** ** On a concrete cluster *)

Lemma found_ok {A} what (o : option A) a : found what o = Ok a ↔ o = Some a.
Proof. destruct o; cbn; naive_solver. Qed.

Lemma stored_insert k x (c : Cluster) : win_key x = k → stored_window k (set_windows (<[k := x]> (clWindows c)) c) = Some x.
Proof. intros Hk. unfold stored_window. cbn. rewrite lookup_insert_eq. by case_decide. Qed.

Lemma stored_other k m (c : Cluster) : m !! k = clWindows c !! k → stored_window k (set_windows m c) = stored_window k c.
Proof. intros H. unfold stored_window. cbn. by rewrite H. Qed.

Lemma stored_raw k (c : Cluster) x : stored_window k c = Some x → clWindows c !! k = Some x ∧ win_key x = k.
Proof. unfold stored_window. destruct (clWindows c !! k); [|done]. case_decide; [|done]. by intros [= <-]. Qed.

Lemma merge_merged b x y0 : merged b x y0 (merge_window b x y0).
Proof. split; [done|]. split; [done|]. intros l. cbn. apply lookup_merge_map. Qed.

#[export] Instance FakeClient_ledger_laws : LedgerLaws FakeClient.
Proof.
  split; simpl.
  - intros b x c r c' y0. unfold fake_patch_window. rewrite found_ok. intros H Hk Hy Hf. rewrite Hk Hy in H. injection H as <- <-.
    exists (merge_window b x y0). split; [|split; [done | right; apply merge_merged]].
    pose proof (stored_window_key _ _ _ Hy) as Hkey. rewrite found_ok. unfold last_finalizer.
    destruct Hf as [Hf|Hf].
    + rewrite bool_decide_false; [|by intros []]. by apply stored_insert.
    + assert (tsIsZero (mDeletionTimestamp (winMeta (merge_window b x y0))) = true) as -> by exact Hf. rewrite andb_false_r. by apply stored_insert.
  - intros b x c k Hk Hne. unfold fake_patch_window. destruct (stored_window _ c); [|done]. cbn. f_equal. apply stored_other.
    rewrite Hk. destruct (last_finalizer _ _ _); [by rewrite lookup_delete_ne | by rewrite lookup_insert_ne].
  - intros x c y0. rewrite found_ok. intros Hy. unfold fake_update_status. rewrite Hy. case_decide as Hd; cbn.
    + exists x. rewrite found_ok. split; [by apply stored_insert|]. destruct Hd as [-> ->]. auto.
    + exists y0. rewrite found_ok. auto.
  - intros x c k Hne. unfold fake_update_status. destruct (stored_window _ c); [|done]. case_decide; [|done]. cbn. f_equal. apply stored_other.
    by rewrite lookup_insert_ne.
  - intros x c k y0. rewrite !found_ok. unfold fake_create_window. intros Hy. destruct (clWindows c !! win_key x) eqn:E; [done|]. cbn.
    rewrite -Hy. apply stored_other. rewrite lookup_insert_ne //. intros <-. apply stored_raw in Hy as [Hy _]. by rewrite E in Hy.
  - intros x c y c'. unfold fake_create_window. destruct (clWindows c !! win_key x) eqn:E; [done|]. intros [= <- <-].
    rewrite found_ok. split; [by apply stored_insert | done].
  - intros k c y0. rewrite found_ok. intros [Hr Hk]%stored_raw Hf. unfold fake_delete_window. rewrite Hr.
    unfold has_finalizer in Hf. simpl in Hf. destruct (mFinalizers (winMeta y0)) as [|f fs] eqn:Ef; [done|]. cbn [snd].
    eexists. rewrite found_ok. split; [by apply stored_insert | by repeat split].
  - intros k k' c Hne. unfold fake_delete_window. destruct (clWindows c !! k); [|done]. cbn. f_equal. apply stored_other.
    destruct (mFinalizers _); [by rewrite lookup_delete_ne | by rewrite lookup_insert_ne].
Qed.

Definition raises_spec (g : GroupVersionKind) (k : NamespacedName) (e : effect) : bool :=
  match e with
  | PatchObjectE g' k' p _ => bool_decide (g' = g) && bool_decide (k' = k) && match p !! "spec" with Some _ => true | None => false end
  | _ => false
  end.

Lemma raises_found g k es : existsb (raises_spec g k) es = true → ∃ e, e ∈ es ∧ raises g k e.
Proof.
  intros (e & He & H)%existsb_exists. exists e. split; [by apply list_elem_of_In|]. destruct e as [| | | | | | | | | |g' k' p ok]; try done.
  cbn in H. apply andb_true_iff in H as [[->%bool_decide_eq_true ->%bool_decide_eq_true]%andb_true_iff Hs].
  split; [|by exists p, ok]. intros [m ->]. by rewrite lookup_singleton_ne in Hs.
Qed.

(** The patch that raised "api" is on record after the window was reconciled. *)
Lemma capacity_on_record_witness :
  ∃ wk, on_record deployment_gvk (NN "shop" "api") wk shop_ready
        ∨ ∃ s, s ∈ shop_history ∧ settled init_registry true deployment_gvk (NN "shop" "api") wk s.
Proof.
  assert (∃ e, e ∈ effects policy_run shop ∧ raises deployment_gvk (NN "shop" "api") e) as (e & He & Hr).
  { apply raises_found. vm_compute. reflexivity. }
  exact (capacity_on_record init_registry true deployment_gvk (NN "shop" "api") (NN "" "p") shop [] shop _ shop_ready e
    shop_happens He Hr).
Defined.

(** Three hours later, past maxWindow, nobody having evicted anything. *)
Definition shop_late : Cluster := set_now (3 * Hour) shop_up.
Definition late_window : EvictionGuardWindow := default api_window (window_of "api" shop_late).

Lemma target_is_found {Obj W} `{C : Client Obj W} x w d :
  (let t := wsTarget (winSpec x) in str_eqb (wrKind t) "" || str_eqb (wrKind t) "Deployment") = true →
  getDeployment (NN (wrNamespace (wsTarget (winSpec x))) (wrName (wsTarget (winSpec x)))) w = Ok d → target_is x w (Some d).
Proof. unfold target_is. cbv zeta. intros -> H. by exists d. Qed.

Lemma late_owes : owes deployment_gvk (NN "shop" "api") late_window.
Proof.
  split; [|vm_compute; reflexivity|vm_compute; discriminate|vm_compute; reflexivity].
  assert (∃ a, head (wsActions (winSpec late_window)) = Some a ∧ on_object deployment_gvk (NN "shop" "api") a) as (a & Ha & Ho).
  { eexists. split; [vm_compute; reflexivity|]. split; vm_compute; reflexivity. }
  exists a. split; [|exact Ho]. destruct (wsActions (winSpec late_window)); [discriminate Ha|]. injection Ha as ->. left.
Qed.

Abbreviation late_run := (window_Reconcile init_registry true api_key).

(** The restore is there, and lowers the Deployment. *)
Lemma capacity_repaid_witness :
  ∃ w0 w1 es0 es1 es2 e, restoreActions late_window w0 = (Ok (), w1, es1) ∧ effects late_run shop_late = es0 ++ es1 ++ es2
    ∧ e ∈ es1 ∧ raises deployment_gvk (NN "shop" "api") e.
Proof.
  assert (∃ c w' es, late_run shop_late = (Ok c, w', es)) as (c & w' & es & Hrun).
  { assert (is_ok (late_run shop_late).1.1 = true) as H by (vm_compute; reflexivity).
    destruct (late_run shop_late) as [[[c|e] w'] es]; [exists c, w', es; reflexivity | discriminate H]. }
  assert (∃ e, e ∈ effects late_run shop_late ∧ raises deployment_gvk (NN "shop" "api") e) as (e & He & Hr)
    by (apply raises_found; vm_compute; reflexivity).
  destruct (capacity_repaid init_registry true deployment_gvk (NN "shop" "api") api_key late_window shop_late c w' es Hrun)
    as (w0 & w1 & es0 & es1 & es2 & _ & H & Hes & Hq).
  - vm_compute. reflexivity.
  - exact late_owes.
  - right. split; [vm_compute; reflexivity|]. right. exists (default shop_policy (clPolicies shop_late !! "p")), (Some (shop_deployment "api")).
    split; [vm_compute; reflexivity|]. split; [apply target_is_found; vm_compute; reflexivity|]. left. vm_compute. reflexivity.
  - exists w0, w1, es0, es1, es2, e. unfold effects in He |- *. rewrite Hrun in He |- *. cbn [snd] in He |- *.
    split; [exact H|]. split; [exact Hes|]. split; [|exact Hr]. rewrite Hes !elem_of_app in He. rewrite Forall_forall in Hq.
    destruct He as [He|[He|He]]; [|exact He|]; (destruct (Hq e); [apply elem_of_app; auto | apply Hr]).
Defined.

(** A window left without a finalizer is raised under as it is: the policy is
    deleted before the window is reconciled, the window goes at once, and the
    capacity stays up with nothing to bring it back. *)
Definition bare_window : EvictionGuardWindow := with_meta (set_finalizers []) api_window.
Definition bare_up : Cluster := final policy_run (shop_cluster shop_policy [bare_window] []).
Definition bare_gone : Cluster := final policy_run (set_policies {[ "p" := leaving_policy ]} bare_up).

Example unguarded_leak :
  replicas_of "api" bare_up = Ok 4 ∧ replicas_of "api" bare_gone = Ok 4 ∧ window_of "api" bare_gone = None.
Proof. split; [|split]; vm_compute; reflexivity. Qed.

(** A catalog entry pointed at another kind: the window forgets the Deployment. *)
Definition repointed_policy : EvictionGuardPolicy :=
  simple_policy "p" [("deploy", MkCatalogEntry "apps/v1" "StatefulSet" [MkBackendPatch "spec.replicas" ""] false None)] (Some 1).
Definition repointed_up : Cluster :=
  let c := set_policies {[ "p" := repointed_policy ]} shop_up in
  set_objects (<[obj_key (GVK (GV "apps" "v1") "StatefulSet") (NN "shop" "api") := MkObj (ints_of [(["spec"; "replicas"], 9)]) ∅]> (clObjects c)) c.
Definition kinds_of (o : option EvictionGuardWindow) : list string :=
  match o with Some x => (λ a, saKind a) <$> wsActions (winSpec x) | None => [] end.

Example repointed_leak :
  kinds_of (window_of "api" repointed_up) = ["Deployment"] ∧ replicas_of "api" repointed_up = Ok 4
  ∧ kinds_of (window_of "api" (final policy_run repointed_up)) = ["StatefulSet"]
  ∧ replicas_of "api" (final policy_run repointed_up) = Ok 4.
Proof. repeat split; vm_compute; reflexivity. Qed.
