(* ===== verification/Cooldown.v ===== *)
(** * Cooldowns: a window is closed only when its cooldown is over

    The cooldown of a window is a field of its spec, written by both controllers
    and read by a later reconcile.  This file follows it through whole histories:
    one that is stored was armed by a reconcile of that very window, after its
    restore; the policy reconciler takes it away or leaves it alone; and Closed is
    written over nothing but a cooldown that has run out. *)
From S2P Require Import Evictgate.
From S2P Require Import Prelude GoStrings GoTime Meta Api Kube Indexes Naming Filters Signals PolicyOwn Workload.
From S2P Require Import Fields WindowPhase ScaleActions Spare Plan PlanSpec Frame Observe WindowController WindowSpec.
From S2P Require Import PolicyController PolicySpec Lifecycle Writes History Ledger Fake.

#[local] Open Scope Z_scope.

#[local] Abbreviation cooldown x := (wsWindowUntil (winSpec x)).

(** ** Laws of the stored cooldowns

    What is stored after a write, whether it was reported as failed or not: the
    status and a deletion leave the spec alone, a patch writes what it changes. *)
Class CooldownLaws {Obj W : Type} (C : Client Obj W) : Prop := {
  patch_cooldown b x w k y : getWindow k (patchWindow b x w).2 = Ok y →
    ∃ y0, getWindow k w = Ok y0
      ∧ (cooldown y = cooldown y0 ∨ cooldown y = patched_until (cooldown b) (cooldown x) (cooldown y0));
  status_cooldown x w k y : getWindow k (updateWindowStatus x w).2 = Ok y →
    ∃ y0, getWindow k w = Ok y0 ∧ cooldown y = cooldown y0;
  delete_cooldown k' w k y : getWindow k (deleteWindow k' w).2 = Ok y →
    ∃ y0, getWindow k w = Ok y0 ∧ cooldown y = cooldown y0;
  create_cooldown x w k y : getWindow k (createWindow x w).2 = Ok y →
    getWindow k w = Ok y ∨ cooldown y = whole_second <$> cooldown x
}.

Section cooldown.
Context {Obj W : Type} `{L : KubeLib} `{C : Client Obj W}.
Context {AL : AnswerLaws C} {WL : WindowLaws C} {SL : WindowStoreLaws C} {LL : KubeLibLaws L} {TL : StatusLaws C} {GL : LedgerLaws C}.
Context {CL : CooldownLaws C}.
Context (registry : Registry) (Recorder : bool).

(** ** The policy reconciler arms nothing *)

(** Every cooldown of [w'] was there in [w]. *)
Definition no_new (w w' : W) : Prop :=
  ∀ k y u, getWindow k w' = Ok y → cooldown y = Some u → ∃ y0, getWindow k w = Ok y0 ∧ cooldown y0 = Some u.

#[local] Instance no_new_preorder : PreOrder no_new.
Proof.
  split; [intros w k y u Hy Hu; by exists y|]. intros w1 w2 w3 H12 H23 k y u Hy Hu.
  destruct (H23 k y u Hy Hu) as (y2 & H2 & Hu2). by apply (H12 k y2).
Qed.

Lemma no_new_same w w' : (∀ k, getWindow k w' = getWindow k w) → no_new w w'.
Proof. intros H k y u. rewrite H. intros Hy Hu. by exists y. Qed.

Lemma patched_light b x old u : x = None ∨ x = b → patched_until b x old = Some u → old = Some u.
Proof. unfold patched_until. intros [->| ->]; by case_decide. Qed.

Lemma patched_new b x old u :
  patched_until b x old = Some u → old = Some u ∨ (x ≠ None ∧ x ≠ b ∧ whole_second <$> x = Some u).
Proof. unfold patched_until. case_decide as H; [by left|]. right. split_and!; [by destruct x | congruence | done]. Qed.

Lemma no_new_status x w : no_new w (updateWindowStatus x w).2.
Proof. intros k y u (y0 & H0 & ->)%status_cooldown Hu. by exists y0. Qed.

Lemma no_new_delete k' w : no_new w (deleteWindow k' w).2.
Proof. intros k y u (y0 & H0 & ->)%delete_cooldown Hu. by exists y0. Qed.

Lemma no_new_policy req w : no_new w (final (policy_Reconcile registry Recorder req) w).
Proof.
  apply (writes_policy_Reconcile _ _ _ (λ b x, cooldown x = None ∨ cooldown x = cooldown b)); try done.
  - intros g k p v. apply no_new_same. intros k'. apply patch_object_windows.
  - intros b x v _ _ Hl k y u (y0 & H0 & [Hy|Hy])%patch_cooldown Hu; exists y0; rewrite Hy in Hu; [done|].
    split; [done|]. by eapply patched_light.
  - apply no_new_status.
  - apply no_new_delete.
  - intros b x v. apply no_new_same. intros k. apply policy_windows.
  - intros x v. apply no_new_same. intros k. apply policy_status_windows.
  - intros p _ _ x v _ Hx k y u [H0|Hy]%create_cooldown Hu; [by exists y|]. by rewrite Hy Hx in Hu.
Qed.

(** ** The window reconciler says what it arms *)

(** Every cooldown of [w'] was there in [w], or the effects [es] arm it. *)
Definition untils (w w' : W) (es : list effect) : Prop :=
  ∀ k y u, getWindow k w' = Ok y → cooldown y = Some u →
    (∃ y0, getWindow k w = Ok y0 ∧ cooldown y0 = Some u)
    ∨ ∃ b x ok, PatchWindowE b x ok ∈ es ∧ arms (PatchWindowE b x ok) ∧ whole_second <$> cooldown x = Some u.

Definition logs {A} (m : M W A) : Prop := ∀ w r w' es, m w = (r, w', es) → untils w w' es.

Lemma no_new_untils w w' es : no_new w w' → untils w w' es.
Proof. intros H k y u Hy Hu. left. by eapply H. Qed.

Lemma logs_keeps {A} (m : M W A) : keeps no_new m → logs m.
Proof. intros H w r w' es Hr. apply no_new_untils. by apply (keeps_run _ _ _ _ _ _ H Hr). Qed.

Lemma logs_bind {A B} (m : M W A) (f : A → M W B) : logs m → (∀ a, logs (f a)) → logs (m ≫= f).
Proof.
  intros Hm Hf w r w' es [(e & He & ->)|(a & w1 & es1 & es2 & H1 & H2 & ->)]%bind_inv; [by eapply Hm|].
  intros k y u Hy Hu. setoid_rewrite elem_of_app. destruct (Hf a _ _ _ _ H2 k y u Hy Hu) as [(y1 & Hy1 & Hu1)|(b & x & ok & He & Hr)].
  - destruct (Hm _ _ _ _ H1 k y1 u Hy1 Hu1) as [?|(b & x & ok & He & Hr)]; [by left | right; exists b, x, ok; auto].
  - right. exists b, x, ok. auto.
Qed.

Lemma logs_PatchWindow b x : logs (PatchWindow b x : M W _).
Proof.
  intros w r w' es. unfold PatchWindow, write. pose proof (patch_cooldown b x w) as H.
  destruct (patchWindow b x w) as [r1 w1]. intros [= <- <- <-] k y u Hy Hu.
  destruct (H k y Hy) as (y0 & H0 & [Heq|Heq]); rewrite Heq in Hu; [left; by exists y0|].
  apply patched_new in Hu as [?|(Hx & Hb & Hu)]; [left; by exists y0 | right].
  exists b, x, (is_ok r1). split; [left|]. by split.
Qed.

Lemma keeps_status x : keeps no_new (UpdateWindowStatus x : M W _).
Proof. apply keeps_write. intros w. apply no_new_status. Qed.

Lemma no_new_object g k p w : no_new w (patchUnstructured g k p w).2.
Proof. apply no_new_same. intros k'. apply patch_object_windows. Qed.

Lemma keeps_delete k : keeps no_new (DeleteWindow k : M W _).
Proof. apply keeps_write. intros w. apply no_new_delete. Qed.

Ltac quiet_step :=
  first [ apply keeps_status | apply keeps_delete
        | apply restoreActions_frame; [exact _ | apply no_new_object] | apply stampCooldown_frame; [exact _ | apply no_new_object]
        | apply writes_clear_metrics; exact _ | apply writes_emitf; exact _ | keeps_step ].
Ltac logs_step :=
  first [ apply logs_PatchWindow | apply logs_bind; [|intros ?]
        | match goal with |- logs (match ?x with _ => _ end) => destruct x eqn:? end
        | apply logs_keeps; solve [repeat (progress cbv beta iota zeta || quiet_step)] ].

Lemma logs_window_Reconcile req : logs (window_Reconcile registry Recorder req).
Proof.
  unfold window_Reconcile, fetch_target, scaleBackAndClose, scaleBackAndUnfinalize, reconcile_live, stamp_forced, take_step, abortCooldown,
    scaleBackIfAllowed, writeStatus, deleteClosedWindow, drop_finalizer, ignore_nf.
  repeat (progress cbv beta iota zeta || logs_step).
Qed.

(** ** Closed is written over a cooldown that has run out *)

Lemma window_closes req w r w' es win x ok :
  window_Reconcile registry Recorder req w = (r, w', es) → getWindow req w = Ok win → wtPhase (winStatus win) ≠ WindowPhaseClosed →
  UpdateWindowStatusE x ok ∈ es → wtPhase (winStatus x) = WindowPhaseClosed →
  ∃ u, cooldown win = Some u ∧ IsZero u = false ∧ u <= clock w.
Proof.
  intros Hrun Hw Hph He Hx. set (P := λ e, match e with UpdateWindowStatusE x _ => wtPhase (winStatus x) ≠ WindowPhaseClosed | _ => True end).
  assert (∀ A (m : M W A) w r w' es, emits P m → m w = (r, w', es) → UpdateWindowStatusE x ok ∉ es) as Hno.
  { intros A m v r1 v' es1 Hm Hr Hin. by apply (emits_elem P _ _ _ _ _ _ Hm Hr Hin). }
  destruct (window_Reconcile_cases registry Recorder req w) as [_ H|win' Hw' _ H|win' r' ok' Hw' _ _ H|win' policy dep Hw' _ _ Hp Ht H];
    rewrite Hrun in H; try (rewrite Hw in Hw'; injection Hw' as <-).
  - simpl in H. subst. by apply not_elem_of_nil in He.
  - exfalso. revert He. refine (Hno _ _ _ _ _ _ _ H). unfold scaleBackAndUnfinalize, ignore_nf, drop_finalizer.
    apply emits_bind; [apply emits_bind; [by apply emits_try, restoreActions_emits | intros []; emits_tac]|].
    intros _. apply emits_bind; [by apply clear_metrics_emits|]. intros _. emits_tac.
  - injection H as _ _ ->. by apply list_elem_of_singleton in He.
  - destruct (reconcile_live_effect _ _ _ _ _ _ _ _ _ _ H He) as [(? & _)|[[Hn|(ok' & [= ->])]|Hstep]]; [done | by destruct Hn | done |].
    destruct Hstep as (win1 & risk & safe & force & w1 & es1 & es2 & Hctx & Hrun2 & -> & Hin).
    destruct (stepped_spec _ _ _ _ _ _ _ _ _ _ Hctx) as [_ Hs].
    assert (pdPhase (decision win1 risk safe force (clock w)) = WindowPhaseClosed) as Hd.
    { revert Hx. refine (emits_elem (λ e, match e with UpdateWindowStatusE x _ => wtPhase (winStatus x) = WindowPhaseClosed →
        pdPhase (decision win1 risk safe force (clock w)) = WindowPhaseClosed | _ => True end) _ _ _ _ _ _ _ Hrun2 Hin).
      apply take_step_emits; try done. intros y ok' [-> | ->]; done. }
    assert (pdStep (decision win1 risk safe force (clock w)) = stepClose) as Hc
      by (unfold decision, decideWindowStep in Hd |- *; by repeat case_match).
    apply close_step in Hc as (_ & Hz & Hle & _). cbn in Hz, Hle. unfold until_of in Hz, Hle. rewrite Hs in Hz, Hle.
    destruct (cooldown win) as [u|]; [by exists u | done].
Qed.

(** ** Along a history *)

(** An earlier reconcile of the window restored what the window listed, without
    an error, and armed the cooldown after that: to end [scaleBackAfter] after
    the reconcile, which is stored in whole seconds. *)
Definition armed_at (h : list (actor * W)) (k : NamespacedName) (u : Time) : Prop :=
  ∃ v win policy dep w0 w1 es0 es1 es2 b ok, (WindowController k, v) ∈ h
    ∧ getWindow k v = Ok win ∧ getPolicy (wsPolicyName (winSpec win)) v = Ok policy ∧ target_is win v dep
    ∧ (window_Reconcile registry Recorder k v).2 = es0 ++ es1 ++ es2
    ∧ same_objects v w0 ∧ restoreActions win w0 = (Ok (), w1, es1)
    ∧ PatchWindowE b (with_spec (set_until (Some (Add (clock v) (scaleBackAfter policy dep)))) b) ok ∈ es2
    ∧ u = whole_second (Add (clock v) (scaleBackAfter policy dep)).

Lemma armed_at_later h h' k u : (∀ s, s ∈ h → s ∈ h') → armed_at h k u → armed_at h' k u.
Proof. intros H (v & win & p & d & w0 & w1 & es0 & es1 & es2 & b & ok & Hin & Hr). exists v, win, p, d, w0, w1, es0, es1, es2, b, ok. auto. Qed.

Lemma step_armed h a w w' k y u :
  step registry Recorder a w w' → getWindow k w' = Ok y → cooldown y = Some u →
  (∃ y0, getWindow k w = Ok y0 ∧ cooldown y0 = Some u) ∨ armed_at (h ++ [(a, w)]) k u.
Proof.
  intros Hs Hy Hu. assert (no_new w w' → ∃ y0, getWindow k w = Ok y0 ∧ cooldown y0 = Some u) as Hold by (intros H; by apply (H k y u)).
  destruct Hs as [req w|req w|w w' Hsame]; [left; apply Hold, no_new_policy | | left; by apply Hold, no_new_same].
  unfold final in Hy, Hold. destruct (window_Reconcile registry Recorder req w) as [[r w'] es] eqn:Hrun. cbn in Hy, Hold.
  destruct (decide (k = req)) as [->|Hne].
  2:{ left. exists y. rewrite -(window_elsewhere registry Recorder k req w r w' es Hne Hrun). done. }
  destruct (logs_window_Reconcile req _ _ _ _ Hrun _ _ _ Hy Hu) as [?|(b & x & ok & He & Ha & Hx)]; [by left | right].
  destruct (window_arms registry Recorder req _ _ _ _ _ Hrun He Ha)
    as (win & policy & dep & w0 & w1 & es0 & es1 & es2 & Hw & Hp & Ht & Hobj & Hr & Hes & Hin & b' & ok' & [= <- Hxe <-]).
  rewrite Hxe in Hx, Hin. cbn in Hx. injection Hx as <-. exists w, win, policy, dep, w0, w1, es0, es1, es2, b, ok.
  split; [apply elem_of_app; right; left|]. do 3 (split; [done|]). split; [by rewrite Hrun|]. split; [exact (Hobj WL) | done].
Qed.

Lemma history_armed w0 h w k y u :
  (∀ k y, getWindow k w0 = Ok y → armed (shows y) = false) → history registry Recorder w0 h w →
  getWindow k w = Ok y → cooldown y = Some u → IsZero u = false → armed_at h k u.
Proof.
  intros H0 Hh. revert k y u. induction Hh as [|h w1 a w2 Hh IH Hs]; intros k y u Hy Hu Hz.
  - specialize (H0 k y Hy). unfold armed in H0. cbn in H0. by rewrite Hu Hz in H0.
  - destruct (step_armed h _ _ _ _ _ _ Hs Hy Hu) as [(y0 & Hy0 & Hu0)|?]; [|done].
    eapply armed_at_later; [|by eapply IH]. intros s Hin. apply elem_of_app. by left.
Qed.

(** C15: a window is closed only when its cooldown is over: in any history of
    reconciles of both controllers and of everything that writes no window,
    failed reconciles and failed writes included, that starts with no cooldown
    armed, when a reconcile writes Closed to a window that was not Closed, then
    an earlier reconcile of that window restored what the window listed and
    armed, after that, a cooldown of [scaleBackAfter], and the end of it, as it
    is stored (in whole seconds), has been reached. *)
Theorem cooldown_elapsed req w0 h w win x ok :
  (∀ k y, getWindow k w0 = Ok y → armed (shows y) = false) → history registry Recorder w0 h w →
  getWindow req w = Ok win → wtPhase (winStatus win) ≠ WindowPhaseClosed →
  UpdateWindowStatusE x ok ∈ (window_Reconcile registry Recorder req w).2 → wtPhase (winStatus x) = WindowPhaseClosed →
  ∃ u, wsWindowUntil (winSpec win) = Some u ∧ u <= clock w ∧ armed_at h req u.
Proof.
  intros H0 Hh Hw Hph He Hx. destruct (window_Reconcile registry Recorder req w) as [[r w'] es] eqn:Hrun. cbn in He.
  destruct (window_closes _ _ _ _ _ _ _ _ Hrun Hw Hph He Hx) as (u & Hu & Hz & Hle). exists u.
  split; [done|]. split; [done|]. by eapply history_armed.
Qed.
End cooldown.

(** ** The laws, for the cluster of Fake.v *)

Lemma found_stored {k} {c : Cluster} {y} : getWindow k c = Ok y ↔ stored_window k c = Some y.
Proof. apply found_ok. Qed.

#[export] Instance FakeClient_cooldown_laws : CooldownLaws FakeClient.
Proof.
  split; intros *; rewrite ?(@found_stored k).
  - setoid_rewrite found_stored. simpl. unfold fake_patch_window.
    destruct (stored_window (win_key x) w) as [old|] eqn:E; [|intros Hy; exists y; by auto]. cbn.
    destruct (decide (k = win_key x)) as [->|Hne].
    + intros [Hy _]%stored_raw. cbn in Hy. exists old. split; [done|]. right.
      destruct (last_finalizer _ _ _); [by rewrite lookup_delete_eq in Hy | rewrite lookup_insert_eq in Hy; by injection Hy as <-].
    + rewrite stored_other; [intros Hy; exists y; by auto|].
      destruct (last_finalizer _ _ _); [by rewrite lookup_delete_ne | by rewrite lookup_insert_ne].
  - setoid_rewrite found_stored. simpl. unfold fake_update_status.
    destruct (stored_window (win_key x) w) as [old|] eqn:E; [|intros Hy; by exists y].
    case_decide as Hd; [|intros Hy; by exists y]. cbn. destruct (decide (k = win_key x)) as [->|Hne].
    + intros [Hy _]%stored_raw. cbn in Hy. rewrite lookup_insert_eq in Hy. injection Hy as <-. exists old.
      split; [done|]. by destruct Hd as [_ ->].
    + rewrite stored_other; [intros Hy; by exists y | by rewrite lookup_insert_ne].
  - setoid_rewrite found_stored. simpl. unfold fake_delete_window.
    destruct (clWindows w !! k') as [x|] eqn:E; [|intros Hy; by exists y]. cbn. destruct (decide (k = k')) as [->|Hne].
    + intros [Hy Hk]%stored_raw. cbn in Hy. exists x. destruct (mFinalizers (winMeta x)); [by rewrite lookup_delete_eq in Hy|].
      rewrite lookup_insert_eq in Hy. injection Hy as <-. split; [|done]. unfold stored_window. rewrite E. by case_decide.
    + rewrite stored_other; [intros Hy; by exists y|].
      destruct (mFinalizers _); [by rewrite lookup_delete_ne | by rewrite lookup_insert_ne].
  - simpl. unfold fake_create_window. destruct (clWindows w !! win_key x) eqn:E; [by left|]. cbn.
    destruct (decide (k = win_key x)) as [->|Hne].
    + intros [Hy _]%stored_raw. cbn in Hy. rewrite lookup_insert_eq in Hy. injection Hy as <-. by right.
    + rewrite stored_other; [by left | by rewrite lookup_insert_ne].
Qed.

(** ** Witness: armed by one reconcile, closed an hour later by the next *)

Definition cooling_window : EvictionGuardWindow := default life_window (clWindows cooled !! life_key).
Definition cooling_history : list (actor * Cluster) := [(WindowController life_key, at_rest); (World, cooling)].

Lemma cooling_happens : history init_registry true at_rest cooling_history cooled.
Proof.
  exact (history_snoc _ _ _ [(WindowController life_key, at_rest)] cooling World cooled
    (history_snoc _ _ _ [] at_rest (WindowController life_key) cooling (history_nil _ _ _) (step_window _ _ _ _))
    (step_world _ _ cooling cooled (λ k, eq_refl))).
Qed.

(** The second write says Closed. *)
Definition close_effect : effect := nth_effect 1 (effects life_run cooled).
Definition closed_window : EvictionGuardWindow := match close_effect with UpdateWindowStatusE x _ => x | _ => life_window end.

Lemma cooldown_elapsed_witness :
  ∃ u, wsWindowUntil (winSpec cooling_window) = Some u ∧ u <= clock cooled
    ∧ armed_at init_registry true cooling_history life_key u.
Proof.
  refine (cooldown_elapsed init_registry true life_key at_rest cooling_history cooled cooling_window closed_window true
            _ cooling_happens _ _ _ _).
  - intros k y [Hy _]%found_ok%stored_raw. cbn in Hy. apply lookup_singleton_Some in Hy as [_ <-]. reflexivity.
  - vm_compute. reflexivity.
  - vm_compute. discriminate.
  - change (UpdateWindowStatusE closed_window true) with close_effect. apply nth_effect_elem. vm_compute. lia.
  - vm_compute. reflexivity.
Defined.
