(* ===== verification/Teardown.v ===== *)
(** * Teardown: a policy that is deleted goes, and its capacity comes back

    Deleting a policy takes both controllers: the policy reconciler deletes the
    policy's windows and waits, the window reconciler restores each and lets go
    of it, and when none is left the policy reconciler lets go of the policy.
    This file follows a deletion through any history: other policies, other
    windows, failed reconciles and the rest of the cluster come in between. *)
From S2P Require Import Evictgate.
From S2P Require Import Prelude GoStrings GoTime Meta Api Kube Indexes Naming Filters Signals PolicyOwn Workload.
From S2P Require Import Fields WindowPhase ScaleActions Spare Plan PlanSpec Frame Observe WindowController WindowSpec.
From S2P Require Import PolicyController PolicySpec Fake Writes History Ledger.

#[local] Open Scope Z_scope.

(** ** Laws of deletion *)

Definition terminating (x : EvictionGuardWindow) : Prop := tsIsZero (mDeletionTimestamp (winMeta x)) = false.

(** [y] is what a write made of [y0]: of the same policy, and a deletion is
    never taken back. *)
Definition comes_from (y0 y : EvictionGuardWindow) : Prop :=
  wsPolicyName (winSpec y) = wsPolicyName (winSpec y0) ∧ (terminating y0 → terminating y).

Class TeardownLaws {Obj W : Type} {L : KubeLib} (C : Client Obj W) : Prop := {
  policy_key n w p : getPolicy n w = Ok p → polName p = n;
  created_from x w k y : getWindow k (createWindow x w).2 = Ok y →
    getWindow k w = Ok y ∨ wsPolicyName (winSpec y) = wsPolicyName (winSpec x);
  patched_from b x w k y : wsPolicyName (winSpec x) = wsPolicyName (winSpec b) → getWindow k (patchWindow b x w).2 = Ok y →
    ∃ y0, getWindow k w = Ok y0 ∧ comes_from y0 y;
  updated_from x w k y : getWindow k (updateWindowStatus x w).2 = Ok y → ∃ y0, getWindow k w = Ok y0 ∧ comes_from y0 y;
  deleted_from k' w k y : getWindow k (deleteWindow k' w).2 = Ok y → ∃ y0, getWindow k w = Ok y0 ∧ comes_from y0 y;
  (** What was deleted is marked or gone; "not found" says it was. *)
  delete_marks k w r w' y : deleteWindow k w = (r, w') → (∀ e, r = Err e → IsNotFound e = true) →
    getWindow k w' = Ok y → terminating y;
  (** Without its last finalizer a terminating object is gone. *)
  last_finalizer_gone b x w y w' z : patchWindow b x w = (Ok y, w') → win_key x = win_key b → getWindow (win_key b) w = Ok b →
    terminating b → mFinalizers (winMeta b) ≠ [] → mFinalizers (winMeta x) = [] → getWindow (win_key b) w' ≠ Ok z;
  policy_finalizers b x w p w' q : patchPolicy b x w = (Ok p, w') → polName x = polName b → getPolicy (polName b) w = Ok b →
    getPolicy (polName b) w' = Ok q → mFinalizers (polMeta q) = mFinalizers (polMeta x);
  (** A policy's deletion stands too. *)
  policy_patched_from b x w n q : getPolicy n (patchPolicy b x w).2 = Ok q →
    ∃ q0, getPolicy n w = Ok q0 ∧ mDeletionTimestamp (polMeta q) = mDeletionTimestamp (polMeta q0);
  policy_status_from x w n q : getPolicy n (updatePolicyStatus x w).2 = Ok q →
    ∃ q0, getPolicy n w = Ok q0 ∧ mDeletionTimestamp (polMeta q) = mDeletionTimestamp (polMeta q0);
  create_window_policies x w n : getPolicy n (createWindow x w).2 = getPolicy n w;
  patch_window_policies b x w n : getPolicy n (patchWindow b x w).2 = getPolicy n w;
  update_status_policies x w n : getPolicy n (updateWindowStatus x w).2 = getPolicy n w;
  delete_window_policies k w n : getPolicy n (deleteWindow k w).2 = getPolicy n w;
  patch_object_policies g k p w n : getPolicy n (patchUnstructured g k p w).2 = getPolicy n w;
  remove_only l f : (∀ g, g ∈ l → g = f) → RemoveFinalizer l f = [];
  contains_elem l f : ContainsFinalizer l f = bool_decide (f ∈ l);
  (** A list by index has every window of the index, and stored ones only. *)
  listed_stored i v w l x : listWindowsBy i v w = Ok l → x ∈ l → ∃ k, getWindow k w = Ok x;
  listed_by i v w l k x : listWindowsBy i v w = Ok l → getWindow k w = Ok x → v ∈ window_index i x → x ∈ l
}.

Section teardown.
Context {Obj W : Type} `{L : KubeLib} `{C : Client Obj W}.
Context {AL : AnswerLaws C} {SL : WindowStoreLaws C} {LL : KubeLibLaws L} {ST : StatusLaws C}.
Context {WL : WindowLaws C} {IL : WindowIndexLaws C} {DL : TeardownLaws C}.
Context (registry : Registry) (Recorder : bool).

Section policy.
Context (n : string).

(** A window of the policy is stored under [k]. *)
Definition owned_at (k : NamespacedName) (w : W) : Prop := ∃ x, getWindow k w = Ok x ∧ wsPolicyName (winSpec x) = n.

(** As long as the policy is stored, it is being deleted. *)
Definition doomed (w : W) : Prop := ∀ p, getPolicy n w = Ok p → tsIsZero (mDeletionTimestamp (polMeta p)) = false.

(** The policy's windows in [w'] were there in [w], and their deletions stand. *)
Definition dwindles (w w' : W) : Prop :=
  ∀ k y, getWindow k w' = Ok y → wsPolicyName (winSpec y) = n → ∃ y0, getWindow k w = Ok y0 ∧ comes_from y0 y.

#[local] Instance dwindles_preorder : PreOrder dwindles.
Proof.
  split; [intros w k y Hy _; by exists y|]. intros w1 w2 w3 H12 H23 k y Hy Hn.
  destruct (H23 k y Hy Hn) as (y2 & H2 & Hp2 & Ht2). destruct (H12 k y2 H2) as (y1 & H1 & Hp1 & Ht1); [by rewrite -Hp2|].
  exists y1. split; [done|]. split; [by rewrite Hp2 | auto].
Qed.

Lemma dwindles_same w w' : (∀ k, getWindow k w' = getWindow k w) → dwindles w w'.
Proof. intros H k y. rewrite H. intros Hy _. by exists y. Qed.

Lemma dwindles_owned w w' k : dwindles w w' → owned_at k w' → owned_at k w.
Proof. intros H (y & Hy & Hn). destruct (H k y Hy Hn) as (y0 & H0 & Hp & _). exists y0. by rewrite -Hp. Qed.

Lemma dwindles_window req : keeps dwindles (window_Reconcile registry Recorder req).
Proof.
  apply (writes_window_Reconcile _ _ _ (λ _ _, True)); try done.
  - intros g k p w. apply dwindles_same. intros k'. apply patch_object_windows.
  - intros b x w _ Hp _ k y Hy _. by eapply patched_from.
  - intros x w k y Hy _. by eapply updated_from.
  - intros k' w k y Hy _. by eapply deleted_from.
Qed.

(** Other policies open windows of their own, this one none. *)
Lemma dwindles_policy req w : doomed w → dwindles w (final (policy_Reconcile registry Recorder req) w).
Proof.
  intros Hd. apply (writes_policy_Reconcile _ _ _ (λ _ _, True)); try done.
  - intros g k p v. apply dwindles_same. intros k'. apply patch_object_windows.
  - intros b x v _ Hp _ k y Hy _. by eapply patched_from.
  - intros x v k y Hy _. by eapply updated_from.
  - intros k' v k y Hy _. by eapply deleted_from.
  - intros b x v. apply dwindles_same. intros k. apply policy_windows.
  - intros x v. apply dwindles_same. intros k. apply policy_status_windows.
  - intros p Hp Hz x v Hx _ k y [H0|Hy]%created_from Hn; [by exists y|]. exfalso.
    assert (nnName req = n) as Hr by (by rewrite -(policy_key _ _ _ Hp) -Hx -Hy). rewrite Hr in Hp. by rewrite (Hd _ Hp) in Hz.
Qed.

Lemma dwindles_step a w w' : doomed w → step registry Recorder a w w' → dwindles w w'.
Proof.
  intros Hd Hs. destruct Hs as [req v|req v|v v' H]; [by apply dwindles_policy | apply dwindles_window | by apply dwindles_same].
Qed.

Lemma dwindles_history w0 h w : (∀ a v, (a, v) ∈ h → doomed v) → history registry Recorder w0 h w → dwindles w0 w.
Proof.
  intros Hd. induction 1 as [|h w1 a w2 _ IH Hs]; [reflexivity|]. transitivity w1.
  - apply IH. intros b v Hin. apply (Hd b v), elem_of_app. by left.
  - eapply dwindles_step, Hs. apply (Hd a w1), elem_of_app. right. left.
Qed.

(** The reconcilers take no deletion of a policy back. *)
Definition dooms (w w' : W) : Prop := doomed w → doomed w'.

#[local] Instance dooms_preorder : PreOrder dooms.
Proof. split; [intros w H; exact H | intros w1 w2 w3 H1 H2 H; by apply H2, H1]. Qed.

Lemma dooms_same w w' : getPolicy n w' = getPolicy n w → dooms w w'.
Proof. intros H Hd p. rewrite H. apply Hd. Qed.

Lemma dooms_from w w' :
  (∀ q, getPolicy n w' = Ok q → ∃ q0, getPolicy n w = Ok q0 ∧ mDeletionTimestamp (polMeta q) = mDeletionTimestamp (polMeta q0)) →
  dooms w w'.
Proof. intros H Hd q (q0 & H0 & Hq)%H. rewrite Hq. by apply Hd. Qed.

Lemma dooms_step a w w' : a ≠ World → step registry Recorder a w w' → dooms w w'.
Proof.
  intros Ha Hs. destruct Hs as [req v|req v|]; [| |by destruct Ha].
  - apply (writes_policy_Reconcile _ _ _ (λ _ _, True)); try done.
    + intros. apply dooms_same, patch_object_policies.
    + intros. apply dooms_same, patch_window_policies.
    + intros. apply dooms_same, update_status_policies.
    + intros. apply dooms_same, delete_window_policies.
    + intros. apply dooms_from. intros q. apply policy_patched_from.
    + intros. apply dooms_from. intros q. apply policy_status_from.
    + intros. apply dooms_same, create_window_policies.
  - apply (writes_window_Reconcile _ _ _ (λ _ _, True)); try done; intros; apply dooms_same;
      [apply patch_object_policies | apply patch_window_policies | apply update_status_policies | apply delete_window_policies].
Qed.

(** Neither does the rest of the world, in this history. *)
Definition world_respects (h : list (actor * W)) (w : W) : Prop :=
  ∀ h1 v h2, h = h1 ++ (World, v) :: h2 → doomed v → doomed (default w (snd <$> head h2)).

Lemma world_respects_init h a v w : world_respects (h ++ [(a, v)]) w → world_respects h v.
Proof.
  intros H h1 u h2 -> Hu. specialize (H h1 u (h2 ++ [(a, v)])). rewrite -app_assoc in H. specialize (H eq_refl Hu).
  by destruct h2 as [|[? ?] ?].
Qed.

Lemma doomed_history w0 h w :
  doomed w0 → history registry Recorder w0 h w → world_respects h w → (∀ a v, (a, v) ∈ h → doomed v) ∧ doomed w.
Proof.
  intros H0. induction 1 as [|h w1 a w2 _ IH Hs]; intros Hw; [split; [by intros ?? ?%elem_of_nil | done]|].
  destruct (IH (world_respects_init _ _ _ _ Hw)) as [Hd H1]. split.
  - intros b v [Hin|[= -> ->]%list_elem_of_singleton]%elem_of_app; [by eapply Hd | done].
  - destruct a; [eapply dooms_step; [|exact Hs|exact H1]; done.. | exact (Hw h w1 [] eq_refl H1)].
Qed.

(** ** The policy reconciler deletes the windows *)

Definition condemned (w : W) : Prop := ∀ k x, getWindow k w = Ok x → wsPolicyName (winSpec x) = n → terminating x.

Lemma delete_condemns k w w' es :
  ignore_nf (DeleteWindow k) w = (Ok (), w', es) → dwindles w w' ∧ ∀ y, getWindow k w' = Ok y → terminating y.
Proof.
  unfold ignore_nf, DeleteWindow, write. rewrite bind_eq. unfold try. destruct (deleteWindow k w) as [r v] eqn:E.
  assert (dwindles w v) as Hv.
  { intros k' y Hy _. eapply (deleted_from k). by rewrite E. }
  assert ((∀ e, r = Err e → IsNotFound e = true) → v = w' → dwindles w w' ∧ ∀ y, getWindow k w' = Ok y → terminating y) as Hend.
  { intros Hr <-. split; [done|]. intros y. by eapply delete_marks. }
  destruct r as [u|e]; cbn; [intros [= <- _]; by apply Hend|]. unfold IgnoreNotFound. destruct (IsNotFound e) eqn:Ee; [|done].
  intros [= <- _]. apply Hend; [|done]. by intros ? [= <-].
Qed.

Lemma delete_all_condemns l w w' es :
  for_each (λ x, ignore_nf (DeleteWindow (win_key x))) l w = (Ok (), w', es) →
  dwindles w w' ∧ ∀ x y, x ∈ l → getWindow (win_key x) w' = Ok y → wsPolicyName (winSpec y) = n → terminating y.
Proof.
  revert w es. induction l as [|x l IH]; intros w es; cbn [for_each].
  { intros (_ & -> & _)%ret_inv. split; [reflexivity|]. by intros ?? ?%elem_of_nil. }
  intros ([] & w1 & es1 & es2 & H1 & H2 & _)%bind_ok_inv. destruct (delete_condemns _ _ _ _ H1) as [D1 T1].
  destruct (IH _ _ H2) as [D2 T2]. split; [by transitivity w1|]. intros z y [->|Hz]%elem_of_cons Hy Hn; [|by eapply T2].
  destruct (D2 _ _ Hy Hn) as (y0 & H0 & _ & Ht). by eapply Ht, T1.
Qed.

Lemma deletion_condemns req w p c w' es :
  n ≠ "" → nnName req = n → getPolicy n w = Ok p → doomed w → policy_Reconcile registry Recorder req w = (Ok c, w', es) → condemned w'.
Proof.
  intros Hne Hr Hp Hd. unfold policy_Reconcile. rewrite bind_try_reads Hr Hp (Hd _ Hp). cbn [negb]. unfold cleanup.
  rewrite (policy_key _ _ _ Hp). intros (l & w1 & es1 & es2 & (Hl & -> & _)%reads_inv & H & _)%bind_ok_inv.
  assert (∀ k x, getWindow k w = Ok x → wsPolicyName (winSpec x) = n → x ∈ l ∧ win_key x = k) as Hin.
  { intros k x Hx Hn. split; [|by apply (window_key _ _ _ Hx)]. eapply listed_by; [done..|]. cbn. unfold windowPolicyNameIndex.
    rewrite Hn decide_False //. left. }
  destruct l as [|z l].
  - assert (∀ k, ¬ owned_at k w') as Hno.
    { intros k Ho. apply (dwindles_owned w) in Ho as (x & Hx & Hn); [by destruct (Hin k x Hx Hn) as [?%elem_of_nil _]|].
      destruct (policy_has_finalizer p); [|by apply ret_inv in H as (_ & -> & _)].
      apply bind_ok_inv in H as (q & w2 & es3 & es4 & Hq & (_ & -> & _)%ret_inv & _). unfold PatchPolicy, write in Hq.
      apply dwindles_same. intros k'. pose proof (policy_windows p (without_policy_finalizer p) w k') as Hk.
      destruct (patchPolicy p (without_policy_finalizer p) w) as [r v]. by injection Hq as _ <- _. }
    intros k x Hx Hn. by destruct (Hno k); exists x.
  - apply bind_ok_inv in H as ([] & w2 & es3 & es4 & Hdel & (_ & -> & _)%ret_inv & _).
    destruct (delete_all_condemns _ _ _ _ Hdel) as [D T]. intros k y Hy Hn. destruct (D k y Hy Hn) as (y0 & H0 & Hp0 & _).
    destruct (Hin k y0 H0) as [Hy0 <-]; [by rewrite -Hp0|]. by eapply T.
Qed.

(** ** The window reconciler restores each and lets go *)

(** Nobody else holds the window. *)
Definition held_by_us (x : EvictionGuardWindow) : Prop := mFinalizers (winMeta x) = [WindowFinalizer].

(** A run from [w] to [w'] begins with a restore of what [x] lists that reports
    no error, and leaves the objects as the restore left them. *)
Definition gives_back (x : EvictionGuardWindow) (w w' : W) (es : list effect) : Prop :=
  ∃ w1 es1 es2, restoreActions x w = (Ok (), w1, es1) ∧ es = es1 ++ es2 ∧ ∀ g k, getUnstructured g k w' = getUnstructured g k w1.

Lemma letting_go_objects x : keeps (λ v v', ∀ g k, getUnstructured g k v' = getUnstructured g k v) (letting_go x : M W CtrlResult).
Proof.
  assert (PreOrder (λ v v' : W, ∀ g k, getUnstructured g k v' = getUnstructured g k v)) as HP
    by (split; [by intros v g k | intros v1 v2 v3 H1 H2 g k; by rewrite H2]).
  unfold letting_go. apply keeps_bind; [done| |intros _].
  { intros w. unfold final, clear_metrics. rewrite clearWorkloadPlanMetrics_run. reflexivity. }
  apply keeps_bind; [done| |intros _; by apply keeps_ret]. unfold drop_finalizer. destruct (has_finalizer x); [|by apply keeps_ret].
  apply keeps_bind; [done| |intros ?; by apply keeps_ret]. apply keeps_write. intros w g k. apply patch_window_objects.
Qed.

Lemma condemned_goes req w x c w' es :
  getWindow req w = Ok x → terminating x → held_by_us x → window_Reconcile registry Recorder req w = (Ok c, w', es) →
  gives_back x w w' es ∧ ∀ z, getWindow req w' ≠ Ok z.
Proof.
  intros Hx Ht Hf. unfold window_Reconcile. rewrite bind_try_reads Hx. unfold terminating in Ht. rewrite Ht. cbn [negb].
  intros (w1 & es1 & es2 & Hr & H & ->)%leave_restores.
  split; [exists w1, es1, es2; split; [done|]; split; [done|]; exact (keeps_run _ _ _ _ _ _ (letting_go_objects x) H)|].
  assert (getWindow req w1 = Ok x) as Hx1.
  { rewrite -Hx. refine (keeps_run (λ v v', getWindow req v' = getWindow req v) (restoreActions x) w _ _ _ _ Hr).
    apply restoreActions_frame; [by split; [intros v | intros v1 v2 v3 -> ->] | intros g k p v; apply patch_object_windows]. }
  apply bind_ok_inv in H as (u & w2 & es3 & es4 & Hc & H & _). unfold clear_metrics in Hc. rewrite clearWorkloadPlanMetrics_run in Hc.
  injection Hc as _ <- _. apply bind_ok_inv in H as (u' & w3 & es5 & es6 & Hd & (_ & -> & _)%ret_inv & _).
  unfold drop_finalizer, has_finalizer in Hd. rewrite contains_elem Hf bool_decide_true in Hd; [|left].
  apply bind_ok_inv in Hd as (y & w4 & es7 & es8 & Hp & (_ & -> & _)%ret_inv & _). unfold PatchWindow, write in Hp.
  destruct (patchWindow x (unfinalized x) w1) as [r v] eqn:E. injection Hp as -> <- _.
  pose proof (window_key _ _ _ Hx) as Hk. change (win_key x = req) in Hk. rewrite -Hk in Hx1 |- *. intros z.
  eapply last_finalizer_gone; [exact E | done | done | done | by rewrite Hf|].
  cbn. rewrite Hf. apply remove_only. by intros g ->%list_elem_of_singleton.
Qed.

(** Some reconcile of the window found it and succeeded. *)
Definition let_go (h : list (actor * W)) (k : NamespacedName) : Prop :=
  ∃ v x c v' es, (WindowController k, v) ∈ h ∧ getWindow k v = Ok x ∧ wsPolicyName (winSpec x) = n ∧ held_by_us x
    ∧ window_Reconcile registry Recorder k v = (Ok c, v', es).

(** Some reconcile of the window restored what it lists: its effects begin with
    those of the restore, and it leaves the objects as the restore left them. *)
Definition given_back (h : list (actor * W)) (k : NamespacedName) : Prop :=
  ∃ v x c v' es, (WindowController k, v) ∈ h ∧ getWindow k v = Ok x ∧ wsPolicyName (winSpec x) = n
    ∧ window_Reconcile registry Recorder k v = (Ok c, v', es) ∧ gives_back x v v' es.

Lemma let_go_gone w0 h w k :
  condemned w0 → (∀ a v, (a, v) ∈ h → doomed v) → history registry Recorder w0 h w → let_go h k → given_back h k ∧ ¬ owned_at k w.
Proof.
  intros Hc Hd Hh (v & x & c & v' & es & Hin & Hx & Hn & Hf & Hrun). pose proof Hin as (h1 & h2 & ->)%list_elem_of_split.
  destruct (history_split _ _ _ _ _ _ _ _ Hh) as (Hh1 & v2 & Hs & Hh2). inversion Hs; subst. unfold final in Hh2. rewrite Hrun in Hh2. cbn in Hh2.
  assert (terminating x) as Ht.
  { destruct (dwindles_history w0 h1 v) with (k := k) (y := x) as (x0 & H0 & Hp & Ht); [|done..|].
    - intros a u Hau. apply (Hd a u), elem_of_app. by left.
    - apply Ht, (Hc k x0 H0). by rewrite -Hp. }
  destruct (condemned_goes _ _ _ _ _ _ Hx Ht Hf Hrun) as [Hback Hgone]. split; [by exists v, x, c, v', es|].
  intros Ho. destruct (dwindles_owned v' w k) as (z & Hz & _); [|done|by apply (Hgone z)].
  apply (dwindles_history v' h2); [|done]. intros a u Hau. apply (Hd a u), elem_of_app. right. by right.
Qed.

(** ** The policy goes *)

Lemma deletion_unfinalizes req w c w' es q :
  nnName req = n → doomed w → listWindowsBy IndexWindowPolicyName n w = Ok [] →
  policy_Reconcile registry Recorder req w = (Ok c, w', es) → getPolicy n w' = Ok q → policy_has_finalizer q = false.
Proof.
  intros Hr Hd Hl. unfold policy_Reconcile. rewrite bind_try_reads Hr. destruct (getPolicy n w) as [p|e] eqn:Hp.
  2:{ destruct (IgnoreNotFound e); [done|]. intros (_ & -> & _)%ret_inv. by rewrite Hp. }
  rewrite (Hd _ Hp). cbn [negb]. unfold cleanup. rewrite (policy_key _ _ _ Hp) (bind_reads_ok _ _ _ _ Hl).
  destruct (policy_has_finalizer p) eqn:Ef; [|intros (_ & -> & _)%ret_inv; rewrite Hp; by intros [= <-]].
  intros (y & w2 & es3 & es4 & Hq & (_ & -> & _)%ret_inv & _)%bind_ok_inv. unfold PatchPolicy, write in Hq.
  destruct (patchPolicy p (without_policy_finalizer p) w) as [r v] eqn:E. injection Hq as -> <- _. intros Hg.
  unfold policy_has_finalizer. pose proof (policy_key _ _ _ Hp) as Hk. rewrite -Hk in Hp Hg.
  rewrite (policy_finalizers _ _ _ _ _ _ E eq_refl Hp Hg). apply contains_remove.
Qed.

Lemma nothing_listed w l : (∀ k, ¬ owned_at k w) → listWindowsBy IndexWindowPolicyName n w = Ok l → l = [].
Proof.
  intros Hno Hl. destruct l as [|x l]; [done|]. exfalso. assert (x ∈ x :: l) as Hx by left.
  destruct (listed_stored _ _ _ _ _ Hl Hx) as [k Hk]. apply (Hno k). exists x. split; [done|].
  pose proof (listWindowsBy_sound _ _ _ _ _ Hl Hx) as Hi. cbn in Hi. unfold windowPolicyNameIndex in Hi.
  case_decide; [by apply elem_of_nil in Hi | by apply list_elem_of_singleton in Hi].
Qed.

Lemma deletion_finishes req w c w' es q :
  nnName req = n → doomed w → (∀ k, ¬ owned_at k w) →
  policy_Reconcile registry Recorder req w = (Ok c, w', es) → getPolicy n w' = Ok q → policy_has_finalizer q = false.
Proof.
  intros Hr Hd Hno H. destruct (listWindowsBy IndexWindowPolicyName n w) as [l|e] eqn:Hl.
  - assert (l = []) as -> by (by eapply nothing_listed). by eapply deletion_unfinalizes.
  - revert H. unfold policy_Reconcile. rewrite bind_try_reads Hr. destruct (getPolicy n w) as [p|e'] eqn:Hp.
    + rewrite (Hd _ Hp). cbn [negb]. unfold cleanup. rewrite (policy_key _ _ _ Hp).
      by intros (l & w1 & es1 & es2 & (Hl' & _)%reads_inv & _)%bind_ok_inv; rewrite Hl in Hl'.
    + destruct (IgnoreNotFound e'); [done|]. intros (_ & -> & _)%ret_inv. by rewrite Hp.
Qed.

(** C6: a deleted policy is torn down, and its capacity comes back: once the policy
    reconciler has succeeded on a policy that is being deleted, let any
    reconciles of either controller follow, of whatever policies and windows,
    failed ones too, and anything else in the cluster that writes no window and
    does not take the deletion of the policy back.  If a reconcile of
    each of the policy's windows found it, held by nobody else, and succeeded,
    then each of them was restored (the effects of a reconcile of it begin with
    those of a restore of what it lists that reported no error, and the reconcile
    leaves the objects as that restore left them), none is left, and the next
    reconcile of the policy that succeeds leaves it without the finalizer that
    kept it. *)
Theorem deletion_completes p w0 c0 w1 es0 h w c w' es :
  n ≠ "" → getPolicy n w0 = Ok p → tsIsZero (mDeletionTimestamp (polMeta p)) = false →
  policy_Reconcile registry Recorder (NN "" n) w0 = (Ok c0, w1, es0) →
  history registry Recorder w1 h w → world_respects h w →
  (∀ k, owned_at k w1 → let_go h k) →
  policy_Reconcile registry Recorder (NN "" n) w = (Ok c, w', es) →
  (∀ k, owned_at k w1 → given_back h k) ∧ (∀ k, ¬ owned_at k w')
  ∧ ∀ q, getPolicy n w' = Ok q → policy_has_finalizer q = false.
Proof.
  intros Hne Hp Hz H0 Hh Hwd Hgo H. assert (doomed w0) as Hd0 by (intros q Hq; rewrite Hp in Hq; by injection Hq as <-).
  assert (doomed w1) as Hd1.
  { pose proof (dooms_step (PolicyController (NN "" n)) _ _ ltac:(done) (step_policy registry Recorder (NN "" n) w0) Hd0) as H1. unfold final in H1. by rewrite H0 in H1. }
  destruct (doomed_history _ _ _ Hd1 Hh Hwd) as [Hd Hdw]. assert (condemned w1) as Hc by (by eapply (deletion_condemns (NN "" n))).
  assert (∀ k, ¬ owned_at k w) as Hno.
  { intros k Ho. assert (owned_at k w1) as Ho1 by (by eapply dwindles_owned, Ho; eapply dwindles_history).
    by destruct (let_go_gone w1 h w k Hc Hd Hh (Hgo k Ho1)). }
  split; [intros k Ho; by destruct (let_go_gone w1 h w k Hc Hd Hh (Hgo k Ho))|]. split.
  - intros k Ho. apply (Hno k). eapply dwindles_owned, Ho. pose proof (dwindles_policy (NN "" n) w Hdw) as Hw.
    unfold final in Hw. by rewrite H in Hw.
  - intros q. exact (deletion_finishes (NN "" n) w c w' es q eq_refl Hdw Hno H).
Qed.
End policy.
End teardown.

(** ** The laws, for the cluster of Fake.v *)

Lemma comes_refl x : comes_from x x.
Proof. by split. Qed.

(** What is stored after a write under one key is what it wrote, or was there. *)
Lemma stored_after k k' m (c : Cluster) y :
  (∀ k1, k1 ≠ k' → m !! k1 = clWindows c !! k1) → stored_window k (set_windows m c) = Some y →
  stored_window k c = Some y ∨ (k = k' ∧ m !! k' = Some y ∧ win_key y = k').
Proof.
  intros Hm [Hy Hk]%stored_raw. cbn in Hy. destruct (decide (k = k')) as [->|Hne]; [by right|]. left.
  rewrite Hm // in Hy. unfold stored_window. rewrite Hy. by case_decide.
Qed.

Lemma merge_comes b x old : wsPolicyName (winSpec x) = wsPolicyName (winSpec b) → comes_from old (merge_window b x old).
Proof. intros Hp. split; [|done]. cbn. by rewrite Hp pick_untouched. Qed.

Lemma stored_policy_raw n (c : Cluster) q : stored_policy n c = Some q → clPolicies c !! n = Some q ∧ polName q = n.
Proof. unfold stored_policy. destruct (clPolicies c !! n); [|done]. case_decide; [|done]. by intros [= <-]. Qed.

Lemma policy_after n n' m (c : Cluster) q :
  (∀ n1, n1 ≠ n' → m !! n1 = clPolicies c !! n1) → stored_policy n (set_policies m c) = Some q →
  stored_policy n c = Some q ∨ (n = n' ∧ m !! n' = Some q).
Proof.
  intros Hm [Hq Hn]%stored_policy_raw. cbn in Hq. destruct (decide (n = n')) as [->|Hne]; [by right|]. left.
  rewrite Hm // in Hq. unfold stored_policy. rewrite Hq. by case_decide.
Qed.

Lemma fake_create_from x c k y :
  stored_window k (fake_create_window x c).2 = Some y → stored_window k c = Some y ∨ wsPolicyName (winSpec y) = wsPolicyName (winSpec x).
Proof.
  unfold fake_create_window. destruct (clWindows c !! win_key x) eqn:E; [by left|]. cbn.
  intros [?|(-> & Hy & _)]%(stored_after _ (win_key x)); [by left | right; rewrite lookup_insert_eq in Hy; by injection Hy as <- |].
  intros k1 Hk. by rewrite lookup_insert_ne.
Qed.

(** A stored window that a write of another key, or a refused one, left alone. *)
Ltac left_alone y := exists y; split; [assumption | apply comes_refl].

Lemma fake_patch_from b x c k y :
  wsPolicyName (winSpec x) = wsPolicyName (winSpec b) → stored_window k (fake_patch_window b x c).2 = Some y →
  ∃ y0, stored_window k c = Some y0 ∧ comes_from y0 y.
Proof.
  intros Hp. unfold fake_patch_window. destruct (stored_window (win_key x) c) as [old|] eqn:E; [|intros Hy; left_alone y]. cbn.
  intros [?|(-> & Hy & _)]%(stored_after _ (win_key x)); [left_alone y | |].
  - exists old. split; [done|]. destruct (last_finalizer b x (merge_window b x old)); [by rewrite lookup_delete_eq in Hy|].
    rewrite lookup_insert_eq in Hy. injection Hy as <-. by apply merge_comes.
  - intros k1 Hk. destruct (last_finalizer _ _ _); [by rewrite lookup_delete_ne | by rewrite lookup_insert_ne].
Qed.

Lemma fake_status_from x c k y :
  stored_window k (fake_update_status x c).2 = Some y → ∃ y0, stored_window k c = Some y0 ∧ comes_from y0 y.
Proof.
  unfold fake_update_status. destruct (stored_window (win_key x) c) as [old|] eqn:E; [|intros Hy; left_alone y].
  case_decide as Hd; [|intros Hy; left_alone y]. cbn.
  intros [?|(-> & Hy & _)]%(stored_after _ (win_key x)); [left_alone y | |].
  - exists old. split; [done|]. rewrite lookup_insert_eq in Hy. injection Hy as <-. destruct Hd as [Hm Hs].
    split; [by rewrite Hs | unfold terminating; by rewrite Hm].
  - intros k1 Hk. by rewrite lookup_insert_ne.
Qed.

Lemma fake_delete_from k' c k y :
  stored_window k (fake_delete_window k' c).2 = Some y → ∃ y0, stored_window k c = Some y0 ∧ comes_from y0 y.
Proof.
  unfold fake_delete_window. destruct (clWindows c !! k') as [x|] eqn:E; [|intros Hy; left_alone y]. cbn.
  intros [?|(-> & Hy & Hk)]%(stored_after _ k'); [left_alone y | |].
  - exists x. destruct (mFinalizers (winMeta x)); [by rewrite lookup_delete_eq in Hy|]. rewrite lookup_insert_eq in Hy.
    injection Hy as <-. split; [unfold stored_window; rewrite E; by case_decide|]. split; [done|].
    unfold terminating. cbn. intros Ht. rewrite Ht. exact Ht.
  - intros k1 Hk. destruct (mFinalizers _); [by rewrite lookup_delete_ne | by rewrite lookup_insert_ne].
Qed.

Lemma fake_delete_marks k c y : stored_window k (fake_delete_window k c).2 = Some y → terminating y.
Proof.
  unfold fake_delete_window. destruct (clWindows c !! k) as [x|] eqn:E; [|by intros [Hy _]%stored_raw; rewrite E in Hy].
  intros [Hy _]%stored_raw. cbn in Hy. destruct (mFinalizers (winMeta x)); [by rewrite lookup_delete_eq in Hy|].
  rewrite lookup_insert_eq in Hy. injection Hy as <-. unfold terminating. cbn.
  destruct (tsIsZero (mDeletionTimestamp (winMeta x))) eqn:Ez; [|done]. cbn. unfold IsZero, zero_time. apply Z.eqb_neq. lia.
Qed.

Lemma fake_last_finalizer b x c :
  win_key x = win_key b → stored_window (win_key b) c = Some b → terminating b → mFinalizers (winMeta b) ≠ [] →
  mFinalizers (winMeta x) = [] → stored_window (win_key b) (fake_patch_window b x c).2 = None.
Proof.
  intros Hk Hb Ht Hf Hx. unfold fake_patch_window. rewrite Hk Hb. cbn.
  assert (last_finalizer b x (merge_window b x b) = true) as ->.
  { unfold last_finalizer. rewrite bool_decide_true; [|split; [congruence | cbn; by rewrite Hx pick_same]]. cbn. by rewrite Ht. }
  unfold stored_window. cbn. by rewrite lookup_delete_eq.
Qed.

#[export] Instance FakeClient_teardown_laws : TeardownLaws FakeClient.
Proof.
  split; simpl.
  - intros n c p. rewrite found_ok. by intros [_ ?]%stored_policy_raw.
  - intros x c k y. rewrite !found_ok. apply fake_create_from.
  - intros b x c k y Hp. rewrite found_ok. setoid_rewrite found_ok. by apply fake_patch_from.
  - intros x c k y. rewrite found_ok. setoid_rewrite found_ok. apply fake_status_from.
  - intros k' c k y. rewrite found_ok. setoid_rewrite found_ok. apply fake_delete_from.
  - intros k c r c' y H _. rewrite found_ok. pose proof (fake_delete_marks k c y) as Hm. by rewrite H in Hm.
  - intros b x c y c' z H Hk. rewrite !found_ok. intros Hb Ht Hf Hx. pose proof (fake_last_finalizer b x c Hk Hb Ht Hf Hx) as Hn.
    rewrite H in Hn. by rewrite Hn.
  - intros b x c p c' q. unfold fake_patch_policy. intros H Hn _. rewrite Hn in H. destruct (stored_policy _ c) as [old|]; [|done].
    injection H as <- <-. rewrite found_ok. intros [Hq _]%stored_policy_raw. cbn in Hq.
    destruct (_ && _); [by rewrite lookup_delete_eq in Hq | rewrite lookup_insert_eq in Hq; by injection Hq as <-].
  - intros b x c n q. rewrite found_ok. setoid_rewrite found_ok. unfold fake_patch_policy.
    destruct (stored_policy (polName x) c) as [old|] eqn:E; [|intros Hq; by exists q]. cbn.
    intros [Hq|[-> Hq]]%(policy_after _ (polName x)); [by exists q | | intros n1 Hn; destruct (_ && _);
      [by rewrite lookup_delete_ne | by rewrite lookup_insert_ne]].
    exists old. split; [done|]. destruct (_ && _); [by rewrite lookup_delete_eq in Hq | rewrite lookup_insert_eq in Hq; by injection Hq as <-].
  - intros x c n q. rewrite found_ok. setoid_rewrite found_ok. unfold fake_policy_status.
    destruct (stored_policy (polName x) c) as [old|] eqn:E; [|intros Hq; by exists q]. cbn.
    intros [Hq|[-> Hq]]%(policy_after _ (polName x)); [by exists q | | intros n1 Hn; by rewrite lookup_insert_ne].
    exists old. split; [done|]. rewrite lookup_insert_eq in Hq. by injection Hq as <-.
  - intros x c n. unfold fake_create_window. by destruct (clWindows c !! _).
  - intros b x c n. unfold fake_patch_window. by destruct (stored_window _ c).
  - intros x c n. unfold fake_update_status. destruct (stored_window _ c); [|done]. by case_decide.
  - intros k c n. unfold fake_delete_window. by destruct (clWindows c !! k).
  - intros g k p c n. unfold fake_patch. case_decide; [done|]. by destruct (clObjects c !! _).
  - intros l f H. induction l as [|g l IH]; [done|]. rewrite filter_cons_False; [|intros Hne; apply Hne, H; left].
    apply IH. intros h Hh. apply H. by right.
  - done.
  - intros i v c l x [= <-] [_ (k & _ & Hk)%list_elem_of_omap]%list_elem_of_filter. exists k. by apply found_ok.
  - intros i v c l k x [= <-]. rewrite found_ok. intros Hx Hv. apply list_elem_of_filter. split; [done|].
    apply list_elem_of_omap. exists k. split; [|done]. apply stored_raw in Hx as [Hx _].
    apply list_elem_of_fmap. exists (k, x). split; [done|]. by apply elem_of_map_to_list.
Qed.

(** ** The shop closes *)

Definition deleted_policy : EvictionGuardPolicy :=
  MkPolicy (set_deletion (Some 5) (polMeta shop_policy)) (polSpec shop_policy) (polStatus shop_policy).
Definition closing : Cluster := set_policies (<["p" := deleted_policy]> (clPolicies shop_up)) shop_up.
Definition web_key : NamespacedName := NN "shop" (WindowName "p" "shop" "web").
Abbreviation web_run := (window_Reconcile init_registry true web_key).

(** The policy deletes its two windows; "api" goes, the policy waits, two
    minutes pass, "web" goes. *)
Definition waiting_1 : Cluster := final policy_run closing.
Definition waiting_2 : Cluster := final api_run waiting_1.
Definition waiting_3 : Cluster := final policy_run waiting_2.
Definition waiting_4 : Cluster := set_now (2 * Minute) waiting_3.
Definition cleared : Cluster := final web_run waiting_4.
Definition closed : Cluster := final policy_run cleared.
Definition closing_history : list (actor * Cluster) :=
  [(WindowController api_key, waiting_1); (PolicyController (NN "" "p"), waiting_2); (World, waiting_3);
   (WindowController web_key, waiting_4)].

Example closing_gives_back :
  replicas_of "api" closing = Ok 4 ∧ replicas_of "api" closed = Ok 3 ∧ window_of "api" closed = None ∧ window_of "web" closed = None.
Proof. split_and!; vm_compute; reflexivity. Qed.

Lemma set_now_windows t c k : getWindow k (set_now t c) = getWindow k c.
Proof. done. Qed.

Lemma closing_happens : history init_registry true waiting_1 closing_history cleared.
Proof.
  exact (history_snoc _ _ _ [(WindowController api_key, waiting_1); (PolicyController (NN "" "p"), waiting_2); (World, waiting_3)]
           waiting_4 (WindowController web_key) cleared
    (history_snoc _ _ _ [(WindowController api_key, waiting_1); (PolicyController (NN "" "p"), waiting_2)] waiting_3 World waiting_4
      (history_snoc _ _ _ [(WindowController api_key, waiting_1)] waiting_2 (PolicyController (NN "" "p")) waiting_3
        (history_snoc _ _ _ [] waiting_1 (WindowController api_key) waiting_2 (history_nil _ _ _) (step_window _ _ _ _))
        (step_policy _ _ _ _))
      (step_world _ _ waiting_3 waiting_4 (set_now_windows _ _)))
    (step_window _ _ _ _)).
Qed.

(** A run that reports no error. *)
Lemma run_ok {A} (m : M Cluster A) w : is_ok (res m w) = true → ∃ a es, m w = (Ok a, final m w, es).
Proof. unfold res, final. destruct (m w) as [[[a|e] w'] es]; [by exists a, es | done]. Qed.

(** Whether a cluster has the policy, if at all, marked for deletion. *)
Lemma doomed_check (c : Cluster) :
  match getPolicy "p" c with Ok p => negb (tsIsZero (mDeletionTimestamp (polMeta p))) | Err _ => true end = true → doomed "p" c.
Proof. intros H p Hp. rewrite Hp in H. by apply negb_true_iff. Qed.

Lemma waiting_4_doomed :
  match getPolicy "p" waiting_4 with Ok p => negb (tsIsZero (mDeletionTimestamp (polMeta p))) | Err _ => true end = true.
Proof. vm_compute. reflexivity. Qed.

(** What else happened left the policy marked for deletion. *)
Lemma closing_respected : world_respects "p" closing_history cleared.
Proof.
  intros h1 v h2 Hh _. unfold closing_history in Hh.
  destruct h1 as [|s1 h1]; [discriminate Hh|]. injection Hh as _ Hh.
  destruct h1 as [|s2 h1]; [discriminate Hh|]. injection Hh as _ Hh.
  destruct h1 as [|s3 h1]; [apply (f_equal tail) in Hh; cbn [tail app] in Hh; rewrite -Hh; exact (doomed_check waiting_4 waiting_4_doomed)|]. injection Hh as _ Hh.
  destruct h1 as [|s4 h1]; [discriminate Hh|]. injection Hh as _ Hh. by destruct h1.
Qed.

(** The only windows are those of "api" and "web". *)
Lemma closing_windows k : owned_at "p" k waiting_1 → k = api_key ∨ k = web_key.
Proof.
  intros (x & Hx & _). apply found_ok, stored_raw in Hx as [Hx _].
  assert (k ∈ (map_to_list (clWindows waiting_1)).*1) as Hk.
  { apply list_elem_of_fmap. exists (k, x). split; [done|]. by apply elem_of_map_to_list. }
  assert (bool_decide ((map_to_list (clWindows waiting_1)).*1 ⊆ [api_key; web_key]) = true) as Hl by (vm_compute; reflexivity).
  apply bool_decide_eq_true in Hl. apply Hl in Hk. rewrite !elem_of_cons in Hk.
  destruct Hk as [Hk|[Hk|Hk%elem_of_nil]]; [left; exact Hk | right; exact Hk | destruct Hk].
Qed.

Lemma let_go_check (c : Cluster) k :
  match getWindow k c with
  | Ok x => bool_decide (wsPolicyName (winSpec x) = "p" ∧ mFinalizers (winMeta x) = [WindowFinalizer])
  | Err _ => false
  end && is_ok (res (window_Reconcile init_registry true k) c) = true →
  (WindowController k, c) ∈ closing_history → let_go init_registry true "p" closing_history k.
Proof.
  intros [H Hr]%andb_true_iff Hin. destruct (getWindow k c) as [x|e] eqn:Hx; [|done]. apply bool_decide_eq_true in H as [Hn Hf].
  unfold res in Hr. destruct (window_Reconcile init_registry true k c) as [[[r|e] c'] es] eqn:Hrun; [|done].
  by exists c, x, r, c', es.
Qed.

Lemma deletion_completes_witness :
  given_back init_registry true "p" closing_history api_key ∧ ¬ owned_at "p" api_key closed.
Proof.
  assert (is_ok (res policy_run closing) = true) as Hok0 by (vm_compute; reflexivity).
  destruct (run_ok policy_run closing Hok0) as (r0 & es0 & H0). change (final policy_run closing) with waiting_1 in H0.
  assert (is_ok (res policy_run cleared) = true) as Hok by (vm_compute; reflexivity).
  destruct (run_ok policy_run cleared Hok) as (r & es & H). change (final policy_run cleared) with closed in H.
  destruct (deletion_completes init_registry true "p" deleted_policy closing r0 waiting_1 es0 closing_history cleared r closed es)
    as (Hback & Hgone & _).
  - discriminate.
  - vm_compute. reflexivity.
  - vm_compute. reflexivity.
  - exact H0.
  - exact closing_happens.
  - exact closing_respected.
  - intros k [->| ->]%closing_windows.
    + apply (let_go_check waiting_1); [vm_compute; reflexivity | unfold closing_history; left].
    + apply (let_go_check waiting_4); [vm_compute; reflexivity | unfold closing_history; right; right; right; left].
  - exact H.
  - split; [|apply Hgone]. apply Hback. eexists. split; vm_compute; reflexivity.
Defined.
