(* ===== verification/Interleave.v ===== *)
(** * Interference: the cluster moves between two writes of a reconcile

    Histories take a reconcile as one step.  Here other processes, the other
    controller among them, act in the middle of one: a client whose cluster makes
    the next move of a schedule just before each write.  What only needs the laws
    of answers ([AnswerLaws]) keeps holding, on any schedule; what a reconcile of
    the window does in two writes can be torn apart by a reconcile of the policy. *)
From S2P Require Import Evictgate.
From S2P Require Import Prelude GoStrings GoTime Meta Api Kube Indexes Signals Fields WindowPhase ScaleActions Plan Observe.
From S2P Require Import WindowController WindowSpec PolicyController PolicySpec Lifecycle Fake History.

#[local] Open Scope Z_scope.

(** ** The client *)

Definition disturbed (W : Type) : Type := W * list (W → W).

(** The next move, if one is left. *)
Definition advance {W} (c : disturbed W) : disturbed W :=
  match c.2 with [] => c | m :: ms => (m c.1, ms) end.

Definition after_move {W A} (f : W → A * W) (c : disturbed W) : A * disturbed W :=
  let '(w, ms) := advance c in let '(a, w') := f w in (a, (w', ms)).

#[export] Instance DisturbedClient {Obj W} `{C : Client Obj W} : Client Obj (disturbed W) := {
  getPod k c := getPod k c.1;
  getNode n c := getNode n c.1;
  getReplicaSet k c := getReplicaSet k c.1;
  getDeployment k c := getDeployment k c.1;
  getNamespace n c := getNamespace n c.1;
  getPolicy n c := getPolicy n c.1;
  getWindow k c := getWindow k c.1;
  getUnstructured g k c := getUnstructured g k c.1;
  listPolicies c := listPolicies c.1;
  listNodes c := listNodes c.1;
  listPodsSelected ns sel c := listPodsSelected ns sel c.1;
  listPodsOnNode n c := listPodsOnNode n c.1;
  listWindowsBy i v c := listWindowsBy i v c.1;
  createWindow x := after_move (createWindow x);
  patchWindow b x := after_move (patchWindow b x);
  updateWindowStatus x := after_move (updateWindowStatus x);
  deleteWindow k := after_move (deleteWindow k);
  patchPolicy b x := after_move (patchPolicy b x);
  updatePolicyStatus x := after_move (updatePolicyStatus x);
  patchUnstructured g k p := after_move (patchUnstructured g k p);
  SetControllerReference := SetControllerReference;
  NestedInt64 := NestedInt64;
  objAnnotations := objAnnotations;
  clock c := clock c.1
}.

Lemma after_move_answer {W A} (f : W → A * W) c a c' : after_move f c = (a, c') → ∃ w w', f w = (a, w').
Proof. unfold after_move. destruct (advance c) as [w ms]. destruct (f w) as [a' w'] eqn:E. intros [= <- _]. eauto. Qed.

(** Answers are the server's, whatever happened before. *)
#[export] Instance DisturbedClient_answers {Obj W} `{C : Client Obj W} `{!AnswerLaws C} : AnswerLaws DisturbedClient.
Proof.
  split.
  - intros x c y c' (w & w' & H)%after_move_answer. by apply (status_answer _ _ _ _ H).
  - apply (owner_reference (C := C)).
Qed.

(** ** A torn restore *)

Definition set_nodes (l : list Node) (c : Cluster) : Cluster :=
  MkCluster (clPods c) l (clReplicaSets c) (clDeployments c) (clNamespaces c) (clPolicies c) (clWindows c)
    (clObjects c) (clForbidden c) (clNow c).
Definition uncordoned : Node := MkNode (meta "n1" "") false [].
Definition other_node : Node := MkNode (meta "n2" "") false [].

(** The node was uncordoned: the window may be wound down. *)
Definition calm : Cluster := set_nodes [uncordoned; other_node] shop_ready.

(** It is cordoned again, and the policy reconciled. *)
Definition alarm (c : Cluster) : Cluster := final policy_run (set_nodes [cordoned; other_node] c).

(** The window restores, then the alarm, then it arms the cooldown. *)
Definition torn : Cluster := (final (window_Reconcile init_registry true api_key : M (disturbed Cluster) _) (calm, [id; alarm])).1.

(** The gate still holds the window SpareReady and lets the pod go; the
    cooldown ends, and the window with it. *)
Definition moved : Cluster :=
  set_now (2 * Minute) (set_pods [pod_of "api" "api-b" "n2"; pod_of "api" "api-c" "n2"; pod_of "api" "api-d" "n2"; pod_of "api" "api-e" "n2"] torn).
Definition over : Cluster := final api_run moved.

(** Undisturbed, the reconcile gives the capacity back before the cooldown. *)
Example calm_restores :
  replicas_of "api" calm = Ok 4 ∧ replicas_of "api" (final api_run calm) = Ok 3.
Proof. split; vm_compute; reflexivity. Qed.

(** Torn, the workload keeps the raised capacity, and no window is left to give
    it back. *)
Example torn_restore_leaks :
  replicas_of "api" torn = Ok 4
  ∧ rDecision <$> Evaluate init_registry (Some (pod_of "api" "api-a" "n1")) torn = Ok Allow
  ∧ replicas_of "api" over = Ok 4 ∧ window_of "api" over = None.
Proof. split_and!; vm_compute; reflexivity. Qed.
