(* ===== verification/Threads.v ===== *)
(** * Threads: reconciles that interrupt one another, on caches that lag

    History.v takes a reconcile as one step that sees the cluster as it is.  Here
    any number of reconciles of both controllers run at once.  Their writes
    interleave one by one with each other and with the rest of the world; between
    two of its writes a reconcile reads each kind of object as it was at some
    moment, not necessarily the last one (every informer lags by itself), and it
    may stop at any write and never go on (a crash, a lost lease).  The eviction
    gate may lag too.
    Still no eviction is let through that was not paid for. *)
From S2P Require Import Evictgate.
From S2P Require Import Prelude GoStrings GoTime Meta Api Kube Indexes Naming Filters Signals PolicyOwn Workload.
From S2P Require Import Spare WindowPhase WindowController WindowSpec PolicyController PolicySpec Fake Marks History.

#[local] Open Scope Z_scope.

(** ** The client of one reconcile *)

(** What is cached by itself: there is an informer for each kind of object. *)
Inductive kind := Pods | Nodes | ReplicaSets | Deployments | Namespaces | Policies | Windows | Objects.

(** What a reconcile reads, each kind as it was at some moment, and where the
    clock stands meanwhile. *)
Record view (W : Type) := View { vRead : kind → W; vTime : W }.
Arguments View {W}.
Arguments vRead {W}.
Arguments vTime {W}.

(** A write that a reconcile has made: the window it sent, when it was an update
    of a window's status, what the reconcile was reading when it made the write,
    and the cluster that the write left. *)
Record note (W : Type) := Note { nSent : option EvictionGuardWindow; nView : view W; nLeft : W }.
Arguments Note {W}.
Arguments nSent {W}.
Arguments nView {W}.
Arguments nLeft {W}.

(** One reconcile: what it reads now; for each write still to come, the cluster
    it finds and what is read afterwards; its writes so far, latest first. *)
Record local (W : Type) := MkLocal { lView : view W; lTurns : list (W * view W); lWrote : list (note W) }.
Arguments MkLocal {W}.
Arguments lView {W}.
Arguments lTurns {W}.
Arguments lWrote {W}.

(** A write takes its turn; without one left it goes unheard. *)
Definition turn {W A} (sent : option EvictionGuardWindow) (f : W → result A * W) (c : local W) : result A * local W :=
  match lTurns c with
  | [] => (Err (ErrorString "stopped"), c)
  | (s, v) :: ts => let '(a, s') := f s in (a, MkLocal v ts (Note sent (lView c) s' :: lWrote c))
  end.

#[export] Instance ThreadClient {Obj W} `{C : Client Obj W} : Client Obj (local W) := {
  getPod k c := getPod k (vRead (lView c) Pods);
  getNode n c := getNode n (vRead (lView c) Nodes);
  getReplicaSet k c := getReplicaSet k (vRead (lView c) ReplicaSets);
  getDeployment k c := getDeployment k (vRead (lView c) Deployments);
  getNamespace n c := getNamespace n (vRead (lView c) Namespaces);
  getPolicy n c := getPolicy n (vRead (lView c) Policies);
  getWindow k c := getWindow k (vRead (lView c) Windows);
  getUnstructured g k c := getUnstructured g k (vRead (lView c) Objects);
  listPolicies c := listPolicies (vRead (lView c) Policies);
  listNodes c := listNodes (vRead (lView c) Nodes);
  listPodsSelected ns sel c := listPodsSelected ns sel (vRead (lView c) Pods);
  listPodsOnNode n c := listPodsOnNode n (vRead (lView c) Pods);
  listWindowsBy i v c := listWindowsBy i v (vRead (lView c) Windows);
  createWindow x := turn None (createWindow x);
  patchWindow b x := turn None (patchWindow b x);
  updateWindowStatus x := turn (Some x) (updateWindowStatus x);
  deleteWindow k := turn None (deleteWindow k);
  patchPolicy b x := turn None (patchPolicy b x);
  updatePolicyStatus x := turn None (updatePolicyStatus x);
  patchUnstructured g k p := turn None (patchUnstructured g k p);
  SetControllerReference := SetControllerReference;
  NestedInt64 := NestedInt64;
  objAnnotations := objAnnotations;
  clock c := clock (vTime (lView c))
}.

Lemma turn_answer {W A} sent (f : W → result A * W) c a c' :
  turn sent f c = (Ok a, c') →
  ∃ s v ts s', lTurns c = (s, v) :: ts ∧ f s = (Ok a, s') ∧ c' = MkLocal v ts (Note sent (lView c) s' :: lWrote c).
Proof.
  unfold turn. destruct (lTurns c) as [|[s v] ts]; [done|]. destruct (f s) as [a' s'] eqn:E. intros [= -> <-].
  by exists s, v, ts, s'.
Qed.

#[export] Instance ThreadClient_answers {Obj W} `{C : Client Obj W} `{!AnswerLaws C} : AnswerLaws ThreadClient.
Proof.
  split.
  - intros x c y c' (s & v & ts & s' & _ & H & _)%turn_answer. by apply (status_answer _ _ _ _ H).
  - apply (owner_reference (C := C)).
Qed.

(** The cluster as it is. *)
Definition all_of {W} (w : W) : view W := View (λ _, w) w.

Section threads.
Context {Obj W : Type} `{L : KubeLib} `{C : Client Obj W}.
Context {AL : AnswerLaws C} {SL : WindowStoreLaws C} {LL : KubeLibLaws L} {TL : StatusLaws C}.
Context (registry : Registry) (Recorder : bool).

(** ** Runs *)

Inductive job := PolicyJob (req : NamespacedName) | WindowJob (req : NamespacedName).

Definition work (j : job) : M (local W) CtrlResult :=
  match j with
  | PolicyJob req => policy_Reconcile registry Recorder req
  | WindowJob req => window_Reconcile registry Recorder req
  end.

(** A reconcile under way: what it read first, the clusters its writes so far
    found with what it reads after each, and the writes, latest first. *)
Record thread := Thread { prJob : job; prStart : view W; prTurns : list (W * view W); prWrote : list (note W) }.

(** Given the cluster [w], its next write is [e]. *)
Definition writes (p : thread) (w : W) (e : note W) : Prop :=
  let c := final (work (prJob p)) (MkLocal (prStart p) (prTurns p ++ [(w, all_of w)]) []) in
  lTurns c = [] ∧ lWrote c = e :: prWrote p.

Definition wrote (p : thread) (w : W) (e : note W) : thread :=
  Thread (prJob p) (prStart p) (prTurns p ++ [(w, all_of w)]) (e :: prWrote p).

(** What is read was there at some moment. *)
Definition sees (vs : list W) (v : view W) : Prop := (∀ k, vRead v k ∈ vs) ∧ vTime v ∈ vs.

(** The reconciles under way, and the clusters there have been, latest first. *)
Inductive interleaved (w0 : W) : list thread → list W → Prop :=
| il_start : interleaved w0 [] [w0]
| il_world ps w vs w' :
    interleaved w0 ps (w :: vs) → (∀ k, getWindow k w' = getWindow k w) → interleaved w0 ps (w' :: w :: vs)
| il_begin ps vs j v :
    interleaved w0 ps vs → sees vs v → interleaved w0 (Thread j v [] [] :: ps) vs
| il_look ps1 j start ts s v v' wr ps2 vs :
    interleaved w0 (ps1 ++ Thread j start (ts ++ [(s, v)]) wr :: ps2) vs → sees vs v' →
    interleaved w0 (ps1 ++ Thread j start (ts ++ [(s, v')]) wr :: ps2) vs
| il_write ps1 p ps2 w vs e :
    interleaved w0 (ps1 ++ p :: ps2) (w :: vs) → writes p w e →
    interleaved w0 (ps1 ++ wrote p w e :: ps2) (nLeft e :: w :: vs).

(** ** What pays for an eviction *)

(** A reconcile of the window was under way that had read the window [x] and its
    target [dep] at first, and that sent a status [y] of the window in the write
    [e] which says SpareReady.  The counts in it are the Ready pods of the target
    that the reconcile was reading then, in all and off the nodes that [y] lists,
    and the latter make up the baseline.  What [y] lists, and its baseline, are as
    in [x], or as in the window that an earlier write of the same reconcile left. *)
Definition counted (vs : list W) (ps : list thread) (k : NamespacedName) : Prop :=
  ∃ t l1 e l2 x dep y, t ∈ ps ∧ prJob t = WindowJob k ∧ prWrote t = l1 ++ e :: l2
    ∧ (sees vs (prStart t) ∧ getWindow k (vRead (prStart t) Windows) = Ok x ∧ target_is x (vRead (prStart t) Deployments) dep)
    ∧ (sees vs (nView e) ∧ nSent e = Some y ∧ win_key y = k)
    ∧ (winSpec y = winSpec x ∨ ∃ e' z, e' ∈ l2 ∧ getWindow k (nLeft e') = Ok z ∧ winSpec y = winSpec z)
    ∧ spareCounts y dep (vRead (nView e) Pods) = Ok (wtReadyReplicas (winStatus y), wtSafeReadyReplicas (winStatus y))
    ∧ wtSpareReady (winStatus y) = true ∧ wsBaseline (winSpec y) <= wtSafeReadyReplicas (winStatus y).

(** A reconcile of the window was under way that had read, at first, the window
    open longer than the maxWindow of its policy, and whose first write stamped
    the window ForcedCool. *)
Definition overdue (vs : list W) (ps : list thread) (k : NamespacedName) : Prop :=
  ∃ t l1 e x policy, t ∈ ps ∧ prJob t = WindowJob k ∧ prWrote t = l1 ++ [e]
    ∧ (sees vs (prStart t) ∧ getWindow k (vRead (prStart t) Windows) = Ok x
       ∧ getPolicy (wsPolicyName (winSpec x)) (vRead (prStart t) Policies) = Ok policy)
    ∧ maxWindowExceeded (Some policy) (Some x) (clock (vTime (prStart t))) = true
    ∧ nSent e = Some (with_status (set_forced true) x).

(** The reconciles have gone on, and others may have begun. *)
Definition grows (ps ps' : list thread) : Prop :=
  ∀ t, t ∈ ps → ∃ t' l, t' ∈ ps' ∧ prJob t' = prJob t ∧ prStart t' = prStart t ∧ prWrote t' = l ++ prWrote t.

Lemma grows_incl ps ps' : ps ⊆ ps' → grows ps ps'.
Proof. intros H t Ht. exists t, []. by split; [apply H|]. Qed.

Lemma sees_mono vs vs' v : vs ⊆ vs' → sees vs v → sees vs' v.
Proof. intros H [H1 H2]. split; auto. Qed.

Lemma counted_mono vs ps vs' ps' k : vs ⊆ vs' → grows ps ps' → counted vs ps k → counted vs' ps' k.
Proof.
  intros Hv Hg (t & l1 & e & l2 & x & dep & y & Ht & Hj & Hw & (Hs & Hx & Hd) & (Hn & Hsent) & Hr).
  destruct (Hg t Ht) as (t' & l & Ht' & Hj' & Hs' & Hw'). exists t', (l ++ l1), e, l2, x, dep, y.
  split; [done|]. split; [by rewrite Hj'|]. split; [by rewrite Hw' Hw assoc|]. rewrite Hs'.
  split; [split; [by eapply sees_mono | done]|]. split; [split; [by eapply sees_mono | done] | done].
Qed.

Lemma overdue_mono vs ps vs' ps' k : vs ⊆ vs' → grows ps ps' → overdue vs ps k → overdue vs' ps' k.
Proof.
  intros Hv Hg (t & l1 & e & x & policy & Ht & Hj & Hw & (Hs & Hx) & Hr).
  destruct (Hg t Ht) as (t' & l & Ht' & Hj' & Hs' & Hw'). exists t', (l ++ l1), e, x, policy.
  split; [done|]. split; [by rewrite Hj'|]. split; [by rewrite Hw' Hw assoc|]. rewrite Hs'.
  split; [split; [by eapply sees_mono | done] | done].
Qed.

(** What there has been: the clusters, and the reconciles. *)
Definition past : Type := list W * list thread.
Definition reaches (a b : past) : Prop := a.1 ⊆ b.1 ∧ grows a.2 b.2.

Definition witnessed : evidence past := Evidence (λ a, counted a.1 a.2) (λ a, overdue a.1 a.2).

Lemma witnessed_mono a b x : reaches a b → marked witnessed a x → marked witnessed b x.
Proof. intros [Hv Hg] [H1 H2]. split; intros Hf; [by eapply counted_mono, H1 | by eapply overdue_mono, H2]. Qed.

(** Every window stored in [w] is accounted for. *)
Definition paid (a : past) (w : W) : Prop := ∀ k x, getWindow k w = Ok x → marked witnessed a x.

Lemma paid_mono a b w : reaches a b → paid a w → paid b w.
Proof. intros H Hw k x Hx. by eapply witnessed_mono, Hw. Qed.

(** The windows a write stores come from those there were, their flags too. *)
Lemma paid_stored a w w' :
  (∀ k y, getWindow k w' = Ok y → marked witnessed a y ∨ ∃ y0, getWindow k w = Ok y0 ∧ flags y = flags y0) →
  paid a w → paid a w'.
Proof.
  intros H Hw k y Hy. destruct (H k y Hy) as [?|(y0 & H0 & Hf)]; [done|]. apply (marked_flags _ y y0 Hf); [|by eapply Hw].
  pose proof (window_key _ _ _ Hy) as Hk. pose proof (window_key _ _ _ H0) as Hk0. by rewrite /win_key Hk Hk0.
Qed.

Lemma paid_same a w w' : (∀ k, getWindow k w' = getWindow k w) → paid a w → paid a w'.
Proof. intros H. apply paid_stored. intros k y. rewrite H. intros Hy. right. by exists y. Qed.

(** ** One reconcile among the others *)

Section one.
Context (vs : list W) (ps : list thread) (Hvs : ∀ w, w ∈ vs → paid (vs, ps) w).
Context (j : job) (start : view W) (Hstart : sees vs start).

(** What there has been when the reconcile has made the writes [l]. *)
Definition after (l : list (note W)) : past := (vs, Thread j start [] l :: ps).

Definition seen : evidence (local W) :=
  Evidence (λ c, ev_spare witnessed (after (lWrote c))) (λ c, ev_forced witnessed (after (lWrote c))).

Lemma reaches_others l : reaches (vs, ps) (after l).
Proof. split; [done|]. apply grows_incl. intros t Ht. by right. Qed.

Lemma reaches_later l l' : reaches (after l) (after (l' ++ l)).
Proof.
  split; [done|]. intros t [->|Ht]%elem_of_cons; [|exists t, []; split; [by right | done]].
  exists (Thread j start [] (l' ++ l)), l'. by split; [left|].
Qed.

Lemma reaches_next e l : reaches (after l) (after (e :: l)).
Proof. apply (reaches_later l [e]). Qed.

(** What each write left was accounted for by then. *)
Fixpoint left_paid (l : list (note W)) : Prop :=
  match l with
  | [] => True
  | e :: l' => paid (after l) (nLeft e) ∧ left_paid l'
  end.

Record in_order (c : local W) : Prop := {
  io_view : sees vs (lView c);
  io_turns s v : (s, v) ∈ lTurns c → s ∈ vs ∧ sees vs v;
  io_left : left_paid (lWrote c)
}.

Definition goes_on (c c' : local W) : Prop := ∃ l, lWrote c' = l ++ lWrote c.

#[local] Instance goes_on_preorder : PreOrder goes_on.
Proof.
  split; [by intros c; exists []|]. intros c1 c2 c3 [l1 H1] [l2 H2]. exists (l2 ++ l1). by rewrite H2 H1 assoc.
Qed.

Lemma goes_on_reaches c c' : goes_on c c' → reaches (after (lWrote c)) (after (lWrote c')).
Proof. intros [l ->]. apply reaches_later. Qed.

Lemma turn_goes_on {A} sent (f : W → result A * W) c : goes_on c (turn sent f c).2.
Proof.
  unfold turn. destruct (lTurns c) as [|[s v] ts]; [reflexivity|]. destruct (f s) as [a s']. by exists [Note sent (lView c) s'].
Qed.

(** A write keeps the order when it leaves the windows accounted for, itself
    included, wherever it finds the cluster. *)
Lemma sounds_turn {A} sent (f : W → result A * W) c :
  (∀ s, let a := after (Note sent (lView c) (f s).2 :: lWrote c) in paid a s → paid a (f s).2) →
  sounds in_order goes_on c (turn sent f c).2.
Proof.
  intros Hf Hc. split; [|apply turn_goes_on]. revert Hc. unfold turn. destruct c as [cv [|[s v] ts] wr]; [done|]. intros [Hv Ht Hl].
  cbn in *. specialize (Hf s). destruct (f s) as [a s'] eqn:E. destruct (Ht s v) as [Hs Hsv]; [left|].
  split; cbn; [done | intros; apply Ht; by right|]. split; [|done]. apply Hf. eapply paid_mono, Hvs, Hs. apply reaches_others.
Qed.

(** A window in hand counts for the next write. *)
Lemma marked_next c e x : marked seen c x → marked witnessed (after (e :: lWrote c)) x.
Proof. apply witnessed_mono, reaches_next. Qed.

(** A window that the reconcile reads, or that a write of it finds. *)
Lemma marked_there l k w x : w ∈ vs → getWindow k w = Ok x → marked witnessed (after l) x.
Proof. intros Hw Hx. eapply witnessed_mono; [apply reaches_others | by eapply Hvs]. Qed.

Lemma thread_marking : Marking ThreadClient seen in_order goes_on.
Proof.
  split.
  - apply _.
  - intros c c' k [H1 H2]%goes_on_reaches. by apply counted_mono.
  - intros c c' k [H1 H2]%goes_on_reaches. by apply overdue_mono.
  - intros k c x Hc Hx. change (getWindow k (vRead (lView c) Windows) = Ok x) in Hx. split; [by apply (window_key _ _ _ Hx)|].
    eapply (marked_there (lWrote c)), Hx. by apply (io_view c Hc).
  - intros g k p c. apply sounds_turn. intros s. apply paid_same. intros k'. apply patch_object_windows.
  - intros x c. apply sounds_turn. intros s. apply paid_stored.
    intros k y [H0|[_ Hf]]%create_stores; [right; by exists y | left; by apply marked_fresh].
  - intros b x c. apply sounds_turn. intros s. apply paid_stored. intros k y Hy%patch_stores. by right.
  - intros k' c. apply sounds_turn. intros s. apply paid_stored. intros k y Hy%delete_stores. by right.
  - intros x c Hx. apply sounds_turn. intros s. apply paid_stored.
    intros k y [H0|[Hk Hf]]%update_stores; [right; by exists y | left]. apply (marked_flags _ y x); [done..|]. by apply marked_next.
  - intros b x c. apply sounds_turn. intros s. apply paid_same. intros k. apply policy_windows.
  - intros x c. apply sounds_turn. intros s. apply paid_same. intros k. apply policy_status_windows.
  - intros x c y c' (s & v & ts & s' & _ & H & _)%turn_answer. apply (create_answers _ _ _ _ H).
  - intros b x c y c' Hc (s & v & ts & s' & Ht & H & ->)%turn_answer Hk.
    destruct (patch_answers _ _ _ _ _ H Hk) as (Hy & y0 & H0 & Hf). split; [done|].
    destruct (io_turns c Hc s v) as [Hs _]; [rewrite Ht; left|].
    apply (marked_flags _ y y0 Hf); [rewrite Hy; by rewrite /win_key (window_key _ _ _ H0)|].
    by eapply (marked_there (_ :: lWrote c)).
  - intros x c y c' (s & v & ts & s' & _ & H & _)%turn_answer. split; [|by eapply update_answers].
    apply status_answer in H as (Hm & _). by rewrite /win_key Hm.
Qed.

(** *** A reconcile of a window *)
Section window.
Context (key : NamespacedName) (Hj : j = WindowJob key) (x0 : EvictionGuardWindow) (dep : option Deployment).
Context (Hx0 : getWindow key (vRead start Windows) = Ok x0) (Hdep : target_is x0 (vRead start Deployments) dep).

(** The copy of the window that the reconcile works on: its flags are accounted
    for, its spec is the one it read or one that it left. *)
Record follows (x : EvictionGuardWindow) (c : local W) : Prop := {
  fo_key : win_key x = key;
  fo_marked : marked seen c x;
  fo_spec : winSpec x = winSpec x0 ∨ ∃ e z, e ∈ lWrote c ∧ getWindow key (nLeft e) = Ok z ∧ winSpec x = winSpec z
}.

Lemma follows_start c : follows x0 c.
Proof.
  split; [by apply (window_key _ _ _ Hx0) | | by left]. eapply (marked_there (lWrote c)), Hx0. by apply Hstart.
Qed.

(** A report of what is counted is its own evidence. *)
Lemma report_counted x c ready safe y s' :
  sees vs (lView c) → follows x c → spareCounts x dep c = Ok (ready, safe) → reports x ready safe y →
  wtSpareReady (winStatus y) = true → counted vs (Thread j start [] (Note (Some y) (lView c) s' :: lWrote c) :: ps) key.
Proof.
  intros Hv [Hk _ Hs] Hc (Hm & Hsp & Hr & Hsafe & Hflag & _) Hy. rewrite Hy in Hflag. symmetry in Hflag. apply Z.leb_le in Hflag.
  exists (Thread j start [] (Note (Some y) (lView c) s' :: lWrote c)), [], (Note (Some y) (lView c) s'), (lWrote c), x0, dep, y.
  split; [left|]. split; [done|]. split; [done|]. split; [done|]. split; [split_and!; [done..|by rewrite /win_key Hm]|].
  split; [by rewrite Hsp|]. cbn [nView]. split; [|by rewrite Hsp Hsafe].
  rewrite Hr Hsafe -Hc. unfold spareCounts. by rewrite Hsp.
Qed.

Lemma thread_course : Course ThreadClient in_order goes_on dep goes_on follows.
Proof.
  split.
  - apply _.
  - intros g k p c. apply turn_goes_on.
  - intros x c c' Hc [H1 H2 H3]. split; [done | by eapply witnessed_mono; [apply goes_on_reaches|] |].
    destruct H3 as [?|(e & z & He & Hz)]; [by left | right]. destruct Hc as [l Hl]. exists e, z. split; [|done]. rewrite Hl.
    apply elem_of_app. by right.
  - intros x c ready safe y Hx Hc Hr Ho. pose proof (io_view c Ho) as Hv. revert Ho. apply sounds_turn. intros s. apply paid_stored.
    intros k z [H0|[Hkz Hf]]%update_stores; [right; by exists z | left].
    apply (marked_flags _ z y); [done..|]. pose proof Hr as (Hm & _ & _ & _ & _ & Hfo).
    assert (win_key y = key) as Hk by (rewrite /win_key Hm; apply (fo_key _ _ Hx)). split; rewrite Hk.
    + apply (report_counted x c ready safe y); [done..].
    + rewrite Hfo. intros Hfx. destruct (marked_next c (Note (Some y) (lView c) (updateWindowStatus y s).2) x (fo_marked _ _ Hx)) as [_ H2].
      rewrite (fo_key _ _ Hx) in H2. by apply H2.
  - intros x u c y c' Hc [H1 H2 H3] (s & v & ts & s' & Ht & Hp & ->)%turn_answer.
    destruct (patch_answers _ _ _ _ _ Hp eq_refl) as (Hy & y0 & H0 & Hf).
    split; [by rewrite Hy | |].
    + apply (marked_flags _ y y0 Hf); [rewrite Hy; by rewrite /win_key (window_key _ _ _ H0)|].
      destruct (io_turns c Hc s v) as [Hs _]; [rewrite Ht; left|]. by eapply (marked_there (_ :: lWrote c)).
    + right. exists (Note None (lView c) s'), y. split; [left|]. split; [|done]. rewrite -H1.
      by eapply (patch_current x (with_spec (set_until u) x)).
Qed.

(** A stamp that is the first write of the reconcile is its own evidence, too. *)
Context (policy : EvictionGuardPolicy) (Hpolicy : getPolicy (wsPolicyName (winSpec x0)) (vRead start Policies) = Ok policy).
Context (Hlate : maxWindowExceeded (Some policy) (Some x0) (clock (vTime start)) = true).

Lemma stamp_marked v s' : marked witnessed (after [Note (Some (with_status (set_forced true) x0)) v s']) (with_status (set_forced true) x0).
Proof.
  destruct (marked_there [Note (Some (with_status (set_forced true) x0)) v s'] key (vRead start Windows) x0) as [H1 _]; [by apply Hstart | done|].
  split; [exact H1|]. intros _. change (overdue vs (after [Note (Some (with_status (set_forced true) x0)) v s']).2 (win_key x0)).
  assert (win_key x0 = key) as -> by by apply (window_key _ _ _ Hx0).
  eexists _, [], _, x0, policy. split; [left|]. split; [done|]. split; [done|]. done.
Qed.

Lemma stamp_course c :
  lWrote c = [] → let run := updateWindowStatus (with_status (set_forced true) x0) c in
  sounds in_order goes_on c run.2 ∧ ∀ y c', in_order c → run = (Ok y, c') → follows y c'.
Proof.
  intros Hl run. split.
  - apply sounds_turn. intros s. rewrite Hl. apply paid_stored. intros k z [H0|[Hkz Hf]]%update_stores; [right; by exists z | left].
    apply (marked_flags _ z (with_status (set_forced true) x0)); [done..|]. apply stamp_marked.
  - intros y c' Hc (s & v & ts & s' & Ht & Hp & ->)%turn_answer.
    pose proof (status_answer _ _ _ _ Hp) as (Hm & Hs & _). apply update_answers in Hp.
    assert (win_key y = key) as Hk by (rewrite /win_key Hm; by apply (window_key _ _ _ Hx0)).
    split; [done | | left; by rewrite Hs].
    change (marked witnessed (after (Note (Some (with_status (set_forced true) x0)) (lView c) s' :: lWrote c)) y). rewrite Hl.
    apply (marked_flags _ y (with_status (set_forced true) x0) Hp); [by rewrite /win_key Hm | apply stamp_marked].
Qed.
End window.

Lemma work_in_order c : lView c = start → lWrote c = [] → in_order c → in_order (final (work j) c).
Proof.
  intros Hv Hl Hc. destruct j as [req|req] eqn:Hj; cbn [work].
  - by apply (keeps_policy_Reconcile (MK := thread_marking) registry Recorder req c Hc).
  - apply (keeps_window_Reconcile (MK := thread_marking) registry Recorder req c); [|done]. intros x policy dep _ Hx Hp Ht.
    change (getWindow req (vRead (lView c) Windows) = Ok x) in Hx.
    change (getPolicy (wsPolicyName (winSpec x)) (vRead (lView c) Policies) = Ok policy) in Hp.
    assert (target_is x (vRead (lView c) Deployments) dep) as Ht' by exact Ht. rewrite Hv in Hx, Hp, Ht'.
    exists goes_on, (follows req x). split; [by apply thread_course|]. split; [by apply follows_start|].
    intros Hlate _. change (maxWindowExceeded (Some policy) (Some x) (clock (vTime (lView c))) = true) in Hlate. rewrite Hv in Hlate.
    by apply (stamp_course req Hj x Hx policy).
Qed.
End one.

(** ** All of them *)

Record well_run (vs : list W) (p : thread) : Prop := {
  wr_start : sees vs (prStart p);
  wr_turns s v : (s, v) ∈ prTurns p → s ∈ vs ∧ sees vs v
}.

Lemma well_run_mono vs vs' p : vs ⊆ vs' → well_run vs p → well_run vs' p.
Proof.
  intros H [H1 H2]. split; [by eapply sees_mono|]. intros s v Hs. destruct (H2 s v Hs). split; [auto | by eapply sees_mono].
Qed.

(** The next write of a reconcile leaves windows that are accounted for. *)
Lemma writes_paid vs ps p w e :
  (∀ v, v ∈ w :: vs → paid (w :: vs, ps) v) → well_run (w :: vs) p → writes p w e →
  paid (w :: vs, Thread (prJob p) (prStart p) [] (e :: prWrote p) :: ps) (nLeft e).
Proof.
  intros Hvs [H1 H2] [_ Hl]. set (c := MkLocal (prStart p) (prTurns p ++ [(w, all_of w)]) []).
  assert (in_order (w :: vs) ps (prJob p) (prStart p) c) as Hc.
  { split; [done | | done]. intros s v [Hs|[= -> ->]%list_elem_of_singleton]%elem_of_app; [by apply H2|]. by split; [left | split; left]. }
  destruct (work_in_order (w :: vs) ps Hvs (prJob p) (prStart p) H1 c eq_refl eq_refl Hc) as [_ _ Ho].
  fold c in Hl. rewrite Hl in Ho. by destruct Ho as [Ho _].
Qed.

(** The threads of a step go on. *)
Lemma grows_at ps1 p p' ps2 l :
  prJob p' = prJob p → prStart p' = prStart p → prWrote p' = l ++ prWrote p → grows (ps1 ++ p :: ps2) (ps1 ++ p' :: ps2).
Proof.
  intros Hj Hs Hw t Ht. apply elem_of_app in Ht as [Ht|[->|Ht]%elem_of_cons].
  - exists t, []. split; [apply elem_of_app; by left | done].
  - exists p', l. split; [apply elem_of_app; right; left | done].
  - exists t, []. split; [apply elem_of_app; right; by right | done].
Qed.

Lemma interleaved_paid w0 ps vs :
  (∀ k x, getWindow k w0 = Ok x → flags x = (false, false)) → interleaved w0 ps vs →
  (∀ w, w ∈ vs → paid (vs, ps) w) ∧ ∀ p, p ∈ ps → well_run vs p.
Proof.
  intros H0. induction 1 as [|ps w vs w' _ [IHv IHp] Hsame|ps vs j v _ [IHv IHp] Hv|ps1 j start ts s v v' wr ps2 vs _ [IHv IHp] Hv
                            |ps1 p ps2 w vs e _ [IHv IHp] Hw].
  - split; [|by intros p ?%elem_of_nil]. intros w ->%list_elem_of_singleton k x Hx. by eapply marked_fresh, H0.
  - assert (w :: vs ⊆ w' :: w :: vs) as Hsub by set_solver. split; [|intros p Hp; by eapply well_run_mono, IHp].
    intros v Hv. apply (paid_mono (w :: vs, ps)); [split; [done | by apply grows_incl]|].
    apply elem_of_cons in Hv as [->|Hv]; [|by apply IHv]. eapply paid_same, IHv; [done | left].
  - split.
    + intros w Hw. eapply paid_mono, IHv, Hw. split; [done|]. apply grows_incl. set_solver.
    + intros p [->|Hp]%elem_of_cons; [|by apply IHp]. split; cbn; [done | by intros ?? ?%elem_of_nil].
  - split; [intros w Hw; eapply paid_mono, IHv, Hw; split; [done | by apply (grows_at _ _ _ _ [])]|].
    intros p Hp. assert (p ∈ ps1 ++ Thread j start (ts ++ [(s, v)]) wr :: ps2 ∨ p = Thread j start (ts ++ [(s, v')]) wr)
      as [Hin| ->] by set_solver; [by apply IHp|].
    destruct (IHp (Thread j start (ts ++ [(s, v)]) wr)) as [H1 H2]; [set_solver|]. split; cbn in *; [done|].
    intros s1 v1 [Hs|[= -> ->]%list_elem_of_singleton]%elem_of_app; [apply H2; set_solver|].
    split; [apply (H2 s v); set_solver | done].
  - assert (w :: vs ⊆ nLeft e :: w :: vs) as Hsub by set_solver. assert (p ∈ ps1 ++ p :: ps2) as Hp by set_solver.
    pose proof (grows_at ps1 p (wrote p w e) ps2 [e] eq_refl eq_refl eq_refl) as Hg. split.
    + intros v [->|Hv]%elem_of_cons; [|eapply paid_mono, IHv, Hv; by split].
      eapply paid_mono, writes_paid; [|exact IHv | by apply IHp | exact Hw]. split; [done|].
      intros t [->|Ht]%elem_of_cons; [|by apply Hg]. exists (wrote p w e), []. split; [set_solver | done].
    + intros q Hq. assert (q ∈ ps1 ++ p :: ps2 ∨ q = wrote p w e) as [Hin| ->] by set_solver; [by eapply well_run_mono, IHp|].
      destruct (well_run_mono _ (nLeft e :: w :: vs) p Hsub (IHp p Hp)) as [H1 H2]. split; cbn; [done|].
      intros s v [Hs|[= -> ->]%list_elem_of_singleton]%elem_of_app; [by apply H2|]. split; [|split]; right; left.
Qed.

(** What the gate reads: no more than a reconcile that writes nothing. *)
Definition reading (v : view W) : local W := MkLocal v [] [].

(** C2: no eviction behind the gate is free, however reconciles interrupt one
    another: let any number of reconciles of both controllers interleave, write
    by write, with each other and with anything that writes no window, each
    reading between its writes the clock and each kind of object as they were at
    some moment, each free to stop for good at any write.  Start from windows
    that are neither SpareReady nor force-cooled.  When the gate, reading through
    caches that lag as well, lets a guarded pod go, the Deployment of the pod has
    a window, and among the reconciles there is one of that very window that
    reported it SpareReady, with the Ready pods off its nodes that it counted
    when it made the report, no fewer than the baseline, or one that stamped it
    ForcedCool, as its first write, having read it open longer than maxWindow. *)
Theorem interleaved_eviction_paid w0 ps vs v pod dep node owner win r :
  (∀ k x, getWindow k w0 = Ok x → flags x = (false, false)) → interleaved w0 ps vs → sees vs v →
  gated registry (reading v) pod dep node owner win → Evaluate registry (Some pod) (reading v) = Ok r → rDecision r = Allow →
  let k := NN (mNamespace (dMeta dep)) (WindowName (polName owner) (mNamespace (dMeta dep)) (mName (dMeta dep))) in
  ∃ x, win = Some x ∧ getWindow k (reading v) = Ok x ∧ (counted vs ps k ∨ overdue vs ps k).
Proof.
  intros H0 Hi [Hv _] Hg He Hr k. destruct (interleaved_paid _ _ _ H0 Hi) as [Hp _].
  refine (allowed_by_mark registry witnessed (vs, ps) (reading v) pod dep node owner win r _ Hg He Hr).
  intros k' x Hx. change (getWindow k' (vRead v Windows) = Ok x) in Hx. split; [by apply (window_key _ _ _ Hx) | by eapply Hp].
Qed.
End threads.

(** ** Witness: the window counts the new pods while the policy reconcile is still at work *)

(** What a reconcile is after its next write, which finds [w]. *)
Definition next_local (p : thread) (w : Cluster) : local Cluster :=
  final (work init_registry true (prJob p)) (MkLocal (prStart p) (prTurns p ++ [(w, all_of w)]) []).

Definition next (p : thread) (w : Cluster) : note Cluster := default (Note None (all_of w) w) (head (lWrote (next_local p w))).

(** The policy reconciler opens a window, looks again, and raises the capacity ... *)
Definition policy_0 : thread := Thread (PolicyJob (NN "" "p")) (all_of shop) [] [].
Definition opened : Cluster := nLeft (next policy_0 shop).
Definition policy_1 : thread := Thread (prJob policy_0) (all_of shop) [(shop, all_of opened)] [next policy_0 shop].
Definition raised : Cluster := nLeft (next policy_1 opened).
Definition policy_2 : thread := wrote policy_1 opened (next policy_1 opened).

(** ... the pods come up, the window takes note ... *)
Definition grown : Cluster := set_pods (clPods raised ++ [pod_of "api" "api-b" "n2"; pod_of "api" "api-c" "n2"]) raised.
Definition window_0 : thread := Thread (WindowJob api_key) (all_of grown) [] [].
Definition noted : Cluster := nLeft (next window_0 grown).

(** ... and the policy reconciler goes on, with the window it had opened: its
    status update takes the note away. *)
Definition reported : Cluster := nLeft (next policy_2 noted).
Definition shop_threads : list thread := [wrote window_0 grown (next window_0 grown); wrote policy_2 noted (next policy_2 noted)].
Definition shop_moments : list Cluster := [reported; noted; grown; raised; opened; shop].

Lemma next_writes p w :
  lTurns (next_local p w) = [] → lWrote (next_local p w) = next p w :: prWrote p → writes init_registry true p w (next p w).
Proof. by split. Qed.

(** Both by evaluation, without spelling the clusters out. *)
Ltac by_running := apply next_writes; match goal with |- _ = ?y => vm_cast_no_check (eq_refl y) end.

Lemma shop_interleaved :
  interleaved init_registry true shop shop_threads shop_moments.
Proof.
  assert (∀ (v : Cluster) vs, sees (v :: vs) (all_of v)) as Hnow by (intros v vs; split; left).
  refine (il_write _ _ _ [wrote window_0 grown (next window_0 grown)] policy_2 [] noted _ (next policy_2 noted) _ _).
  2: by_running.
  refine (il_write _ _ _ [] window_0 [policy_2] grown _ (next window_0 grown) _ _).
  2: by_running.
  refine (il_begin _ _ _ [policy_2] _ (WindowJob api_key) (all_of grown) _ (Hnow _ _)).
  refine (il_world _ _ _ [policy_2] raised _ grown _ (set_pods_windows _ _)).
  refine (il_write _ _ _ [] policy_1 [] opened _ (next policy_1 opened) _ _).
  2: by_running.
  refine (il_look _ _ _ [] (prJob policy_0) (all_of shop) [] shop (all_of shop) (all_of opened) [next policy_0 shop] [] _ _ (Hnow _ _)).
  refine (il_write _ _ _ [] policy_0 [] shop _ (next policy_0 shop) _ _).
  2: by_running.
  exact (il_begin _ _ _ [] _ (PolicyJob (NN "" "p")) (all_of shop) (il_start _ _ _) (Hnow _ _)).
Qed.

Definition noted_window : EvictionGuardWindow := default api_window (clWindows noted !! api_key).

(** The gate's windows lag one write behind; the rest is up to date. *)
Definition gate_view : view Cluster := View (λ k, match k with Windows => noted | _ => reported end) reported.

Lemma gate_sees : sees shop_moments gate_view.
Proof. split; [intros []|]; unfold shop_moments; first [left | right; left]. Qed.

Lemma noted_gated :
  gated init_registry (reading gate_view) (pod_of "api" "api-a" "n1") (shop_deployment "api") cordoned shop_policy (Some noted_window).
Proof.
  split; [vm_compute; reflexivity|]. split; [discriminate|]. split; [vm_compute; reflexivity|]. split; [vm_compute; reflexivity|].
  split; [vm_compute; reflexivity|]. split.
  { exists [shop_policy], ∅. split; [vm_compute; reflexivity|]. split; vm_compute; reflexivity. }
  split; [|split; vm_compute; reflexivity].
  assert (∃ f, FromSpec (psNodeFilter (polSpec shop_policy)) = Ok f) as [f Hf] by (eexists; vm_compute; reflexivity).
  exists f. split; [exact Hf|]. vm_compute in Hf. injection Hf as <-. vm_compute. reflexivity.
Qed.

(** With fresh caches it would deny. *)
Example shop_lags :
  rDecision <$> Evaluate init_registry (Some (pod_of "api" "api-a" "n1")) (reading gate_view) = Ok Allow
  ∧ rDecision <$> Evaluate init_registry (Some (pod_of "api" "api-a" "n1")) (reading (all_of reported)) = Ok Deny.
Proof. split; vm_compute; reflexivity. Qed.

Lemma interleaved_eviction_paid_witness : counted shop_moments shop_threads api_key ∨ overdue shop_moments shop_threads api_key.
Proof.
  assert (∃ r, Evaluate init_registry (Some (pod_of "api" "api-a" "n1")) (reading gate_view) = Ok r ∧ rDecision r = Allow) as (r & He & Hr)
    by (eexists; split; vm_compute; reflexivity).
  destruct (interleaved_eviction_paid init_registry true shop shop_threads shop_moments
              gate_view (pod_of "api" "api-a" "n1") (shop_deployment "api") cordoned shop_policy (Some noted_window) r) as (x & _ & _ & H).
  - intros k x H. vm_compute in H. discriminate H.
  - exact shop_interleaved.
  - exact gate_sees.
  - exact noted_gated.
  - exact He.
  - exact Hr.
  - exact H.
Defined.
